(** * node-mimer: the native binding between JavaScript and the Mimer SQL C API

    A shallow embedding of [src/helpers.cc], [src/statement.cc],
    [src/resultset.cc] and [src/connection.cc], and the properties of the
    resource-lifecycle and marshalling layer proved about it.

    - C++ [int], [int16_t], [size_t] values are [Z], with the conversions
      that can wrap written out ([to_int32], [to_int16]).
    - [std::string] and C strings are [string] (a sequence of 8-bit
      characters); raw buffers are [list byte].
    - A JavaScript number is an IEEE-754 double, represented exactly as a
      [spec_float] (sign, mantissa, binary exponent).
    - The Mimer engine is an external collaborator: every API call is
      answered by an [Engine], a function of the history of calls made so
      far, and is appended to that history (the trace).
    - C++ objects live in a store indexed by address; member functions
      take the address of [this] and thread the store. *)

From Stdlib Require Import ZArith String Ascii List Bool Lia.
From Stdlib Require Import Strings.Byte DecimalString.
From Stdlib Require Import SpecFloat.
From stdpp Require Import base option list gmap strings.

Local Open Scope string_scope.
Local Open Scope Z_scope.

(** ** Machine integers *)

Definition INT32_MIN : Z := - 2 ^ 31.
Definition INT32_MAX : Z := 2 ^ 31 - 1.
Definition INT64_MIN : Z := - 2 ^ 63.
Definition INT64_MAX : Z := 2 ^ 63 - 1.
Definition UINT32_MAX : Z := 2 ^ 32 - 1.

(** [static_cast<int>(u)] and [static_cast<int16_t>(i)]: reduction modulo
    the width, read back as a signed value. *)
Definition wrap_signed (bits : Z) (z : Z) : Z :=
  let m := 2 ^ bits in
  let r := z mod m in
  if r <? 2 ^ (bits - 1) then r else r - m.

Definition to_int32 (z : Z) : Z := wrap_signed 32 z.
Definition to_int16 (z : Z) : Z := wrap_signed 16 z.

(** Decimal rendering of an [int], as [operator<<] of a stream does. *)
Definition string_of_Z (z : Z) : string :=
  NilZero.string_of_int (Z.to_int z).

(** ** Doubles

    The value of a finite double is [(-1)^s * m * 2^e]. The operations of
    [<cmath>] and the comparisons used by the binder are exact in
    IEEE-754, so they are defined on that exact value. *)

Definition isfinite (x : spec_float) : bool :=
  match x with
  | S754_zero _ | S754_finite _ _ _ => true
  | S754_infinity _ | S754_nan => false
  end.

(** [std::trunc]: rounds toward zero; infinities, NaN and zeros are
    returned unchanged. *)
Definition trunc (x : spec_float) : spec_float :=
  match x with
  | S754_finite s m e =>
      if 0 <=? e then x
      else match Z.shiftr (Zpos m) (- e) with
           | Zpos m' => S754_finite s m' 0
           | _ => S754_zero s
           end
  | _ => x
  end.

(** The signed mantissa of a finite double rescaled to the exponent [e0],
    which must not exceed the double's own exponent. *)
Definition scaled (e0 : Z) (x : spec_float) : Z :=
  match x with
  | S754_finite s m e =>
      let v := Z.shiftl (Zpos m) (e - e0) in if s then - v else v
  | _ => 0
  end.

Definition exponent_of (x : spec_float) : Z :=
  match x with
  | S754_finite _ _ e => e
  | _ => 0
  end.

(** IEEE-754 comparison: [None] when unordered (a NaN operand). *)
Definition fcompare (x y : spec_float) : option comparison :=
  match x, y with
  | S754_nan, _ | _, S754_nan => None
  | S754_infinity sx, S754_infinity sy =>
      Some (match sx, sy with
            | true, false => Lt | false, true => Gt | _, _ => Eq end)
  | S754_infinity s, _ => Some (if s then Lt else Gt)
  | _, S754_infinity s => Some (if s then Gt else Lt)
  | _, _ =>
      let e0 := Z.min (exponent_of x) (exponent_of y) in
      Some (Z.compare (scaled e0 x) (scaled e0 y))
  end.

(** C++ [==], [>=], [<=] on doubles. *)
Definition feq (x y : spec_float) : bool :=
  match fcompare x y with Some Eq => true | _ => false end.
Definition fge (x y : spec_float) : bool :=
  match fcompare x y with Some Eq | Some Gt => true | _ => false end.
Definition fle (x y : spec_float) : bool :=
  match fcompare x y with Some Eq | Some Lt => true | _ => false end.

(** The implicit conversion of an [int] constant to [double] (exact). *)
Definition double_of_Z (z : Z) : spec_float :=
  match z with
  | Z0 => S754_zero false
  | Zpos p => S754_finite false p 0
  | Zneg p => S754_finite true p 0
  end.

(** The integer that [static_cast<int32_t>] / [static_cast<int64_t>]
    read from a double: the truncated value. *)
Definition Z_of_double (x : spec_float) : Z :=
  match x with
  | S754_finite s m e =>
      let v := if 0 <=? e then Z.shiftl (Zpos m) e
               else Z.shiftr (Zpos m) (- e) in
      if s then - v else v
  | _ => 0
  end.

(** [static_cast<int32_t>(num)] is only evaluated inside the 32-bit range,
    where it is exact. *)
Definition cast_int32 (x : spec_float) : Z := Z_of_double x.

(** [static_cast<int64_t>(num)]: exact inside the 64-bit range. Outside it
    the conversion has no defined result in C++; the value recorded here is
    the one the x86-64 conversion instruction yields, and no property below
    depends on it. *)
Definition cast_int64 (x : spec_float) : Z :=
  let z := Z_of_double x in
  if (INT64_MIN <=? z) && (z <=? INT64_MAX) then z else INT64_MIN.

(** ** JavaScript values and errors *)

(** The value of an [unsigned char]. *)
Definition byte_val (b : byte) : Z := Z.of_N (Byte.to_N b).

(** JavaScript values that cross the binding. Strings carry their UTF-8
    encoding, as [Utf8Value()] returns it. [JsStatement] and [JsResultSet]
    are the wrapped native objects, identified by the address of the C++
    instance. [JsOther] stands for every remaining kind of value (function,
    symbol, date, ...), told apart by a tag. *)
#[warnings="-register-all"]
Inductive JsValue :=
| JsUndefined
| JsNull
| JsBoolean (b : bool)
| JsNumber (d : spec_float)
| JsString (s : string)
| JsBuffer (data : list byte)
| JsArray (elems : list JsValue)
| JsObject (props : list (string * JsValue))
| JsStatement (p : positive)
| JsResultSet (p : positive)
| JsOther (tag : string).

(** [obj.Set(key, v)]: overwrite the property when present, else add it. *)
Fixpoint obj_set (key : string) (v : JsValue) (props : list (string * JsValue))
  : list (string * JsValue) :=
  match props with
  | [] => [(key, v)]
  | (k, x) :: rest =>
      if String.eqb k key then (k, v) :: rest else (k, x) :: obj_set key v rest
  end.

Fixpoint obj_get (key : string) (props : list (string * JsValue))
  : option JsValue :=
  match props with
  | [] => None
  | (k, x) :: rest => if String.eqb k key then Some x else obj_get key rest
  end.

(** The exceptions the binding raises. [MimerError] is the structured error
    of [ThrowMimerError]: an [Error] with the properties [mimerCode] and
    [operation]. *)
Inductive JsError :=
| Error (message : string)
| TypeError (message : string)
| MimerError (message : string) (mimerCode : Z) (operation : string).

(** What the JavaScript caller of a native method observes. *)
Inductive JsOutcome :=
| Returned (v : JsValue)
| Thrown (e : JsError).

(** ** The Mimer API header

    [mimerapi.h] belongs to the Mimer SDK, not to this repository: its
    constants and type-classification macros are parameters. *)
Class MimerApi := {
  MIMERNULLHANDLE : Z;
  MIMER_SUCCESS : Z;
  MIMER_STATEMENT_CANNOT_BE_PREPARED : Z;
  MIMER_FORWARD_ONLY : Z;
  MIMER_TRANS_READWRITE : Z;
  MIMER_COMMIT : Z;
  MIMER_ROLLBACK : Z;
  MIMER_CHARACTER : Z;
  MIMER_CHARACTER_VARYING : Z;
  MIMER_NCHAR : Z;
  MIMER_NCHAR_VARYING : Z;
  MIMER_UTF8 : Z;
  MIMER_DECIMAL : Z;
  MIMER_NUMERIC : Z;
  MIMER_INTEGER : Z;
  MIMER_UNSIGNED_INTEGER : Z;
  MIMER_T_INTEGER : Z;
  MIMER_T_UNSIGNED_INTEGER : Z;
  MIMER_T_SMALLINT : Z;
  MIMER_T_UNSIGNED_SMALLINT : Z;
  MIMER_T_BIGINT : Z;
  MIMER_T_UNSIGNED_BIGINT : Z;
  MIMER_FLOAT : Z;
  MIMER_T_FLOAT : Z;
  MIMER_T_REAL : Z;
  MIMER_T_DOUBLE : Z;
  MIMER_BOOLEAN : Z;
  MIMER_DATE : Z;
  MIMER_TIME : Z;
  MIMER_TIMESTAMP : Z;
  MIMER_BINARY : Z;
  MIMER_BINARY_VARYING : Z;
  MIMER_BLOB : Z;
  MIMER_CLOB : Z;
  MIMER_NCLOB : Z;
  MIMER_BLOB_LOCATOR : Z;
  MIMER_CLOB_LOCATOR : Z;
  MIMER_NCLOB_LOCATOR : Z;
  MIMER_NATIVE_SMALLINT : Z;
  MIMER_NATIVE_SMALLINT_NULLABLE : Z;
  MIMER_NATIVE_INTEGER : Z;
  MIMER_NATIVE_INTEGER_NULLABLE : Z;
  MIMER_NATIVE_BIGINT : Z;
  MIMER_NATIVE_BIGINT_NULLABLE : Z;
  MIMER_NATIVE_REAL : Z;
  MIMER_NATIVE_REAL_NULLABLE : Z;
  MIMER_NATIVE_DOUBLE : Z;
  MIMER_NATIVE_DOUBLE_NULLABLE : Z;
  MIMER_NATIVE_BLOB : Z;
  MIMER_NATIVE_BLOB_LOCATOR : Z;
  MIMER_NATIVE_CLOB : Z;
  MIMER_NATIVE_CLOB_LOCATOR : Z;
  MIMER_NATIVE_NCLOB : Z;
  MIMER_NATIVE_NCLOB_LOCATOR : Z;
  MIMER_UUID : Z;
  MIMER_INTERVAL_YEAR : Z;
  MIMER_INTERVAL_MINUTE_TO_SECOND : Z;
  MimerIsInt32 : Z -> bool;
  MimerIsInt64 : Z -> bool;
  MimerIsDouble : Z -> bool;
  MimerIsFloat : Z -> bool;
  MimerIsBoolean : Z -> bool;
  MimerIsBlob : Z -> bool;
  MimerIsNclob : Z -> bool;
  MimerIsBinary : Z -> bool;
}.

(** ** The engine

    One constructor per Mimer API function the binding calls, with the
    arguments that are passed by value. Output parameters come back in the
    [Reply]. *)
Inductive Call :=
| CallBeginSession8 (dsn user password : string)
| CallEndSession (session : Z)
| CallGetError8 (session : Z)
| CallBeginStatement8 (session : Z) (sql : string) (mode : Z)
| CallEndStatement (stmt : Z)
| CallExecuteStatement8 (session : Z) (sql : string)
| CallBeginTransaction (session : Z) (mode : Z)
| CallEndTransaction (session : Z) (op : Z)
| CallColumnCount (stmt : Z)
| CallColumnName8 (stmt : Z) (col : Z)
| CallColumnType (stmt : Z) (col : Z)
| CallParameterCount (stmt : Z)
| CallParameterType (stmt : Z) (idx : Z)
| CallOpenCursor (stmt : Z)
| CallCloseCursor (stmt : Z)
| CallFetch (stmt : Z)
| CallExecute (stmt : Z)
| CallSetNull (stmt : Z) (idx : Z)
| CallSetBoolean (stmt : Z) (idx : Z) (v : Z)
| CallSetInt32 (stmt : Z) (idx : Z) (v : Z)
| CallSetInt64 (stmt : Z) (idx : Z) (v : Z)
| CallSetDouble (stmt : Z) (idx : Z) (v : spec_float)
| CallSetString8 (stmt : Z) (idx : Z) (v : string)
| CallSetBinary (stmt : Z) (idx : Z) (v : list byte)
| CallSetLob (stmt : Z) (idx : Z) (size : Z)
| CallSetNclobData8 (lob : Z) (chunk : list byte)
| CallSetBlobData (lob : Z) (chunk : list byte)
| CallIsNull (stmt : Z) (col : Z)
| CallGetInt32 (stmt : Z) (col : Z)
| CallGetInt64 (stmt : Z) (col : Z)
| CallGetDouble (stmt : Z) (col : Z)
| CallGetFloat (stmt : Z) (col : Z)
| CallGetBoolean (stmt : Z) (col : Z)
| CallGetLob (stmt : Z) (col : Z)
| CallGetBlobData (lob : Z) (size : Z)
| CallGetNclobData8 (lob : Z) (size : Z)
| CallGetBinary (stmt : Z) (col : Z) (size : Z)
| CallGetString8 (stmt : Z) (col : Z) (size : Z).

(** What a call hands back: its return value [rc] and whatever it wrote
    through its output parameters (a handle, an integer or size, a double,
    bytes, a C string). A call reads only the fields it has. *)
Record Reply := mkReply {
  rc : Z;
  out_handle : Z;
  out_int : Z;
  out_double : spec_float;
  out_bytes : list byte;
  out_str : string;
}.

Definition Event : Type := Call * Reply.

(** The engine answers a call knowing every call made before it. *)
Definition Engine : Type := list Event -> Call -> Reply.

(** ** The object store *)

(** [class MimerConnection] ([connection.h]). [session_ = MIMERNULLHANDLE]
    is [nullptr]; the two [std::set]s hold addresses. *)
Record MimerConnection := mkConnection {
  session_ : Z;
  connected_ : bool;
  openStatements_ : gset positive;
  openResultSets_ : gset positive;
}.

(** [class MimerStmtWrapper] ([statement.h]). *)
Record MimerStmtWrapper := mkStmt {
  stmt_ : Z;
  columnCount_ : Z;
  closed_ : bool;
  parentConnection_ : option positive;
}.

(** [class MimerResultSetWrapper] ([resultset.h]); its members carry the
    prefix [rs_] where the statement wrapper has a member of that name. *)
Record MimerResultSetWrapper := mkResultSet {
  rs_stmt_ : Z;
  rs_columnCount_ : Z;
  colNames_ : list string;
  colTypes_ : list Z;
  rs_closed_ : bool;
  exhausted_ : bool;
  rs_parentConnection_ : option positive;
}.

(** The state a native call runs in: the engine's history, the pending
    JavaScript exception of the [Napi::Env], and the live C++ objects. *)
Record World := mkWorld {
  trace : list Event;
  pending : option JsError;
  connections : gmap positive MimerConnection;
  statements : gmap positive MimerStmtWrapper;
  resultsets : gmap positive MimerResultSetWrapper;
}.

Definition set_trace (t : list Event) (w : World) : World :=
  mkWorld t (pending w) (connections w) (statements w) (resultsets w).
Definition set_pending (p : option JsError) (w : World) : World :=
  mkWorld (trace w) p (connections w) (statements w) (resultsets w).
Definition set_connections (c : gmap positive MimerConnection) (w : World)
  : World :=
  mkWorld (trace w) (pending w) c (statements w) (resultsets w).
Definition set_statements (s : gmap positive MimerStmtWrapper) (w : World)
  : World :=
  mkWorld (trace w) (pending w) (connections w) s (resultsets w).
Definition set_resultsets (r : gmap positive MimerResultSetWrapper)
  (w : World) : World :=
  mkWorld (trace w) (pending w) (connections w) (statements w) r.

(** ** The monad of native code

    A computation maps a world to a result and a new world. [None] means
    the C++ program has no result: it dereferences an address that holds
    no live object, or a loop has exceeded the iteration budget [fuel]. *)
Definition M (A : Type) : Type := World -> option (A * World).

#[global] Instance M_ret : MRet M := fun A a w => Some (a, w).
#[global] Instance M_bind : MBind M := fun A B f m w =>
  match m w with
  | Some (a, w') => f a w'
  | None => None
  end.

Definition no_result {A} : M A := fun _ => None.
Definition skip : M unit := fun w => Some (tt, w).
Definition get_world : M World := fun w => Some (w, w).
Definition modify_world (f : World -> World) : M unit :=
  fun w => Some (tt, f w).

(** Run [body] on every element, in order. *)
Fixpoint for_each {A} (body : A -> M unit) (l : list A) : M unit :=
  match l with
  | [] => mret tt
  | x :: rest => body x ;; for_each body rest
  end.

(** Run [body] on every element and collect the results. *)
Fixpoint for_collect {A B} (body : A -> M B) (l : list A) : M (list B) :=
  match l with
  | [] => mret []
  | x :: rest => y ← body x; ys ← for_collect body rest; mret (y :: ys)
  end.

(** Binary64 parameters, for the one conversion that rounds. *)
Definition prec64 : Z := 53.
Definition emax64 : Z := 1024.

(** [Napi::Number::New(env, i)] for an [int] or [int32_t]: exact. *)
Definition double_of_int : Z -> spec_float := double_of_Z.

(** [static_cast<double>(value)] for an [int64_t]: round to nearest. *)
Definition double_of_int64 (z : Z) : spec_float :=
  binary_normalize prec64 emax64 z 0 false.

(** ** helpers.cc *)

Definition LOB_READ_CHUNK : Z := 65536.
Definition LOB_WRITE_CHUNK : Z := 2 * 1024 * 1024.

(** [s[i]] as an [unsigned char]. *)
Definition byte_at (s : list byte) (i : Z) : Z :=
  byte_val (nth (Z.to_nat i) s x00).

(** The bytes [data + offset .. data + offset + len). *)
Definition slice (data : list byte) (offset len : Z) : list byte :=
  take (Z.to_nat len) (drop (Z.to_nat offset) data).

(** The number of bytes the lead byte [c] announces, as [Utf8CharCount]
    reads it. *)
Definition utf8_step (c : Z) : Z :=
  if c <? 128 then 1
  else if Z.land c 224 =? 192 then 2
  else if Z.land c 240 =? 224 then 3
  else 4.

Fixpoint Utf8CharCount_loop (n : nat) (s : list byte) (byteLen i count : Z)
  : Z :=
  match n with
  | O => count
  | S n' =>
      if i <? byteLen
      then Utf8CharCount_loop n' s byteLen (i + utf8_step (byte_at s i))
             (count + 1)
      else count
  end.

(** [Utf8CharCount(s, byteLen)]. The index grows by at least one per
    iteration, so [byteLen] iterations are enough. *)
Definition Utf8CharCount (s : list byte) (byteLen : Z) : Z :=
  Utf8CharCount_loop (Z.to_nat byteLen) s byteLen 0 0.

(** [(data[offset + chunk] & 0xC0) == 0x80]: a UTF-8 continuation byte. *)
Definition is_continuation (c : Z) : bool := Z.land c 192 =? 128.

(** The inner loop of the character-LOB writer:
    [while (chunk > 0 && chunk < remaining && continuation) chunk--]. *)
Fixpoint shrink_chunk (n : nat) (data : list byte) (offset remaining chunk : Z)
  : Z :=
  match n with
  | O => chunk
  | S n' =>
      if (0 <? chunk) && (chunk <? remaining)
         && is_continuation (byte_at data (offset + chunk))
      then shrink_chunk n' data offset remaining (chunk - 1)
      else chunk
  end.

(** The calls [close()] and [invalidate()] of an entity. *)
Inductive LifecycleCall := DoClose | DoInvalidate.

(** The steps of a program that uses the binding. *)
Inductive Op :=
| OpNewConnection
| OpConnect (c : positive) (info : list JsValue)
| OpClose (c : positive)
| OpExecute (c : positive) (info : list JsValue)
| OpBeginTransaction (c : positive)
| OpCommit (c : positive)
| OpRollback (c : positive)
| OpIsConnected (c : positive)
| OpPrepare (c : positive) (info : list JsValue)
| OpExecuteQuery (c : positive) (info : list JsValue)
| OpDeleteConnection (c : positive)
| OpStmtExecute (s : positive) (info : list JsValue)
| OpStmtClose (s : positive)
| OpDeleteStatement (s : positive)
| OpFetchNext (r : positive)
| OpGetFields (r : positive)
| OpRsClose (r : positive)
| OpIsClosed (r : positive)
| OpDeleteResultSet (r : positive).

Section Binding.

Context {api : MimerApi}.
Variable eng : Engine.
Variable fuel : nat.

(** [val.ToString().Utf8Value()], the string conversion of the JavaScript
    runtime. *)
Variable ToString : JsValue -> string.

(** *** The Mimer API, as the binding calls it *)

Definition engine_call (c : Call) : M Reply :=
  fun w =>
    let r := eng (trace w) c in
    Some (r, set_trace (trace w ++ [(c, r)]) w).

Definition MimerBeginSession8 (dsn user password : string) : M (Z * Z) :=
  r ← engine_call (CallBeginSession8 dsn user password);
  mret (rc r, out_handle r).
Definition MimerEndSession (session : Z) : M (Z * Z) :=
  r ← engine_call (CallEndSession session); mret (rc r, out_handle r).
Definition MimerGetError8 (session : Z) : M (Z * string) :=
  r ← engine_call (CallGetError8 session); mret (rc r, out_str r).
Definition MimerBeginStatement8 (session : Z) (sql : string) (mode : Z)
  : M (Z * Z) :=
  r ← engine_call (CallBeginStatement8 session sql mode);
  mret (rc r, out_handle r).
Definition MimerEndStatement (stmt : Z) : M (Z * Z) :=
  r ← engine_call (CallEndStatement stmt); mret (rc r, out_handle r).
Definition MimerExecuteStatement8 (session : Z) (sql : string) : M Z :=
  r ← engine_call (CallExecuteStatement8 session sql); mret (rc r).
Definition MimerBeginTransaction (session mode : Z) : M Z :=
  r ← engine_call (CallBeginTransaction session mode); mret (rc r).
Definition MimerEndTransaction (session op : Z) : M Z :=
  r ← engine_call (CallEndTransaction session op); mret (rc r).
Definition MimerColumnCount (stmt : Z) : M Z :=
  r ← engine_call (CallColumnCount stmt); mret (rc r).
Definition MimerColumnName8 (stmt col : Z) : M (Z * string) :=
  r ← engine_call (CallColumnName8 stmt col); mret (rc r, out_str r).
Definition MimerColumnType (stmt col : Z) : M Z :=
  r ← engine_call (CallColumnType stmt col); mret (rc r).
Definition MimerParameterCount (stmt : Z) : M Z :=
  r ← engine_call (CallParameterCount stmt); mret (rc r).
Definition MimerParameterType (stmt idx : Z) : M Z :=
  r ← engine_call (CallParameterType stmt idx); mret (rc r).
Definition MimerOpenCursor (stmt : Z) : M Z :=
  r ← engine_call (CallOpenCursor stmt); mret (rc r).
Definition MimerCloseCursor (stmt : Z) : M Z :=
  r ← engine_call (CallCloseCursor stmt); mret (rc r).
Definition MimerFetch (stmt : Z) : M Z :=
  r ← engine_call (CallFetch stmt); mret (rc r).
Definition MimerExecute (stmt : Z) : M Z :=
  r ← engine_call (CallExecute stmt); mret (rc r).
Definition MimerSetNull (stmt idx : Z) : M Z :=
  r ← engine_call (CallSetNull stmt idx); mret (rc r).
Definition MimerSetBoolean (stmt idx v : Z) : M Z :=
  r ← engine_call (CallSetBoolean stmt idx v); mret (rc r).
Definition MimerSetInt32 (stmt idx v : Z) : M Z :=
  r ← engine_call (CallSetInt32 stmt idx v); mret (rc r).
Definition MimerSetInt64 (stmt idx v : Z) : M Z :=
  r ← engine_call (CallSetInt64 stmt idx v); mret (rc r).
Definition MimerSetDouble (stmt idx : Z) (v : spec_float) : M Z :=
  r ← engine_call (CallSetDouble stmt idx v); mret (rc r).
Definition MimerSetString8 (stmt idx : Z) (v : string) : M Z :=
  r ← engine_call (CallSetString8 stmt idx v); mret (rc r).
Definition MimerSetBinary (stmt idx : Z) (v : list byte) : M Z :=
  r ← engine_call (CallSetBinary stmt idx v); mret (rc r).
Definition MimerSetLob (stmt idx size : Z) : M (Z * Z) :=
  r ← engine_call (CallSetLob stmt idx size); mret (rc r, out_handle r).
Definition MimerSetNclobData8 (lob : Z) (chunk : list byte) : M Z :=
  r ← engine_call (CallSetNclobData8 lob chunk); mret (rc r).
Definition MimerSetBlobData (lob : Z) (chunk : list byte) : M Z :=
  r ← engine_call (CallSetBlobData lob chunk); mret (rc r).
Definition MimerIsNull (stmt col : Z) : M Z :=
  r ← engine_call (CallIsNull stmt col); mret (rc r).
Definition MimerGetInt32 (stmt col : Z) : M (Z * Z) :=
  r ← engine_call (CallGetInt32 stmt col); mret (rc r, out_int r).
Definition MimerGetInt64 (stmt col : Z) : M (Z * Z) :=
  r ← engine_call (CallGetInt64 stmt col); mret (rc r, out_int r).
Definition MimerGetDouble (stmt col : Z) : M (Z * spec_float) :=
  r ← engine_call (CallGetDouble stmt col); mret (rc r, out_double r).
Definition MimerGetFloat (stmt col : Z) : M (Z * spec_float) :=
  r ← engine_call (CallGetFloat stmt col); mret (rc r, out_double r).
Definition MimerGetBoolean (stmt col : Z) : M Z :=
  r ← engine_call (CallGetBoolean stmt col); mret (rc r).
Definition MimerGetLob (stmt col : Z) : M (Z * Z * Z) :=
  r ← engine_call (CallGetLob stmt col); mret (rc r, out_int r, out_handle r).
Definition MimerGetBlobData (lob size : Z) : M (Z * list byte) :=
  r ← engine_call (CallGetBlobData lob size); mret (rc r, out_bytes r).
Definition MimerGetNclobData8 (lob size : Z) : M (Z * string) :=
  r ← engine_call (CallGetNclobData8 lob size); mret (rc r, out_str r).
Definition MimerGetBinary (stmt col size : Z) : M (Z * list byte) :=
  r ← engine_call (CallGetBinary stmt col size); mret (rc r, out_bytes r).
Definition MimerGetString8 (stmt col size : Z) : M (Z * string) :=
  r ← engine_call (CallGetString8 stmt col size); mret (rc r, out_str r).

(** *** The environment's pending exception *)

(** [error.ThrowAsJavaScriptException()]: the exception becomes pending;
    the native code keeps running. *)
Definition ThrowAsJavaScriptException (e : JsError) : M unit :=
  modify_world (fun w =>
    match pending w with
    | None => set_pending (Some e) w
    | Some _ => w
    end).

Definition IsExceptionPending : M bool :=
  w ← get_world;
  mret (match pending w with Some _ => true | None => false end).

(** [ThrowMimerError(env, rc, operation, detail)]. *)
Definition mimer_error_message (code : Z) (operation detail : string)
  : string :=
  if String.eqb detail ""
  then operation ++ " failed (code: " ++ string_of_Z code ++ ")"
  else operation ++ " failed: " ++ detail
       ++ " (code: " ++ string_of_Z code ++ ")".

Definition ThrowMimerError (code : Z) (operation detail : string) : M unit :=
  ThrowAsJavaScriptException
    (MimerError (mimer_error_message code operation detail) code operation).

(** *** Type names *)

(** The [case] labels of [MimerTypeName], in source order. *)
Definition type_name_table : list (Z * string) :=
  [ (MIMER_CHARACTER, "CHARACTER");
    (MIMER_CHARACTER_VARYING, "CHARACTER VARYING");
    (MIMER_NCHAR, "NCHAR");
    (MIMER_NCHAR_VARYING, "NCHAR VARYING");
    (MIMER_UTF8, "NVARCHAR");
    (MIMER_DECIMAL, "DECIMAL");
    (MIMER_NUMERIC, "NUMERIC");
    (MIMER_INTEGER, "INTEGER");
    (MIMER_UNSIGNED_INTEGER, "INTEGER");
    (MIMER_T_INTEGER, "INTEGER");
    (MIMER_T_UNSIGNED_INTEGER, "INTEGER");
    (MIMER_T_SMALLINT, "SMALLINT");
    (MIMER_T_UNSIGNED_SMALLINT, "SMALLINT");
    (MIMER_T_BIGINT, "BIGINT");
    (MIMER_T_UNSIGNED_BIGINT, "BIGINT");
    (MIMER_FLOAT, "FLOAT");
    (MIMER_T_FLOAT, "FLOAT");
    (MIMER_T_REAL, "REAL");
    (MIMER_T_DOUBLE, "DOUBLE PRECISION");
    (MIMER_BOOLEAN, "BOOLEAN");
    (MIMER_DATE, "DATE");
    (MIMER_TIME, "TIME");
    (MIMER_TIMESTAMP, "TIMESTAMP");
    (MIMER_BINARY, "BINARY");
    (MIMER_BINARY_VARYING, "BINARY VARYING");
    (MIMER_BLOB, "BLOB");
    (MIMER_CLOB, "CLOB");
    (MIMER_NCLOB, "NCLOB");
    (MIMER_BLOB_LOCATOR, "BLOB");
    (MIMER_CLOB_LOCATOR, "CLOB");
    (MIMER_NCLOB_LOCATOR, "NCLOB");
    (MIMER_NATIVE_SMALLINT, "SMALLINT");
    (MIMER_NATIVE_SMALLINT_NULLABLE, "SMALLINT");
    (MIMER_NATIVE_INTEGER, "INTEGER");
    (MIMER_NATIVE_INTEGER_NULLABLE, "INTEGER");
    (MIMER_NATIVE_BIGINT, "BIGINT");
    (MIMER_NATIVE_BIGINT_NULLABLE, "BIGINT");
    (MIMER_NATIVE_REAL, "REAL");
    (MIMER_NATIVE_REAL_NULLABLE, "REAL");
    (MIMER_NATIVE_DOUBLE, "DOUBLE PRECISION");
    (MIMER_NATIVE_DOUBLE_NULLABLE, "DOUBLE PRECISION");
    (MIMER_NATIVE_BLOB, "BLOB");
    (MIMER_NATIVE_BLOB_LOCATOR, "BLOB");
    (MIMER_NATIVE_CLOB, "CLOB");
    (MIMER_NATIVE_CLOB_LOCATOR, "CLOB");
    (MIMER_NATIVE_NCLOB, "NCLOB");
    (MIMER_NATIVE_NCLOB_LOCATOR, "NCLOB");
    (MIMER_UUID, "UUID") ].

Fixpoint switch_lookup (code : Z) (table : list (Z * string))
  : option string :=
  match table with
  | [] => None
  | (label, name) :: rest =>
      if code =? label then Some name else switch_lookup code rest
  end.

(** [MimerTypeName(absType)]: the labelled cases, then the [default]. *)
Definition MimerTypeName (absType : Z) : string :=
  match switch_lookup absType type_name_table with
  | Some name => name
  | None =>
      if (MIMER_INTERVAL_YEAR <=? absType)
         && (absType <=? MIMER_INTERVAL_MINUTE_TO_SECOND)
      then "INTERVAL"
      else "UNKNOWN"
  end.

(** *** Column metadata *)

(** The nullability rule of [BuildFieldsArray]. *)
Definition column_nullable (rawType : Z) : bool :=
  let absType := if rawType <? 0 then - rawType else rawType in
  if rawType <? 0 then true
  else if (absType =? MIMER_NATIVE_SMALLINT_NULLABLE)
          || (absType =? MIMER_NATIVE_INTEGER_NULLABLE)
          || (absType =? MIMER_NATIVE_BIGINT_NULLABLE)
          || (absType =? MIMER_NATIVE_REAL_NULLABLE)
          || (absType =? MIMER_NATIVE_DOUBLE_NULLABLE)
  then true
  else false.

(** One iteration of the loop of [BuildFieldsArray]: the field object of
    column [col]. *)
Definition build_field (stmt col : Z) : M JsValue :=
  '(_, nameBuf) ← MimerColumnName8 stmt (to_int16 col);
  rawType ← MimerColumnType stmt (to_int16 col);
  let absType := if rawType <? 0 then - rawType else rawType in
  mret (JsObject
          [ ("name", JsString nameBuf);
            ("dataTypeCode", JsNumber (double_of_int rawType));
            ("dataTypeName", JsString (MimerTypeName absType));
            ("nullable", JsBoolean (column_nullable rawType)) ]).

(** [BuildFieldsArray(env, stmt, columnCount)]: columns [1..columnCount]. *)
Definition BuildFieldsArray (stmt columnCount : Z) : M JsValue :=
  fields ← for_collect (build_field stmt) (seqZ 1 columnCount);
  mret (JsArray fields).

(** [CacheColumnMetadata(stmt, columnCount, colNames, colTypes)]. *)
Definition cache_column (stmt col : Z) : M (string * Z) :=
  '(_, colNameBuf) ← MimerColumnName8 stmt (to_int16 col);
  ty ← MimerColumnType stmt (to_int16 col);
  mret (colNameBuf, ty).

Definition CacheColumnMetadata (stmt columnCount : Z)
  : M (list string * list Z) :=
  cols ← for_collect (cache_column stmt) (seqZ 1 columnCount);
  mret (cols.*1, cols.*2).

(** *** Binding parameters *)

(** The chunking loop of the character-LOB writer, for a chunk limit
    [limit] ([LOB_WRITE_CHUNK] in the source). It returns the last [rc]. *)
Fixpoint nclob_write_loop (limit : Z) (n : nat) (lobHandle : Z)
    (data : list byte) (remaining offset : Z) (rc0 : Z) : M Z :=
  if (0 <? remaining) && (0 <=? rc0) then
    match n with
    | O => no_result
    | S n' =>
        let chunk0 := if remaining <? limit then remaining else limit in
        let chunk :=
          shrink_chunk (Z.to_nat chunk0) data offset remaining chunk0 in
        rc1 ← MimerSetNclobData8 lobHandle (slice data offset chunk);
        nclob_write_loop limit n' lobHandle data
          (remaining - chunk) (offset + chunk) rc1
    end
  else mret rc0.

(** The chunking loop of the binary-LOB writer. Every iteration consumes at
    least one byte. *)
Fixpoint blob_write_loop (n : nat) (lobHandle : Z) (data : list byte)
    (remaining offset : Z) (rc0 : Z) : M Z :=
  if (0 <? remaining) && (0 <=? rc0) then
    match n with
    | O => no_result
    | S n' =>
        let chunk :=
          if remaining <? LOB_WRITE_CHUNK then remaining
          else LOB_WRITE_CHUNK in
        rc1 ← MimerSetBlobData lobHandle (slice data offset chunk);
        blob_write_loop n' lobHandle data
          (remaining - chunk) (offset + chunk) rc1
    end
  else mret rc0.

(** The call chosen for a number ([val.IsNumber()]). *)
Definition bind_number (stmt paramIndex : Z) (num : spec_float) : M Z :=
  if feq (trunc num) num && isfinite num then
    if fge num (double_of_Z INT32_MIN) && fle num (double_of_Z INT32_MAX)
    then MimerSetInt32 stmt paramIndex (cast_int32 num)
    else MimerSetInt64 stmt paramIndex (cast_int64 num)
  else MimerSetDouble stmt paramIndex num.

(** The call chosen for a string ([val.IsString()]). *)
Definition bind_string (stmt paramIndex : Z) (str : string) : M Z :=
  ptype ← MimerParameterType stmt paramIndex;
  if MimerIsNclob ptype then
    let data := list_byte_of_string str in
    let size := Z.of_nat (length data) in
    let charCount := Utf8CharCount data size in
    '(rc0, lobHandle) ← MimerSetLob stmt paramIndex charCount;
    if rc0 =? 0
    then nclob_write_loop LOB_WRITE_CHUNK fuel lobHandle data size 0 rc0
    else mret rc0
  else MimerSetString8 stmt paramIndex str.

(** The call chosen for a buffer ([val.IsBuffer()]). *)
Definition bind_buffer (stmt paramIndex : Z) (buf : list byte) : M Z :=
  ptype ← MimerParameterType stmt paramIndex;
  if MimerIsBlob ptype then
    let size := Z.of_nat (length buf) in
    '(rc0, lobHandle) ← MimerSetLob stmt paramIndex size;
    if rc0 =? 0
    then blob_write_loop (length buf) lobHandle buf size 0 rc0
    else mret rc0
  else MimerSetBinary stmt paramIndex buf.

(** The dispatch on the kind of [val] in the loop of [BindParameters]; the
    last case is the string fallback. *)
Definition bind_value (stmt paramIndex : Z) (val : JsValue) : M Z :=
  match val with
  | JsNull | JsUndefined => MimerSetNull stmt paramIndex
  | JsBoolean b => MimerSetBoolean stmt paramIndex (if b then 1 else 0)
  | JsNumber num => bind_number stmt paramIndex num
  | JsString str => bind_string stmt paramIndex str
  | JsBuffer buf => bind_buffer stmt paramIndex buf
  | JsArray _ | JsObject _ | JsStatement _ | JsResultSet _ | JsOther _ =>
      MimerSetString8 stmt paramIndex (ToString val)
  end.

(** The loop of [BindParameters] over the indices [i]. *)
Fixpoint bind_loop (stmt : Z) (params : list JsValue) (indices : list Z)
  : M unit :=
  match indices with
  | [] => mret tt
  | i :: rest =>
      let paramIndex := to_int16 (i + 1) in
      let val := nth (Z.to_nat i) params JsUndefined in
      rc1 ← bind_value stmt paramIndex val;
      if rc1 <? 0 then
        ThrowMimerError rc1 "BindParameters"
          ("failed to bind parameter " ++ string_of_Z (i + 1))
      else bind_loop stmt params rest
  end.

(** [BindParameters(env, stmt, params)]. *)
Definition BindParameters (stmt : Z) (params : list JsValue) : M unit :=
  paramCount ← MimerParameterCount stmt;
  let providedCount := to_int32 (Z.of_nat (length params)) in
  if negb (providedCount =? paramCount) then
    ThrowMimerError 0 "BindParameters"
      ("statement expects " ++ string_of_Z paramCount
       ++ " but " ++ string_of_Z providedCount ++ " were provided")
  else bind_loop stmt params (seqZ 0 providedCount).

(** *** Marshalling rows *)

(** The read loop of a binary LOB: [buf] holds the bytes read so far. The
    engine fills [chunk] bytes per call; what it leaves unwritten is
    indeterminate and shown as zero bytes. *)
Fixpoint blob_read_loop (n : nat) (lobHandle : Z) (remaining : Z)
    (buf : list byte) (rc0 : Z) : M (Z * list byte) :=
  if 0 <? remaining then
    match n with
    | O => no_result
    | S n' =>
        let chunk :=
          if remaining <? LOB_READ_CHUNK then remaining else LOB_READ_CHUNK in
        '(rc1, bytes) ← MimerGetBlobData lobHandle chunk;
        if rc1 <? 0 then mret (rc1, buf)
        else blob_read_loop n' lobHandle (remaining - chunk)
               (buf ++ resize (Z.to_nat chunk) x00 bytes) rc1
    end
  else mret (rc0, buf).

(** The read loop of a character LOB:
    [do { rc = MimerGetNclobData8(..); if (rc < 0) break; append } while (rc > 0)]. *)
Fixpoint nclob_read_loop (n : nat) (lobHandle : Z) (result : string)
  : M (Z * string) :=
  match n with
  | O => no_result
  | S n' =>
      '(rc1, chunkBuf) ← MimerGetNclobData8 lobHandle (LOB_READ_CHUNK + 1);
      if rc1 <? 0 then mret (rc1, result)
      else
        let result' := result ++ chunkBuf in
        if 0 <? rc1 then nclob_read_loop n' lobHandle result'
        else mret (rc1, result')
  end.

(** One iteration of the column loop of [FetchSingleRow]: [row] is the
    object built so far. *)
Definition fetch_column (stmt col : Z) (colName : string) (colType : Z)
    (row : list (string * JsValue)) : M (list (string * JsValue)) :=
  isnull ← MimerIsNull stmt (to_int16 col);
  if 0 <? isnull then mret (obj_set colName JsNull row)
  else if MimerIsInt32 colType then
    '(rc1, value) ← MimerGetInt32 stmt (to_int16 col);
    mret (if rc1 =? 0
          then obj_set colName (JsNumber (double_of_int value)) row
          else row)
  else if MimerIsInt64 colType then
    '(rc1, value) ← MimerGetInt64 stmt (to_int16 col);
    mret (if rc1 =? 0
          then obj_set colName (JsNumber (double_of_int64 value)) row
          else row)
  else if MimerIsDouble colType then
    '(rc1, value) ← MimerGetDouble stmt (to_int16 col);
    mret (if rc1 =? 0 then obj_set colName (JsNumber value) row else row)
  else if MimerIsFloat colType then
    '(rc1, value) ← MimerGetFloat stmt (to_int16 col);
    mret (if rc1 =? 0 then obj_set colName (JsNumber value) row else row)
  else if MimerIsBoolean colType then
    value ← MimerGetBoolean stmt (to_int16 col);
    mret (obj_set colName (JsBoolean (0 <? value)) row)
  else if MimerIsBlob colType then
    '(rc1, lobSize, lobHandle) ← MimerGetLob stmt (to_int16 col);
    if (rc1 =? 0) && (0 <? lobSize) then
      '(rc2, buf) ← blob_read_loop (Z.to_nat (lobSize / LOB_READ_CHUNK) + 1)
                      lobHandle lobSize [] rc1;
      mret (if 0 <=? rc2
            then obj_set colName
                   (JsBuffer (resize (Z.to_nat lobSize) x00 buf)) row
            else row)
    else if rc1 =? 0 then mret (obj_set colName (JsBuffer []) row)
    else mret row
  else if MimerIsNclob colType then
    '(rc1, charCount, lobHandle) ← MimerGetLob stmt (to_int16 col);
    if (rc1 =? 0) && (0 <? charCount) then
      '(rc2, result) ← nclob_read_loop fuel lobHandle "";
      mret (if 0 <=? rc2 then obj_set colName (JsString result) row else row)
    else if rc1 =? 0 then mret (obj_set colName (JsString "") row)
    else mret row
  else if MimerIsBinary colType then
    '(size, _) ← MimerGetBinary stmt (to_int16 col) 0;
    if 0 <? size then
      '(rc1, buffer) ← MimerGetBinary stmt (to_int16 col) size;
      mret (if 0 <=? rc1
            then obj_set colName
                   (JsBuffer (resize (Z.to_nat size) x00 buffer)) row
            else row)
    else mret (obj_set colName (JsBuffer []) row)
  else
    '(size, buf) ← MimerGetString8 stmt (to_int16 col) 256;
    if (0 <? size) && (size <? 256) then
      mret (obj_set colName (JsString buf) row)
    else if 256 <=? size then
      '(rc1, buffer) ← MimerGetString8 stmt (to_int16 col) (size + 1);
      mret (if 0 <=? rc1 then obj_set colName (JsString buffer) row else row)
    else mret (obj_set colName (JsString "") row).

(** The column loop of [FetchSingleRow]. [colNames[col - 1]] and
    [colTypes[col - 1]] index vectors: outside them there is no result. *)
Fixpoint fetch_columns (stmt : Z) (colNames : list string) (colTypes : list Z)
    (cols : list Z) (row : list (string * JsValue))
  : M (list (string * JsValue)) :=
  match cols with
  | [] => mret row
  | col :: rest =>
      match colNames !! Z.to_nat (col - 1), colTypes !! Z.to_nat (col - 1) with
      | Some colName, Some colType =>
          row' ← fetch_column stmt col colName colType row;
          fetch_columns stmt colNames colTypes rest row'
      | _, _ => no_result
      end
  end.

(** [FetchSingleRow(env, stmt, columnCount, colNames, colTypes)]. *)
Definition FetchSingleRow (stmt columnCount : Z) (colNames : list string)
    (colTypes : list Z) : M JsValue :=
  row ← fetch_columns stmt colNames colTypes (seqZ 1 columnCount) [];
  mret (JsObject row).

(** The loop of [FetchResults]:
    [while (MimerFetch(stmt) == MIMER_SUCCESS) rows.Set(rowIndex++, row)]. *)
Fixpoint fetch_loop (n : nat) (stmt columnCount : Z) (colNames : list string)
    (colTypes : list Z) (rows : list JsValue) : M (list JsValue) :=
  match n with
  | O => no_result
  | S n' =>
      rc1 ← MimerFetch stmt;
      if rc1 =? MIMER_SUCCESS then
        row ← FetchSingleRow stmt columnCount colNames colTypes;
        fetch_loop n' stmt columnCount colNames colTypes (rows ++ [row])
      else mret rows
  end.

(** [FetchResults(env, stmt, columnCount)]. *)
Definition FetchResults (stmt columnCount : Z) : M (list JsValue) :=
  '(colNames, colTypes) ← CacheColumnMetadata stmt columnCount;
  fetch_loop fuel stmt columnCount colNames colTypes [].

(** *** Objects *)

Definition get_conn (p : positive) : M MimerConnection :=
  fun w => match connections w !! p with
           | Some c => Some (c, w)
           | None => None
           end.
Definition put_conn (p : positive) (c : MimerConnection) : M unit :=
  modify_world (fun w => set_connections (<[p := c]> (connections w)) w).

Definition get_stmt (p : positive) : M MimerStmtWrapper :=
  fun w => match statements w !! p with
           | Some s => Some (s, w)
           | None => None
           end.
Definition put_stmt (p : positive) (s : MimerStmtWrapper) : M unit :=
  modify_world (fun w => set_statements (<[p := s]> (statements w)) w).

Definition get_rs (p : positive) : M MimerResultSetWrapper :=
  fun w => match resultsets w !! p with
           | Some r => Some (r, w)
           | None => None
           end.
Definition put_rs (p : positive) (r : MimerResultSetWrapper) : M unit :=
  modify_world (fun w => set_resultsets (<[p := r]> (resultsets w)) w).

(** The optional parameter array of [execute] and [executeQuery]:
    [info.Length() > k && info[k].IsArray() && array.Length() > 0]. *)
Definition array_argument (arg : option JsValue) : option (list JsValue) :=
  match arg with
  | Some (JsArray (x :: rest)) => Some (x :: rest)
  | _ => None
  end.

(** What JavaScript sees of a native method: the pending exception, when
    there is one, is thrown in place of the return value. *)
Definition js_invoke (body : M JsValue) : M JsOutcome :=
  v ← body;
  w ← get_world;
  match pending w with
  | Some e => modify_world (set_pending None) ;; mret (Thrown e)
  | None => mret (Returned v)
  end.

(** *** connection.cc: the registries *)

Definition MimerConnection_RegisterStatement (this stmt : positive) : M unit :=
  c ← get_conn this;
  put_conn this (mkConnection (session_ c) (connected_ c)
                   ({[stmt]} ∪ openStatements_ c) (openResultSets_ c)).

Definition MimerConnection_UnregisterStatement (this stmt : positive)
  : M unit :=
  c ← get_conn this;
  put_conn this (mkConnection (session_ c) (connected_ c)
                   (openStatements_ c ∖ {[stmt]}) (openResultSets_ c)).

Definition MimerConnection_RegisterResultSet (this rs : positive) : M unit :=
  c ← get_conn this;
  put_conn this (mkConnection (session_ c) (connected_ c)
                   (openStatements_ c) ({[rs]} ∪ openResultSets_ c)).

Definition MimerConnection_UnregisterResultSet (this rs : positive)
  : M unit :=
  c ← get_conn this;
  put_conn this (mkConnection (session_ c) (connected_ c)
                   (openStatements_ c) (openResultSets_ c ∖ {[rs]})).

(** *** statement.cc *)

(** The constructor as [NewInstance] runs it, on the fresh instance at
    [this]. *)
Definition MimerStmtWrapper_new (this : positive) (session : Z) (sql : string)
  : M unit :=
  put_stmt this (mkStmt MIMERNULLHANDLE 0 false None) ;;
  '(rc1, h) ← MimerBeginStatement8 session sql MIMER_FORWARD_ONLY;
  put_stmt this (mkStmt h 0 false None) ;;
  if rc1 <? 0 then ThrowMimerError rc1 "MimerBeginStatement8" ""
  else
    n ← MimerColumnCount h;
    put_stmt this (mkStmt h n false None).

Definition MimerStmtWrapper_SetParentConnection (this conn : positive)
  : M unit :=
  s ← get_stmt this;
  put_stmt this (mkStmt (stmt_ s) (columnCount_ s) (closed_ s) (Some conn)).

(** [if (!closed_ && stmt_ != MIMERNULLHANDLE) MimerEndStatement(&stmt_)]:
    the shared first step of [Invalidate], [CloseInternal] and the
    destructor. It returns whether the handle was ended. *)
Definition stmt_release (this : positive) : M bool :=
  s ← get_stmt this;
  if negb (closed_ s) && negb (stmt_ s =? MIMERNULLHANDLE) then
    '(_, h) ← MimerEndStatement (stmt_ s);
    put_stmt this (mkStmt h (columnCount_ s) (closed_ s)
                     (parentConnection_ s)) ;;
    mret true
  else mret false.

Definition MimerStmtWrapper_Invalidate (this : positive) : M unit :=
  stmt_release this ;;
  s ← get_stmt this;
  put_stmt this (mkStmt (stmt_ s) (columnCount_ s) true None).

Definition MimerStmtWrapper_CloseInternal (this : positive) : M unit :=
  stmt_release this ;;
  s ← get_stmt this;
  put_stmt this (mkStmt (stmt_ s) (columnCount_ s) true
                   (parentConnection_ s)) ;;
  match parentConnection_ s with
  | Some conn =>
      MimerConnection_UnregisterStatement conn this ;;
      put_stmt this (mkStmt (stmt_ s) (columnCount_ s) true None)
  | None => skip
  end.

(** The destructor; afterwards the instance is gone. *)
Definition MimerStmtWrapper_delete (this : positive) : M unit :=
  released ← stmt_release this;
  s ← get_stmt this;
  match released, parentConnection_ s with
  | true, Some conn => MimerConnection_UnregisterStatement conn this
  | _, _ => skip
  end ;;
  modify_world (fun w => set_statements (delete this (statements w)) w).

(** [Execute], from the computation of [hasResultSet] on. *)
Definition stmt_execute_bound (s : MimerStmtWrapper) : M JsValue :=
  if 0 <? columnCount_ s then
    fields ← BuildFieldsArray (stmt_ s) (columnCount_ s);
    rc1 ← MimerOpenCursor (stmt_ s);
    if rc1 <? 0 then
      ThrowMimerError rc1 "MimerOpenCursor" "" ;; mret JsUndefined
    else
      rows ← FetchResults (stmt_ s) (columnCount_ s);
      MimerCloseCursor (stmt_ s) ;;
      mret (JsObject
              [ ("fields", fields);
                ("rows", JsArray rows);
                ("rowCount",
                 JsNumber (double_of_int (Z.of_nat (length rows)))) ])
  else
    rc1 ← MimerExecute (stmt_ s);
    if rc1 <? 0 then
      ThrowMimerError rc1 "MimerExecute" "" ;; mret JsUndefined
    else mret (JsObject [ ("rowCount", JsNumber (double_of_int rc1)) ]).

Definition MimerStmtWrapper_Execute (this : positive) (info : list JsValue)
  : M JsValue :=
  s ← get_stmt this;
  if closed_ s then
    ThrowAsJavaScriptException (Error "Statement is closed") ;;
    mret JsUndefined
  else
    match array_argument (info !! 0%nat) with
    | Some params =>
        BindParameters (stmt_ s) params ;;
        failed ← IsExceptionPending;
        if (failed : bool) then mret JsUndefined else stmt_execute_bound s
    | None => stmt_execute_bound s
    end.

Definition MimerStmtWrapper_Close (this : positive) : M JsValue :=
  MimerStmtWrapper_CloseInternal this ;;
  mret (JsBoolean true).

(** *** resultset.cc *)

(** The constructor as [NewInstance] runs it. *)
Definition MimerResultSetWrapper_new (this : positive) (stmt columnCount : Z)
  : M unit :=
  '(names, types) ← CacheColumnMetadata stmt columnCount;
  put_rs this (mkResultSet stmt columnCount names types false false None).

Definition MimerResultSetWrapper_SetParentConnection (this conn : positive)
  : M unit :=
  r ← get_rs this;
  put_rs this (mkResultSet (rs_stmt_ r) (rs_columnCount_ r) (colNames_ r)
                 (colTypes_ r) (rs_closed_ r) (exhausted_ r) (Some conn)).

(** [if (!closed_ && stmt_ != MIMERNULLHANDLE)
       { MimerCloseCursor(stmt_); MimerEndStatement(&stmt_); }]. *)
Definition rs_release (this : positive) : M bool :=
  r ← get_rs this;
  if negb (rs_closed_ r) && negb (rs_stmt_ r =? MIMERNULLHANDLE) then
    MimerCloseCursor (rs_stmt_ r) ;;
    '(_, h) ← MimerEndStatement (rs_stmt_ r);
    put_rs this (mkResultSet h (rs_columnCount_ r) (colNames_ r)
                   (colTypes_ r) (rs_closed_ r) (exhausted_ r)
                   (rs_parentConnection_ r)) ;;
    mret true
  else mret false.

Definition MimerResultSetWrapper_Invalidate (this : positive) : M unit :=
  rs_release this ;;
  r ← get_rs this;
  put_rs this (mkResultSet (rs_stmt_ r) (rs_columnCount_ r) (colNames_ r)
                 (colTypes_ r) true (exhausted_ r) None).

Definition MimerResultSetWrapper_CloseInternal (this : positive) : M unit :=
  rs_release this ;;
  r ← get_rs this;
  put_rs this (mkResultSet (rs_stmt_ r) (rs_columnCount_ r) (colNames_ r)
                 (colTypes_ r) true (exhausted_ r)
                 (rs_parentConnection_ r)) ;;
  match rs_parentConnection_ r with
  | Some conn =>
      MimerConnection_UnregisterResultSet conn this ;;
      put_rs this (mkResultSet (rs_stmt_ r) (rs_columnCount_ r) (colNames_ r)
                     (colTypes_ r) true (exhausted_ r) None)
  | None => skip
  end.

(** The destructor calls [CloseInternal]; afterwards the instance is gone. *)
Definition MimerResultSetWrapper_delete (this : positive) : M unit :=
  MimerResultSetWrapper_CloseInternal this ;;
  modify_world (fun w => set_resultsets (delete this (resultsets w)) w).

Definition MimerResultSetWrapper_FetchNext (this : positive) : M JsValue :=
  r ← get_rs this;
  if rs_closed_ r || exhausted_ r then mret JsNull
  else
    rc1 ← MimerFetch (rs_stmt_ r);
    if rc1 =? MIMER_SUCCESS then
      FetchSingleRow (rs_stmt_ r) (rs_columnCount_ r) (colNames_ r)
        (colTypes_ r)
    else
      put_rs this (mkResultSet (rs_stmt_ r) (rs_columnCount_ r) (colNames_ r)
                     (colTypes_ r) (rs_closed_ r) true
                     (rs_parentConnection_ r)) ;;
      mret JsNull.

Definition MimerResultSetWrapper_GetFields (this : positive) : M JsValue :=
  r ← get_rs this;
  if rs_closed_ r then mret (JsArray [])
  else BuildFieldsArray (rs_stmt_ r) (rs_columnCount_ r).

Definition MimerResultSetWrapper_Close (this : positive) : M JsValue :=
  MimerResultSetWrapper_CloseInternal this ;;
  mret (JsBoolean true).

Definition MimerResultSetWrapper_IsClosed (this : positive) : M JsValue :=
  r ← get_rs this;
  mret (JsBoolean (rs_closed_ r)).

(** *** connection.cc *)

Definition MimerConnection_new (this : positive) : M unit :=
  put_conn this (mkConnection MIMERNULLHANDLE false ∅ ∅).

Definition MimerConnection_GetErrorMessage (this : positive) : M string :=
  c ← get_conn this;
  if negb (session_ c =? MIMERNULLHANDLE) then
    '(rc1, buffer) ← MimerGetError8 (session_ c);
    if 0 <? rc1 then mret buffer else mret "Unknown error"
  else mret "Unknown error".

Definition MimerConnection_CheckError (this : positive) (code : Z)
    (operation : string) : M unit :=
  if code <? 0 then
    detail ← MimerConnection_GetErrorMessage this;
    ThrowMimerError code operation detail
  else skip.

(** The cascade shared by [Close] and the destructor: invalidate and clear
    the result sets, then the statements. *)
Definition invalidate_all (this : positive) : M unit :=
  c ← get_conn this;
  for_each MimerResultSetWrapper_Invalidate (elements (openResultSets_ c)) ;;
  put_conn this (mkConnection (session_ c) (connected_ c)
                   (openStatements_ c) ∅) ;;
  for_each MimerStmtWrapper_Invalidate (elements (openStatements_ c)) ;;
  put_conn this (mkConnection (session_ c) (connected_ c) ∅ ∅).

(** The destructor; afterwards the instance is gone. *)
Definition MimerConnection_delete (this : positive) : M unit :=
  invalidate_all this ;;
  c ← get_conn this;
  (if connected_ c && negb (session_ c =? MIMERNULLHANDLE)
   then MimerEndSession (session_ c) ;; skip
   else skip) ;;
  modify_world (fun w => set_connections (delete this (connections w)) w).

Definition MimerConnection_Connect (this : positive) (info : list JsValue)
  : M JsValue :=
  match info with
  | JsString dsn :: JsString user :: JsString password :: _ =>
      c ← get_conn this;
      '(rc1, h) ← MimerBeginSession8 dsn user password;
      put_conn this (mkConnection h (connected_ c) (openStatements_ c)
                       (openResultSets_ c)) ;;
      if rc1 <? 0 then
        MimerConnection_CheckError this rc1 "MimerBeginSession8" ;;
        mret JsUndefined
      else
        put_conn this (mkConnection h true (openStatements_ c)
                         (openResultSets_ c)) ;;
        mret (JsBoolean true)
  | _ :: _ :: _ :: _ =>
      ThrowAsJavaScriptException (TypeError "All arguments must be strings") ;;
      mret JsUndefined
  | _ =>
      ThrowAsJavaScriptException
        (TypeError "Expected 3 arguments: dsn, user, password") ;;
      mret JsUndefined
  end.

Definition MimerConnection_Close (this : positive) : M JsValue :=
  c ← get_conn this;
  if negb (connected_ c) then mret (JsBoolean true)
  else
    invalidate_all this ;;
    c1 ← get_conn this;
    (if negb (session_ c1 =? MIMERNULLHANDLE) then
       '(rc1, h) ← MimerEndSession (session_ c1);
       put_conn this (mkConnection h (connected_ c1) (openStatements_ c1)
                        (openResultSets_ c1)) ;;
       (if rc1 <? 0
        then MimerConnection_CheckError this rc1 "MimerEndSession"
        else skip) ;;
       put_conn this (mkConnection h false (openStatements_ c1)
                        (openResultSets_ c1))
     else skip) ;;
    mret (JsBoolean true).

(** [Execute], from the computation of [columnCount] on: the statement
    [stmt] is prepared and its parameters are bound. *)
Definition conn_execute_bound (this : positive) (stmt : Z) : M JsValue :=
  columnCount ← MimerColumnCount stmt;
  if 0 <? columnCount then
    fields ← BuildFieldsArray stmt columnCount;
    rc1 ← MimerOpenCursor stmt;
    if rc1 <? 0 then
      MimerConnection_CheckError this rc1 "MimerOpenCursor" ;;
      MimerEndStatement stmt ;;
      mret JsUndefined
    else
      rows ← FetchResults stmt columnCount;
      MimerEndStatement stmt ;;
      mret (JsObject
              [ ("fields", fields);
                ("rows", JsArray rows);
                ("rowCount",
                 JsNumber (double_of_int (Z.of_nat (length rows)))) ])
  else
    rc1 ← MimerExecute stmt;
    if rc1 <? 0 then
      MimerConnection_CheckError this rc1 "MimerExecute" ;;
      MimerEndStatement stmt ;;
      mret JsUndefined
    else
      MimerEndStatement stmt ;;
      mret (JsObject [ ("rowCount", JsNumber (double_of_int rc1)) ]).

Definition MimerConnection_Execute (this : positive) (info : list JsValue)
  : M JsValue :=
  c ← get_conn this;
  if negb (connected_ c) then
    ThrowAsJavaScriptException (Error "Not connected to database") ;;
    mret JsUndefined
  else
    match info !! 0%nat with
    | Some (JsString sql) =>
        '(rc1, stmt) ←
          MimerBeginStatement8 (session_ c) sql MIMER_FORWARD_ONLY;
        if rc1 =? MIMER_STATEMENT_CANNOT_BE_PREPARED then
          rc2 ← MimerExecuteStatement8 (session_ c) sql;
          if rc2 <? 0 then
            MimerConnection_CheckError this rc2 "MimerExecuteStatement8" ;;
            mret JsUndefined
          else mret (JsObject [ ("rowCount", JsNumber (double_of_int 0)) ])
        else if rc1 <? 0 then
          MimerConnection_CheckError this rc1 "MimerBeginStatement8" ;;
          mret JsUndefined
        else
          match array_argument (info !! 1%nat) with
          | Some params =>
              BindParameters stmt params ;;
              failed ← IsExceptionPending;
              if (failed : bool) then
                MimerEndStatement stmt ;; mret JsUndefined
              else conn_execute_bound this stmt
          | None => conn_execute_bound this stmt
          end
    | _ =>
        ThrowAsJavaScriptException
          (TypeError "Expected SQL string as first argument") ;;
        mret JsUndefined
    end.

Definition MimerConnection_BeginTransaction (this : positive) : M JsValue :=
  c ← get_conn this;
  if negb (connected_ c) then
    ThrowAsJavaScriptException (Error "Not connected to database") ;;
    mret JsUndefined
  else
    rc1 ← MimerBeginTransaction (session_ c) MIMER_TRANS_READWRITE;
    if rc1 <? 0 then
      MimerConnection_CheckError this rc1 "MimerBeginTransaction" ;;
      mret JsUndefined
    else mret (JsBoolean true).

(** [Commit] and [Rollback]: [op] is [MIMER_COMMIT] or [MIMER_ROLLBACK]. *)
Definition end_transaction (this : positive) (op : Z) (operation : string)
  : M JsValue :=
  c ← get_conn this;
  if negb (connected_ c) then
    ThrowAsJavaScriptException (Error "Not connected to database") ;;
    mret JsUndefined
  else
    rc1 ← MimerEndTransaction (session_ c) op;
    (if rc1 <? 0 then MimerConnection_CheckError this rc1 operation
     else skip) ;;
    mret (JsBoolean true).

Definition MimerConnection_Commit (this : positive) : M JsValue :=
  end_transaction this MIMER_COMMIT "MimerEndTransaction (commit)".

Definition MimerConnection_Rollback (this : positive) : M JsValue :=
  end_transaction this MIMER_ROLLBACK "MimerEndTransaction (rollback)".

Definition MimerConnection_IsConnected (this : positive) : M JsValue :=
  c ← get_conn this;
  mret (JsBoolean (connected_ c)).

(** [MimerStmtWrapper::NewInstance]: a fresh instance, then its
    constructor. *)
Definition MimerStmtWrapper_NewInstance (session : Z) (sql : string)
  : M positive :=
  w ← get_world;
  let p := fresh (dom (statements w)) in
  MimerStmtWrapper_new p session sql ;;
  mret p.

Definition MimerConnection_Prepare (this : positive) (info : list JsValue)
  : M JsValue :=
  c ← get_conn this;
  if negb (connected_ c) then
    ThrowAsJavaScriptException (Error "Not connected to database") ;;
    mret JsUndefined
  else
    match info !! 0%nat with
    | Some (JsString sql) =>
        p ← MimerStmtWrapper_NewInstance (session_ c) sql;
        failed ← IsExceptionPending;
        if (failed : bool) then mret JsUndefined
        else
          MimerStmtWrapper_SetParentConnection p this ;;
          MimerConnection_RegisterStatement this p ;;
          mret (JsStatement p)
    | _ =>
        ThrowAsJavaScriptException
          (TypeError "Expected SQL string as first argument") ;;
        mret JsUndefined
    end.

(** [MimerResultSetWrapper::NewInstance]. *)
Definition MimerResultSetWrapper_NewInstance (stmt columnCount : Z)
  : M positive :=
  w ← get_world;
  let p := fresh (dom (resultsets w)) in
  MimerResultSetWrapper_new p stmt columnCount ;;
  mret p.

(** [ExecuteQuery], once the statement [stmt] is prepared and bound. *)
Definition conn_query_bound (this : positive) (stmt : Z) : M JsValue :=
  columnCount ← MimerColumnCount stmt;
  if columnCount <=? 0 then
    MimerEndStatement stmt ;;
    ThrowAsJavaScriptException
      (Error "queryCursor only supports SELECT statements (DML has no result columns)") ;;
    mret JsUndefined
  else
    rc1 ← MimerOpenCursor stmt;
    if rc1 <? 0 then
      MimerConnection_CheckError this rc1 "MimerOpenCursor" ;;
      MimerEndStatement stmt ;;
      mret JsUndefined
    else
      p ← MimerResultSetWrapper_NewInstance stmt columnCount;
      failed ← IsExceptionPending;
      if (failed : bool) then
        MimerCloseCursor stmt ;; MimerEndStatement stmt ;; mret JsUndefined
      else
        MimerResultSetWrapper_SetParentConnection p this ;;
        MimerConnection_RegisterResultSet this p ;;
        mret (JsResultSet p).

Definition MimerConnection_ExecuteQuery (this : positive)
    (info : list JsValue) : M JsValue :=
  c ← get_conn this;
  if negb (connected_ c) then
    ThrowAsJavaScriptException (Error "Not connected to database") ;;
    mret JsUndefined
  else
    match info !! 0%nat with
    | Some (JsString sql) =>
        '(rc1, stmt) ←
          MimerBeginStatement8 (session_ c) sql MIMER_FORWARD_ONLY;
        if rc1 =? MIMER_STATEMENT_CANNOT_BE_PREPARED then
          ThrowAsJavaScriptException
            (Error "queryCursor only supports SELECT statements (DDL cannot be prepared)") ;;
          mret JsUndefined
        else if rc1 <? 0 then
          MimerConnection_CheckError this rc1 "MimerBeginStatement8" ;;
          mret JsUndefined
        else
          match array_argument (info !! 1%nat) with
          | Some params =>
              BindParameters stmt params ;;
              failed ← IsExceptionPending;
              if (failed : bool) then
                MimerEndStatement stmt ;; mret JsUndefined
              else conn_query_bound this stmt
          | None => conn_query_bound this stmt
          end
    | _ =>
        ThrowAsJavaScriptException
          (TypeError "Expected SQL string as first argument") ;;
        mret JsUndefined
    end.

(** *** Sequences of lifecycle calls

    [close()] and [invalidate()] in any order, then possibly the
    destructor, on the statement or the result set at [this]. *)
Definition stmt_lifecycle (this : positive) (c : LifecycleCall) : M unit :=
  match c with
  | DoClose => MimerStmtWrapper_Close this ;; skip
  | DoInvalidate => MimerStmtWrapper_Invalidate this
  end.

Definition stmt_lifecycle_seq (this : positive) (calls : list LifecycleCall)
    (destroy : bool) : M unit :=
  for_each (stmt_lifecycle this) calls ;;
  if destroy then MimerStmtWrapper_delete this else skip.

Definition rs_lifecycle (this : positive) (c : LifecycleCall) : M unit :=
  match c with
  | DoClose => MimerResultSetWrapper_Close this ;; skip
  | DoInvalidate => MimerResultSetWrapper_Invalidate this
  end.

Definition rs_lifecycle_seq (this : positive) (calls : list LifecycleCall)
    (destroy : bool) : M unit :=
  for_each (rs_lifecycle this) calls ;;
  if destroy then MimerResultSetWrapper_delete this else skip.

(** *** Programs

    What a JavaScript program can do with the binding, one step at a time:
    construct a connection, call a method of a live wrapper, or let the
    garbage collector run the destructor of a wrapper. *)
Definition MimerConnection_NewInstance : M positive :=
  w ← get_world;
  let p := fresh (dom (connections w)) in
  MimerConnection_new p ;;
  mret p.

Definition run_op (op : Op) : M unit :=
  match op with
  | OpNewConnection => MimerConnection_NewInstance ;; skip
  | OpConnect c info => js_invoke (MimerConnection_Connect c info) ;; skip
  | OpClose c => js_invoke (MimerConnection_Close c) ;; skip
  | OpExecute c info => js_invoke (MimerConnection_Execute c info) ;; skip
  | OpBeginTransaction c =>
      js_invoke (MimerConnection_BeginTransaction c) ;; skip
  | OpCommit c => js_invoke (MimerConnection_Commit c) ;; skip
  | OpRollback c => js_invoke (MimerConnection_Rollback c) ;; skip
  | OpIsConnected c => js_invoke (MimerConnection_IsConnected c) ;; skip
  | OpPrepare c info => js_invoke (MimerConnection_Prepare c info) ;; skip
  | OpExecuteQuery c info =>
      js_invoke (MimerConnection_ExecuteQuery c info) ;; skip
  | OpDeleteConnection c => MimerConnection_delete c
  | OpStmtExecute s info =>
      js_invoke (MimerStmtWrapper_Execute s info) ;; skip
  | OpStmtClose s => js_invoke (MimerStmtWrapper_Close s) ;; skip
  | OpDeleteStatement s => MimerStmtWrapper_delete s
  | OpFetchNext r => js_invoke (MimerResultSetWrapper_FetchNext r) ;; skip
  | OpGetFields r => js_invoke (MimerResultSetWrapper_GetFields r) ;; skip
  | OpRsClose r => js_invoke (MimerResultSetWrapper_Close r) ;; skip
  | OpIsClosed r => js_invoke (MimerResultSetWrapper_IsClosed r) ;; skip
  | OpDeleteResultSet r => MimerResultSetWrapper_delete r
  end.

Definition run_ops (ops : list Op) : M unit := for_each run_op ops.

End Binding.

(** ** A sample header and sample engines

    The theorems below hold for every [MimerApi] and every [Engine]. To
    evaluate the binding on concrete inputs, this instance gives the
    constants pairwise distinct codes, with the native NOT NULL codes odd
    and their NULLABLE variants even, as the comments of
    [BuildFieldsArray] describe them, and classifies the type codes by
    their absolute value. *)
Definition sample_is (codes : list Z) (ty : Z) : bool :=
  existsb (Z.eqb (Z.abs ty)) codes.

Definition sample_api : MimerApi := {|
  MIMERNULLHANDLE := 0;
  MIMER_SUCCESS := 0;
  MIMER_STATEMENT_CANNOT_BE_PREPARED := -24005;
  MIMER_FORWARD_ONLY := 0;
  MIMER_TRANS_READWRITE := 0;
  MIMER_COMMIT := 0;
  MIMER_ROLLBACK := 1;
  MIMER_CHARACTER := 1;
  MIMER_DECIMAL := 2;
  MIMER_INTEGER := 3;
  MIMER_FLOAT := 4;
  MIMER_T_INTEGER := 6;
  MIMER_T_SMALLINT := 7;
  MIMER_T_FLOAT := 8;
  MIMER_T_REAL := 9;
  MIMER_T_DOUBLE := 10;
  MIMER_CHARACTER_VARYING := 11;
  MIMER_DATE := 12;
  MIMER_TIME := 13;
  MIMER_TIMESTAMP := 14;
  MIMER_INTERVAL_YEAR := 15;
  MIMER_INTERVAL_MINUTE_TO_SECOND := 27;
  MIMER_UNSIGNED_INTEGER := 28;
  MIMER_T_UNSIGNED_INTEGER := 29;
  MIMER_T_UNSIGNED_SMALLINT := 30;
  MIMER_NUMERIC := 31;
  MIMER_T_BIGINT := 32;
  MIMER_T_UNSIGNED_BIGINT := 33;
  MIMER_BINARY := 34;
  MIMER_BINARY_VARYING := 35;
  MIMER_BLOB := 37;
  MIMER_CLOB := 38;
  MIMER_NCHAR := 39;
  MIMER_NCHAR_VARYING := 40;
  MIMER_NCLOB := 41;
  MIMER_BOOLEAN := 42;
  MIMER_BLOB_LOCATOR := 43;
  MIMER_CLOB_LOCATOR := 44;
  MIMER_NCLOB_LOCATOR := 45;
  MIMER_NATIVE_SMALLINT := 49;
  MIMER_NATIVE_SMALLINT_NULLABLE := 50;
  MIMER_NATIVE_INTEGER := 51;
  MIMER_NATIVE_INTEGER_NULLABLE := 52;
  MIMER_NATIVE_BIGINT := 53;
  MIMER_NATIVE_BIGINT_NULLABLE := 54;
  MIMER_NATIVE_REAL := 55;
  MIMER_NATIVE_REAL_NULLABLE := 56;
  MIMER_NATIVE_DOUBLE := 57;
  MIMER_NATIVE_DOUBLE_NULLABLE := 58;
  MIMER_NATIVE_BLOB := 59;
  MIMER_NATIVE_CLOB := 61;
  MIMER_NATIVE_NCLOB := 63;
  MIMER_NATIVE_BLOB_LOCATOR := 65;
  MIMER_NATIVE_CLOB_LOCATOR := 67;
  MIMER_NATIVE_NCLOB_LOCATOR := 69;
  MIMER_UTF8 := 71;
  MIMER_UUID := 73;
  MimerIsInt32 := sample_is [6; 7; 29; 30; 49; 50; 51; 52];
  MimerIsInt64 := sample_is [32; 33; 53; 54];
  MimerIsDouble := sample_is [8; 10; 57; 58];
  MimerIsFloat := sample_is [9; 55; 56];
  MimerIsBoolean := sample_is [42];
  MimerIsBlob := sample_is [37; 43; 59; 65];
  MimerIsNclob := sample_is [38; 41; 44; 45; 61; 63; 67; 69];
  MimerIsBinary := sample_is [34; 35];
|}.

(** The string conversion used in the examples. *)
Definition sample_ToString (v : JsValue) : string :=
  match v with
  | JsOther tag => tag
  | _ => "[object Object]"
  end.

Definition reply_rc (code : Z) : Reply :=
  mkReply code 0 0 (S754_zero false) [] "".

(** An engine that accepts everything: every call returns [0], hands out
    the handle [7], and reports no columns, no parameters and no rows. *)
Definition engine_ok : Engine := fun _ c =>
  match c with
  | CallBeginSession8 _ _ _ | CallBeginStatement8 _ _ _ | CallSetLob _ _ _ =>
      mkReply 0 7 0 (S754_zero false) [] ""
  | CallFetch _ => reply_rc 100
  | _ => reply_rc 0
  end.

(** The store with no objects and no history. *)
Definition empty_world : World := mkWorld [] None ∅ ∅ ∅.


(** ** Specification vocabulary

    The predicates the theorems are stated with. *)

Section Vocabulary.

Context {api : MimerApi}.

(** The NULLABLE codes of the native types. *)
Definition native_nullable_codes : list Z :=
  [ MIMER_NATIVE_SMALLINT_NULLABLE; MIMER_NATIVE_INTEGER_NULLABLE;
    MIMER_NATIVE_BIGINT_NULLABLE; MIMER_NATIVE_REAL_NULLABLE;
    MIMER_NATIVE_DOUBLE_NULLABLE ].

(** What a field descriptor must satisfy: its [nullable] flag is decided by
    the raw code stored next to it. *)
Definition nullable_flag_ok (field : JsValue) : Prop :=
  exists props rawType b,
    field = JsObject props /\
    obj_get "dataTypeCode" props = Some (JsNumber (double_of_int rawType)) /\
    obj_get "nullable" props = Some (JsBoolean b) /\
    (b = true <-> rawType < 0 \/ In rawType native_nullable_codes).

(** The finite double [x] has exactly the integer value [z]: with
    [x = (-1)^s * m * 2^e], either [e >= 0] and [z] is [±m * 2^e], or
    [e < 0] and [±m = z * 2^(-e)]. Infinities and NaN have no value. *)
Definition double_is_integer (x : spec_float) (z : Z) : Prop :=
  match x with
  | S754_zero _ => z = 0
  | S754_finite s m e =>
      (if s then Zneg m else Zpos m) * 2 ^ Z.max e 0 = z * 2 ^ Z.max (- e) 0
  | S754_infinity _ | S754_nan => False
  end.

(** A computation is [stable] for a relation on worlds when every run that
    has a result relates the world it starts in to the world it ends in. *)
Definition stable (R : World -> World -> Prop) {A} (m : M A) : Prop :=
  forall w a w', m w = Some (a, w') -> R w w'.

(** The calls that give a handle back to the engine. *)
Definition is_release_call (c : Call) : bool :=
  match c with
  | CallEndStatement _ | CallCloseCursor _ | CallEndSession _ => true
  | _ => false
  end.

(** The three stores of objects are the same in both worlds. *)
Definition same_objects (w w' : World) : Prop :=
  connections w' = connections w /\
  statements w' = statements w /\
  resultsets w' = resultsets w.

(** [w'] extends the history of [w] by calls that all satisfy [P]. *)
Definition trace_extends (P : Call -> bool) (w w' : World) : Prop :=
  exists tr, trace w' = (trace w ++ tr)%list /\ Forall (fun ev => P ev.1 = true) tr.

(** What the helpers of [helpers.cc] may do: talk to the engine without
    releasing any handle, and raise an exception. *)
Definition helper_step (w w' : World) : Prop :=
  same_objects w w' /\
  trace_extends (fun c => negb (is_release_call c)) w w'.

(** *** Lifecycle vocabulary *)

(** [!closed_ && stmt_ != MIMERNULLHANDLE]: the entity still holds a
    handle of the engine. *)
Definition stmt_open (s : MimerStmtWrapper) : bool :=
  negb (closed_ s) && negb (stmt_ s =? MIMERNULLHANDLE).

Definition rs_open (r : MimerResultSetWrapper) : bool :=
  negb (rs_closed_ r) && negb (rs_stmt_ r =? MIMERNULLHANDLE).

(** The calls the release step of a statement adds to the history [tr],
    and the value of [stmt_] after it. *)
Definition stmt_release_trace (eng : Engine) (tr : list Event)
    (s : MimerStmtWrapper) : list Event :=
  if stmt_open s
  then [(CallEndStatement (stmt_ s), eng tr (CallEndStatement (stmt_ s)))]
  else [].

Definition stmt_released_handle (eng : Engine) (tr : list Event)
    (s : MimerStmtWrapper) : Z :=
  if stmt_open s
  then out_handle (eng tr (CallEndStatement (stmt_ s)))
  else stmt_ s.

(** The same for a result set: the cursor is closed, then the statement is
    ended. *)
Definition rs_release_trace (eng : Engine) (tr : list Event)
    (r : MimerResultSetWrapper) : list Event :=
  if rs_open r then
    let e1 := (CallCloseCursor (rs_stmt_ r),
               eng tr (CallCloseCursor (rs_stmt_ r))) in
    [e1; (CallEndStatement (rs_stmt_ r),
          eng (tr ++ [e1])%list (CallEndStatement (rs_stmt_ r)))]
  else [].

Definition rs_released_handle (eng : Engine) (tr : list Event)
    (r : MimerResultSetWrapper) : Z :=
  if rs_open r then
    let e1 := (CallCloseCursor (rs_stmt_ r),
               eng tr (CallCloseCursor (rs_stmt_ r))) in
    out_handle (eng (tr ++ [e1])%list (CallEndStatement (rs_stmt_ r)))
  else rs_stmt_ r.

(** The entity after [Invalidate] or [CloseInternal]. *)
Definition stmt_closed_state (eng : Engine) (tr : list Event)
    (s : MimerStmtWrapper) : MimerStmtWrapper :=
  mkStmt (stmt_released_handle eng tr s) (columnCount_ s) true None.

Definition rs_closed_state (eng : Engine) (tr : list Event)
    (r : MimerResultSetWrapper) : MimerResultSetWrapper :=
  mkResultSet (rs_released_handle eng tr r) (rs_columnCount_ r) (colNames_ r)
    (colTypes_ r) true (exhausted_ r) None.

(** The registry of a connection without the statement / result set [p]. *)
Definition conn_without_stmt (p : positive) (c : MimerConnection)
  : MimerConnection :=
  mkConnection (session_ c) (connected_ c) (openStatements_ c ∖ {[p]})
    (openResultSets_ c).

Definition conn_without_rs (p : positive) (c : MimerConnection)
  : MimerConnection :=
  mkConnection (session_ c) (connected_ c) (openStatements_ c)
    (openResultSets_ c ∖ {[p]}).

(** The back-reference of an entity points to a live connection. *)
Definition parent_live (parent : option positive) (w : World) : Prop :=
  match parent with
  | Some c => is_Some (connections w !! c)
  | None => True
  end.

(** The connections after the entity with back-reference [parent] has
    unregistered itself. *)
Definition unregistered (f : MimerConnection -> MimerConnection)
    (parent : option positive) (cs : gmap positive MimerConnection)
  : gmap positive MimerConnection :=
  match parent with
  | Some c => match cs !! c with
              | Some cn => <[c := f cn]> cs
              | None => cs
              end
  | None => cs
  end.

(** How often a call satisfying [P] occurs in a history. *)
Definition count_calls (P : Call -> bool) (tr : list Event) : nat :=
  length (List.filter (fun ev => P ev.1) tr).

Definition is_end_statement (c : Call) : bool :=
  match c with CallEndStatement _ => true | _ => false end.
Definition is_close_cursor (c : Call) : bool :=
  match c with CallCloseCursor _ => true | _ => false end.

(** *** A sample store

    A connected session at address [1] with one prepared statement (address
    [1], handle [7]) and one open cursor (address [2], handle [8]), both
    registered. *)
Definition sample_conn : MimerConnection :=
  mkConnection 5 true {[1%positive]} {[2%positive]}.
Definition sample_stmt : MimerStmtWrapper :=
  mkStmt 7 0 false (Some 1%positive).
Definition sample_rs : MimerResultSetWrapper :=
  mkResultSet 8 1 ["id"] [6] false false (Some 1%positive).
Definition sample_world : World :=
  mkWorld [] None {[1%positive := sample_conn]} {[1%positive := sample_stmt]}
    {[2%positive := sample_rs]}.

(** *** Cascade vocabulary *)

(** The statement / result set at [q] is closed and has no parent. *)
Definition stmt_closed_at (w : World) (q : positive) : Prop :=
  exists s, statements w !! q = Some s /\
            closed_ s = true /\ parentConnection_ s = None.

Definition rs_closed_at (w : World) (q : positive) : Prop :=
  exists r, resultsets w !! q = Some r /\
            rs_closed_ r = true /\ rs_parentConnection_ r = None.


(** The history [tr] contains the end-statement / close-cursor call for the
    handle [h]. *)
Definition ended_in (tr : list Event) (h : Z) : Prop :=
  exists rp, (CallEndStatement h, rp) ∈ tr.

Definition cursor_closed_in (tr : list Event) (h : Z) : Prop :=
  exists rp, (CallCloseCursor h, rp) ∈ tr.

(** Every registered entity of the connection [cn] is a live object. *)
Definition registered_live (cn : MimerConnection) (w : World) : Prop :=
  (forall q, q ∈ openStatements_ cn -> is_Some (statements w !! q)) /\
  (forall q, q ∈ openResultSets_ cn -> is_Some (resultsets w !! q)).

(** An engine like [engine_ok] that fails to end a session with the
    status [-1]. *)
Definition engine_end_session_fails : Engine := fun tr c =>
  match c with
  | CallEndSession _ => reply_rc (-1)
  | _ => engine_ok tr c
  end.

(** *** Cursor vocabulary *)

(** The flags of the result set at [p] only move forward from [w] to [w']:
    the instance stays, a closed one stays closed, an exhausted one stays
    exhausted. *)
Definition rs_mono (p : positive) (w w' : World) : Prop :=
  forall r, resultsets w !! p = Some r ->
    exists r', resultsets w' !! p = Some r' /\
               (rs_closed_ r = true -> rs_closed_ r' = true) /\
               (exhausted_ r = true -> exhausted_ r' = true).

(** The program [ops] never runs the destructor of the result set [p]. *)
Definition keeps_alive (p : positive) (ops : list Op) : Prop :=
  Forall (fun op => op <> OpDeleteResultSet p) ops.

(** *** Binder vocabulary *)

(** The error of [BindParameters] for a wrong number of values. *)
Definition count_mismatch_error (expected actual : Z) : JsError :=
  MimerError
    (mimer_error_message 0 "BindParameters"
       ("statement expects " ++ string_of_Z expected
        ++ " but " ++ string_of_Z actual ++ " were provided"))
    0 "BindParameters".

(** The error of [BindParameters] when binding value number [i] fails with
    the status [code]. *)
Definition bind_failure_error (i code : Z) : JsError :=
  MimerError
    (mimer_error_message code "BindParameters"
       ("failed to bind parameter " ++ string_of_Z i))
    code "BindParameters".

(** The calls that bind a value or stream a large object. *)
Definition is_bind_call (c : Call) : bool :=
  match c with
  | CallSetNull _ _ | CallSetBoolean _ _ _ | CallSetInt32 _ _ _
  | CallSetInt64 _ _ _ | CallSetDouble _ _ _ | CallSetString8 _ _ _
  | CallSetBinary _ _ _ | CallSetLob _ _ _ | CallSetNclobData8 _ _
  | CallSetBlobData _ _ => true
  | _ => false
  end.

(** An engine like [engine_ok] whose statements declare one parameter. *)
Definition engine_one_param : Engine := fun tr c =>
  match c with
  | CallParameterCount _ => reply_rc 1
  | _ => engine_ok tr c
  end.

(** *** Marshalling vocabulary *)


(** Nothing is raised and no object changes. *)
Definition quiet_step (w w' : World) : Prop :=
  pending w' = pending w /\ same_objects w w'.


(** *** Scoped statements *)

(** From [w] to [w'] the engine was called without any release, and then,
    as the last call, the statement [stmt] was ended. *)
Definition released_last (stmt : Z) (w w' : World) : Prop :=
  exists mid rp,
    trace w' = (trace w ++ mid ++ [(CallEndStatement stmt, rp)])%list /\
    Forall (fun ev => is_release_call ev.1 = false) mid.

(** An engine like [engine_ok] whose statements declare one parameter and
    reject the value bound to it with the status [-1]. *)
Definition engine_bind_fails : Engine := fun tr c =>
  match c with
  | CallParameterCount _ => reply_rc 1
  | CallSetInt32 _ _ _ => reply_rc (-1)
  | _ => engine_ok tr c
  end.

(** An engine whose statements have one column and whose cursors do not
    open (status [-1]); an engine whose statements do not execute. *)
Definition engine_open_fails : Engine := fun tr c =>
  match c with
  | CallColumnCount _ => reply_rc 1
  | CallOpenCursor _ => reply_rc (-1)
  | _ => engine_ok tr c
  end.

Definition engine_execute_fails : Engine := fun tr c =>
  match c with
  | CallExecute _ => reply_rc (-1)
  | _ => engine_ok tr c
  end.

(** *** UTF-8 vocabulary *)

(** The length of the sequence a lead byte opens; [None] for a
    continuation byte and for a byte that opens nothing. *)
Definition utf8_len (b : byte) : option nat :=
  let c := byte_val b in
  if c <? 128 then Some 1%nat
  else if Z.land c 224 =? 192 then Some 2%nat
  else if Z.land c 240 =? 224 then Some 3%nat
  else if Z.land c 248 =? 240 then Some 4%nat
  else None.

Definition is_cont (b : byte) : bool := is_continuation (byte_val b).

(** A well-formed UTF-8 byte string: a sequence of code points, each a lead
    byte followed by the continuation bytes it announces. *)
Inductive utf8 : list byte -> Prop :=
| utf8_nil : utf8 []
| utf8_char lead conts rest :
    utf8_len lead = Some (S (length conts)) ->
    Forall (fun b => is_cont b = true) conts ->
    utf8 rest ->
    utf8 (lead :: conts ++ rest).

(** The same, as a check that runs. *)
Fixpoint valid_utf8_from (n : nat) (s : list byte) : bool :=
  match s with
  | [] => true
  | lead :: tail =>
      match n, utf8_len lead with
      | S n', Some (S k) =>
          (k <=? length tail)%nat
          && forallb is_cont (take k tail)
          && valid_utf8_from n' (drop k tail)
      | _, _ => false
      end
  end.

Definition valid_utf8 (s : list byte) : bool :=
  valid_utf8_from (length s) s.

(** The byte offset [p] into [data] is a code-point boundary: it cuts
    [data] into two well-formed strings. *)
Definition boundary (data : list byte) (p : Z) : Prop :=
  exists s1 s2, data = (s1 ++ s2)%list /\ Z.of_nat (length s1) = p /\
                utf8 s1 /\ utf8 s2.

(** The offsets at which the chunks written from [offset] on end. *)
Fixpoint chunk_ends (offset : Z) (chunks : list (list byte)) : list Z :=
  match chunks with
  | [] => []
  | ch :: rest =>
      let e := offset + Z.of_nat (length ch) in e :: chunk_ends e rest
  end.

(** Every chunk ends at the last code-point boundary that the chunk limit
    allows. *)
Fixpoint chunks_maximal (data : list byte) (limit offset : Z)
    (chunks : list (list byte)) : Prop :=
  match chunks with
  | [] => True
  | ch :: rest =>
      let e := offset + Z.of_nat (length ch) in
      (forall b, boundary data b -> b <= offset + limit -> b <= e) /\
      chunks_maximal data limit e rest
  end.



(** *** Counting code points, and chunks of a fixed size *)

(** The number of code points of a UTF-8 string: the bytes that are not
    continuation bytes. *)
Definition code_points (data : list byte) : nat :=
  length (List.filter (fun b => negb (is_cont b)) data).

(** Every chunk but the last has exactly [limit] bytes; the last one has
    between one and [limit] bytes. *)
Fixpoint full_chunks (limit : Z) (chunks : list (list byte)) : Prop :=
  match chunks with
  | [] => True
  | ch :: rest =>
      match rest with
      | [] => 0 < Z.of_nat (length ch) <= limit
      | _ :: _ => Z.of_nat (length ch) = limit
      end /\ full_chunks limit rest
  end.

(** In the history [tr], every call that is followed by another one
    returned a non-negative status. *)
Fixpoint stops_at_failure (tr : list Event) : Prop :=
  match tr with
  | [] => True
  | ev :: rest => (rest <> [] -> 0 <= rc ev.2) /\ stops_at_failure rest
  end.

(** An engine like [engine_ok] whose parameters are binary large
    objects. *)
Definition engine_blob : Engine := fun tr c =>
  match c with
  | CallParameterType _ _ => reply_rc 37
  | _ => engine_ok tr c
  end.

(** *** Guards of the connection methods *)

(** [val.IsString()]. *)
Definition is_string (v : JsValue) : bool :=
  match v with JsString _ => true | _ => false end.

(** A store with one connection, at address [1], that was never
    connected. *)
Definition idle_conn : MimerConnection := mkConnection 0 false ∅ ∅.
Definition idle_world : World :=
  mkWorld [] None {[1%positive := idle_conn]} ∅ ∅.

(** *** Error reports *)

(** What [GetErrorMessage] returns for the session [session] after the
    history [tr], and the call it makes. *)
Definition error_detail (eng : Engine) (tr : list Event) (session : Z)
  : string :=
  if session =? MIMERNULLHANDLE then "Unknown error"
  else
    let r := eng tr (CallGetError8 session) in
    if 0 <? rc r then out_str r else "Unknown error".

Definition error_trace (eng : Engine) (tr : list Event) (session : Z)
  : list Event :=
  if session =? MIMERNULLHANDLE then []
  else [(CallGetError8 session, eng tr (CallGetError8 session))].

(** The error [CheckError] raises for the status [code] of [operation]. *)
Definition checked_error (eng : Engine) (tr : list Event) (session : Z)
    (code : Z) (operation : string) : JsError :=
  MimerError
    (mimer_error_message code operation (error_detail eng tr session))
    code operation.

(** An engine like [engine_ok] that refuses every session with the status
    [-18500] and has no text for it. *)
Definition engine_no_session : Engine := fun tr c =>
  match c with
  | CallBeginSession8 _ _ _ => reply_rc (-18500)
  | _ => engine_ok tr c
  end.

(** An engine like [engine_ok] whose transactions fail with the status
    [-1] and the text "deadlock". *)
Definition engine_tx_fails : Engine := fun tr c =>
  match c with
  | CallBeginTransaction _ _ | CallEndTransaction _ _ => reply_rc (-1)
  | CallGetError8 _ => mkReply 8 0 0 (S754_zero false) [] "deadlock"
  | _ => engine_ok tr c
  end.

(** An engine that cannot prepare any statement, as for DDL. *)
Definition engine_ddl : Engine := fun tr c =>
  match c with
  | CallBeginStatement8 _ _ _ => reply_rc (-24005)
  | _ => engine_ok tr c
  end.

(** What JavaScript sees of a method that makes the one call [c] for the
    session [session] and hands a negative status to [CheckError] under
    the name [operation]: the error, or the value [ok]. The objects stay
    as they are. *)
Definition checked_outcome (eng : Engine) (w : World) (session : Z)
    (c : Call) (operation : string) (ok : Z -> JsValue)
  : JsOutcome * World :=
  let r := eng (trace w) c in
  let tr1 := (trace w ++ [(c, r)])%list in
  if rc r <? 0 then
    (Thrown (checked_error eng tr1 session (rc r) operation),
     mkWorld (tr1 ++ error_trace eng tr1 session)%list None (connections w)
       (statements w) (resultsets w))
  else
    (Returned (ok (rc r)),
     mkWorld tr1 None (connections w) (statements w) (resultsets w)).

(** *** Column metadata *)

(** The calls that read the names and type codes of the columns
    [1..columnCount] of [stmt]. *)
Definition metadata_calls_of (stmt : Z) (cols : list Z) : list Call :=
  flat_map (fun col => [ CallColumnName8 stmt (to_int16 col);
                         CallColumnType stmt (to_int16 col) ]) cols.

Definition metadata_calls (stmt columnCount : Z) : list Call :=
  metadata_calls_of stmt (seqZ 1 columnCount).

(** The connection with the statement / result set [p] registered. *)
Definition conn_with_stmt (p : positive) (c : MimerConnection)
  : MimerConnection :=
  mkConnection (session_ c) (connected_ c) ({[p]} ∪ openStatements_ c)
    (openResultSets_ c).

Definition conn_with_rs (p : positive) (c : MimerConnection)
  : MimerConnection :=
  mkConnection (session_ c) (connected_ c) (openStatements_ c)
    ({[p]} ∪ openResultSets_ c).

(** An engine whose statements have two columns and open a cursor. *)
Definition engine_two_columns : Engine := fun tr c =>
  match c with
  | CallColumnCount _ => reply_rc 2
  | CallColumnName8 _ col =>
      mkReply 0 0 0 (S754_zero false) []
        (if col =? 1 then "id" else "name")
  | CallColumnType _ col => reply_rc (if col =? 1 then 6 else (-11))
  | _ => engine_ok tr c
  end.

(** *** The registries and the back-references *)

(** The registries [reg] of the connections [cs] and the back-references
    [parent] of the entities [ts] mirror each other: an address in the
    registry of the connection at [c] holds a live entity that points back
    to [c] and satisfies [ok]; an entity that points to [c] is in the
    registry of the live connection at [c]. *)
Definition links {T} (reg : MimerConnection -> gset positive)
    (parent : T -> option positive) (ok : T -> bool)
    (cs : gmap positive MimerConnection) (ts : gmap positive T) : Prop :=
  (forall c cn q, cs !! c = Some cn -> q ∈ reg cn ->
     exists t, ts !! q = Some t /\ parent t = Some c /\ ok t = true) /\
  (forall q t c, ts !! q = Some t -> parent t = Some c ->
     exists cn, cs !! c = Some cn /\ q ∈ reg cn).

(** Both registries mirror the back-references, and a registered statement
    still holds its handle. *)
Definition store_linked (w : World) : Prop :=
  links openStatements_ parentConnection_ stmt_open
    (connections w) (statements w) /\
  links openResultSets_ rs_parentConnection_ (fun _ => true)
    (connections w) (resultsets w).

(** The invariant of the object store between two calls from JavaScript:
    the store is linked and no exception is pending. *)
Definition registry_ok (w : World) : Prop :=
  store_linked w /\ pending w = None.

(** The engine never hands out the null handle for a statement it has
    prepared. *)
Definition handles_not_null (eng : Engine) : Prop :=
  forall tr session sql mode,
    0 <= rc (eng tr (CallBeginStatement8 session sql mode)) ->
    out_handle (eng tr (CallBeginStatement8 session sql mode))
    <> MIMERNULLHANDLE.

(** *** Results of [execute] *)

(** A row is a plain object. *)
Definition is_row (v : JsValue) : Prop := exists props, v = JsObject props.

(** The two shapes of what [execute] returns: [{rowCount}] with a count
    that is not negative, or [{fields, rows, rowCount}] with one
    descriptor per column, rows that are objects, and the number of rows
    as the count. *)
Definition execute_result (v : JsValue) : Prop :=
  (exists n, 0 <= n /\
     v = JsObject [("rowCount", JsNumber (double_of_int n))]) \/
  (exists fields rows,
     v = JsObject
           [ ("fields", JsArray fields);
             ("rows", JsArray rows);
             ("rowCount",
              JsNumber (double_of_int (Z.of_nat (length rows)))) ] /\
     Forall nullable_flag_ok fields /\
     Forall is_row rows).

(** The calls that end a statement or a session. *)
Definition is_end_call (c : Call) : bool :=
  match c with
  | CallEndStatement _ | CallEndSession _ => true
  | _ => false
  end.

Definition is_fetch (c : Call) : bool :=
  match c with CallFetch _ => true | _ => false end.

(** An engine whose statements have two columns and whose cursors deliver
    two rows: the third [MimerFetch] reports the end of the data. *)
Definition engine_two_rows : Engine := fun tr c =>
  match c with
  | CallFetch _ =>
      reply_rc (if (count_calls is_fetch tr <? 2)%nat then 0 else 100)
  | CallGetInt32 _ _ =>
      mkReply 0 0 (Z.of_nat (count_calls is_fetch tr)) (S754_zero false) [] ""
  | CallGetString8 _ _ _ => mkReply 3 0 0 (S754_zero false) [] "abc"
  | _ => engine_two_columns tr c
  end.

(** From [w] to [w'] no object changes and no statement or session is
    ended. *)
Definition reusable_step (w w' : World) : Prop :=
  same_objects w w' /\
  trace_extends (fun c => negb (is_end_call c)) w w'.

(** *** Classes of calls *)

(** The calls that read the current row: the NULL test and the getters. *)
Definition is_getter_call (c : Call) : bool :=
  match c with
  | CallIsNull _ _ | CallGetInt32 _ _ | CallGetInt64 _ _ | CallGetDouble _ _
  | CallGetFloat _ _ | CallGetBoolean _ _ | CallGetLob _ _
  | CallGetBlobData _ _ | CallGetNclobData8 _ _ | CallGetBinary _ _ _
  | CallGetString8 _ _ _ => true
  | _ => false
  end.

(** The property names of an object. *)
Definition keys (props : list (string * JsValue)) : list string :=
  map fst props.

(** A fetch that delivered a row. *)
Definition fetch_succeeded (stmt : Z) (ev : Event) : Prop :=
  is_fetch ev.1 = true -> ev.1 = CallFetch stmt /\ rc ev.2 = MIMER_SUCCESS.

(** *** Histories and the engine's answers *)

(** The history [tr], recorded after [tr0], holds the engine's own
    answers: every reply is what the engine returns for that call after
    the calls before it. *)
Fixpoint answered (eng : Engine) (tr0 tr : list Event) : Prop :=
  match tr with
  | [] => True
  | ev :: rest => ev.2 = eng tr0 ev.1 /\ answered eng (tr0 ++ [ev]) rest
  end.

(** The status of the last call of [tr]; [rc0] when there is none. *)
Definition last_status (rc0 : Z) (tr : list Event) : Z :=
  match last tr with
  | Some ev => rc ev.2
  | None => rc0
  end.

(** The descriptor [field] reports the raw type code [rawType], and its
    [nullable] flag follows the rule for that code. *)
Definition nullable_flag_of (rawType : Z) (field : JsValue) : Prop :=
  exists props b,
    field = JsObject props /\
    obj_get "dataTypeCode" props = Some (JsNumber (double_of_int rawType)) /\
    obj_get "nullable" props = Some (JsBoolean b) /\
    (b = true <-> rawType < 0 \/ In rawType native_nullable_codes).

(** *** Large objects longer than a chunk *)



(** A buffer one byte longer than a chunk. *)
Definition long_buffer : list byte :=
  repeat x00 (Z.to_nat (LOB_WRITE_CHUNK + 1)).


(** *** Computations that return *)

(** The computation [m] has a result in every world. *)
Definition returns {A} (m : M A) : Prop :=
  forall w, exists a w', m w = Some (a, w').

(** A value the binder can write within the iteration budget [fuel]: a
    string is well-formed UTF-8, as [Utf8Value()] delivers it, of at most
    [fuel] bytes. *)
Definition bindable (fuel : nat) (v : JsValue) : bool :=
  match v with
  | JsString str =>
      let data := list_byte_of_string str in
      valid_utf8 data && (length data <=? fuel)%nat
  | _ => true
  end.

Definition arguments_bindable (fuel : nat) (arg : option JsValue) : bool :=
  match array_argument arg with
  | Some params => forallb (bindable fuel) params
  | None => true
  end.

(** What [execute] and [executeQuery] do with the optional parameter
    array [arg], once [stmt] is prepared: bind it when it is a non-empty
    array. *)
Definition bind_arguments (eng : Engine) (fuel : nat)
    (ToString : JsValue -> string) (stmt : Z) (arg : option JsValue)
  : M unit :=
  match array_argument arg with
  | Some params => BindParameters eng fuel ToString stmt params
  | None => skip
  end.

(** An engine like [engine_two_columns] whose statements declare one
    parameter. *)
Definition engine_query_param : Engine := fun tr c =>
  match c with
  | CallParameterCount _ => reply_rc 1
  | _ => engine_two_columns tr c
  end.

(** *** Data that ends *)

Definition is_nclob_read (c : Call) : bool :=
  match c with CallGetNclobData8 _ _ => true | _ => false end.

(** The engine delivers at most [limit] rows: once [limit] fetches were
    made, a fetch of [stmt] does not succeed. *)
Definition rows_end (eng : Engine) (stmt : Z) (limit : nat) : Prop :=
  forall tr, (limit <= count_calls is_fetch tr)%nat ->
    rc (eng tr (CallFetch stmt)) <> MIMER_SUCCESS.

(** The engine delivers at most [limit] pieces of character data: once
    [limit] reads of character data were made, a read reports no more
    data. *)
Definition character_data_ends (eng : Engine) (limit : nat) : Prop :=
  forall tr lob n, (limit <= count_calls is_nclob_read tr)%nat ->
    rc (eng tr (CallGetNclobData8 lob n)) <= 0.

Definition data_ends (eng : Engine) (stmt : Z) (limit : nat) : Prop :=
  rows_end eng stmt limit /\ character_data_ends eng limit.

(** An engine like [engine_one_param] whose statements change three
    rows. *)
Definition engine_three_rows_changed : Engine := fun tr c =>
  match c with
  | CallExecute _ => reply_rc 3
  | _ => engine_one_param tr c
  end.
End Vocabulary.

(** * Properties *)

Local Open Scope list_scope.

(** ** Running monadic code *)

Lemma bind_run {A B} (m : M A) (f : A -> M B) (w : World) :
  (m ≫= f) w = match m w with Some (a, w') => f a w' | None => None end.
Proof. reflexivity. Qed.

Lemma ret_run {A} (a : A) (w : World) : (mret a : M A) w = Some (a, w).
Proof. reflexivity. Qed.

Lemma bind_Some {A B} (m : M A) (f : A -> M B) w b w2 :
  (m ≫= f) w = Some (b, w2) ->
  exists a w1, m w = Some (a, w1) /\ f a w1 = Some (b, w2).
Proof.
  rewrite bind_run. destruct (m w) as [[a w1]|] eqn:E; [|discriminate].
  intros H. exists a, w1. split; [reflexivity | exact H].
Qed.

Ltac run_step :=
  repeat (rewrite ?bind_run, ?ret_run; cbn [fst snd]).

(** Unfolds the monad and the world primitives, then simplifies. *)
Ltac mrun :=
  cbv beta iota delta
    [mbind M_bind mret M_ret skip modify_world get_world no_result];
  simpl.

Tactic Notation "mrun" "in" hyp(H) :=
  cbv beta iota delta
    [mbind M_bind mret M_ret skip modify_world get_world no_result] in H;
  simpl in H.

(** ** Histories *)

Lemma set_trace_set_trace t1 t2 w :
  set_trace t2 (set_trace t1 w) = set_trace t2 w.
Proof. destruct w; reflexivity. Qed.

Lemma set_trace_nil w : set_trace (trace w ++ []) w = w.
Proof. destruct w; simpl. rewrite app_nil_r. reflexivity. Qed.

Lemma last_status_cons rc0 ev tr :
  last_status rc0 (ev :: tr) = last_status (rc ev.2) tr.
Proof.
  unfold last_status. rewrite last_cons. destruct (last tr); reflexivity.
Qed.

(** On an engine where no call returns a negative status, the last
    status of a history of its answers is not negative. *)
Lemma last_status_answered eng tr0 tr rc0 :
  (forall h c, 0 <= rc (eng h c)) ->
  answered eng tr0 tr -> 0 <= rc0 -> 0 <= last_status rc0 tr.
Proof.
  intros Heng. revert tr0 rc0.
  induction tr as [|ev tr IH]; intros tr0 rc0 Hans Hrc; [exact Hrc|].
  rewrite last_status_cons. destruct Hans as [Hev Hans].
  apply (IH _ _ Hans). rewrite Hev. apply Heng.
Qed.

(** Chunks within the limit [limit] that add up to more than [limit]
    bytes are at least two. *)
Lemma two_chunks (limit : Z) (chunks : list (list byte)) :
  0 <= limit ->
  Forall (fun ch => Z.of_nat (length ch) <= limit) chunks ->
  limit < Z.of_nat (length (concat chunks)) ->
  (2 <= length chunks)%nat.
Proof.
  intros Hlim Hsz Hlen. destruct chunks as [|ch1 [|ch2 rest]].
  - simpl in Hlen. lia.
  - simpl in Hlen. rewrite app_nil_r in Hlen.
    inversion Hsz; subst. lia.
  - simpl. lia.
Qed.

(** ** Column nullability *)

Section Nullability.

Context {api : MimerApi}.
Variable eng : Engine.

Lemma column_nullable_spec (rawType : Z) :
  column_nullable rawType = true <->
  rawType < 0 \/ In rawType native_nullable_codes.
Proof.
  unfold column_nullable, native_nullable_codes. simpl.
  destruct (rawType <? 0) eqn:Hneg.
  - apply Z.ltb_lt in Hneg. split; [intros _; left; exact Hneg | reflexivity].
  - apply Z.ltb_ge in Hneg.
    match goal with
    | |- (if ?b then true else false) = true <-> _ =>
        replace (if b then true else false) with b
          by (destruct b; reflexivity)
    end.
    rewrite !orb_true_iff, !Z.eqb_eq.
    intuition (try lia; try congruence).
Qed.

Lemma build_field_ok stmt col w :
  exists field w',
    build_field eng stmt col w = Some (field, w') /\ nullable_flag_ok field.
Proof.
  unfold build_field, MimerColumnName8, MimerColumnType, engine_call.
  run_step. eexists _, _. split; [reflexivity|].
  eexists _, _, _. split; [reflexivity|].
  split; [reflexivity|]. split; [reflexivity|].
  apply column_nullable_spec.
Qed.

Lemma for_collect_build_field stmt cols : forall w,
  exists fields w',
    for_collect (build_field eng stmt) cols w = Some (fields, w') /\
    length fields = length cols /\
    Forall nullable_flag_ok fields.
Proof.
  induction cols as [|col cols IH]; intros w.
  - exists [], w. repeat split. constructor.
  - destruct (build_field_ok stmt col w) as (field & w1 & Hf & Hok).
    destruct (IH w1) as (fields & w2 & Hfs & Hlen & Hall).
    exists (field :: fields), w2. simpl. run_step. rewrite Hf.
    run_step. rewrite Hfs. run_step.
    split; [reflexivity|]. split; [simpl; congruence | constructor; assumption].
Qed.

(** One iteration of [BuildFieldsArray]: the two calls it makes, and the
    descriptor it builds from the engine's answers. *)
Lemma build_field_run stmt col w :
  let c1 := CallColumnName8 stmt (to_int16 col) in
  let r1 := eng (trace w) c1 in
  let c2 := CallColumnType stmt (to_int16 col) in
  let r2 := eng (trace w ++ [(c1, r1)]) c2 in
  exists field,
    build_field eng stmt col w
    = Some (field, set_trace (trace w ++ [(c1, r1); (c2, r2)]) w) /\
    nullable_flag_of (rc r2) field.
Proof.
  unfold build_field, MimerColumnName8, MimerColumnType, engine_call. mrun.
  eexists. split.
  - unfold set_trace. simpl. rewrite <- app_assoc. reflexivity.
  - eexists _, _. split; [reflexivity|].
    split; [reflexivity|]. split; [reflexivity|].
    apply column_nullable_spec.
Qed.

Lemma for_collect_build_field_run stmt cols : forall w,
  exists fields tr,
    for_collect (build_field eng stmt) cols w
    = Some (fields, set_trace (trace w ++ tr) w) /\
    length fields = length cols /\
    answered eng (trace w) tr /\
    map fst tr = metadata_calls_of stmt cols /\
    forall i field, fields !! i = Some field ->
      exists col r,
        cols !! i = Some col /\
        tr !! (2 * i + 1)%nat = Some (CallColumnType stmt (to_int16 col), r) /\
        nullable_flag_of (rc r) field.
Proof.
  induction cols as [|col cols IH]; intros w.
  - exists [], []. simpl. rewrite set_trace_nil.
    split; [reflexivity|]. split; [reflexivity|]. split; [exact I|].
    split; [reflexivity|]. intros i field Hi. discriminate Hi.
  - destruct (build_field_run stmt col w) as (field & Hf & Hflag).
    cbv zeta in Hf, Hflag.
    set (c1 := CallColumnName8 stmt (to_int16 col)) in *.
    set (r1 := eng (trace w) c1) in *.
    set (c2 := CallColumnType stmt (to_int16 col)) in *.
    set (r2 := eng (trace w ++ [(c1, r1)]) c2) in *.
    destruct (IH (set_trace (trace w ++ [(c1, r1); (c2, r2)]) w))
      as (fields & tr & Hfs & Hlen & Hans & Hcalls & Hall).
    exists (field :: fields), ((c1, r1) :: (c2, r2) :: tr).
    split.
    { simpl for_collect. rewrite bind_run, Hf. cbv beta iota.
      rewrite bind_run, Hfs. rewrite ret_run.
      rewrite set_trace_set_trace. cbn [trace set_trace].
      rewrite <- app_assoc. reflexivity. }
    split; [simpl; rewrite Hlen; reflexivity|].
    split.
    { split; [reflexivity|]. split; [reflexivity|].
      cbn [trace set_trace] in Hans.
      rewrite <- app_assoc. exact Hans. }
    split; [simpl; rewrite Hcalls; reflexivity|].
    intros [|i] fld Hi.
    + injection Hi as <-. exists col, r2. auto.
    + destruct (Hall i fld Hi) as (col' & r & Hcol & Hev & Hfl).
      exists col', r. split; [exact Hcol|]. split; [|exact Hfl].
      replace (2 * S i + 1)%nat with (S (S (2 * i + 1))) by lia.
      exact Hev.
Qed.

(** C6. [BuildFieldsArray] always returns one descriptor per column. It
    asks the engine, column by column, for the name and the type code;
    the [nullable] flag of the descriptor of a column is [true] exactly
    when the type code the engine returned for that column is negative
    or is one of the NULLABLE codes of the native types, and [false] for
    every other code, which is then non-negative. *)
Theorem BuildFieldsArray_nullable (stmt columnCount : Z) (w : World) :
  exists fields tr,
    BuildFieldsArray eng stmt columnCount w
    = Some (JsArray fields, set_trace (trace w ++ tr) w) /\
    length fields = Z.to_nat columnCount /\
    answered eng (trace w) tr /\
    map fst tr = metadata_calls stmt columnCount /\
    forall i field, fields !! i = Some field ->
      exists r,
        tr !! (2 * i + 1)%nat
        = Some (CallColumnType stmt (to_int16 (Z.of_nat i + 1)), r) /\
        nullable_flag_of (rc r) field.
Proof.
  destruct (for_collect_build_field_run stmt (seqZ 1 columnCount) w)
    as (fields & tr & Hrun & Hlen & Hans & Hcalls & Hall).
  exists fields, tr. unfold BuildFieldsArray.
  rewrite bind_run, Hrun. split; [reflexivity|].
  split; [rewrite Hlen; apply length_seqZ|].
  split; [exact Hans|]. split; [exact Hcalls|].
  intros i field Hi.
  destruct (Hall i field Hi) as (col & r & Hcol & Hev & Hflag).
  apply lookup_seqZ in Hcol as [-> _].
  exists r. split; [|exact Hflag].
  replace (Z.of_nat i + 1) with (1 + Z.of_nat i) by lia. exact Hev.
Qed.

End Nullability.

(** Column [1] with raw code [-3] (a nullable INTEGER) and an engine that
    reports it: the descriptor says [nullable: true]. *)
Example BuildFieldsArray_sample :
  let eng : Engine := fun _ c =>
    match c with
    | CallColumnName8 _ _ => mkReply 0 0 0 (S754_zero false) [] "id"
    | CallColumnType _ _ => reply_rc (-3)
    | _ => reply_rc 0
    end in
  fst <$> BuildFieldsArray (api := sample_api) eng 7 1 empty_world =
  Some (JsArray
          [ JsObject [ ("name", JsString "id");
                       ("dataTypeCode", JsNumber (S754_finite true 3 0));
                       ("dataTypeName", JsString "INTEGER");
                       ("nullable", JsBoolean true) ] ]).
Proof. reflexivity. Qed.

(** ** The dispatch of numbers *)

Section Numbers.

Lemma scaled_integer x z e0 :
  double_is_integer x z -> e0 <= exponent_of x -> e0 <= 0 ->
  scaled e0 x = z * 2 ^ (- e0).
Proof.
  destruct x as [s|s| |s m e]; simpl; try contradiction.
  - intros -> _ _. reflexivity.
  - intros Hz He H0.
    rewrite Z.shiftl_mul_pow2 by lia.
    assert (Hs : (if s then - (Z.pos m * 2 ^ (e - e0))
                  else Z.pos m * 2 ^ (e - e0))
                 = (if s then Z.neg m else Z.pos m) * 2 ^ (e - e0))
      by (destruct s; lia).
    rewrite Hs. clear Hs.
    destruct (Z.le_gt_cases 0 e) as [Hpos|Hneg].
    + rewrite Z.max_l, Z.max_r in Hz by lia.
      rewrite Z.pow_0_r, Z.mul_1_r in Hz. subst z.
      replace (e - e0) with (e + - e0) by lia.
      rewrite Z.pow_add_r by lia. ring.
    + rewrite Z.max_r, Z.max_l in Hz by lia.
      rewrite Z.pow_0_r, Z.mul_1_r in Hz. rewrite Hz.
      replace (- e0) with (- e + (e - e0)) by lia.
      rewrite Z.pow_add_r by lia. ring.
Qed.

Lemma double_of_Z_integer c : double_is_integer (double_of_Z c) c.
Proof. destruct c; reflexivity. Qed.

Lemma exponent_of_double_of_Z c : exponent_of (double_of_Z c) = 0.
Proof. destruct c; reflexivity. Qed.

Lemma fcompare_finite x y :
  isfinite x = true -> isfinite y = true ->
  fcompare x y =
  Some (scaled (Z.min (exponent_of x) (exponent_of y)) x
        ?= scaled (Z.min (exponent_of x) (exponent_of y)) y).
Proof. destruct x, y; simpl; intros; try discriminate; reflexivity. Qed.

Lemma double_is_integer_finite x z :
  double_is_integer x z -> isfinite x = true.
Proof. destruct x; simpl; tauto. Qed.

(** Comparing an integral double with an integer constant compares the
    integers. *)
Lemma fcompare_integer x z c :
  double_is_integer x z -> fcompare x (double_of_Z c) = Some (z ?= c).
Proof.
  intros Hz.
  rewrite fcompare_finite
    by (eauto using double_is_integer_finite, double_of_Z_integer).
  rewrite exponent_of_double_of_Z.
  set (e0 := Z.min (exponent_of x) 0).
  rewrite (scaled_integer x z e0), (scaled_integer (double_of_Z c) c e0);
    try (subst e0; lia); auto using double_of_Z_integer.
  - f_equal. symmetry. apply Zmult_compare_compat_r.
    apply Z.lt_gt, Z.pow_pos_nonneg; subst e0; lia.
  - rewrite exponent_of_double_of_Z. subst e0. lia.
Qed.

(** The test [std::trunc(num) == num && std::isfinite(num)] holds exactly
    for the doubles that have an integer value. *)
Lemma integral_test x :
  feq (trunc x) x && isfinite x = true <-> exists z, double_is_integer x z.
Proof.
  destruct x as [s|s| |s m e].
  - split; [intros _; exists 0; reflexivity | intros _; reflexivity].
  - split; [rewrite andb_false_r; discriminate | intros [z []]].
  - split; [discriminate | intros [z []]].
  - rewrite andb_true_r. unfold feq, trunc.
    destruct (0 <=? e) eqn:He.
    + apply Z.leb_le in He.
      rewrite fcompare_finite by reflexivity. rewrite Z.compare_refl.
      split; [intros _ | reflexivity].
      exists ((if s then Z.neg m else Z.pos m) * 2 ^ e). simpl.
      rewrite Z.max_l, Z.max_r by lia. rewrite Z.pow_0_r. lia.
    + apply Z.leb_gt in He.
      assert (HP : 0 < 2 ^ (- e)) by (apply Z.pow_pos_nonneg; lia).
      rewrite Z.shiftr_div_pow2 by lia.
      pose proof (Z.div_mod (Z.pos m) (2 ^ (- e)) ltac:(lia)) as Hdm.
      pose proof (Z.mod_pos_bound (Z.pos m) (2 ^ (- e)) HP) as Hmb.
      pose proof (Z.div_pos (Z.pos m) (2 ^ (- e)) ltac:(lia) HP) as Hq.
      simpl double_is_integer. rewrite Z.max_r, Z.max_l by lia.
      rewrite Z.pow_0_r, Z.mul_1_r.
      destruct (Z.pos m / 2 ^ (- e)) as [|q|q] eqn:Eq; [| |lia].
      * (* the truncation is zero *)
        rewrite fcompare_finite by reflexivity. simpl exponent_of.
        rewrite Z.min_r by lia. simpl scaled.
        rewrite Z.sub_diag, Z.shiftl_0_r.
        split.
        -- destruct s; simpl; discriminate.
        -- intros [z Hz]. exfalso.
           assert (Hlt : Z.pos m < 2 ^ (- e)) by lia.
           assert (Hc : z = 0 \/ 1 <= z \/ z <= -1) by lia.
           destruct s; nia.
      * rewrite fcompare_finite by reflexivity. simpl exponent_of.
        rewrite Z.min_r by lia. simpl scaled.
        rewrite Z.sub_diag, Z.shiftl_0_r.
        rewrite Z.shiftl_mul_pow2 by lia. change (0 - e) with (- e).
        split.
        -- intros H.
           assert (Hm : Z.pos q * 2 ^ (- e) = Z.pos m).
           { destruct s;
               match type of H with
               | context [?a ?= ?b] => destruct (a ?= b) eqn:Ec
               end; try discriminate; apply Z.compare_eq in Ec; lia. }
           exists (if s then Z.neg q else Z.pos q).
           destruct s; rewrite <- ?Pos2Z.opp_pos, <- Hm; ring.
        -- intros [z Hz].
           assert (Hm : Z.pos q * 2 ^ (- e) = Z.pos m).
           { set (k := (if s then - z else z) - Z.pos q).
             assert (Hk : 2 ^ (- e) * k = Z.pos m `mod` 2 ^ (- e))
               by (subst k; destruct s; lia).
             assert (k = 0) by nia. nia. }
           destruct s; rewrite Hm, Z.compare_refl; reflexivity.
Qed.

(** The conversion to an integer type reads the integer value. *)
Lemma Z_of_double_integer x z : double_is_integer x z -> Z_of_double x = z.
Proof.
  destruct x as [s|s| |s m e]; simpl; try tauto; try (intros ->; reflexivity).
  destruct (0 <=? e) eqn:He.
  - apply Z.leb_le in He. rewrite Z.max_l, Z.max_r by lia.
    rewrite Z.pow_0_r, Z.shiftl_mul_pow2 by lia. destruct s; lia.
  - apply Z.leb_gt in He. rewrite Z.max_r, Z.max_l by lia.
    rewrite Z.pow_0_r, Z.shiftr_div_pow2 by lia.
    assert (HP : 0 < 2 ^ (- e)) by (apply Z.pow_pos_nonneg; lia).
    intros Hz. destruct s.
    + assert (Hm : Z.pos m = (- z) * 2 ^ (- e)) by lia.
      rewrite Hm, Z.div_mul by lia. lia.
    + assert (Hm : Z.pos m = z * 2 ^ (- e)) by lia.
      rewrite Hm, Z.div_mul by lia. lia.
Qed.

Lemma in_int32_test x z :
  double_is_integer x z ->
  fge x (double_of_Z INT32_MIN) && fle x (double_of_Z INT32_MAX) = true
  <-> INT32_MIN <= z <= INT32_MAX.
Proof.
  intros Hz. unfold fge, fle.
  rewrite !(fcompare_integer x z) by assumption.
  destruct (z ?= INT32_MIN) eqn:E1; destruct (z ?= INT32_MAX) eqn:E2;
    rewrite ?Z.compare_eq_iff, ?Z.compare_lt_iff, ?Z.compare_gt_iff in *;
    simpl; split; intros H; try reflexivity; try discriminate; try lia.
Qed.

End Numbers.

Section NumberDispatch.

Context {api : MimerApi}.
Variable eng : Engine.
Variable fuel : nat.
Variable ToString : JsValue -> string.

(** C7. A number with an integer value inside the 32-bit signed range is
    bound by [MimerSetInt32] with that value; a number with an integer
    value outside that range is bound by [MimerSetInt64] (with that value
    whenever it fits 64 bits); every other number, fractional or
    non-finite, is bound by [MimerSetDouble] unchanged. *)
Theorem bind_number_dispatch (stmt paramIndex : Z) (num : spec_float)
    (w : World) :
  (forall z, double_is_integer num z -> INT32_MIN <= z <= INT32_MAX ->
     bind_value eng fuel ToString stmt paramIndex (JsNumber num) w
     = MimerSetInt32 eng stmt paramIndex z w)
  /\ (forall z, double_is_integer num z -> ~ (INT32_MIN <= z <= INT32_MAX) ->
        bind_value eng fuel ToString stmt paramIndex (JsNumber num) w
        = MimerSetInt64 eng stmt paramIndex (cast_int64 num) w
        /\ (INT64_MIN <= z <= INT64_MAX -> cast_int64 num = z))
  /\ ((~ exists z, double_is_integer num z) ->
        bind_value eng fuel ToString stmt paramIndex (JsNumber num) w
        = MimerSetDouble eng stmt paramIndex num w).
Proof.
  simpl bind_value. unfold bind_number. repeat split.
  - intros z Hz Hr.
    rewrite (proj2 (integral_test num)) by eauto.
    rewrite (proj2 (in_int32_test num z Hz)) by exact Hr.
    unfold cast_int32. rewrite (Z_of_double_integer num z Hz). reflexivity.
  - rewrite (proj2 (integral_test num)) by eauto.
    destruct (fge num (double_of_Z INT32_MIN)
              && fle num (double_of_Z INT32_MAX)) eqn:E; [|reflexivity].
    apply (in_int32_test num z) in E; [contradiction | assumption].
  - intros Hr. unfold cast_int64.
    rewrite (Z_of_double_integer num z) by assumption.
    destruct Hr as [Hlo Hhi].
    apply Z.leb_le in Hlo. apply Z.leb_le in Hhi. rewrite Hlo, Hhi.
    reflexivity.
  - intros Hno.
    destruct (feq (trunc num) num && isfinite num) eqn:E; [|reflexivity].
    apply integral_test in E. contradiction.
Qed.

End NumberDispatch.

(** The double [42.0], in its canonical form [m * 2^-47], goes through
    [MimerSetInt32] with the value [42]. *)
Lemma bind_number_dispatch_witness :
  bind_value (api := sample_api) engine_ok 0 sample_ToString 7 1
    (JsNumber (S754_finite false 5910974510923776 (-47))) empty_world
  = MimerSetInt32 engine_ok 7 1 42 empty_world.
Proof.
  apply (proj1 (bind_number_dispatch (api := sample_api) engine_ok 0
                  sample_ToString 7 1
                  (S754_finite false 5910974510923776 (-47)) empty_world)).
  - vm_compute. reflexivity.
  - unfold INT32_MIN, INT32_MAX. lia.
Defined.

(** [2^31] is integral but too large for 32 bits; [1.5] and NaN are not
    integral. *)
Example bind_number_samples :
  let call num :=
    trace <$> (snd <$> bind_value (api := sample_api) engine_ok 0
                          sample_ToString 7 1 (JsNumber num) empty_world) in
  call (S754_finite false 4503599627370496 (-21))
    = Some [(CallSetInt64 7 1 2147483648, reply_rc 0)]
  /\ call (S754_finite false 6755399441055744 (-52))
    = Some [(CallSetDouble 7 1 (S754_finite false 6755399441055744 (-52)),
             reply_rc 0)]
  /\ call S754_nan = Some [(CallSetDouble 7 1 S754_nan, reply_rc 0)]
  /\ call (S754_infinity true)
    = Some [(CallSetDouble 7 1 (S754_infinity true), reply_rc 0)]
  /\ call (S754_zero true) = Some [(CallSetInt32 7 1 0, reply_rc 0)].
Proof. vm_compute. repeat split. Qed.

(** ** Stability of computations *)

Section Stable.

Variable R : World -> World -> Prop.
Hypothesis R_refl : forall w, R w w.
Hypothesis R_trans : forall w1 w2 w3, R w1 w2 -> R w2 w3 -> R w1 w3.

Lemma stable_ret {A} (a : A) : stable R (mret a : M A).
Proof. intros w a' w' H. inversion H. apply R_refl. Qed.

Lemma stable_skip : stable R skip.
Proof. intros w a' w' H. inversion H. apply R_refl. Qed.

Lemma stable_no_result {A} : stable R (no_result : M A).
Proof. intros w a w' H. discriminate. Qed.

Lemma stable_get_world : stable R get_world.
Proof. intros w a w' H. inversion H. apply R_refl. Qed.

Lemma stable_bind {A B} (m : M A) (f : A -> M B) :
  stable R m -> (forall a, stable R (f a)) -> stable R (m ≫= f).
Proof.
  intros Hm Hf w b w2 H. apply bind_Some in H as (a & w1 & H1 & H2).
  eapply R_trans; [eapply Hm | eapply Hf]; eassumption.
Qed.

Lemma stable_for_each {A} (body : A -> M unit) (l : list A) :
  (forall x, stable R (body x)) -> stable R (for_each body l).
Proof.
  intros Hb. induction l as [|x l IH]; simpl.
  - apply stable_ret.
  - apply stable_bind; [apply Hb | intros _; exact IH].
Qed.

Lemma stable_for_collect {A B} (body : A -> M B) (l : list A) :
  (forall x, stable R (body x)) -> stable R (for_collect body l).
Proof.
  intros Hb. induction l as [|x l IH]; simpl.
  - apply stable_ret.
  - apply stable_bind; [apply Hb | intros y].
    apply stable_bind; [exact IH | intros ys; apply stable_ret].
Qed.

End Stable.

Create HintDb stable_rel.

(** Reflexivity and transitivity of the relation at hand. *)
Ltac rel_side := first [ assumption | solve [auto with stable_rel] ].

(** Breaks a [stable] goal along the structure of the computation. *)
Ltac stable_step :=
  lazymatch goal with
  | |- stable _ (mbind _ _) => apply stable_bind; [rel_side | | intros ?]
  | |- stable _ (mret _) => apply stable_ret; rel_side
  | |- stable _ skip => apply stable_skip; rel_side
  | |- stable _ no_result => apply stable_no_result
  | |- stable _ get_world => apply stable_get_world; rel_side
  | |- stable _ (for_each _ _) =>
      apply stable_for_each; [rel_side | rel_side | intros ?]
  | |- stable _ (for_collect _ _) =>
      apply stable_for_collect; [rel_side | rel_side | intros ?]
  | |- stable _ (let _ := _ in _) => cbv zeta
  | |- stable _ (if ?b then _ else _) => destruct b
  | |- stable _ (match ?x with _ => _ end) => destruct x
  end.

Ltac stable_auto :=
  repeat (first [ assumption | solve [eauto 3 with stable] | stable_step ]).

Create HintDb stable.

(** ** The helpers only talk to the engine and raise exceptions *)

Section HelperStable.

Context {api : MimerApi}.
Variable eng : Engine.
Variable fuel : nat.
Variable ToString : JsValue -> string.

Variable R : World -> World -> Prop.
Hypothesis R_refl : forall w, R w w.
Hypothesis R_trans : forall w1 w2 w3, R w1 w2 -> R w2 w3 -> R w1 w3.
Hypothesis R_call : forall w c r,
  is_release_call c = false -> R w (set_trace (trace w ++ [(c, r)]) w).
Hypothesis R_pending : forall w p, R w (set_pending p w).

Local Hint Resolve R_refl R_trans : stable.

Lemma stable_engine_call c :
  is_release_call c = false -> stable R (engine_call eng c).
Proof. intros Hc w r w' H. inversion H. apply R_call, Hc. Qed.

Lemma stable_Throw e : stable R (ThrowAsJavaScriptException e).
Proof.
  intros w a w' H. unfold ThrowAsJavaScriptException, modify_world in H.
  inversion H. destruct (pending w); [apply R_refl | apply R_pending].
Qed.

Lemma stable_IsExceptionPending : stable R (IsExceptionPending).
Proof. unfold IsExceptionPending. stable_auto. Qed.

Local Hint Resolve stable_Throw stable_IsExceptionPending : stable.

Lemma stable_ThrowMimerError code op detail :
  stable R (ThrowMimerError code op detail).
Proof. apply stable_Throw. Qed.

Local Hint Resolve stable_ThrowMimerError : stable.

(** Every wrapper of a call that releases nothing. *)
Ltac stable_wrapper :=
  intros; apply stable_bind;
  [ assumption
  | apply stable_engine_call; reflexivity
  | intros ?; apply stable_ret; assumption ].

Lemma stable_MimerGetError8 s : stable R (MimerGetError8 eng s).
Proof. stable_wrapper. Qed.
Lemma stable_MimerBeginStatement8 s q m :
  stable R (MimerBeginStatement8 eng s q m).
Proof. stable_wrapper. Qed.
Lemma stable_MimerExecuteStatement8 s q :
  stable R (MimerExecuteStatement8 eng s q).
Proof. stable_wrapper. Qed.
Lemma stable_MimerBeginTransaction s m :
  stable R (MimerBeginTransaction eng s m).
Proof. stable_wrapper. Qed.
Lemma stable_MimerEndTransaction s m : stable R (MimerEndTransaction eng s m).
Proof. stable_wrapper. Qed.
Lemma stable_MimerBeginSession8 d u p :
  stable R (MimerBeginSession8 eng d u p).
Proof. stable_wrapper. Qed.
Lemma stable_MimerColumnCount s : stable R (MimerColumnCount eng s).
Proof. stable_wrapper. Qed.
Lemma stable_MimerColumnName8 s c : stable R (MimerColumnName8 eng s c).
Proof. stable_wrapper. Qed.
Lemma stable_MimerColumnType s c : stable R (MimerColumnType eng s c).
Proof. stable_wrapper. Qed.
Lemma stable_MimerParameterCount s : stable R (MimerParameterCount eng s).
Proof. stable_wrapper. Qed.
Lemma stable_MimerParameterType s i : stable R (MimerParameterType eng s i).
Proof. stable_wrapper. Qed.
Lemma stable_MimerOpenCursor s : stable R (MimerOpenCursor eng s).
Proof. stable_wrapper. Qed.
Lemma stable_MimerFetch s : stable R (MimerFetch eng s).
Proof. stable_wrapper. Qed.
Lemma stable_MimerExecute s : stable R (MimerExecute eng s).
Proof. stable_wrapper. Qed.
Lemma stable_MimerSetNull s i : stable R (MimerSetNull eng s i).
Proof. stable_wrapper. Qed.
Lemma stable_MimerSetBoolean s i v : stable R (MimerSetBoolean eng s i v).
Proof. stable_wrapper. Qed.
Lemma stable_MimerSetInt32 s i v : stable R (MimerSetInt32 eng s i v).
Proof. stable_wrapper. Qed.
Lemma stable_MimerSetInt64 s i v : stable R (MimerSetInt64 eng s i v).
Proof. stable_wrapper. Qed.
Lemma stable_MimerSetDouble s i v : stable R (MimerSetDouble eng s i v).
Proof. stable_wrapper. Qed.
Lemma stable_MimerSetString8 s i v : stable R (MimerSetString8 eng s i v).
Proof. stable_wrapper. Qed.
Lemma stable_MimerSetBinary s i v : stable R (MimerSetBinary eng s i v).
Proof. stable_wrapper. Qed.
Lemma stable_MimerSetLob s i v : stable R (MimerSetLob eng s i v).
Proof. stable_wrapper. Qed.
Lemma stable_MimerSetNclobData8 l c : stable R (MimerSetNclobData8 eng l c).
Proof. stable_wrapper. Qed.
Lemma stable_MimerSetBlobData l c : stable R (MimerSetBlobData eng l c).
Proof. stable_wrapper. Qed.
Lemma stable_MimerIsNull s c : stable R (MimerIsNull eng s c).
Proof. stable_wrapper. Qed.
Lemma stable_MimerGetInt32 s c : stable R (MimerGetInt32 eng s c).
Proof. stable_wrapper. Qed.
Lemma stable_MimerGetInt64 s c : stable R (MimerGetInt64 eng s c).
Proof. stable_wrapper. Qed.
Lemma stable_MimerGetDouble s c : stable R (MimerGetDouble eng s c).
Proof. stable_wrapper. Qed.
Lemma stable_MimerGetFloat s c : stable R (MimerGetFloat eng s c).
Proof. stable_wrapper. Qed.
Lemma stable_MimerGetBoolean s c : stable R (MimerGetBoolean eng s c).
Proof. stable_wrapper. Qed.
Lemma stable_MimerGetLob s c : stable R (MimerGetLob eng s c).
Proof. stable_wrapper. Qed.
Lemma stable_MimerGetBlobData l n : stable R (MimerGetBlobData eng l n).
Proof. stable_wrapper. Qed.
Lemma stable_MimerGetNclobData8 l n : stable R (MimerGetNclobData8 eng l n).
Proof. stable_wrapper. Qed.
Lemma stable_MimerGetBinary s c n : stable R (MimerGetBinary eng s c n).
Proof. stable_wrapper. Qed.
Lemma stable_MimerGetString8 s c n : stable R (MimerGetString8 eng s c n).
Proof. stable_wrapper. Qed.

Local Hint Resolve
  stable_MimerGetError8 stable_MimerBeginStatement8
  stable_MimerExecuteStatement8 stable_MimerBeginTransaction
  stable_MimerEndTransaction stable_MimerBeginSession8
  stable_MimerColumnCount stable_MimerColumnName8 stable_MimerColumnType
  stable_MimerParameterCount stable_MimerParameterType stable_MimerOpenCursor
  stable_MimerFetch stable_MimerExecute stable_MimerSetNull
  stable_MimerSetBoolean stable_MimerSetInt32 stable_MimerSetInt64
  stable_MimerSetDouble stable_MimerSetString8 stable_MimerSetBinary
  stable_MimerSetLob stable_MimerSetNclobData8 stable_MimerSetBlobData
  stable_MimerIsNull stable_MimerGetInt32 stable_MimerGetInt64
  stable_MimerGetDouble stable_MimerGetFloat stable_MimerGetBoolean
  stable_MimerGetLob stable_MimerGetBlobData stable_MimerGetNclobData8
  stable_MimerGetBinary stable_MimerGetString8 : stable.

Lemma stable_build_field stmt col : stable R (build_field eng stmt col).
Proof. unfold build_field. stable_auto. Qed.

Lemma stable_BuildFieldsArray stmt n : stable R (BuildFieldsArray eng stmt n).
Proof.
  unfold BuildFieldsArray. stable_auto. apply stable_build_field.
Qed.

Lemma stable_CacheColumnMetadata stmt n :
  stable R (CacheColumnMetadata eng stmt n).
Proof. unfold CacheColumnMetadata, cache_column. stable_auto. Qed.

Lemma stable_nclob_write_loop limit n lob data : forall remaining offset rc0,
  stable R (nclob_write_loop eng limit n lob data remaining offset rc0).
Proof.
  induction n as [|n IH]; intros; simpl; stable_auto.
Qed.

Lemma stable_blob_write_loop n lob data : forall remaining offset rc0,
  stable R (blob_write_loop eng n lob data remaining offset rc0).
Proof.
  induction n as [|n IH]; intros; simpl; stable_auto.
Qed.

Local Hint Resolve stable_nclob_write_loop stable_blob_write_loop : stable.

Lemma stable_bind_value stmt idx val :
  stable R (bind_value eng fuel ToString stmt idx val).
Proof.
  unfold bind_value, bind_number, bind_string, bind_buffer.
  destruct val; stable_auto.
Qed.

Local Hint Resolve stable_bind_value : stable.

Lemma stable_bind_loop stmt params indices :
  stable R (bind_loop eng fuel ToString stmt params indices).
Proof.
  induction indices as [|i rest IH]; simpl; stable_auto.
Qed.

Lemma stable_BindParameters stmt params :
  stable R (BindParameters eng fuel ToString stmt params).
Proof.
  unfold BindParameters. stable_auto. apply stable_bind_loop.
Qed.

Lemma stable_blob_read_loop n lob : forall remaining buf rc0,
  stable R (blob_read_loop eng n lob remaining buf rc0).
Proof.
  induction n as [|n IH]; intros; simpl; stable_auto.
Qed.

Lemma stable_nclob_read_loop n lob : forall result,
  stable R (nclob_read_loop eng n lob result).
Proof.
  induction n as [|n IH]; intros; simpl; stable_auto.
Qed.

Local Hint Resolve stable_blob_read_loop stable_nclob_read_loop : stable.

Lemma stable_fetch_column stmt col name ty row :
  stable R (fetch_column eng fuel stmt col name ty row).
Proof. unfold fetch_column. stable_auto. Qed.

Local Hint Resolve stable_fetch_column : stable.

Lemma stable_fetch_columns stmt names types cols : forall row,
  stable R (fetch_columns eng fuel stmt names types cols row).
Proof.
  induction cols as [|col rest IH]; intros; simpl; stable_auto.
Qed.

Lemma stable_FetchSingleRow stmt n names types :
  stable R (FetchSingleRow eng fuel stmt n names types).
Proof.
  unfold FetchSingleRow. stable_auto. apply stable_fetch_columns.
Qed.

Local Hint Resolve stable_FetchSingleRow : stable.

Lemma stable_fetch_loop k stmt n names types : forall rows,
  stable R (fetch_loop eng fuel k stmt n names types rows).
Proof.
  induction k as [|k IH]; intros; simpl; stable_auto.
Qed.

Lemma stable_FetchResults stmt n : stable R (FetchResults eng fuel stmt n).
Proof.
  unfold FetchResults. stable_auto.
  - apply stable_CacheColumnMetadata.
  - apply stable_fetch_loop.
Qed.

End HelperStable.

(** ** The helpers leave the objects alone and release nothing *)

Lemma same_objects_refl w : same_objects w w.
Proof. repeat split. Qed.

Lemma same_objects_trans w1 w2 w3 :
  same_objects w1 w2 -> same_objects w2 w3 -> same_objects w1 w3.
Proof.
  intros (A1 & A2 & A3) (B1 & B2 & B3). repeat split; congruence.
Qed.

Lemma trace_extends_refl P w : trace_extends P w w.
Proof. exists []. split; [symmetry; apply app_nil_r | constructor]. Qed.

Lemma trace_extends_trans P w1 w2 w3 :
  trace_extends P w1 w2 -> trace_extends P w2 w3 -> trace_extends P w1 w3.
Proof.
  intros (t1 & E1 & F1) (t2 & E2 & F2). exists (t1 ++ t2). split.
  - rewrite E2, E1. symmetry. apply app_assoc.
  - apply Forall_app. split; assumption.
Qed.

Lemma helper_step_refl w : helper_step w w.
Proof. split; [apply same_objects_refl | apply trace_extends_refl]. Qed.

Lemma helper_step_trans w1 w2 w3 :
  helper_step w1 w2 -> helper_step w2 w3 -> helper_step w1 w3.
Proof.
  intros [A1 A2] [B1 B2].
  split; [eapply same_objects_trans | eapply trace_extends_trans]; eassumption.
Qed.

Lemma helper_step_call w c r :
  is_release_call c = false ->
  helper_step w (set_trace (trace w ++ [(c, r)]) w).
Proof.
  intros Hc. split; [repeat split|].
  exists [(c, r)]. split; [reflexivity|].
  constructor; [simpl; rewrite Hc; reflexivity | constructor].
Qed.

Lemma helper_step_pending w p : helper_step w (set_pending p w).
Proof.
  split; [repeat split|]. exists []. split; [|constructor].
  simpl. symmetry. apply app_nil_r.
Qed.

#[export] Hint Resolve helper_step_refl helper_step_trans : stable_rel.

Section HelperStep.

Context {api : MimerApi}.
Variable eng : Engine.
Variable fuel : nat.
Variable ToString : JsValue -> string.

Lemma BindParameters_helper stmt params :
  stable helper_step (BindParameters eng fuel ToString stmt params).
Proof.
  apply stable_BindParameters;
    first [ exact helper_step_refl | exact helper_step_trans
          | exact helper_step_call | exact helper_step_pending ].
Qed.

Lemma BuildFieldsArray_helper stmt n :
  stable helper_step (BuildFieldsArray eng stmt n).
Proof.
  apply stable_BuildFieldsArray;
    first [ exact helper_step_refl | exact helper_step_trans
          | exact helper_step_call | exact helper_step_pending ].
Qed.

Lemma CacheColumnMetadata_helper stmt n :
  stable helper_step (CacheColumnMetadata eng stmt n).
Proof.
  apply stable_CacheColumnMetadata;
    first [ exact helper_step_refl | exact helper_step_trans
          | exact helper_step_call | exact helper_step_pending ].
Qed.

Lemma FetchSingleRow_helper stmt n names types :
  stable helper_step (FetchSingleRow eng fuel stmt n names types).
Proof.
  apply stable_FetchSingleRow;
    first [ exact helper_step_refl | exact helper_step_trans
          | exact helper_step_call | exact helper_step_pending ].
Qed.

Lemma FetchResults_helper stmt n :
  stable helper_step (FetchResults eng fuel stmt n).
Proof.
  apply stable_FetchResults;
    first [ exact helper_step_refl | exact helper_step_trans
          | exact helper_step_call | exact helper_step_pending ].
Qed.

End HelperStep.

(** ** Releasing, invalidating and closing one entity *)

Lemma world_eta w :
  mkWorld (trace w) (pending w) (connections w) (statements w) (resultsets w)
  = w.
Proof. destruct w; reflexivity. Qed.

Section Lifecycle.

Context {api : MimerApi}.
Variable eng : Engine.

Lemma stmt_release_run p w s :
  statements w !! p = Some s ->
  stmt_release eng p w =
  Some (stmt_open s,
        mkWorld (trace w ++ stmt_release_trace eng (trace w) s) (pending w)
          (connections w)
          (<[p := mkStmt (stmt_released_handle eng (trace w) s)
                    (columnCount_ s) (closed_ s) (parentConnection_ s)]>
             (statements w))
          (resultsets w)).
Proof.
  intros Hs. unfold stmt_release, get_stmt. rewrite bind_run, Hs.
  unfold stmt_release_trace, stmt_released_handle, stmt_open.
  destruct (negb (closed_ s) && negb (stmt_ s =? MIMERNULLHANDLE)).
  - reflexivity.
  - rewrite ret_run, app_nil_r. do 2 f_equal.
    rewrite insert_id; [symmetry; apply world_eta|].
    rewrite Hs. destruct s; reflexivity.
Qed.

Lemma Stmt_Invalidate_run p w s :
  statements w !! p = Some s ->
  MimerStmtWrapper_Invalidate eng p w =
  Some (tt,
        mkWorld (trace w ++ stmt_release_trace eng (trace w) s) (pending w)
          (connections w)
          (<[p := stmt_closed_state eng (trace w) s]> (statements w))
          (resultsets w)).
Proof.
  intros Hs. unfold MimerStmtWrapper_Invalidate.
  rewrite bind_run, (stmt_release_run p w s Hs).
  unfold get_stmt, put_stmt, modify_world. rewrite bind_run. simpl.
  rewrite lookup_insert_eq. simpl. rewrite insert_insert_eq. reflexivity.
Qed.

Lemma Stmt_CloseInternal_run p w s :
  statements w !! p = Some s ->
  parent_live (parentConnection_ s) w ->
  MimerStmtWrapper_CloseInternal eng p w =
  Some (tt,
        mkWorld (trace w ++ stmt_release_trace eng (trace w) s) (pending w)
          (unregistered (conn_without_stmt p) (parentConnection_ s)
             (connections w))
          (<[p := stmt_closed_state eng (trace w) s]> (statements w))
          (resultsets w)).
Proof.
  intros Hs Hp. unfold MimerStmtWrapper_CloseInternal.
  rewrite bind_run, (stmt_release_run p w s Hs).
  unfold get_stmt, put_stmt, modify_world. rewrite bind_run. simpl.
  rewrite lookup_insert_eq. simpl. rewrite bind_run. simpl.
  rewrite insert_insert_eq.
  unfold unregistered, stmt_closed_state.
  destruct (parentConnection_ s) as [c|] eqn:Hc; simpl.
  - destruct Hp as [cn Hcn]. rewrite Hcn.
    unfold MimerConnection_UnregisterStatement, get_conn, put_conn,
      modify_world.
    rewrite !bind_run. simpl. rewrite Hcn. simpl.
    rewrite insert_insert_eq. reflexivity.
  - reflexivity.
Qed.

Lemma Stmt_delete_run p w s :
  statements w !! p = Some s ->
  parent_live (parentConnection_ s) w ->
  MimerStmtWrapper_delete eng p w =
  Some (tt,
        mkWorld (trace w ++ stmt_release_trace eng (trace w) s) (pending w)
          (if stmt_open s
           then unregistered (conn_without_stmt p) (parentConnection_ s)
                  (connections w)
           else connections w)
          (delete p (statements w))
          (resultsets w)).
Proof.
  intros Hs Hp. unfold MimerStmtWrapper_delete.
  rewrite bind_run, (stmt_release_run p w s Hs).
  unfold get_stmt, modify_world. rewrite bind_run. simpl.
  rewrite lookup_insert_eq. simpl. rewrite bind_run.
  destruct (stmt_open s); simpl.
  - unfold unregistered.
    destruct (parentConnection_ s) as [c|] eqn:Hc; simpl.
    + destruct Hp as [cn Hcn]. rewrite Hcn.
      unfold MimerConnection_UnregisterStatement, get_conn, put_conn,
        modify_world.
      rewrite !bind_run. simpl. rewrite Hcn. simpl.
      rewrite delete_insert_eq. reflexivity.
    + rewrite delete_insert_eq. reflexivity.
  - rewrite delete_insert_eq. reflexivity.
Qed.

Lemma rs_release_run p w r :
  resultsets w !! p = Some r ->
  rs_release eng p w =
  Some (rs_open r,
        mkWorld (trace w ++ rs_release_trace eng (trace w) r) (pending w)
          (connections w) (statements w)
          (<[p := mkResultSet (rs_released_handle eng (trace w) r)
                    (rs_columnCount_ r) (colNames_ r) (colTypes_ r)
                    (rs_closed_ r) (exhausted_ r) (rs_parentConnection_ r)]>
             (resultsets w))).
Proof.
  intros Hr. unfold rs_release, get_rs. rewrite bind_run, Hr.
  unfold rs_release_trace, rs_released_handle, rs_open.
  destruct (negb (rs_closed_ r) && negb (rs_stmt_ r =? MIMERNULLHANDLE)).
  - unfold MimerCloseCursor, MimerEndStatement, engine_call, put_rs,
      modify_world.
    mrun. rewrite <- app_assoc. reflexivity.
  - rewrite ret_run, app_nil_r. do 2 f_equal.
    rewrite insert_id; [symmetry; apply world_eta|].
    rewrite Hr. destruct r; reflexivity.
Qed.

Lemma Rs_Invalidate_run p w r :
  resultsets w !! p = Some r ->
  MimerResultSetWrapper_Invalidate eng p w =
  Some (tt,
        mkWorld (trace w ++ rs_release_trace eng (trace w) r) (pending w)
          (connections w) (statements w)
          (<[p := rs_closed_state eng (trace w) r]> (resultsets w))).
Proof.
  intros Hr. unfold MimerResultSetWrapper_Invalidate.
  rewrite bind_run, (rs_release_run p w r Hr).
  unfold get_rs, put_rs, modify_world. rewrite bind_run. simpl.
  rewrite lookup_insert_eq. simpl. rewrite insert_insert_eq. reflexivity.
Qed.

Lemma Rs_CloseInternal_run p w r :
  resultsets w !! p = Some r ->
  parent_live (rs_parentConnection_ r) w ->
  MimerResultSetWrapper_CloseInternal eng p w =
  Some (tt,
        mkWorld (trace w ++ rs_release_trace eng (trace w) r) (pending w)
          (unregistered (conn_without_rs p) (rs_parentConnection_ r)
             (connections w))
          (statements w)
          (<[p := rs_closed_state eng (trace w) r]> (resultsets w))).
Proof.
  intros Hr Hp. unfold MimerResultSetWrapper_CloseInternal.
  rewrite bind_run, (rs_release_run p w r Hr).
  unfold get_rs, put_rs, modify_world. rewrite bind_run. simpl.
  rewrite lookup_insert_eq. simpl. rewrite bind_run. simpl.
  rewrite insert_insert_eq.
  unfold unregistered, rs_closed_state.
  destruct (rs_parentConnection_ r) as [c|] eqn:Hc; simpl.
  - destruct Hp as [cn Hcn]. rewrite Hcn.
    unfold MimerConnection_UnregisterResultSet, get_conn, put_conn,
      modify_world.
    rewrite !bind_run. simpl. rewrite Hcn. simpl.
    rewrite insert_insert_eq. reflexivity.
  - reflexivity.
Qed.

Lemma Rs_delete_run p w r :
  resultsets w !! p = Some r ->
  parent_live (rs_parentConnection_ r) w ->
  MimerResultSetWrapper_delete eng p w =
  Some (tt,
        mkWorld (trace w ++ rs_release_trace eng (trace w) r) (pending w)
          (unregistered (conn_without_rs p) (rs_parentConnection_ r)
             (connections w))
          (statements w)
          (delete p (resultsets w))).
Proof.
  intros Hr Hp. unfold MimerResultSetWrapper_delete.
  rewrite bind_run, (Rs_CloseInternal_run p w r Hr Hp).
  unfold modify_world. simpl. rewrite delete_insert_eq. reflexivity.
Qed.

End Lifecycle.

(** ** Closing is idempotent *)

Section Idempotent.

Context {api : MimerApi}.
Variable eng : Engine.

Lemma stmt_closed_not_open s : closed_ s = true -> stmt_open s = false.
Proof. unfold stmt_open. intros ->. reflexivity. Qed.

Lemma rs_closed_not_open r : rs_closed_ r = true -> rs_open r = false.
Proof. unfold rs_open. intros ->. reflexivity. Qed.

(** The first lifecycle call closes the statement and clears its parent. *)
Lemma stmt_lifecycle_first p c w s :
  statements w !! p = Some s ->
  parent_live (parentConnection_ s) w ->
  exists w1,
    stmt_lifecycle eng p c w = Some (tt, w1) /\
    trace w1 = trace w ++ stmt_release_trace eng (trace w) s /\
    statements w1 !! p = Some (stmt_closed_state eng (trace w) s).
Proof.
  intros Hs Hp. destruct c; simpl.
  - unfold MimerStmtWrapper_Close. rewrite !bind_run.
    rewrite (Stmt_CloseInternal_run eng p w s Hs Hp). mrun.
    eexists. split; [reflexivity|]. split; [reflexivity|].
    simpl. apply lookup_insert_eq.
  - rewrite (Stmt_Invalidate_run eng p w s Hs).
    eexists. split; [reflexivity|]. split; [reflexivity|].
    simpl. apply lookup_insert_eq.
Qed.

(** On a closed statement without parent, a lifecycle call changes
    nothing at all. *)
Lemma stmt_lifecycle_closed p c w s :
  statements w !! p = Some s ->
  closed_ s = true -> parentConnection_ s = None ->
  stmt_lifecycle eng p c w = Some (tt, w).
Proof.
  intros Hs Hc Hp.
  assert (Hw : mkWorld (trace w ++ stmt_release_trace eng (trace w) s)
                 (pending w) (connections w)
                 (<[p := stmt_closed_state eng (trace w) s]> (statements w))
                 (resultsets w) = w).
  { unfold stmt_release_trace, stmt_closed_state, stmt_released_handle.
    rewrite (stmt_closed_not_open s Hc), app_nil_r.
    rewrite insert_id; [apply world_eta|].
    rewrite Hs. destruct s; simpl in *. congruence. }
  destruct c; simpl.
  - unfold MimerStmtWrapper_Close. rewrite !bind_run.
    rewrite (Stmt_CloseInternal_run eng p w s Hs)
      by (rewrite Hp; exact I).
    rewrite Hp. simpl unregistered. rewrite Hw. reflexivity.
  - rewrite (Stmt_Invalidate_run eng p w s Hs), Hw. reflexivity.
Qed.

Lemma stmt_lifecycle_closed_all p calls w s :
  statements w !! p = Some s ->
  closed_ s = true -> parentConnection_ s = None ->
  for_each (stmt_lifecycle eng p) calls w = Some (tt, w).
Proof.
  intros Hs Hc Hp. induction calls as [|c calls IH]; [reflexivity|].
  simpl. rewrite bind_run, (stmt_lifecycle_closed p c w s Hs Hc Hp).
  exact IH.
Qed.

Lemma rs_lifecycle_first p c w r :
  resultsets w !! p = Some r ->
  parent_live (rs_parentConnection_ r) w ->
  exists w1,
    rs_lifecycle eng p c w = Some (tt, w1) /\
    trace w1 = trace w ++ rs_release_trace eng (trace w) r /\
    resultsets w1 !! p = Some (rs_closed_state eng (trace w) r).
Proof.
  intros Hr Hp. destruct c; simpl.
  - unfold MimerResultSetWrapper_Close. rewrite !bind_run.
    rewrite (Rs_CloseInternal_run eng p w r Hr Hp). mrun.
    eexists. split; [reflexivity|]. split; [reflexivity|].
    simpl. apply lookup_insert_eq.
  - rewrite (Rs_Invalidate_run eng p w r Hr).
    eexists. split; [reflexivity|]. split; [reflexivity|].
    simpl. apply lookup_insert_eq.
Qed.

Lemma rs_lifecycle_closed p c w r :
  resultsets w !! p = Some r ->
  rs_closed_ r = true -> rs_parentConnection_ r = None ->
  rs_lifecycle eng p c w = Some (tt, w).
Proof.
  intros Hr Hc Hp.
  assert (Hw : mkWorld (trace w ++ rs_release_trace eng (trace w) r)
                 (pending w) (connections w) (statements w)
                 (<[p := rs_closed_state eng (trace w) r]> (resultsets w))
               = w).
  { unfold rs_release_trace, rs_closed_state, rs_released_handle.
    rewrite (rs_closed_not_open r Hc), app_nil_r.
    rewrite insert_id; [apply world_eta|].
    rewrite Hr. destruct r; simpl in *. congruence. }
  destruct c; simpl.
  - unfold MimerResultSetWrapper_Close. rewrite !bind_run.
    rewrite (Rs_CloseInternal_run eng p w r Hr)
      by (rewrite Hp; exact I).
    rewrite Hp. simpl unregistered. rewrite Hw. reflexivity.
  - rewrite (Rs_Invalidate_run eng p w r Hr), Hw. reflexivity.
Qed.

Lemma rs_lifecycle_closed_all p calls w r :
  resultsets w !! p = Some r ->
  rs_closed_ r = true -> rs_parentConnection_ r = None ->
  for_each (rs_lifecycle eng p) calls w = Some (tt, w).
Proof.
  intros Hr Hc Hp. induction calls as [|c calls IH]; [reflexivity|].
  simpl. rewrite bind_run, (rs_lifecycle_closed p c w r Hr Hc Hp).
  exact IH.
Qed.

Lemma stmt_release_trace_count tr s :
  (count_calls is_end_statement (stmt_release_trace eng tr s) <= 1)%nat.
Proof.
  unfold stmt_release_trace, count_calls.
  destruct (stmt_open s); simpl; lia.
Qed.

Lemma rs_release_trace_count tr r :
  (count_calls is_end_statement (rs_release_trace eng tr r) <= 1)%nat /\
  (count_calls is_close_cursor (rs_release_trace eng tr r) <= 1)%nat.
Proof.
  unfold rs_release_trace, count_calls.
  destruct (rs_open r); simpl; lia.
Qed.

Lemma stmt_delete_closed p w s :
  statements w !! p = Some s ->
  closed_ s = true -> parentConnection_ s = None ->
  MimerStmtWrapper_delete eng p w =
  Some (tt, set_statements (delete p (statements w)) w).
Proof.
  intros Hs Hc Hp.
  rewrite (Stmt_delete_run eng p w s Hs) by (rewrite Hp; exact I).
  unfold stmt_release_trace. rewrite (stmt_closed_not_open s Hc), app_nil_r.
  reflexivity.
Qed.

Lemma rs_delete_closed p w r :
  resultsets w !! p = Some r ->
  rs_closed_ r = true -> rs_parentConnection_ r = None ->
  MimerResultSetWrapper_delete eng p w =
  Some (tt, set_resultsets (delete p (resultsets w)) w).
Proof.
  intros Hr Hc Hp.
  rewrite (Rs_delete_run eng p w r Hr) by (rewrite Hp; exact I).
  unfold rs_release_trace. rewrite (rs_closed_not_open r Hc), app_nil_r.
  rewrite Hp. reflexivity.
Qed.

(** C10. Take any sequence of [close()] and [invalidate()] calls on a
    statement or a result set, followed or not by its destructor. The
    sequence runs to completion, the engine sees at most one end-statement
    call (and, for a result set, at most one close-cursor call), and after
    the first call the entity is closed with its parent cleared: every
    later call of the sequence leaves the whole world as it is, and the
    destructor then only frees the instance. *)
Theorem lifecycle_releases_once (p : positive) (w : World)
    (calls : list LifecycleCall) (destroy : bool) :
  (forall s, statements w !! p = Some s ->
     parent_live (parentConnection_ s) w ->
     exists w' tr,
       stmt_lifecycle_seq eng p calls destroy w = Some (tt, w') /\
       trace w' = trace w ++ tr /\
       (count_calls is_end_statement tr <= 1)%nat /\
       forall c rest, calls = c :: rest ->
         exists w1 s1,
           stmt_lifecycle eng p c w = Some (tt, w1) /\
           statements w1 !! p = Some s1 /\
           closed_ s1 = true /\ parentConnection_ s1 = None /\
           for_each (stmt_lifecycle eng p) rest w1 = Some (tt, w1) /\
           MimerStmtWrapper_delete eng p w1 =
             Some (tt, set_statements (delete p (statements w1)) w1))
  /\
  (forall r, resultsets w !! p = Some r ->
     parent_live (rs_parentConnection_ r) w ->
     exists w' tr,
       rs_lifecycle_seq eng p calls destroy w = Some (tt, w') /\
       trace w' = trace w ++ tr /\
       (count_calls is_end_statement tr <= 1)%nat /\
       (count_calls is_close_cursor tr <= 1)%nat /\
       forall c rest, calls = c :: rest ->
         exists w1 r1,
           rs_lifecycle eng p c w = Some (tt, w1) /\
           resultsets w1 !! p = Some r1 /\
           rs_closed_ r1 = true /\ rs_parentConnection_ r1 = None /\
           for_each (rs_lifecycle eng p) rest w1 = Some (tt, w1) /\
           MimerResultSetWrapper_delete eng p w1 =
             Some (tt, set_resultsets (delete p (resultsets w1)) w1)).
Proof.
  split.
  - intros s Hs Hp. unfold stmt_lifecycle_seq.
    destruct calls as [|c rest].
    + simpl for_each. rewrite bind_run, ret_run. destruct destroy.
      * rewrite (Stmt_delete_run eng p w s Hs Hp).
        eexists _, _. split; [reflexivity|]. split; [reflexivity|].
        split; [apply stmt_release_trace_count | discriminate].
      * exists w, []. split; [reflexivity|].
        split; [symmetry; apply app_nil_r|].
        split; [unfold count_calls; simpl; lia | discriminate].
    + destruct (stmt_lifecycle_first p c w s Hs Hp) as (w1 & H1 & Ht & Hs1).
      pose proof (stmt_lifecycle_closed_all p rest w1 _ Hs1 eq_refl eq_refl)
        as Hrest.
      pose proof (stmt_delete_closed p w1 _ Hs1 eq_refl eq_refl) as Hdel.
      exists (if destroy then set_statements (delete p (statements w1)) w1
              else w1), (stmt_release_trace eng (trace w) s).
      split; [|split; [|split]].
      * simpl for_each. rewrite !bind_run, H1, Hrest.
        destruct destroy; [exact Hdel | reflexivity].
      * destruct destroy; exact Ht.
      * apply stmt_release_trace_count.
      * intros c' rest' E. injection E as <- <-.
        exists w1, (stmt_closed_state eng (trace w) s). repeat split; auto.
  - intros r Hr Hp. unfold rs_lifecycle_seq.
    destruct calls as [|c rest].
    + simpl for_each. rewrite bind_run, ret_run. destruct destroy.
      * rewrite (Rs_delete_run eng p w r Hr Hp).
        eexists _, _. split; [reflexivity|]. split; [reflexivity|].
        split; [apply rs_release_trace_count|].
        split; [apply rs_release_trace_count | discriminate].
      * exists w, []. split; [reflexivity|].
        split; [symmetry; apply app_nil_r|].
        split; [unfold count_calls; simpl; lia|].
        split; [unfold count_calls; simpl; lia | discriminate].
    + destruct (rs_lifecycle_first p c w r Hr Hp) as (w1 & H1 & Ht & Hr1).
      pose proof (rs_lifecycle_closed_all p rest w1 _ Hr1 eq_refl eq_refl)
        as Hrest.
      pose proof (rs_delete_closed p w1 _ Hr1 eq_refl eq_refl) as Hdel.
      exists (if destroy then set_resultsets (delete p (resultsets w1)) w1
              else w1), (rs_release_trace eng (trace w) r).
      split; [|split; [|split; [|split]]].
      * simpl for_each. rewrite !bind_run, H1, Hrest.
        destruct destroy; [exact Hdel | reflexivity].
      * destruct destroy; exact Ht.
      * apply rs_release_trace_count.
      * apply rs_release_trace_count.
      * intros c' rest' E. injection E as <- <-.
        exists w1, (rs_closed_state eng (trace w) r). repeat split; auto.
Qed.

End Idempotent.

(** [close(); invalidate(); close()] and the destructor on the sample
    statement: the engine sees one end-statement call. *)
Lemma lifecycle_releases_once_witness :
  exists w' tr,
    stmt_lifecycle_seq (api := sample_api) engine_ok 1
      [DoClose; DoInvalidate; DoClose] true sample_world = Some (tt, w') /\
    trace w' = trace sample_world ++ tr /\
    (count_calls is_end_statement tr <= 1)%nat.
Proof.
  destruct (proj1 (lifecycle_releases_once (api := sample_api) engine_ok 1
                     sample_world [DoClose; DoInvalidate; DoClose] true)
              sample_stmt eq_refl)
    as (w' & tr & Hrun & Htr & Hcount & _).
  - simpl. exists sample_conn. reflexivity.
  - exists w', tr. repeat split; assumption.
Defined.

Example lifecycle_sample_trace :
  trace <$> (snd <$> stmt_lifecycle_seq (api := sample_api) engine_ok 1
                       [DoClose; DoInvalidate; DoClose] true sample_world)
  = Some [(CallEndStatement 7, reply_rc 0)]
  /\ trace <$> (snd <$> rs_lifecycle_seq (api := sample_api) engine_ok 2
                          [DoInvalidate; DoClose] true sample_world)
  = Some [(CallCloseCursor 8, reply_rc 0); (CallEndStatement 8, reply_rc 0)].
Proof. split; vm_compute; reflexivity. Qed.

(** ** The cascade of [Close] *)

Section Cascade.

Context {api : MimerApi}.
Variable eng : Engine.

Lemma for_each_stmt_invalidate (l : list positive) : forall w,
  (forall q, q ∈ l -> is_Some (statements w !! q)) ->
  exists w' tr,
    for_each (MimerStmtWrapper_Invalidate eng) l w = Some (tt, w') /\
    trace w' = trace w ++ tr /\
    pending w' = pending w /\
    connections w' = connections w /\
    resultsets w' = resultsets w /\
    Forall (fun ev => is_end_statement ev.1 = true) tr /\
    (forall q, q ∉ l -> statements w' !! q = statements w !! q) /\
    (forall q, q ∈ l ->
       exists s', statements w' !! q = Some s' /\
                  closed_ s' = true /\ parentConnection_ s' = None) /\
    (forall q s, q ∈ l -> statements w !! q = Some s -> stmt_open s = true ->
       exists rp, (CallEndStatement (stmt_ s), rp) ∈ tr).
Proof.
  induction l as [|q0 l IH]; intros w Hall.
  - exists w, []. simpl. rewrite app_nil_r.
    do 5 (split; [reflexivity|]). split; [apply Forall_nil_2|].
    split; [reflexivity|].
    split; [intros q Hq | intros q s Hq]; apply elem_of_nil in Hq; tauto.
  - destruct (Hall q0 ltac:(left)) as [s0 Hs0].
    pose proof (Stmt_Invalidate_run eng q0 w s0 Hs0) as Hrun.
    set (w1 := mkWorld (trace w ++ stmt_release_trace eng (trace w) s0)
                 (pending w) (connections w)
                 (<[q0 := stmt_closed_state eng (trace w) s0]> (statements w))
                 (resultsets w)) in *.
    destruct (IH w1) as (w' & tr & Hfe & Ht & Hp & Hc & Hr & Hf & Hout & Hin
                         & Hev).
    { intros q Hq. simpl. destruct (decide (q = q0)) as [->|Hne].
      - rewrite lookup_insert_eq. eauto.
      - rewrite lookup_insert_ne by congruence. apply Hall. now right. }
    exists w', (stmt_release_trace eng (trace w) s0 ++ tr).
    split; [simpl; rewrite bind_run, Hrun; exact Hfe|].
    split; [rewrite Ht; simpl; symmetry; apply app_assoc|].
    split; [rewrite Hp; reflexivity|].
    split; [rewrite Hc; reflexivity|].
    split; [rewrite Hr; reflexivity|].
    split.
    { apply Forall_app. split; [|exact Hf].
      unfold stmt_release_trace. destruct (stmt_open s0); repeat constructor. }
    split.
    { intros q Hq. apply not_elem_of_cons in Hq as [Hne Hq].
      rewrite (Hout q Hq). simpl. apply lookup_insert_ne. congruence. }
    split.
    { intros q Hq. destruct (decide (q ∈ l)) as [Hl|Hl]; [apply Hin, Hl|].
      apply elem_of_cons in Hq as [->|Hq]; [|contradiction].
      rewrite (Hout q0 Hl). simpl. rewrite lookup_insert_eq.
      eexists. repeat split. }
    intros q s Hq Hs Ho. destruct (decide (q = q0)) as [->|Hne].
    + assert (s = s0) by congruence. subst s.
      exists (eng (trace w) (CallEndStatement (stmt_ s0))).
      apply elem_of_app. left. unfold stmt_release_trace. rewrite Ho.
      apply list_elem_of_singleton. reflexivity.
    + apply elem_of_cons in Hq as [->|Hq]; [contradiction|].
      destruct (Hev q s Hq) as [rp Hrp]; [|exact Ho|].
      * simpl. rewrite lookup_insert_ne by congruence. exact Hs.
      * exists rp. apply elem_of_app. right. exact Hrp.
Qed.

Lemma for_each_rs_invalidate (l : list positive) : forall w,
  (forall q, q ∈ l -> is_Some (resultsets w !! q)) ->
  exists w' tr,
    for_each (MimerResultSetWrapper_Invalidate eng) l w = Some (tt, w') /\
    trace w' = trace w ++ tr /\
    pending w' = pending w /\
    connections w' = connections w /\
    statements w' = statements w /\
    Forall (fun ev => is_close_cursor ev.1 || is_end_statement ev.1 = true)
      tr /\
    (forall q, q ∉ l -> resultsets w' !! q = resultsets w !! q) /\
    (forall q, q ∈ l ->
       exists r', resultsets w' !! q = Some r' /\
                  rs_closed_ r' = true /\ rs_parentConnection_ r' = None) /\
    (forall q r, q ∈ l -> resultsets w !! q = Some r -> rs_open r = true ->
       exists rp1 rp2, (CallCloseCursor (rs_stmt_ r), rp1) ∈ tr /\
                       (CallEndStatement (rs_stmt_ r), rp2) ∈ tr).
Proof.
  induction l as [|q0 l IH]; intros w Hall.
  - exists w, []. simpl. rewrite app_nil_r.
    do 5 (split; [reflexivity|]). split; [apply Forall_nil_2|].
    split; [reflexivity|].
    split; [intros q Hq | intros q s Hq]; apply elem_of_nil in Hq; tauto.
  - destruct (Hall q0 ltac:(left)) as [r0 Hr0].
    pose proof (Rs_Invalidate_run eng q0 w r0 Hr0) as Hrun.
    set (w1 := mkWorld (trace w ++ rs_release_trace eng (trace w) r0)
                 (pending w) (connections w) (statements w)
                 (<[q0 := rs_closed_state eng (trace w) r0]> (resultsets w)))
      in *.
    destruct (IH w1) as (w' & tr & Hfe & Ht & Hp & Hc & Hs & Hf & Hout & Hin
                         & Hev).
    { intros q Hq. simpl. destruct (decide (q = q0)) as [->|Hne].
      - rewrite lookup_insert_eq. eauto.
      - rewrite lookup_insert_ne by congruence. apply Hall. now right. }
    exists w', (rs_release_trace eng (trace w) r0 ++ tr).
    split; [simpl; rewrite bind_run, Hrun; exact Hfe|].
    split; [rewrite Ht; simpl; symmetry; apply app_assoc|].
    split; [rewrite Hp; reflexivity|].
    split; [rewrite Hc; reflexivity|].
    split; [rewrite Hs; reflexivity|].
    split.
    { apply Forall_app. split; [|exact Hf].
      unfold rs_release_trace. destruct (rs_open r0); repeat constructor. }
    split.
    { intros q Hq. apply not_elem_of_cons in Hq as [Hne Hq].
      rewrite (Hout q Hq). simpl. apply lookup_insert_ne. congruence. }
    split.
    { intros q Hq. destruct (decide (q ∈ l)) as [Hl|Hl]; [apply Hin, Hl|].
      apply elem_of_cons in Hq as [->|Hq]; [|contradiction].
      rewrite (Hout q0 Hl). simpl. rewrite lookup_insert_eq.
      eexists. repeat split. }
    intros q r Hq Hr Ho. destruct (decide (q = q0)) as [->|Hne].
    + assert (r = r0) by congruence. subst r.
      eexists _, _. unfold rs_release_trace. rewrite Ho.
      split; apply elem_of_app; left.
      * apply elem_of_cons. left. reflexivity.
      * apply elem_of_cons. right. apply elem_of_cons. left. reflexivity.
    + apply elem_of_cons in Hq as [->|Hq]; [contradiction|].
      destruct (Hev q r Hq) as (rp1 & rp2 & H1 & H2); [|exact Ho|].
      * simpl. rewrite lookup_insert_ne by congruence. exact Hr.
      * exists rp1, rp2. split; apply elem_of_app; right; assumption.
Qed.

Lemma invalidate_all_run this w cn :
  connections w !! this = Some cn ->
  (forall q, q ∈ openStatements_ cn -> is_Some (statements w !! q)) ->
  (forall q, q ∈ openResultSets_ cn -> is_Some (resultsets w !! q)) ->
  exists w_mid tr,
    invalidate_all eng this w = Some (tt, w_mid) /\
    trace w_mid = trace w ++ tr /\
    pending w_mid = pending w /\
    connections w_mid =
      <[this := mkConnection (session_ cn) (connected_ cn) ∅ ∅]>
        (connections w) /\
    Forall (fun ev => is_close_cursor ev.1 || is_end_statement ev.1 = true)
      tr /\
    (forall q, q ∈ openStatements_ cn ->
       exists s', statements w_mid !! q = Some s' /\
                  closed_ s' = true /\ parentConnection_ s' = None) /\
    (forall q, q ∈ openResultSets_ cn ->
       exists r', resultsets w_mid !! q = Some r' /\
                  rs_closed_ r' = true /\ rs_parentConnection_ r' = None) /\
    (forall q s, q ∈ openStatements_ cn -> statements w !! q = Some s ->
       stmt_open s = true ->
       exists rp, (CallEndStatement (stmt_ s), rp) ∈ tr) /\
    (forall q r, q ∈ openResultSets_ cn -> resultsets w !! q = Some r ->
       rs_open r = true ->
       exists rp1 rp2, (CallCloseCursor (rs_stmt_ r), rp1) ∈ tr /\
                       (CallEndStatement (rs_stmt_ r), rp2) ∈ tr).
Proof.
  intros Hc Hss Hrs.
  destruct (for_each_rs_invalidate (elements (openResultSets_ cn)) w)
    as (w1 & tr1 & Hfe1 & Ht1 & Hp1 & Hc1 & Hs1 & Hf1 & _ & Hin1 & Hev1).
  { intros q Hq. apply Hrs. apply elem_of_elements, Hq. }
  set (w2 := set_connections
               (<[this := mkConnection (session_ cn) (connected_ cn)
                            (openStatements_ cn) ∅]> (connections w1)) w1).
  destruct (for_each_stmt_invalidate (elements (openStatements_ cn)) w2)
    as (w3 & tr2 & Hfe2 & Ht2 & Hp2 & Hc2 & Hr2 & Hf2 & _ & Hin2 & Hev2).
  { intros q Hq. simpl. rewrite Hs1. apply Hss. apply elem_of_elements, Hq. }
  exists (set_connections
            (<[this := mkConnection (session_ cn) (connected_ cn) ∅ ∅]>
               (connections w3)) w3), (tr1 ++ tr2).
  split.
  { unfold invalidate_all, get_conn, put_conn. mrun. rewrite Hc.
    rewrite Hfe1. fold w2. rewrite Hfe2. reflexivity. }
  split; [simpl; rewrite Ht2; simpl; rewrite Ht1; symmetry; apply app_assoc|].
  split; [simpl; rewrite Hp2; simpl; exact Hp1|].
  split.
  { simpl. rewrite Hc2. simpl. rewrite Hc1. apply insert_insert_eq. }
  split.
  { apply Forall_app. split; [exact Hf1|].
    eapply Forall_impl; [exact Hf2|]. simpl. intros ev ->.
    apply orb_true_r. }
  split.
  { intros q Hq. simpl. apply Hin2. apply elem_of_elements, Hq. }
  split.
  { intros q Hq. simpl. rewrite Hr2. simpl.
    apply Hin1. apply elem_of_elements, Hq. }
  split.
  - intros q s Hq Hs Ho.
    destruct (Hev2 q s) as [rp Hrp]; [apply elem_of_elements, Hq| |exact Ho|].
    + simpl. rewrite Hs1. exact Hs.
    + exists rp. apply elem_of_app. right. exact Hrp.
  - intros q r Hq Hr Ho.
    destruct (Hev1 q r) as (rp1 & rp2 & H1 & H2);
      [apply elem_of_elements, Hq|exact Hr|exact Ho|].
    exists rp1, rp2. split; apply elem_of_app; left; assumption.
Qed.

(** [Close] after the cascade: the session handle is ended, a negative
    status raises the structured error, and the session is marked
    disconnected. *)
Lemma Close_run this w cn w_mid :
  connections w !! this = Some cn ->
  connected_ cn = true ->
  invalidate_all eng this w = Some (tt, w_mid) ->
  connections w_mid !! this = Some (mkConnection (session_ cn) true ∅ ∅) ->
  (session_ cn =? MIMERNULLHANDLE) = false ->
  exists w_end tr2,
    MimerConnection_Close eng this w = Some (JsBoolean true, w_end) /\
    trace w_end =
      trace w_mid
      ++ (CallEndSession (session_ cn),
          eng (trace w_mid) (CallEndSession (session_ cn))) :: tr2 /\
    Forall (fun ev => is_release_call ev.1 = false) tr2 /\
    statements w_end = statements w_mid /\
    resultsets w_end = resultsets w_mid /\
    connections w_end =
      <[this := mkConnection
                  (out_handle (eng (trace w_mid)
                                 (CallEndSession (session_ cn))))
                  false ∅ ∅]> (connections w_mid) /\
    (0 <= rc (eng (trace w_mid) (CallEndSession (session_ cn))) ->
     pending w_end = pending w_mid) /\
    (rc (eng (trace w_mid) (CallEndSession (session_ cn))) < 0 ->
     pending w_mid = None ->
     exists msg,
       pending w_end =
         Some (MimerError msg
                 (rc (eng (trace w_mid) (CallEndSession (session_ cn))))
                 "MimerEndSession")).
Proof.
  intros Hc Hconn Hinv Hmid Hsess.
  set (r := eng (trace w_mid) (CallEndSession (session_ cn))).
  unfold MimerConnection_Close, get_conn.
  rewrite bind_run, Hc, Hconn. cbn [negb].
  rewrite bind_run, Hinv. rewrite bind_run, Hmid. cbn [session_].
  rewrite Hsess. cbn [negb].
  unfold MimerEndSession, engine_call, put_conn, MimerConnection_CheckError,
    MimerConnection_GetErrorMessage, get_conn, MimerGetError8, engine_call,
    ThrowMimerError, ThrowAsJavaScriptException.
  mrun. fold r.
  assert (Hfin : forall (A B C D E F G : Prop),
             A -> B -> C -> D -> E -> F -> G ->
             A /\ B /\ C /\ D /\ E /\ F /\ G) by tauto.
  destruct (rc r <? 0) eqn:Hrc; simpl.
  - apply Z.ltb_lt in Hrc. rewrite lookup_insert_eq. simpl.
    destruct (out_handle r =? MIMERNULLHANDLE) eqn:Hh; simpl.
    + eexists _, []. split; [reflexivity|].
      destruct (pending w_mid) eqn:Hpe; simpl; apply Hfin;
        first [ reflexivity | apply Forall_nil_2
              | rewrite !insert_insert_eq; reflexivity | lia
              | intros _ Hn; first [discriminate | eexists; reflexivity] ].
    + match goal with
      | |- context [0 <? ?x] => destruct (0 <? x)
      end; simpl;
        (eexists _, [_]; split; [reflexivity|]);
        destruct (pending w_mid) eqn:Hpe; simpl; apply Hfin;
        first [ reflexivity | rewrite <- app_assoc; reflexivity
              | apply List.Forall_cons; [reflexivity | apply Forall_nil_2]
              | rewrite !insert_insert_eq; reflexivity | lia
              | intros _ Hn; first [discriminate | eexists; reflexivity] ].
  - apply Z.ltb_ge in Hrc.
    eexists _, []. split; [reflexivity|]. simpl. apply Hfin;
      first [ reflexivity | apply Forall_nil_2
            | rewrite !insert_insert_eq; reflexivity | lia ].
Qed.

Lemma Close_run_null this w cn w_mid :
  connections w !! this = Some cn ->
  connected_ cn = true ->
  invalidate_all eng this w = Some (tt, w_mid) ->
  connections w_mid !! this = Some (mkConnection (session_ cn) true ∅ ∅) ->
  (session_ cn =? MIMERNULLHANDLE) = true ->
  MimerConnection_Close eng this w = Some (JsBoolean true, w_mid).
Proof.
  intros Hc Hconn Hinv Hmid Hsess.
  unfold MimerConnection_Close, get_conn.
  rewrite bind_run, Hc, Hconn. cbn [negb].
  rewrite bind_run, Hinv. rewrite bind_run, Hmid. cbn [session_].
  rewrite Hsess. reflexivity.
Qed.

Lemma js_invoke_run (body : M JsValue) w v w1 :
  body w = Some (v, w1) ->
  js_invoke body w =
  Some (match pending w1 with Some e => Thrown e | None => Returned v end,
        set_pending None w1).
Proof.
  intros H. unfold js_invoke. mrun. rewrite H.
  destruct w1 as [tr [e|] cs ss rs]; reflexivity.
Qed.

Lemma set_pending_None_id w : pending w = None -> set_pending None w = w.
Proof. destruct w; simpl; intros ->; reflexivity. Qed.

End Cascade.

(** ** Closed entities answer without the engine *)

Section ClosedEntities.

Context {api : MimerApi}.
Variable eng : Engine.
Variable fuel : nat.
Variable ToString : JsValue -> string.


Lemma FetchNext_done q w r :
  resultsets w !! q = Some r -> rs_closed_ r || exhausted_ r = true ->
  MimerResultSetWrapper_FetchNext eng fuel q w = Some (JsNull, w).
Proof.
  intros Hr Hd. unfold MimerResultSetWrapper_FetchNext, get_rs.
  rewrite bind_run, Hr, Hd. reflexivity.
Qed.



End ClosedEntities.

(** ** Closing a session *)

Section CloseSession.

Context {api : MimerApi}.
Variable eng : Engine.
Variable fuel : nat.
Variable ToString : JsValue -> string.


End CloseSession.


Example Close_sample_trace :
  (fun r => (r.1, trace r.2))
    <$> js_invoke (MimerConnection_Close (api := sample_api) engine_ok 1)
          sample_world
  = Some (Returned (JsBoolean true),
          [ (CallCloseCursor 8, reply_rc 0);
            (CallEndStatement 8, reply_rc 0);
            (CallEndStatement 7, reply_rc 0);
            (CallEndSession 5, reply_rc 0) ]).
Proof. vm_compute. reflexivity. Qed.

(** C2, as stated, fails: when [MimerEndSession] reports [-1], [close()]
    does not return; the caller gets the structured error thrown. *)
Lemma Close_throws_when_end_session_fails :
  fst <$> js_invoke (MimerConnection_Close (api := sample_api)
                       engine_end_session_fails 1) sample_world
  = Some (Thrown (MimerError
                    "MimerEndSession failed: Unknown error (code: -1)"
                    (-1) "MimerEndSession")).
Proof. vm_compute. reflexivity. Qed.

Section CloseOutcome.

Context {api : MimerApi}.
Variable eng : Engine.

(** C2, amended. [close()] on a connected session returns to the caller
    in every case. It returns [true] without raising an error unless
    [MimerEndSession] reports a negative status: that is, when the
    session handle is null, so that the engine is not called, and when
    the status is not negative. When [MimerEndSession] reports a negative
    status the caller gets the structured error thrown, carrying that
    status as [mimerCode] and "MimerEndSession" as [operation]. *)
Theorem Close_outcome (this : positive) (w : World) (cn : MimerConnection) :
  connections w !! this = Some cn ->
  connected_ cn = true ->
  registered_live cn w ->
  pending w = None ->
  exists w_mid out w',
    invalidate_all eng this w = Some (tt, w_mid) /\
    js_invoke (MimerConnection_Close eng this) w = Some (out, w') /\
    let status := rc (eng (trace w_mid) (CallEndSession (session_ cn))) in
    (session_ cn = MIMERNULLHANDLE \/ 0 <= status ->
     out = Returned (JsBoolean true)) /\
    (session_ cn <> MIMERNULLHANDLE -> status < 0 ->
     exists msg, out = Thrown (MimerError msg status "MimerEndSession")).
Proof.
  intros Hc Hconn [Hss Hrs] Hpend.
  destruct (invalidate_all_run eng this w cn Hc Hss Hrs)
    as (w_mid & tr & Hinv & Ht & Hp & Hcs & _).
  assert (Hmid : connections w_mid !! this
                 = Some (mkConnection (session_ cn) true ∅ ∅)).
  { rewrite Hcs, Hconn. apply lookup_insert_eq. }
  exists w_mid.
  destruct (session_ cn =? MIMERNULLHANDLE) eqn:Hnull.
  - pose proof (Close_run_null eng this w cn w_mid Hc Hconn Hinv Hmid Hnull)
      as Hrun.
    apply Z.eqb_eq in Hnull.
    eexists _, _. split; [exact Hinv|].
    split; [apply js_invoke_run, Hrun|].
    cbv zeta. split.
    + intros _. rewrite Hp, Hpend. reflexivity.
    + intros Hne. contradiction.
  - destruct (Close_run eng this w cn w_mid Hc Hconn Hinv Hmid Hnull)
      as (w_end & tr2 & Hrun & _ & _ & _ & _ & _ & Hok & Herr).
    apply Z.eqb_neq in Hnull.
    eexists _, _. split; [exact Hinv|].
    split; [apply js_invoke_run, Hrun|].
    cbv zeta. split.
    + intros [Hnil|Hge]; [contradiction|].
      rewrite (Hok Hge), Hp, Hpend. reflexivity.
    + intros _ Hlt. destruct (Herr Hlt) as [msg Hmsg]; [congruence|].
      exists msg. rewrite Hmsg. reflexivity.
Qed.

End CloseOutcome.

Lemma Close_outcome_witness :
  exists w_mid out w',
    invalidate_all (api := sample_api) engine_end_session_fails 1 sample_world
    = Some (tt, w_mid) /\
    js_invoke (MimerConnection_Close (api := sample_api)
                 engine_end_session_fails 1) sample_world = Some (out, w') /\
    exists msg, out = Thrown (MimerError msg (-1) "MimerEndSession").
Proof.
  destruct (Close_outcome (api := sample_api) engine_end_session_fails 1
              sample_world sample_conn eq_refl eq_refl)
    as (w_mid & out & w' & Hinv & Hjs & _ & Herr).
  - split; intros q Hq; simpl in Hq; apply elem_of_singleton in Hq;
      subst q; eexists; reflexivity.
  - reflexivity.
  - exists w_mid, out, w'. split; [exact Hinv|]. split; [exact Hjs|].
    apply Herr; [simpl; discriminate | simpl; lia].
Defined.

(** ** Exhaustion and closing only move forward *)

Lemma rs_mono_refl p w : rs_mono p w w.
Proof. intros r Hr. exists r. auto. Qed.

Lemma rs_mono_trans p w1 w2 w3 :
  rs_mono p w1 w2 -> rs_mono p w2 w3 -> rs_mono p w1 w3.
Proof.
  intros H12 H23 r Hr.
  destruct (H12 r Hr) as (r2 & Hr2 & Hc2 & He2).
  destruct (H23 r2 Hr2) as (r3 & Hr3 & Hc3 & He3).
  exists r3. auto.
Qed.

Lemma rs_mono_same p w w' : resultsets w' = resultsets w -> rs_mono p w w'.
Proof. intros E r Hr. exists r. rewrite E. auto. Qed.

Lemma rs_mono_insert p q r' w w' :
  resultsets w' = <[q := r']> (resultsets w) ->
  (forall r, resultsets w !! q = Some r ->
     (rs_closed_ r = true -> rs_closed_ r' = true) /\
     (exhausted_ r = true -> exhausted_ r' = true)) ->
  rs_mono p w w'.
Proof.
  intros E Hm r Hr. rewrite E. destruct (decide (q = p)) as [->|Hne].
  - exists r'. rewrite lookup_insert_eq. destruct (Hm r Hr). auto.
  - exists r. rewrite lookup_insert_ne by exact Hne. auto.
Qed.

Lemma rs_mono_insert_fresh p q r' w w' :
  resultsets w' = <[q := r']> (resultsets w) ->
  resultsets w !! q = None ->
  rs_mono p w w'.
Proof.
  intros E Hq. apply (rs_mono_insert p q r' w w' E).
  intros r Hr. congruence.
Qed.

Lemma rs_mono_delete p q w w' :
  resultsets w' = delete q (resultsets w) -> q <> p -> rs_mono p w w'.
Proof.
  intros E Hne r Hr. exists r. rewrite E, lookup_delete_ne by exact Hne. auto.
Qed.

#[export] Hint Resolve rs_mono_refl rs_mono_trans : stable_rel.

Ltac rel_side ::=
  first [ assumption
        | exact helper_step_refl | exact helper_step_trans
        | exact (rs_mono_refl _) | exact (rs_mono_trans _) ].

Section CursorMonotone.

Context {api : MimerApi}.
Variable eng : Engine.
Variable fuel : nat.
Variable ToString : JsValue -> string.
Variable p : positive.

Lemma mono_engine_call c : stable (rs_mono p) (engine_call eng c).
Proof. intros w r w' H. inversion H. apply rs_mono_same. reflexivity. Qed.

Lemma mono_call w c r :
  is_release_call c = false ->
  rs_mono p w (set_trace (trace w ++ [(c, r)]) w).
Proof. intros _. apply rs_mono_same. reflexivity. Qed.

Lemma mono_pending w e : rs_mono p w (set_pending e w).
Proof. apply rs_mono_same. reflexivity. Qed.

Lemma mono_Throw e : stable (rs_mono p) (ThrowAsJavaScriptException e).
Proof.
  apply stable_Throw; [exact (rs_mono_refl p) | exact mono_pending].
Qed.

Lemma mono_ThrowMimerError code op detail :
  stable (rs_mono p) (ThrowMimerError code op detail).
Proof. apply mono_Throw. Qed.

Lemma mono_IsExceptionPending : stable (rs_mono p) IsExceptionPending.
Proof. unfold IsExceptionPending. stable_auto. Qed.

Ltac mono_helper lem :=
  apply lem;
  first [ exact (rs_mono_refl p) | exact (rs_mono_trans p)
        | exact mono_call | exact mono_pending ].

Lemma mono_BindParameters stmt params :
  stable (rs_mono p) (BindParameters eng fuel ToString stmt params).
Proof. mono_helper stable_BindParameters. Qed.

Lemma mono_BuildFieldsArray stmt n :
  stable (rs_mono p) (BuildFieldsArray eng stmt n).
Proof. mono_helper stable_BuildFieldsArray. Qed.

Lemma mono_CacheColumnMetadata stmt n :
  stable (rs_mono p) (CacheColumnMetadata eng stmt n).
Proof. mono_helper stable_CacheColumnMetadata. Qed.

Lemma mono_FetchSingleRow stmt n names types :
  stable (rs_mono p) (FetchSingleRow eng fuel stmt n names types).
Proof. mono_helper stable_FetchSingleRow. Qed.

Lemma mono_FetchResults stmt n :
  stable (rs_mono p) (FetchResults eng fuel stmt n).
Proof. mono_helper stable_FetchResults. Qed.

(** Every wrapper of an engine call. *)
Ltac mono_wrapper :=
  intros; apply stable_bind;
  [ exact (rs_mono_trans p) | apply mono_engine_call
  | intros ?; apply stable_ret; exact (rs_mono_refl p) ].

Lemma mono_MimerBeginSession8 d u pw :
  stable (rs_mono p) (MimerBeginSession8 eng d u pw).
Proof. mono_wrapper. Qed.
Lemma mono_MimerEndSession s : stable (rs_mono p) (MimerEndSession eng s).
Proof. mono_wrapper. Qed.
Lemma mono_MimerGetError8 s : stable (rs_mono p) (MimerGetError8 eng s).
Proof. mono_wrapper. Qed.
Lemma mono_MimerBeginStatement8 s q m :
  stable (rs_mono p) (MimerBeginStatement8 eng s q m).
Proof. mono_wrapper. Qed.
Lemma mono_MimerEndStatement s : stable (rs_mono p) (MimerEndStatement eng s).
Proof. mono_wrapper. Qed.
Lemma mono_MimerExecuteStatement8 s q :
  stable (rs_mono p) (MimerExecuteStatement8 eng s q).
Proof. mono_wrapper. Qed.
Lemma mono_MimerBeginTransaction s m :
  stable (rs_mono p) (MimerBeginTransaction eng s m).
Proof. mono_wrapper. Qed.
Lemma mono_MimerEndTransaction s m :
  stable (rs_mono p) (MimerEndTransaction eng s m).
Proof. mono_wrapper. Qed.
Lemma mono_MimerColumnCount s : stable (rs_mono p) (MimerColumnCount eng s).
Proof. mono_wrapper. Qed.
Lemma mono_MimerOpenCursor s : stable (rs_mono p) (MimerOpenCursor eng s).
Proof. mono_wrapper. Qed.
Lemma mono_MimerCloseCursor s : stable (rs_mono p) (MimerCloseCursor eng s).
Proof. mono_wrapper. Qed.
Lemma mono_MimerFetch s : stable (rs_mono p) (MimerFetch eng s).
Proof. mono_wrapper. Qed.
Lemma mono_MimerExecute s : stable (rs_mono p) (MimerExecute eng s).
Proof. mono_wrapper. Qed.

(** Reading the store, and writing the parts of it that hold no result
    set. *)
Lemma mono_get_conn c : stable (rs_mono p) (get_conn c).
Proof.
  intros w a w' H. unfold get_conn in H.
  destruct (connections w !! c); inversion H. apply rs_mono_refl.
Qed.
Lemma mono_get_stmt s : stable (rs_mono p) (get_stmt s).
Proof.
  intros w a w' H. unfold get_stmt in H.
  destruct (statements w !! s); inversion H. apply rs_mono_refl.
Qed.
Lemma mono_get_rs r : stable (rs_mono p) (get_rs r).
Proof.
  intros w a w' H. unfold get_rs in H.
  destruct (resultsets w !! r); inversion H. apply rs_mono_refl.
Qed.
Lemma mono_put_conn c x : stable (rs_mono p) (put_conn c x).
Proof. intros w a w' H. inversion H. apply rs_mono_same. reflexivity. Qed.
Lemma mono_put_stmt s x : stable (rs_mono p) (put_stmt s x).
Proof. intros w a w' H. inversion H. apply rs_mono_same. reflexivity. Qed.
Lemma mono_modify_same f :
  (forall w, resultsets (f w) = resultsets w) ->
  stable (rs_mono p) (modify_world f).
Proof. intros Hf w a w' H. inversion H. apply rs_mono_same, Hf. Qed.

End CursorMonotone.

#[local] Hint Resolve
  mono_engine_call mono_Throw mono_ThrowMimerError mono_IsExceptionPending
  mono_BindParameters mono_BuildFieldsArray mono_CacheColumnMetadata
  mono_FetchSingleRow mono_FetchResults mono_MimerBeginSession8
  mono_MimerEndSession mono_MimerGetError8 mono_MimerBeginStatement8
  mono_MimerEndStatement mono_MimerExecuteStatement8
  mono_MimerBeginTransaction mono_MimerEndTransaction mono_MimerColumnCount
  mono_MimerOpenCursor mono_MimerCloseCursor mono_MimerFetch
  mono_MimerExecute mono_get_conn mono_get_stmt mono_get_rs mono_put_conn
  mono_put_stmt : stable.

Section MethodsMonotone.

Context {api : MimerApi}.
Variable eng : Engine.
Variable fuel : nat.
Variable ToString : JsValue -> string.
Variable p : positive.

(** A method seen from JavaScript changes the store as its body does. *)
Lemma mono_js_invoke body :
  stable (rs_mono p) body -> stable (rs_mono p) (js_invoke body).
Proof.
  intros Hb. unfold js_invoke. stable_auto.
  apply mono_modify_same. reflexivity.
Qed.

(** *** Connections and statements hold no result set *)

Lemma mono_RegisterStatement c s :
  stable (rs_mono p) (MimerConnection_RegisterStatement c s).
Proof. unfold MimerConnection_RegisterStatement. stable_auto. Qed.
Lemma mono_UnregisterStatement c s :
  stable (rs_mono p) (MimerConnection_UnregisterStatement c s).
Proof. unfold MimerConnection_UnregisterStatement. stable_auto. Qed.
Lemma mono_RegisterResultSet c r :
  stable (rs_mono p) (MimerConnection_RegisterResultSet c r).
Proof. unfold MimerConnection_RegisterResultSet. stable_auto. Qed.
Lemma mono_UnregisterResultSet c r :
  stable (rs_mono p) (MimerConnection_UnregisterResultSet c r).
Proof. unfold MimerConnection_UnregisterResultSet. stable_auto. Qed.

Local Hint Resolve mono_RegisterStatement mono_UnregisterStatement
  mono_RegisterResultSet mono_UnregisterResultSet : stable.

Lemma mono_stmt_release s : stable (rs_mono p) (stmt_release eng s).
Proof. unfold stmt_release. stable_auto. Qed.

Local Hint Resolve mono_stmt_release : stable.

Lemma mono_Stmt_Invalidate s :
  stable (rs_mono p) (MimerStmtWrapper_Invalidate eng s).
Proof. unfold MimerStmtWrapper_Invalidate. stable_auto. Qed.

Lemma mono_Stmt_CloseInternal s :
  stable (rs_mono p) (MimerStmtWrapper_CloseInternal eng s).
Proof. unfold MimerStmtWrapper_CloseInternal. stable_auto. Qed.

Lemma mono_Stmt_delete s :
  stable (rs_mono p) (MimerStmtWrapper_delete eng s).
Proof.
  unfold MimerStmtWrapper_delete. stable_auto.
  apply mono_modify_same. reflexivity.
Qed.

Lemma mono_Stmt_new s session sql :
  stable (rs_mono p) (MimerStmtWrapper_new eng s session sql).
Proof. unfold MimerStmtWrapper_new. stable_auto. Qed.

Lemma mono_Stmt_NewInstance session sql :
  stable (rs_mono p) (MimerStmtWrapper_NewInstance eng session sql).
Proof.
  unfold MimerStmtWrapper_NewInstance. stable_auto. apply mono_Stmt_new.
Qed.

Lemma mono_Stmt_SetParentConnection s c :
  stable (rs_mono p) (MimerStmtWrapper_SetParentConnection s c).
Proof. unfold MimerStmtWrapper_SetParentConnection. stable_auto. Qed.

Lemma mono_stmt_execute_bound s :
  stable (rs_mono p) (stmt_execute_bound eng fuel s).
Proof. unfold stmt_execute_bound. stable_auto. Qed.

Local Hint Resolve mono_Stmt_Invalidate mono_Stmt_CloseInternal
  mono_Stmt_delete mono_Stmt_NewInstance mono_Stmt_SetParentConnection
  mono_stmt_execute_bound : stable.

Lemma mono_Stmt_Execute s info :
  stable (rs_mono p) (MimerStmtWrapper_Execute eng fuel ToString s info).
Proof. unfold MimerStmtWrapper_Execute, array_argument. stable_auto. Qed.

Lemma mono_Stmt_Close s : stable (rs_mono p) (MimerStmtWrapper_Close eng s).
Proof. unfold MimerStmtWrapper_Close. stable_auto. Qed.

Local Hint Resolve mono_Stmt_Execute mono_Stmt_Close mono_js_invoke : stable.

(** *** Result sets *)

Lemma mono_rs_release q : stable (rs_mono p) (rs_release eng q).
Proof.
  intros w a w' H. destruct (resultsets w !! q) as [r|] eqn:Hr.
  - rewrite (rs_release_run eng q w r Hr) in H. inversion H; subst.
    eapply rs_mono_insert; [reflexivity|].
    intros r0 Hr0. assert (r0 = r) by congruence. subst. simpl. auto.
  - unfold rs_release, get_rs in H. rewrite bind_run, Hr in H. discriminate.
Qed.

Lemma mono_Rs_Invalidate q :
  stable (rs_mono p) (MimerResultSetWrapper_Invalidate eng q).
Proof.
  intros w a w' H. destruct (resultsets w !! q) as [r|] eqn:Hr.
  - rewrite (Rs_Invalidate_run eng q w r Hr) in H. inversion H; subst.
    eapply rs_mono_insert; [reflexivity|].
    intros r0 Hr0. assert (r0 = r) by congruence. subst. simpl. auto.
  - unfold MimerResultSetWrapper_Invalidate, rs_release, get_rs in H.
    rewrite !bind_run, Hr in H. discriminate.
Qed.

Lemma mono_Rs_CloseInternal q :
  stable (rs_mono p) (MimerResultSetWrapper_CloseInternal eng q).
Proof.
  intros w a w' H. unfold MimerResultSetWrapper_CloseInternal in H.
  apply bind_Some in H as (b & w1 & H1 & H).
  destruct (resultsets w !! q) as [r|] eqn:Hr.
  - rewrite (rs_release_run eng q w r Hr) in H1. inversion H1; subst.
    clear H1. unfold get_rs, put_rs in H. mrun in H.
    rewrite lookup_insert_eq in H. simpl in H.
    assert (Hgoal : forall w2,
              resultsets w2 =
                <[q := mkResultSet (rs_released_handle eng (trace w) r)
                         (rs_columnCount_ r) (colNames_ r) (colTypes_ r) true
                         (exhausted_ r) None]> (resultsets w) ->
              rs_mono p w w2).
    { intros w2 E. eapply rs_mono_insert; [exact E|].
      intros r0 Hr0. assert (r0 = r) by congruence. subst. simpl. auto. }
    destruct (rs_parentConnection_ r) as [c|] eqn:Hpar.
    + unfold MimerConnection_UnregisterResultSet, get_conn, put_conn in H.
      mrun in H. destruct (connections w !! c); [|discriminate].
      simpl in H. inversion H; subst. apply Hgoal. simpl.
      rewrite !insert_insert_eq. reflexivity.
    + inversion H; subst. apply Hgoal. simpl.
      rewrite !insert_insert_eq. reflexivity.
  - unfold rs_release, get_rs in H1. rewrite bind_run, Hr in H1. discriminate.
Qed.

Lemma mono_Rs_delete q :
  q <> p -> stable (rs_mono p) (MimerResultSetWrapper_delete eng q).
Proof.
  intros Hne. unfold MimerResultSetWrapper_delete.
  apply stable_bind; [rel_side | apply mono_Rs_CloseInternal | intros _].
  intros w a w' H. inversion H; subst.
  eapply rs_mono_delete; [reflexivity | exact Hne].
Qed.

Lemma mono_Rs_SetParentConnection q c :
  stable (rs_mono p) (MimerResultSetWrapper_SetParentConnection q c).
Proof.
  intros w a w' H.
  unfold MimerResultSetWrapper_SetParentConnection, get_rs, put_rs in H.
  mrun in H. destruct (resultsets w !! q) as [r|] eqn:Hr; [|discriminate].
  inversion H; subst. eapply rs_mono_insert; [reflexivity|].
  intros r0 Hr0. assert (r0 = r) by congruence. subst. simpl. auto.
Qed.

Lemma mono_Rs_NewInstance stmt n :
  stable (rs_mono p) (MimerResultSetWrapper_NewInstance eng stmt n).
Proof.
  intros w a w' H. unfold MimerResultSetWrapper_NewInstance in H.
  apply bind_Some in H as (w0 & w1 & H0 & H). inversion H0; subst w0 w1.
  cbv zeta in H. apply bind_Some in H as (u & w2 & H1 & H).
  inversion H; subst a w'. clear H.
  unfold MimerResultSetWrapper_new in H1.
  apply bind_Some in H1 as ([names types] & w1 & Hc & Hput).
  destruct (CacheColumnMetadata_helper eng stmt n w _ w1 Hc)
    as [(_ & _ & Hsame) _].
  unfold put_rs in Hput. mrun in Hput. inversion Hput; subst.
  eapply rs_mono_insert_fresh; [simpl; rewrite Hsame; reflexivity|].
  apply not_elem_of_dom. apply is_fresh.
Qed.

Lemma mono_Rs_FetchNext q :
  stable (rs_mono p) (MimerResultSetWrapper_FetchNext eng fuel q).
Proof.
  intros w a w' H. unfold MimerResultSetWrapper_FetchNext, get_rs in H.
  rewrite bind_run in H.
  destruct (resultsets w !! q) as [r|] eqn:Hr; [|discriminate].
  destruct (rs_closed_ r || exhausted_ r).
  - inversion H. apply rs_mono_refl.
  - unfold MimerFetch, engine_call in H. mrun in H.
    match type of H with
    | context [rc ?x =? MIMER_SUCCESS] => destruct (rc x =? MIMER_SUCCESS)
    end.
    + apply (mono_FetchSingleRow eng fuel p) in H.
      eapply rs_mono_trans; [|exact H]. apply rs_mono_same. reflexivity.
    + unfold put_rs in H. mrun in H. inversion H; subst.
      eapply rs_mono_insert; [reflexivity|].
      intros r0 Hr0. assert (r0 = r) by congruence. subst. simpl. auto.
Qed.

Lemma mono_Rs_GetFields q :
  stable (rs_mono p) (MimerResultSetWrapper_GetFields eng q).
Proof. unfold MimerResultSetWrapper_GetFields. stable_auto. Qed.

Lemma mono_Rs_IsClosed q :
  stable (rs_mono p) (MimerResultSetWrapper_IsClosed q).
Proof. unfold MimerResultSetWrapper_IsClosed. stable_auto. Qed.

Lemma mono_Rs_Close q :
  stable (rs_mono p) (MimerResultSetWrapper_Close eng q).
Proof.
  unfold MimerResultSetWrapper_Close. stable_auto.
  apply mono_Rs_CloseInternal.
Qed.

Local Hint Resolve mono_Rs_Invalidate mono_Rs_CloseInternal
  mono_Rs_SetParentConnection mono_Rs_NewInstance mono_Rs_FetchNext
  mono_Rs_GetFields mono_Rs_IsClosed mono_Rs_Close : stable.

(** *** Connections *)

Lemma mono_GetErrorMessage c :
  stable (rs_mono p) (MimerConnection_GetErrorMessage eng c).
Proof. unfold MimerConnection_GetErrorMessage. stable_auto. Qed.

Local Hint Resolve mono_GetErrorMessage : stable.

Lemma mono_CheckError c code op :
  stable (rs_mono p) (MimerConnection_CheckError eng c code op).
Proof. unfold MimerConnection_CheckError. stable_auto. Qed.

Local Hint Resolve mono_CheckError : stable.

Lemma mono_invalidate_all c : stable (rs_mono p) (invalidate_all eng c).
Proof. unfold invalidate_all. stable_auto. Qed.

Local Hint Resolve mono_invalidate_all : stable.

Lemma mono_Conn_NewInstance :
  stable (rs_mono p) MimerConnection_NewInstance.
Proof.
  unfold MimerConnection_NewInstance, MimerConnection_new. stable_auto.
Qed.

Lemma mono_Conn_delete c : stable (rs_mono p) (MimerConnection_delete eng c).
Proof.
  unfold MimerConnection_delete. stable_auto.
  all: apply mono_modify_same; reflexivity.
Qed.

Lemma mono_Conn_Connect c info :
  stable (rs_mono p) (MimerConnection_Connect eng c info).
Proof. unfold MimerConnection_Connect. stable_auto. Qed.

Lemma mono_Conn_Close c : stable (rs_mono p) (MimerConnection_Close eng c).
Proof. unfold MimerConnection_Close. stable_auto. Qed.

Lemma mono_conn_execute_bound c stmt :
  stable (rs_mono p) (conn_execute_bound eng fuel c stmt).
Proof. unfold conn_execute_bound. stable_auto. Qed.

Lemma mono_conn_query_bound c stmt :
  stable (rs_mono p) (conn_query_bound eng c stmt).
Proof. unfold conn_query_bound. stable_auto. Qed.

Local Hint Resolve mono_conn_execute_bound mono_conn_query_bound : stable.

Lemma mono_Conn_Execute c info :
  stable (rs_mono p) (MimerConnection_Execute eng fuel ToString c info).
Proof. unfold MimerConnection_Execute, array_argument. stable_auto. Qed.

Lemma mono_Conn_ExecuteQuery c info :
  stable (rs_mono p) (MimerConnection_ExecuteQuery eng fuel ToString c info).
Proof. unfold MimerConnection_ExecuteQuery, array_argument. stable_auto. Qed.

Lemma mono_Conn_BeginTransaction c :
  stable (rs_mono p) (MimerConnection_BeginTransaction eng c).
Proof. unfold MimerConnection_BeginTransaction. stable_auto. Qed.

Lemma mono_end_transaction c op name :
  stable (rs_mono p) (end_transaction eng c op name).
Proof. unfold end_transaction. stable_auto. Qed.

Lemma mono_Conn_IsConnected c :
  stable (rs_mono p) (MimerConnection_IsConnected c).
Proof. unfold MimerConnection_IsConnected. stable_auto. Qed.

Lemma mono_Conn_Prepare c info :
  stable (rs_mono p) (MimerConnection_Prepare eng c info).
Proof. unfold MimerConnection_Prepare. stable_auto. Qed.

Local Hint Resolve mono_Conn_NewInstance mono_Conn_delete mono_Conn_Connect
  mono_Conn_Close mono_Conn_Execute mono_Conn_ExecuteQuery
  mono_Conn_BeginTransaction mono_end_transaction mono_Conn_IsConnected
  mono_Conn_Prepare : stable.

(** *** Programs *)

Lemma mono_run_op op :
  op <> OpDeleteResultSet p ->
  stable (rs_mono p) (run_op eng fuel ToString op).
Proof.
  intros Hop.
  destruct op; simpl;
    unfold MimerConnection_Commit, MimerConnection_Rollback;
    try solve [stable_auto].
  apply mono_Rs_delete. congruence.
Qed.

Lemma mono_run_ops ops :
  keeps_alive p ops -> stable (rs_mono p) (run_ops eng fuel ToString ops).
Proof.
  unfold run_ops. induction 1 as [|op ops Hop _ IH]; simpl.
  - apply stable_ret. exact (rs_mono_refl p).
  - apply stable_bind; [exact (rs_mono_trans p) | | intros _; exact IH].
    apply mono_run_op, Hop.
Qed.

End MethodsMonotone.

Section CursorExhaustion.

Context {api : MimerApi}.
Variable eng : Engine.
Variable fuel : nat.
Variable ToString : JsValue -> string.

(** [FetchSingleRow] returns an object, never [null]. *)
Lemma FetchSingleRow_not_null stmt n names types w w' :
  FetchSingleRow eng fuel stmt n names types w <> Some (JsNull, w').
Proof.
  unfold FetchSingleRow. rewrite bind_run.
  destruct (fetch_columns _ _ _ _ _ _ _ _) as [[row w1]|]; discriminate.
Qed.

(** When [FetchNext] returns [null], the cursor is closed or exhausted. *)
Lemma FetchNext_null_done p w w' :
  MimerResultSetWrapper_FetchNext eng fuel p w = Some (JsNull, w') ->
  exists r, resultsets w' !! p = Some r /\
            rs_closed_ r || exhausted_ r = true.
Proof.
  unfold MimerResultSetWrapper_FetchNext, get_rs. rewrite bind_run.
  destruct (resultsets w !! p) as [r|] eqn:Hr; [|discriminate].
  destruct (rs_closed_ r || exhausted_ r) eqn:Hd.
  - intros H. inversion H; subst. eauto.
  - unfold MimerFetch, engine_call. mrun.
    match goal with
    | |- context [rc ?x =? MIMER_SUCCESS] => destruct (rc x =? MIMER_SUCCESS)
    end.
    + intros H. apply FetchSingleRow_not_null in H. contradiction.
    + unfold put_rs. mrun. intros H. inversion H; subst. simpl.
      rewrite lookup_insert_eq. eexists. split; [reflexivity|].
      simpl. apply orb_true_r.
Qed.

(** C5. Once [fetchNext()] has returned [null] on a cursor, let the
    program do anything with the binding short of destroying that cursor:
    the closed and exhausted flags of the cursor have not reverted, and
    [fetchNext()] on it returns [null] again, without calling the engine
    or changing anything. *)
Theorem FetchNext_null_is_final (p : positive) (w0 w1 w2 : World)
    (ops : list Op) :
  MimerResultSetWrapper_FetchNext eng fuel p w0 = Some (JsNull, w1) ->
  keeps_alive p ops ->
  run_ops eng fuel ToString ops w1 = Some (tt, w2) ->
  MimerResultSetWrapper_FetchNext eng fuel p w2 = Some (JsNull, w2) /\
  rs_mono p w1 w2 /\
  (pending w2 = None ->
   js_invoke (MimerResultSetWrapper_FetchNext eng fuel p) w2
   = Some (Returned JsNull, w2)).
Proof.
  intros H0 Halive Hrun.
  destruct (FetchNext_null_done p w0 w1 H0) as (r1 & Hr1 & Hd1).
  pose proof (mono_run_ops eng fuel ToString p ops Halive w1 tt w2 Hrun)
    as Hmono.
  destruct (Hmono r1 Hr1) as (r2 & Hr2 & Hc & He).
  assert (Hd2 : rs_closed_ r2 || exhausted_ r2 = true).
  { apply orb_true_iff in Hd1 as [H|H]; apply orb_true_iff; auto. }
  pose proof (FetchNext_done eng fuel p w2 r2 Hr2 Hd2) as Hnext.
  split; [exact Hnext|]. split; [exact Hmono|].
  intros Hp. rewrite (js_invoke_run _ _ _ _ Hnext).
  rewrite Hp, (set_pending_None_id w2 Hp). reflexivity.
Qed.

End CursorExhaustion.

(** On the sample cursor the engine reports end-of-data; fetching again
    after other calls, among them [close()] of the session, still yields
    [null]. *)
Lemma FetchNext_null_is_final_witness :
  exists w1 w2,
    MimerResultSetWrapper_FetchNext (api := sample_api) engine_ok 3 2
      sample_world = Some (JsNull, w1) /\
    run_ops (api := sample_api) engine_ok 3 sample_ToString
      [OpGetFields 2; OpFetchNext 2; OpStmtExecute 1 []; OpClose 1] w1
    = Some (tt, w2) /\
    MimerResultSetWrapper_FetchNext (api := sample_api) engine_ok 3 2 w2
    = Some (JsNull, w2).
Proof.
  eexists _, _.
  split; [vm_compute; reflexivity|].
  split; [vm_compute; reflexivity|].
  refine (proj1 (FetchNext_null_is_final (api := sample_api) engine_ok 3
                   sample_ToString 2 sample_world _ _
                   [OpGetFields 2; OpFetchNext 2; OpStmtExecute 1 [];
                    OpClose 1] _ _ _)).
  - vm_compute. reflexivity.
  - repeat constructor; discriminate.
  - vm_compute. reflexivity.
Defined.

(** ** The parameter count *)

Lemma to_int32_small z : 0 <= z <= INT32_MAX -> to_int32 z = z.
Proof.
  unfold to_int32, wrap_signed, INT32_MAX. intros Hz.
  rewrite Z.mod_small by lia.
  destruct (z <? 2 ^ (32 - 1)) eqn:E; [reflexivity|].
  apply Z.ltb_ge in E. simpl in E. lia.
Qed.

(** The cast of an array length to [int] agrees with a non-negative
    declared count only when the length is that count. *)
Lemma to_int32_length_eq (len k : Z) :
  0 <= len <= UINT32_MAX -> 0 <= k ->
  to_int32 len = k -> len = k.
Proof.
  unfold to_int32, wrap_signed, UINT32_MAX. intros Hl Hk.
  rewrite Z.mod_small by lia.
  destruct (len <? 2 ^ (32 - 1)) eqn:E; [auto|].
  apply Z.ltb_ge in E. simpl in E. lia.
Qed.

Section ParameterCount.

Context {api : MimerApi}.
Variable eng : Engine.
Variable fuel : nat.
Variable ToString : JsValue -> string.

(** A wrong count: one call, [MimerParameterCount], then the error. *)
Lemma BindParameters_mismatch stmt params w :
  to_int32 (Z.of_nat (length params))
    <> rc (eng (trace w) (CallParameterCount stmt)) ->
  pending w = None ->
  BindParameters eng fuel ToString stmt params w =
  Some (tt,
        mkWorld
          (trace w ++ [(CallParameterCount stmt,
                        eng (trace w) (CallParameterCount stmt))])
          (Some (count_mismatch_error
                   (rc (eng (trace w) (CallParameterCount stmt)))
                   (to_int32 (Z.of_nat (length params)))))
          (connections w) (statements w) (resultsets w)).
Proof.
  intros Hne Hp.
  unfold BindParameters, MimerParameterCount, engine_call, ThrowMimerError,
    ThrowAsJavaScriptException.
  mrun. apply Z.eqb_neq in Hne. rewrite Hne. simpl. rewrite Hp. reflexivity.
Qed.

(** A right count: the binder is the loop over the values. *)
Lemma BindParameters_match stmt params w :
  to_int32 (Z.of_nat (length params))
    = rc (eng (trace w) (CallParameterCount stmt)) ->
  BindParameters eng fuel ToString stmt params w =
  bind_loop eng fuel ToString stmt params
    (seqZ 0 (to_int32 (Z.of_nat (length params))))
    (set_trace (trace w ++ [(CallParameterCount stmt,
                             eng (trace w) (CallParameterCount stmt))]) w).
Proof.
  intros He.
  unfold BindParameters, MimerParameterCount, engine_call.
  mrun. apply Z.eqb_eq in He. rewrite He. reflexivity.
Qed.

(** Binding one value raises nothing. *)
Lemma bind_value_pending stmt idx val :
  stable (fun w w' => pending w' = pending w)
    (bind_value eng fuel ToString stmt idx val).
Proof.
  apply stable_bind_value.
  - reflexivity.
  - intros w1 w2 w3 H1 H2. congruence.
  - reflexivity.
Qed.

(** The loop either binds every value and raises nothing, or stops at the
    first value [i] whose bind call returns a negative status and raises
    the bind failure for it. *)
Lemma bind_loop_outcome stmt params indices : forall w w',
  pending w = None ->
  bind_loop eng fuel ToString stmt params indices w = Some (tt, w') ->
  pending w' = None \/
  exists i code, i ∈ indices /\ code < 0 /\
                 pending w' = Some (bind_failure_error (i + 1) code).
Proof.
  induction indices as [|i rest IH]; intros w w' Hp H; simpl in H.
  - inversion H; subst. left. exact Hp.
  - apply bind_Some in H as (code & w1 & Hv & H).
    pose proof (bind_value_pending _ _ _ _ _ _ Hv) as Hp1. simpl in Hp1.
    destruct (code <? 0) eqn:Hc.
    + right. exists i, code. split; [left|]. split; [apply Z.ltb_lt, Hc|].
      unfold ThrowMimerError, ThrowAsJavaScriptException in H. mrun in H.
      rewrite Hp1, Hp in H. inversion H; subst. reflexivity.
    + destruct (IH w1 w') as [Hn|(j & c & Hj & Hlt & He)];
        [congruence | exact H | left; exact Hn |].
      right. exists j, c. split; [right; exact Hj | auto].
Qed.

(** [Statement.execute] with a non-empty array of the wrong length. *)
Lemma Stmt_Execute_mismatch q w s x rest more :
  statements w !! q = Some s -> closed_ s = false -> pending w = None ->
  to_int32 (Z.of_nat (length (x :: rest)))
    <> rc (eng (trace w) (CallParameterCount (stmt_ s))) ->
  js_invoke (MimerStmtWrapper_Execute eng fuel ToString q
               (JsArray (x :: rest) :: more)) w =
  Some (Thrown (count_mismatch_error
                  (rc (eng (trace w) (CallParameterCount (stmt_ s))))
                  (to_int32 (Z.of_nat (length (x :: rest))))),
        mkWorld
          (trace w ++ [(CallParameterCount (stmt_ s),
                        eng (trace w) (CallParameterCount (stmt_ s)))])
          None (connections w) (statements w) (resultsets w)).
Proof.
  intros Hs Hc Hp Hne.
  assert (Hbody :
    MimerStmtWrapper_Execute eng fuel ToString q
      (JsArray (x :: rest) :: more) w
    = Some (JsUndefined,
            mkWorld
              (trace w ++ [(CallParameterCount (stmt_ s),
                            eng (trace w) (CallParameterCount (stmt_ s)))])
              (Some (count_mismatch_error
                       (rc (eng (trace w) (CallParameterCount (stmt_ s))))
                       (to_int32 (Z.of_nat (length (x :: rest))))))
              (connections w) (statements w) (resultsets w))).
  { unfold MimerStmtWrapper_Execute, get_stmt.
    rewrite bind_run, Hs, Hc. cbn [lookup list_lookup array_argument].
    rewrite bind_run, (BindParameters_mismatch _ _ _ Hne Hp).
    reflexivity. }
  rewrite (js_invoke_run _ _ _ _ Hbody). reflexivity.
Qed.

(** [Connection.execute] and [executeQuery] with a non-empty array of the
    wrong length: the statement is prepared, the count is read, the
    statement is ended. *)
Lemma Conn_Execute_mismatch c w cn sql x rest more :
  connections w !! c = Some cn -> connected_ cn = true -> pending w = None ->
  let begin := CallBeginStatement8 (session_ cn) sql MIMER_FORWARD_ONLY in
  let r0 := eng (trace w) begin in
  let tr1 := trace w ++ [(begin, r0)] in
  let r1 := eng tr1 (CallParameterCount (out_handle r0)) in
  let tr2 := tr1 ++ [(CallParameterCount (out_handle r0), r1)] in
  let final :=
    mkWorld (tr2 ++ [(CallEndStatement (out_handle r0),
                      eng tr2 (CallEndStatement (out_handle r0)))])
      None (connections w) (statements w) (resultsets w) in
  rc r0 <> MIMER_STATEMENT_CANNOT_BE_PREPARED -> 0 <= rc r0 ->
  to_int32 (Z.of_nat (length (x :: rest))) <> rc r1 ->
  js_invoke (MimerConnection_Execute eng fuel ToString c
               (JsString sql :: JsArray (x :: rest) :: more)) w =
  Some (Thrown (count_mismatch_error (rc r1)
                  (to_int32 (Z.of_nat (length (x :: rest))))), final)
  /\
  js_invoke (MimerConnection_ExecuteQuery eng fuel ToString c
               (JsString sql :: JsArray (x :: rest) :: more)) w =
  Some (Thrown (count_mismatch_error (rc r1)
                  (to_int32 (Z.of_nat (length (x :: rest))))), final).
Proof.
  intros Hcn Hconn Hp begin r0 tr1 r1 tr2 final Hprep Hrc Hne.
  apply Z.eqb_neq in Hprep. apply Z.ltb_ge in Hrc.
  assert (Hbind :
    BindParameters eng fuel ToString (out_handle r0) (x :: rest)
      (set_trace tr1 w)
    = Some (tt, mkWorld tr2
                  (Some (count_mismatch_error (rc r1)
                           (to_int32 (Z.of_nat (length (x :: rest))))))
                  (connections w) (statements w) (resultsets w))).
  { apply (BindParameters_mismatch (out_handle r0) (x :: rest)
             (set_trace tr1 w)); [exact Hne | exact Hp]. }
  set (mid := mkWorld
                (tr2 ++ [(CallEndStatement (out_handle r0),
                          eng tr2 (CallEndStatement (out_handle r0)))])
                (Some (count_mismatch_error (rc r1)
                         (to_int32 (Z.of_nat (length (x :: rest))))))
                (connections w) (statements w) (resultsets w)).
  assert (Hexec :
    MimerConnection_Execute eng fuel ToString c
      (JsString sql :: JsArray (x :: rest) :: more) w
    = Some (JsUndefined, mid)).
  { unfold MimerConnection_Execute, get_conn.
    rewrite bind_run, Hcn, Hconn.
    cbn [negb lookup list_lookup array_argument].
    unfold MimerBeginStatement8, engine_call. rewrite !bind_run.
    cbn [fst snd mret M_ret]. fold begin. fold r0.
    cbn [rc out_handle]. rewrite Hprep, Hrc.
    fold tr1. rewrite bind_run, Hbind.
    reflexivity. }
  assert (Hquery :
    MimerConnection_ExecuteQuery eng fuel ToString c
      (JsString sql :: JsArray (x :: rest) :: more) w
    = Some (JsUndefined, mid)).
  { unfold MimerConnection_ExecuteQuery, get_conn.
    rewrite bind_run, Hcn, Hconn.
    cbn [negb lookup list_lookup array_argument].
    unfold MimerBeginStatement8, engine_call. rewrite !bind_run.
    cbn [fst snd mret M_ret]. fold begin. fold r0.
    cbn [rc out_handle]. rewrite Hprep, Hrc.
    fold tr1. rewrite bind_run, Hbind.
    reflexivity. }
  rewrite (js_invoke_run _ _ _ _ Hexec), (js_invoke_run _ _ _ _ Hquery).
  split; reflexivity.
Qed.

(** C3, amended. Let a statement declare [K >= 0] parameters.
    - The binder, given [L <> K] values, makes one engine call, the one
      that reads the count, and raises the count-mismatch error: no value
      is bound.
    - [Statement.execute], [Connection.execute] and [executeQuery] hand a
      parameter array to the binder only when it is non-empty; with
      [L > 0] and [L <> K] they throw that error, having bound nothing.
    - An empty array is the same as no array: the binder is not called
      and the count is not checked.
    - With [L = K] the count check passes, and the binder raises either
      nothing or the bind failure of one value, whose status is
      negative. *)
Theorem parameter_count_check :
  (forall stmt params w,
     pending w = None ->
     0 <= rc (eng (trace w) (CallParameterCount stmt)) ->
     Z.of_nat (length params) <= UINT32_MAX ->
     Z.of_nat (length params)
       <> rc (eng (trace w) (CallParameterCount stmt)) ->
     BindParameters eng fuel ToString stmt params w =
     Some (tt,
           mkWorld
             (trace w ++ [(CallParameterCount stmt,
                           eng (trace w) (CallParameterCount stmt))])
             (Some (count_mismatch_error
                      (rc (eng (trace w) (CallParameterCount stmt)))
                      (to_int32 (Z.of_nat (length params)))))
             (connections w) (statements w) (resultsets w)))
  /\
  (forall q w s x rest more,
     statements w !! q = Some s -> closed_ s = false -> pending w = None ->
     0 <= rc (eng (trace w) (CallParameterCount (stmt_ s))) ->
     Z.of_nat (length (x :: rest)) <= UINT32_MAX ->
     Z.of_nat (length (x :: rest))
       <> rc (eng (trace w) (CallParameterCount (stmt_ s))) ->
     js_invoke (MimerStmtWrapper_Execute eng fuel ToString q
                  (JsArray (x :: rest) :: more)) w =
     Some (Thrown (count_mismatch_error
                     (rc (eng (trace w) (CallParameterCount (stmt_ s))))
                     (to_int32 (Z.of_nat (length (x :: rest))))),
           mkWorld
             (trace w ++ [(CallParameterCount (stmt_ s),
                           eng (trace w) (CallParameterCount (stmt_ s)))])
             None (connections w) (statements w) (resultsets w)))
  /\
  (forall c w cn sql x rest more,
     connections w !! c = Some cn -> connected_ cn = true ->
     pending w = None ->
     let begin := CallBeginStatement8 (session_ cn) sql MIMER_FORWARD_ONLY in
     let r0 := eng (trace w) begin in
     let tr1 := trace w ++ [(begin, r0)] in
     let r1 := eng tr1 (CallParameterCount (out_handle r0)) in
     let tr2 := tr1 ++ [(CallParameterCount (out_handle r0), r1)] in
     let final :=
       mkWorld (tr2 ++ [(CallEndStatement (out_handle r0),
                         eng tr2 (CallEndStatement (out_handle r0)))])
         None (connections w) (statements w) (resultsets w) in
     rc r0 <> MIMER_STATEMENT_CANNOT_BE_PREPARED -> 0 <= rc r0 ->
     0 <= rc r1 ->
     Z.of_nat (length (x :: rest)) <= UINT32_MAX ->
     Z.of_nat (length (x :: rest)) <> rc r1 ->
     js_invoke (MimerConnection_Execute eng fuel ToString c
                  (JsString sql :: JsArray (x :: rest) :: more)) w =
     Some (Thrown (count_mismatch_error (rc r1)
                     (to_int32 (Z.of_nat (length (x :: rest))))), final)
     /\
     js_invoke (MimerConnection_ExecuteQuery eng fuel ToString c
                  (JsString sql :: JsArray (x :: rest) :: more)) w =
     Some (Thrown (count_mismatch_error (rc r1)
                     (to_int32 (Z.of_nat (length (x :: rest))))), final))
  /\
  (forall q c sql more,
     MimerStmtWrapper_Execute eng fuel ToString q (JsArray [] :: more)
     = MimerStmtWrapper_Execute eng fuel ToString q [] /\
     MimerConnection_Execute eng fuel ToString c
       (JsString sql :: JsArray [] :: more)
     = MimerConnection_Execute eng fuel ToString c [JsString sql] /\
     MimerConnection_ExecuteQuery eng fuel ToString c
       (JsString sql :: JsArray [] :: more)
     = MimerConnection_ExecuteQuery eng fuel ToString c [JsString sql])
  /\
  (forall stmt params w w',
     pending w = None ->
     0 <= rc (eng (trace w) (CallParameterCount stmt)) <= INT32_MAX ->
     Z.of_nat (length params)
       = rc (eng (trace w) (CallParameterCount stmt)) ->
     BindParameters eng fuel ToString stmt params w = Some (tt, w') ->
     pending w' = None \/
     exists i code,
       1 <= i <= Z.of_nat (length params) /\ code < 0 /\
       pending w' = Some (bind_failure_error i code)).
Proof.
  assert (Hwrap : forall len k,
            0 <= k -> Z.of_nat len <= UINT32_MAX -> Z.of_nat len <> k ->
            to_int32 (Z.of_nat len) <> k).
  { intros len k Hk Hl Hne He. apply Hne.
    apply to_int32_length_eq; [lia | exact Hk | exact He]. }
  split; [|split; [|split; [|split]]].
  - intros stmt params w Hp Hk Hl Hne.
    apply BindParameters_mismatch; [apply Hwrap; assumption | exact Hp].
  - intros q w s x rest more Hs Hc Hp Hk Hl Hne.
    apply Stmt_Execute_mismatch; try assumption. apply Hwrap; assumption.
  - intros c w cn sql x rest more Hcn Hconn Hp begin r0 tr1 r1 tr2 final
      Hprep Hrc Hk Hl Hne.
    apply Conn_Execute_mismatch; try assumption. apply Hwrap; assumption.
  - intros q c sql more. repeat split.
  - intros stmt params w w' Hp Hk He Hrun.
    assert (Hcast : to_int32 (Z.of_nat (length params))
                    = rc (eng (trace w) (CallParameterCount stmt))).
    { rewrite He. apply to_int32_small. exact Hk. }
    rewrite (BindParameters_match _ _ _ Hcast) in Hrun.
    apply bind_loop_outcome in Hrun; [|exact Hp].
    destruct Hrun as [Hn|(i & code & Hi & Hlt & Herr)]; [left; exact Hn|].
    right. exists (i + 1), code. split; [|auto].
    apply elem_of_seqZ in Hi. rewrite Hcast, <- He in Hi. lia.
Qed.

End ParameterCount.

(** Two values for a statement that declares one parameter. *)
Lemma parameter_count_check_witness :
  BindParameters (api := sample_api) engine_one_param 0 sample_ToString 7
    [JsNumber (S754_finite false 1 0); JsNumber (S754_finite false 1 1)]
    sample_world
  = Some (tt,
          mkWorld [(CallParameterCount 7, reply_rc 1)]
            (Some (count_mismatch_error 1 2))
            (connections sample_world) (statements sample_world)
            (resultsets sample_world)).
Proof.
  apply (proj1 (parameter_count_check (api := sample_api) engine_one_param 0
                  sample_ToString)).
  - reflexivity.
  - simpl. lia.
  - simpl. unfold UINT32_MAX. lia.
  - simpl. lia.
Defined.

(** C3, as stated, fails for [L = 0]: executing a statement that declares
    one parameter with an empty array does not raise the count-mismatch
    error. The binder is skipped, [MimerExecute] runs and its result is
    returned. *)
Lemma Execute_empty_array_skips_count_check :
  (fun r => (r.1, trace r.2))
    <$> js_invoke (MimerStmtWrapper_Execute (api := sample_api)
                     engine_one_param 0 sample_ToString 1 [JsArray []])
          sample_world
  = Some (Returned (JsObject [("rowCount", JsNumber (S754_zero false))]),
          [(CallExecute 7, reply_rc 0)]).
Proof. vm_compute. reflexivity. Qed.

(** ** Getter statuses in row marshalling *)


Lemma quiet_step_refl w : quiet_step w w.
Proof. split; [reflexivity | apply same_objects_refl]. Qed.

Lemma quiet_step_trans w1 w2 w3 :
  quiet_step w1 w2 -> quiet_step w2 w3 -> quiet_step w1 w3.
Proof.
  intros [A1 A2] [B1 B2].
  split; [congruence | eapply same_objects_trans; eassumption].
Qed.

Section GetterStatus.

Context {api : MimerApi}.
Variable eng : Engine.
Variable fuel : nat.

Lemma FetchSingleRow_quiet stmt n names types :
  stable quiet_step (FetchSingleRow eng fuel stmt n names types).
Proof.
  apply stable_FetchSingleRow.
  - exact quiet_step_refl.
  - exact quiet_step_trans.
  - intros w c r _. split; [reflexivity | repeat split].
Qed.



End GetterStatus.


(** ** The statement of [Execute] is always released *)

Lemma released_last_intro stmt w w1 w' rp :
  helper_step w w1 ->
  trace w' = trace w1 ++ [(CallEndStatement stmt, rp)] ->
  released_last stmt w w'.
Proof.
  intros [_ (mid & Hm & Hf)] Ht. exists mid, rp. split.
  - rewrite Ht, Hm. symmetry. apply app_assoc.
  - eapply Forall_impl; [exact Hf|]. simpl. intros ev Hev.
    apply negb_true_iff, Hev.
Qed.

Section ScopedStatement.

Context {api : MimerApi}.
Variable eng : Engine.
Variable fuel : nat.
Variable ToString : JsValue -> string.

Lemma helper_get_conn c : stable helper_step (get_conn c).
Proof.
  intros w a w' H. unfold get_conn in H.
  destruct (connections w !! c); inversion H. apply helper_step_refl.
Qed.

Lemma helper_CheckError c code op :
  stable helper_step (MimerConnection_CheckError eng c code op).
Proof.
  unfold MimerConnection_CheckError, MimerConnection_GetErrorMessage.
  assert (Hget : forall s, stable helper_step (MimerGetError8 eng s)).
  { intros s. apply stable_MimerGetError8;
      first [ exact helper_step_refl | exact helper_step_trans
            | exact helper_step_call ]. }
  assert (Hthrow : forall a b d, stable helper_step (ThrowMimerError a b d)).
  { intros a b d. apply stable_ThrowMimerError;
      first [ exact helper_step_refl | exact helper_step_pending ]. }
  pose proof helper_get_conn.
  stable_auto.
Qed.

Lemma helper_call c :
  is_release_call c = false -> stable helper_step (engine_call eng c).
Proof.
  intros Hc. apply stable_engine_call; [exact helper_step_call | exact Hc].
Qed.

(** The call of [MimerEndStatement] and what it leaves behind. *)
Lemma MimerEndStatement_run stmt w :
  MimerEndStatement eng stmt w =
  Some ((rc (eng (trace w) (CallEndStatement stmt)),
         out_handle (eng (trace w) (CallEndStatement stmt))),
        set_trace (trace w ++ [(CallEndStatement stmt,
                                eng (trace w) (CallEndStatement stmt))]) w).
Proof. reflexivity. Qed.

Lemma conn_execute_bound_releases c stmt w v w' :
  conn_execute_bound eng fuel c stmt w = Some (v, w') ->
  released_last stmt w w'.
Proof.
  unfold conn_execute_bound. intros H.
  apply bind_Some in H as (n & w1 & H1 & H).
  assert (S1 : helper_step w w1).
  { revert H1. apply stable_MimerColumnCount;
      first [ exact helper_step_refl | exact helper_step_trans
            | exact helper_step_call ]. }
  destruct (0 <? n).
  - apply bind_Some in H as (fields & w2 & H2 & H).
    pose proof (BuildFieldsArray_helper eng stmt n _ _ _ H2) as S2.
    apply bind_Some in H as (code & w3 & H3 & H).
    assert (S3 : helper_step w2 w3).
    { revert H3. apply stable_MimerOpenCursor;
        first [ exact helper_step_refl | exact helper_step_trans
              | exact helper_step_call ]. }
    assert (S13 : helper_step w w3)
      by (eapply helper_step_trans; [exact S1|];
          eapply helper_step_trans; eassumption).
    destruct (code <? 0).
    + apply bind_Some in H as (u & w4 & H4 & H).
      apply helper_CheckError in H4.
      rewrite bind_run, MimerEndStatement_run, ret_run in H.
      inversion H; subst. eapply released_last_intro; [|reflexivity].
      eapply helper_step_trans; eassumption.
    + apply bind_Some in H as (rows & w4 & H4 & H).
      apply FetchResults_helper in H4.
      rewrite bind_run, MimerEndStatement_run, ret_run in H.
      inversion H; subst. eapply released_last_intro; [|reflexivity].
      eapply helper_step_trans; eassumption.
  - apply bind_Some in H as (code & w2 & H2 & H).
    assert (S2 : helper_step w1 w2).
    { revert H2. apply stable_MimerExecute;
        first [ exact helper_step_refl | exact helper_step_trans
              | exact helper_step_call ]. }
    assert (S12 : helper_step w w2)
      by (eapply helper_step_trans; eassumption).
    destruct (code <? 0).
    + apply bind_Some in H as (u & w3 & H3 & H).
      apply helper_CheckError in H3.
      rewrite bind_run, MimerEndStatement_run, ret_run in H.
      inversion H; subst. eapply released_last_intro; [|reflexivity].
      eapply helper_step_trans; eassumption.
    + rewrite bind_run, MimerEndStatement_run, ret_run in H.
      inversion H; subst. eapply released_last_intro; [exact S12|].
      reflexivity.
Qed.

(** [CheckError] always returns when the connection is live. *)
Lemma CheckError_returns c code op w cn :
  connections w !! c = Some cn ->
  exists w1, MimerConnection_CheckError eng c code op w = Some (tt, w1) /\
             connections w1 = connections w.
Proof.
  intros Hc.
  unfold MimerConnection_CheckError, MimerConnection_GetErrorMessage,
    get_conn, MimerGetError8, engine_call, ThrowMimerError,
    ThrowAsJavaScriptException.
  destruct (code <? 0); [|exists w; split; reflexivity].
  mrun. rewrite Hc. simpl.
  destruct (negb (session_ cn =? MIMERNULLHANDLE)); simpl.
  - match goal with
    | |- context [0 <? ?x] => destruct (0 <? x)
    end; simpl; destruct (pending w); eexists; split; reflexivity.
  - destruct (pending w); eexists; split; reflexivity.
Qed.

(** C9. Suppose [Execute] has prepared a statement: [MimerBeginStatement8]
    returned a status that is neither "cannot be prepared" nor negative,
    and the handle [stmt]. Then on every run that returns, whatever the
    exit path (bind failure, cursor-open failure, execute failure or
    success), the last call to the engine is [MimerEndStatement] on
    [stmt], and no other call in between releases anything. The call does
    return, for every iteration budget, when no parameter array is given
    and the statement has no result columns. *)
Theorem Execute_releases_statement (c : positive) (w : World)
    (cn : MimerConnection) (sql : string) (more : list JsValue) :
  connections w !! c = Some cn ->
  connected_ cn = true ->
  let begin := CallBeginStatement8 (session_ cn) sql MIMER_FORWARD_ONLY in
  let r0 := eng (trace w) begin in
  let w1 := set_trace (trace w ++ [(begin, r0)]) w in
  rc r0 <> MIMER_STATEMENT_CANNOT_BE_PREPARED ->
  0 <= rc r0 ->
  (forall v w',
     MimerConnection_Execute eng fuel ToString c (JsString sql :: more) w
     = Some (v, w') ->
     released_last (out_handle r0) w1 w')
  /\
  (array_argument (more !! 0%nat) = None ->
   rc (eng (trace w1) (CallColumnCount (out_handle r0))) <= 0 ->
   exists v w',
     MimerConnection_Execute eng fuel ToString c (JsString sql :: more) w
     = Some (v, w')).
Proof.
  intros Hc Hconn begin r0 w1 Hprep Hrc.
  apply Z.eqb_neq in Hprep. apply Z.ltb_ge in Hrc.
  assert (Hunfold :
    MimerConnection_Execute eng fuel ToString c (JsString sql :: more) w =
    match array_argument (more !! 0%nat) with
    | Some params =>
        (BindParameters eng fuel ToString (out_handle r0) params ;;
         failed ← IsExceptionPending;
         if (failed : bool) then
           MimerEndStatement eng (out_handle r0) ;; mret JsUndefined
         else conn_execute_bound eng fuel c (out_handle r0)) w1
    | None => conn_execute_bound eng fuel c (out_handle r0) w1
    end).
  { unfold MimerConnection_Execute, get_conn.
    rewrite bind_run, Hc, Hconn. cbn [negb lookup list_lookup].
    unfold MimerBeginStatement8, engine_call. rewrite !bind_run.
    cbn [fst snd mret M_ret]. fold begin. fold r0.
    cbn [rc out_handle]. rewrite Hprep, Hrc. fold w1.
    change ((JsString sql :: more) !! 1%nat) with (more !! 0%nat).
    destruct (array_argument (more !! 0%nat)); reflexivity. }
  split.
  - intros v w' H. rewrite Hunfold in H.
    destruct (array_argument (more !! 0%nat)) as [params|].
    + apply bind_Some in H as (u & w2 & H2 & H).
      apply BindParameters_helper in H2.
      apply bind_Some in H as (failed & w3 & H3 & H).
      unfold IsExceptionPending in H3. mrun in H3. inversion H3; subst w3.
      clear H3. destruct failed.
      * rewrite bind_run, MimerEndStatement_run, ret_run in H.
        inversion H; subst. eapply released_last_intro; [exact H2|].
        reflexivity.
      * apply conn_execute_bound_releases in H.
        destruct H2 as [_ (m1 & Hm1 & Hf1)].
        destruct H as (m2 & rp & Hm2 & Hf2).
        exists (m1 ++ m2), rp. split.
        -- rewrite Hm2, Hm1. rewrite <- !app_assoc. reflexivity.
        -- apply Forall_app. split; [|exact Hf2].
           eapply Forall_impl; [exact Hf1|]. simpl. intros ev Hev.
           apply negb_true_iff, Hev.
    + apply conn_execute_bound_releases in H. exact H.
  - intros Hnone Hcols. rewrite Hunfold, Hnone.
    unfold conn_execute_bound, MimerColumnCount, MimerExecute, engine_call.
    apply Z.ltb_ge in Hcols. subst w1. simpl in Hcols.
    mrun. rewrite Hcols.
    match goal with
    | |- context [rc ?x <? 0] => destruct (rc x <? 0)
    end.
    + match goal with
      | |- context [MimerConnection_CheckError eng c ?code ?op ?w0] =>
          destruct (CheckError_returns c code op w0 cn Hc)
            as (w2 & Hchk & _)
      end.
      rewrite Hchk. eexists _, _. reflexivity.
    + eexists _, _. reflexivity.
Qed.

End ScopedStatement.

(** A bind failure: the value is rejected, and the statement is ended. *)
Lemma Execute_releases_statement_witness :
  exists v w',
    MimerConnection_Execute (api := sample_api) engine_bind_fails 3
      sample_ToString 1
      [JsString "UPDATE t SET x = ?"; JsArray [JsNumber (S754_zero false)]]
      sample_world = Some (v, w') /\
    released_last 7
      (set_trace [(CallBeginStatement8 5 "UPDATE t SET x = ?" 0,
                   mkReply 0 7 0 (S754_zero false) [] "")] sample_world)
      w'.
Proof.
  eexists _, _. split; [vm_compute; reflexivity|].
  refine (proj1 (Execute_releases_statement (api := sample_api)
                   engine_bind_fails 3 sample_ToString 1 sample_world
                   sample_conn "UPDATE t SET x = ?"
                   [JsArray [JsNumber (S754_zero false)]]
                   eq_refl eq_refl _ _) _ _ _).
  - simpl. discriminate.
  - simpl. lia.
  - vm_compute. reflexivity.
Defined.

(** The calls [Execute] makes on its four kinds of exit; the last one is
    always [MimerEndStatement] on the handle [7]. *)
Example Execute_exit_paths :
  let calls (eng : Engine) (info : list JsValue) :=
    (fun r => map fst (trace r.2))
      <$> js_invoke (MimerConnection_Execute (api := sample_api) eng 3
                       sample_ToString 1 info) sample_world in
  calls engine_bind_fails
    [JsString "q"; JsArray [JsNumber (S754_zero false)]]
  = Some [ CallBeginStatement8 5 "q" 0; CallParameterCount 7;
           CallSetInt32 7 1 0; CallEndStatement 7 ]
  /\ calls engine_open_fails [JsString "q"]
  = Some [ CallBeginStatement8 5 "q" 0; CallColumnCount 7;
           CallColumnName8 7 1; CallColumnType 7 1; CallOpenCursor 7;
           CallGetError8 5; CallEndStatement 7 ]
  /\ calls engine_execute_fails [JsString "q"]
  = Some [ CallBeginStatement8 5 "q" 0; CallColumnCount 7; CallExecute 7;
           CallGetError8 5; CallEndStatement 7 ]
  /\ calls engine_ok [JsString "q"]
  = Some [ CallBeginStatement8 5 "q" 0; CallColumnCount 7; CallExecute 7;
           CallEndStatement 7 ].
Proof. vm_compute. repeat split. Qed.

(** ** Chunks of a character large object *)

Section Utf8.

Lemma utf8_len_bounds b k : utf8_len b = Some k -> (1 <= k <= 4)%nat.
Proof.
  unfold utf8_len.
  repeat match goal with
         | |- context [if ?c then _ else _] => destruct c
         end; intros H; inversion H; lia.
Qed.

Lemma utf8_len_not_cont b k : utf8_len b = Some k -> is_cont b = false.
Proof. destruct b; vm_compute; congruence. Qed.

Lemma boundary_range data p : boundary data p -> 0 <= p <= Z.of_nat (length data).
Proof.
  intros (s1 & s2 & -> & <- & _). rewrite length_app. lia.
Qed.

Lemma boundary_0 data : utf8 data -> boundary data 0.
Proof. intros H. exists [], data. repeat split; [constructor | exact H]. Qed.

Lemma boundary_end data : utf8 data -> boundary data (Z.of_nat (length data)).
Proof.
  intros H. exists data, []. rewrite app_nil_r.
  repeat split; [exact H | constructor].
Qed.

Lemma utf8_app s1 s2 : utf8 s1 -> utf8 s2 -> utf8 (s1 ++ s2).
Proof.
  induction 1 as [|lead conts rest Hl Hc Hr IH]; intros H2; [exact H2|].
  simpl. rewrite <- app_assoc. constructor; auto.
Qed.

(** At a boundary inside the string there is a lead byte, and the next
    boundary is at most four bytes away. *)
Lemma boundary_lead data p :
  boundary data p -> p < Z.of_nat (length data) ->
  is_continuation (byte_at data p) = false /\
  exists k, 1 <= k <= 4 /\ boundary data (p + k).
Proof.
  intros (s1 & s2 & -> & <- & H1 & H2) Hlt.
  rewrite length_app in Hlt.
  destruct H2 as [|lead conts rest Hl Hc Hr]; [simpl in Hlt; lia|].
  split.
  - unfold byte_at. rewrite Nat2Z.id.
    rewrite app_nth2 by lia. rewrite Nat.sub_diag. simpl.
    apply (utf8_len_not_cont lead _ Hl).
  - exists (Z.of_nat (S (length conts))).
    split; [apply utf8_len_bounds in Hl; lia|].
    exists (s1 ++ lead :: conts), rest. repeat split.
    + rewrite <- app_assoc. reflexivity.
    + rewrite length_app. simpl. lia.
    + apply utf8_app; [exact H1|].
      rewrite <- (app_nil_r conts). constructor; auto. constructor.
    + exact Hr.
Qed.

(** Conversely, a position of a well-formed string that holds no
    continuation byte is a boundary. *)
Lemma lead_boundary data :
  utf8 data ->
  forall p, 0 <= p < Z.of_nat (length data) ->
  is_continuation (byte_at data p) = false -> boundary data p.
Proof.
  induction 1 as [|lead conts rest Hl Hc Hr IH]; intros p Hp Hb.
  - simpl in Hp. lia.
  - destruct (Z.eq_dec p 0) as [->|Hne].
    + apply boundary_0. constructor; auto.
    + destruct (Z_lt_le_dec p (Z.of_nat (S (length conts)))) as [Hin|Hout].
      * (* inside the continuation bytes: impossible *)
        exfalso. unfold byte_at in Hb.
        replace (Z.to_nat p) with (S (Z.to_nat (p - 1))) in Hb by lia.
        simpl in Hb. rewrite app_nth1 in Hb by lia.
        rewrite Forall_forall in Hc.
        assert (Hmem : nth (Z.to_nat (p - 1)) conts x00 ∈ conts).
        { apply list_elem_of_In, nth_In. lia. }
        apply Hc in Hmem. unfold is_cont in Hmem. congruence.
      * simpl length in Hp. rewrite length_app in Hp.
        destruct (IH (p - Z.of_nat (S (length conts)))) as (s1 & s2 & E & Hlen & H1 & H2).
        { lia. }
        { unfold byte_at in *.
          replace (Z.to_nat p)
            with (S (length conts + Z.to_nat (p - Z.of_nat (S (length conts)))))
            in Hb by lia.
          simpl in Hb. rewrite app_nth2_plus in Hb. exact Hb. }
        exists (lead :: conts ++ s1), s2. repeat split.
        -- simpl. rewrite <- app_assoc, E. reflexivity.
        -- simpl length. rewrite length_app. lia.
        -- constructor; auto.
        -- exact H2.
Qed.

End Utf8.

Lemma valid_utf8_from_sound n : forall s,
  valid_utf8_from n s = true -> utf8 s.
Proof.
  induction n as [|n IH]; intros [|lead tail] H; try constructor;
    simpl in H; try discriminate.
  destruct (utf8_len lead) as [[|k]|] eqn:Hl; try discriminate.
  apply andb_true_iff in H as [H Hrest].
  apply andb_true_iff in H as [Hk Hc].
  apply Nat.leb_le in Hk.
  rewrite <- (take_drop k tail).
  constructor.
  - rewrite length_take, Nat.min_l by lia. exact Hl.
  - apply Forall_forall. intros b Hb.
    rewrite forallb_forall in Hc. apply Hc. apply list_elem_of_In, Hb.
  - apply IH, Hrest.
Qed.

Lemma valid_utf8_sound s : valid_utf8 s = true -> utf8 s.
Proof. apply valid_utf8_from_sound. Qed.

(** What the inner loop leaves: a chunk length at which the string ends or
    a lead byte stands, unless it has run down to zero; everything it has
    skipped is a continuation byte inside the string. *)
Lemma shrink_chunk_spec data offset remaining : forall n chunk,
  (Z.to_nat chunk <= n)%nat -> 0 <= chunk <= remaining ->
  let c := shrink_chunk n data offset remaining chunk in
  0 <= c <= chunk /\
  (c = 0 \/ c = remaining \/
   is_continuation (byte_at data (offset + c)) = false) /\
  (forall j, c < j <= chunk ->
     j < remaining /\ is_continuation (byte_at data (offset + j)) = true).
Proof.
  induction n as [|n IH]; intros chunk Hn Hc; simpl.
  - assert (chunk = 0) by lia. subst.
    split; [lia|]. split; [left; reflexivity | intros j Hj; lia].
  - destruct (0 <? chunk) eqn:H0; simpl.
    + apply Z.ltb_lt in H0.
      destruct (chunk <? remaining) eqn:H1; simpl.
      * apply Z.ltb_lt in H1.
        destruct (is_continuation (byte_at data (offset + chunk))) eqn:H2.
        -- destruct (IH (chunk - 1)) as (A & B & C); [lia | lia |].
           split; [lia|]. split; [exact B|].
           intros j Hj. destruct (Z.eq_dec j chunk) as [->|Hne].
           ++ split; assumption.
           ++ apply C. lia.
        -- split; [lia|]. split; [right; right; exact H2|].
           intros j Hj. lia.
      * apply Z.ltb_ge in H1. assert (chunk = remaining) by lia. subst.
        split; [lia|]. split; [right; left; reflexivity|].
        intros j Hj. lia.
    + apply Z.ltb_ge in H0. assert (chunk = 0) by lia. subst.
      split; [lia|]. split; [left; reflexivity | intros j Hj; lia].
Qed.

(** On a well-formed string, from a boundary, with a limit of at least
    four bytes: the chunk is not empty, and it ends at the last boundary
    within the limit. *)
Lemma chunk_boundary data limit offset remaining :
  utf8 data -> 4 <= limit ->
  boundary data offset -> 0 < remaining ->
  offset + remaining = Z.of_nat (length data) ->
  let chunk0 := if remaining <? limit then remaining else limit in
  let c := shrink_chunk (Z.to_nat chunk0) data offset remaining chunk0 in
  0 < c <= remaining /\ c <= limit /\
  boundary data (offset + c) /\
  (forall b, boundary data b -> b <= offset + limit -> b <= offset + c).
Proof.
  intros Hu Hlim Hb Hrem Hlen chunk0 c.
  assert (Hc0 : 0 < chunk0 <= remaining /\ chunk0 <= limit).
  { subst chunk0. destruct (remaining <? limit) eqn:E;
      [apply Z.ltb_lt in E | apply Z.ltb_ge in E]; lia. }
  destruct (shrink_chunk_spec data offset remaining (Z.to_nat chunk0) chunk0)
    as (Hr & Hstop & Hskip); [lia | lia |]. fold c in Hr, Hstop, Hskip.
  pose proof (boundary_range _ _ Hb) as Hoff.
  assert (Hnb : forall j, c < j <= chunk0 -> ~ boundary data (offset + j)).
  { intros j Hj Hbj. destruct (Hskip j Hj) as [Hjr Hjc].
    destruct (boundary_lead data (offset + j) Hbj) as [Hlead _]; [lia|].
    congruence. }
  assert (Hpos : 0 < c).
  { destruct (Z_lt_le_dec 0 c) as [|Hle]; [assumption|]. exfalso.
    assert (c = 0) by lia.
    destruct (boundary_lead data offset Hb) as [_ (k & Hk & Hbk)]; [lia|].
    pose proof (boundary_range _ _ Hbk) as Hkr.
    destruct (Z_lt_le_dec chunk0 k) as [Hlt|Hge].
    - (* the chunk is shorter than the code point: it is the whole rest *)
      assert (chunk0 = remaining).
      { subst chunk0. destruct (remaining <? limit) eqn:E;
          [reflexivity | apply Z.ltb_ge in E; lia]. }
      destruct (Hskip chunk0) as [Hjr _]; lia.
    - apply (Hnb k); [lia | exact Hbk]. }
  split; [lia|]. split; [lia|]. split.
  - destruct Hstop as [H0|[Hend|Hlead]]; [lia| |].
    + rewrite Hend, Hlen. apply boundary_end, Hu.
    + destruct (Z.eq_dec c remaining) as [->|Hne].
      * rewrite Hlen. apply boundary_end, Hu.
      * apply lead_boundary; [exact Hu | lia | exact Hlead].
  - intros b Hbb Hle. destruct (Z_le_gt_dec b (offset + c)) as [|Hgt];
      [assumption|]. exfalso.
    pose proof (boundary_range _ _ Hbb) as Hbr.
    apply (Hnb (b - offset)).
    + subst chunk0. destruct (remaining <? limit) eqn:E;
        [apply Z.ltb_lt in E | apply Z.ltb_ge in E]; lia.
    + replace (offset + (b - offset)) with b by lia. exact Hbb.
Qed.






Lemma long_buffer_length :
  Z.of_nat (length long_buffer) = LOB_WRITE_CHUNK + 1.
Proof.
  unfold long_buffer. rewrite repeat_length. unfold LOB_WRITE_CHUNK. lia.
Qed.

Section NclobWrite.

Context {api : MimerApi}.
Variable eng : Engine.

Lemma slice_length data offset c :
  0 <= offset -> 0 <= c -> offset + c <= Z.of_nat (length data) ->
  Z.of_nat (length (slice data offset c)) = c.
Proof.
  intros Ho Hc Hl. unfold slice. rewrite length_take, length_drop. lia.
Qed.

Lemma slice_drop data offset c :
  0 <= offset -> 0 <= c ->
  drop (Z.to_nat offset) data
  = slice data offset c ++ drop (Z.to_nat (offset + c)) data.
Proof.
  intros Ho Hc. unfold slice.
  rewrite Z2Nat.inj_add by lia. rewrite <- drop_drop.
  symmetry. apply take_drop.
Qed.

(** The invariant of the chunking loop. *)
Lemma nclob_write_loop_run lob data limit :
  utf8 data -> 4 <= limit ->
  forall n remaining offset rc0 w,
    0 <= remaining ->
    offset + remaining = Z.of_nat (length data) ->
    boundary data offset ->
    (Z.to_nat remaining <= n)%nat ->
    exists chunks tr,
      nclob_write_loop eng limit n lob data remaining offset rc0 w
      = Some (last_status rc0 tr, set_trace (trace w ++ tr) w) /\
      map fst tr = map (CallSetNclobData8 lob) chunks /\
      answered eng (trace w) tr /\
      stops_at_failure tr /\
      (tr <> [] -> 0 <= rc0) /\
      Forall (boundary data) (chunk_ends offset chunks) /\
      chunks_maximal data limit offset chunks /\
      Forall (fun ch => 0 < Z.of_nat (length ch) <= limit) chunks /\
      exists rest,
        drop (Z.to_nat offset) data = concat chunks ++ rest /\
        (0 <= last_status rc0 tr -> rest = []).
Proof.
  intros Hu Hlim. induction n as [|n IH];
    intros remaining offset rc0 w Hrem Hlen Hb Hn.
  - assert (remaining = 0) by lia. subst remaining.
    exists [], []. simpl. rewrite set_trace_nil.
    split; [reflexivity|]. split; [reflexivity|]. split; [exact I|].
    split; [exact I|]. split; [congruence|].
    split; [constructor|]. split; [exact I|]. split; [constructor|].
    exists []. split; [|reflexivity].
    apply drop_ge. lia.
  - simpl nclob_write_loop.
    destruct ((0 <? remaining) && (0 <=? rc0)) eqn:Hcond.
    + apply andb_true_iff in Hcond as [Hpos Hrc].
      apply Z.ltb_lt in Hpos. apply Z.leb_le in Hrc.
      destruct (chunk_boundary data limit offset remaining Hu Hlim Hb Hpos
                  Hlen) as (Hc & Hcl & Hbc & Hmax).
      set (chunk0 := if remaining <? limit then remaining else limit) in *.
      set (c := shrink_chunk (Z.to_nat chunk0) data offset remaining chunk0)
        in *.
      pose proof (boundary_range _ _ Hb) as Hoff.
      unfold MimerSetNclobData8, engine_call. mrun.
      set (ev := (CallSetNclobData8 lob (slice data offset c),
                  eng (trace w) (CallSetNclobData8 lob (slice data offset c)))).
      destruct (IH (remaining - c) (offset + c) (rc ev.2)
                  (set_trace (trace w ++ [ev]) w))
        as (chunks & tr & Hrun & Hm & Hans & Hstop & Hne & Hends & Hmx & Hsz
            & rest & Hrest & Hdone);
        [lia | lia | exact Hbc | lia |].
      exists (slice data offset c :: chunks), (ev :: tr).
      pose proof (slice_length data offset c ltac:(lia) ltac:(lia)
                    ltac:(lia)) as Hsl.
      rewrite last_status_cons.
      split.
      { subst ev. simpl in Hrun |- *. rewrite Hrun.
        rewrite set_trace_set_trace, <- app_assoc. reflexivity. }
      split; [simpl; rewrite Hm; reflexivity|].
      split; [split; [reflexivity | exact Hans]|].
      split; [split; [exact Hne | exact Hstop]|].
      split; [intros _; exact Hrc|].
      split; [simpl; rewrite Hsl; constructor; assumption|].
      split; [simpl; rewrite Hsl; split; assumption|].
      split; [constructor; [lia | assumption]|].
      exists rest. split; [|exact Hdone].
      rewrite (slice_drop data offset c) by lia.
      rewrite Hrest. simpl. rewrite app_assoc. reflexivity.
    + exists [], []. simpl. rewrite set_trace_nil.
      split; [reflexivity|]. split; [reflexivity|]. split; [exact I|].
      split; [exact I|]. split; [congruence|].
      split; [constructor|]. split; [exact I|]. split; [constructor|].
      exists (drop (Z.to_nat offset) data). split; [reflexivity|].
      unfold last_status. simpl.
      intros Hge. apply andb_false_iff in Hcond as [H|H].
      * apply Z.ltb_ge in H. apply drop_ge. lia.
      * apply Z.leb_gt in H. lia.
Qed.

Variable fuel : nat.



End NclobWrite.






(** With a limit of four bytes, the string "ab€c" would be cut inside the
    three-byte code point: the first chunk is shrunk to "ab", and the next
    one carries the whole code point. *)
Example nclob_write_loop_splits :
  (fun r => map fst (trace r.2))
    <$> nclob_write_loop engine_ok 4 6 7 [x61; x62; xe2; x82; xac; x63]
          6 0 0 empty_world
  = Some [ CallSetNclobData8 7 [x61; x62];
           CallSetNclobData8 7 [xe2; x82; xac; x63] ].
Proof. vm_compute. reflexivity. Qed.

(** * Further properties of the binding *)

(** ** The character count of a string *)

Section CharCount.

Lemma utf8_step_len lead k :
  utf8_len lead = Some k -> utf8_step (byte_val lead) = Z.of_nat k.
Proof.
  unfold utf8_len, utf8_step.
  repeat match goal with
         | |- context [if ?c then _ else _] => destruct c
         end; intros H; inversion H; reflexivity.
Qed.

Lemma code_points_app s t :
  code_points (s ++ t) = (code_points s + code_points t)%nat.
Proof. unfold code_points. rewrite List.filter_app, length_app. reflexivity. Qed.

Lemma code_points_conts conts :
  Forall (fun b => is_cont b = true) conts -> code_points conts = 0%nat.
Proof.
  unfold code_points. induction 1 as [|b l Hb _ IH]; simpl; [reflexivity|].
  rewrite Hb. simpl. exact IH.
Qed.

Lemma byte_at_middle s1 b s2 :
  byte_at (s1 ++ b :: s2) (Z.of_nat (length s1)) = byte_val b.
Proof. unfold byte_at. rewrite Nat2Z.id, nth_middle. reflexivity. Qed.

(** The loop of [Utf8CharCount], started on a code-point boundary. *)
Lemma Utf8CharCount_loop_utf8 data s2 :
  utf8 s2 ->
  forall s1 n count,
    data = s1 ++ s2 -> (length s2 <= n)%nat ->
    Utf8CharCount_loop n data (Z.of_nat (length data))
      (Z.of_nat (length s1)) count
    = count + Z.of_nat (code_points s2).
Proof.
  induction 1 as [|lead conts rest Hlen Hconts _ IH];
    intros s1 n count Hd Hn.
  - subst data. rewrite app_nil_r.
    destruct n; simpl; [unfold code_points; simpl; lia|].
    rewrite Z.ltb_irrefl. unfold code_points. simpl. lia.
  - destruct n as [|n]; [simpl in Hn; lia|].
    simpl Utf8CharCount_loop.
    assert (Hlt : (Z.of_nat (length s1) <? Z.of_nat (length data)) = true).
    { apply Z.ltb_lt. subst data. rewrite length_app. simpl. lia. }
    rewrite Hlt.
    assert (Hb : byte_at data (Z.of_nat (length s1)) = byte_val lead).
    { subst data. apply byte_at_middle. }
    rewrite Hb, (utf8_step_len _ _ Hlen).
    replace (Z.of_nat (length s1) + Z.of_nat (S (length conts)))
      with (Z.of_nat (length (s1 ++ lead :: conts)))
      by (rewrite length_app; simpl; lia).
    rewrite (IH (s1 ++ lead :: conts) n (count + 1)).
    + change (lead :: conts ++ rest) with ([lead] ++ conts ++ rest).
      rewrite !code_points_app, (code_points_conts _ Hconts).
      unfold code_points at 2. simpl.
      rewrite (utf8_len_not_cont _ _ Hlen). simpl. lia.
    + subst data. rewrite <- app_assoc. reflexivity.
    + simpl in Hn. rewrite length_app in Hn. lia.
Qed.

(** X1. On a well-formed UTF-8 string, [Utf8CharCount] returns the number
    of code points: the count of the bytes that are not continuation
    bytes. *)
Theorem Utf8CharCount_counts_code_points (data : list byte) :
  valid_utf8 data = true ->
  Utf8CharCount data (Z.of_nat (length data)) = Z.of_nat (code_points data).
Proof.
  intros Hv. apply valid_utf8_sound in Hv.
  unfold Utf8CharCount. rewrite Nat2Z.id.
  apply (Utf8CharCount_loop_utf8 data data Hv [] (length data) 0);
    [reflexivity | lia].
Qed.

End CharCount.

(** The six bytes of "héllo" are five code points. *)
Lemma Utf8CharCount_counts_code_points_witness :
  Utf8CharCount [x68; xc3; xa9; x6c; x6c; x6f] 6 = 5.
Proof.
  apply (Utf8CharCount_counts_code_points [x68; xc3; xa9; x6c; x6c; x6f]).
  vm_compute. reflexivity.
Defined.

(** ** Chunks of a binary large object *)

Section BlobWrite.

Context {api : MimerApi}.
Variable eng : Engine.

(** The invariant of the chunking loop of the binary writer. *)
Lemma blob_write_loop_run lob data :
  forall n remaining offset rc0 w,
    0 <= remaining -> 0 <= offset ->
    offset + remaining = Z.of_nat (length data) ->
    (Z.to_nat remaining <= n)%nat ->
    exists chunks tr,
      blob_write_loop eng n lob data remaining offset rc0 w
      = Some (last_status rc0 tr, set_trace (trace w ++ tr) w) /\
      map fst tr = map (CallSetBlobData lob) chunks /\
      answered eng (trace w) tr /\
      full_chunks LOB_WRITE_CHUNK chunks /\
      stops_at_failure tr /\
      (tr <> [] -> 0 < remaining /\ 0 <= rc0) /\
      exists rest,
        drop (Z.to_nat offset) data = concat chunks ++ rest /\
        (0 <= last_status rc0 tr -> rest = []).
Proof.
  induction n as [|n IH]; intros remaining offset rc0 w Hrem Hoff Hlen Hn.
  - assert (remaining = 0) by lia. subst remaining.
    exists [], []. simpl. rewrite set_trace_nil.
    split; [reflexivity|]. split; [reflexivity|]. split; [exact I|].
    split; [exact I|]. split; [exact I|]. split; [congruence|].
    exists []. split; [|reflexivity]. apply drop_ge. lia.
  - simpl blob_write_loop.
    destruct ((0 <? remaining) && (0 <=? rc0)) eqn:Hcond.
    + apply andb_true_iff in Hcond as [Hpos Hrc].
      apply Z.ltb_lt in Hpos. apply Z.leb_le in Hrc.
      set (c := if remaining <? LOB_WRITE_CHUNK then remaining
                else LOB_WRITE_CHUNK).
      assert (Hc : 0 < c <= remaining /\ c <= LOB_WRITE_CHUNK /\
                   (c < remaining -> c = LOB_WRITE_CHUNK)).
      { unfold c. destruct (remaining <? LOB_WRITE_CHUNK) eqn:E.
        - apply Z.ltb_lt in E. lia.
        - apply Z.ltb_ge in E. unfold LOB_WRITE_CHUNK in *. lia. }
      destruct Hc as (Hc1 & Hc2 & Hc3).
      unfold MimerSetBlobData, engine_call. mrun.
      set (ev := (CallSetBlobData lob (slice data offset c),
                  eng (trace w) (CallSetBlobData lob (slice data offset c)))).
      destruct (IH (remaining - c) (offset + c) (rc ev.2)
                  (set_trace (trace w ++ [ev]) w))
        as (chunks & tr & Hrun & Hm & Hans & Hfull & Hstop & Hne & rest
            & Hrest & Hdone);
        [lia | lia | lia | lia |].
      exists (slice data offset c :: chunks), (ev :: tr).
      pose proof (slice_length data offset c ltac:(lia) ltac:(lia)
                    ltac:(lia)) as Hsl.
      rewrite last_status_cons.
      split.
      { subst ev. simpl in Hrun |- *. rewrite Hrun.
        rewrite set_trace_set_trace, <- app_assoc. reflexivity. }
      split; [simpl; rewrite Hm; reflexivity|].
      split; [split; [reflexivity | exact Hans]|].
      split.
      { simpl. split; [|exact Hfull].
        destruct chunks as [|ch chunks']; [lia|].
        destruct tr as [|ev' tr']; [discriminate Hm|].
        destruct Hne as [Hr _]; [discriminate|]. lia. }
      split.
      { simpl. split; [|exact Hstop].
        intros Htr. apply Hne in Htr. tauto. }
      split; [intros _; lia|].
      exists rest. split; [|exact Hdone].
      rewrite (slice_drop data offset c) by lia.
      rewrite Hrest. simpl. rewrite app_assoc. reflexivity.
    + exists [], []. simpl. rewrite set_trace_nil.
      split; [reflexivity|]. split; [reflexivity|]. split; [exact I|].
      split; [exact I|]. split; [exact I|]. split; [congruence|].
      exists (drop (Z.to_nat offset) data). split; [reflexivity|].
      unfold last_status. simpl.
      intros Hge. apply andb_false_iff in Hcond as [H|H].
      * apply Z.ltb_ge in H. apply drop_ge. lia.
      * apply Z.leb_gt in H. lia.
Qed.

(** X2. Binding a buffer to a binary large object, once [MimerSetLob] has
    accepted its length: the writer returns; it passes the buffer to
    [MimerSetBlobData] in consecutive chunks of exactly [LOB_WRITE_CHUNK]
    bytes, the last one possibly shorter and none empty. Every status is
    the engine's answer to that write, every write but the last was
    accepted, and the status returned is that of the last write. The
    chunks written are a prefix of the buffer; they are the whole buffer
    unless the last write was rejected with a negative status. *)
Theorem blob_chunks_fixed_size (stmt idx : Z) (buf : list byte) (w : World) :
  let r_type := eng (trace w) (CallParameterType stmt idx) in
  let tr1 := trace w ++ [(CallParameterType stmt idx, r_type)] in
  let set_lob := CallSetLob stmt idx (Z.of_nat (length buf)) in
  let r_lob := eng tr1 set_lob in
  MimerIsBlob (rc r_type) = true ->
  rc r_lob = 0 ->
  exists chunks tr,
    bind_buffer eng stmt idx buf w
    = Some (last_status 0 tr,
            set_trace (tr1 ++ (set_lob, r_lob) :: tr) w) /\
    map fst tr = map (CallSetBlobData (out_handle r_lob)) chunks /\
    answered eng (tr1 ++ [(set_lob, r_lob)]) tr /\
    full_chunks LOB_WRITE_CHUNK chunks /\
    stops_at_failure tr /\
    (exists rest, buf = concat chunks ++ rest) /\
    (0 <= last_status 0 tr -> concat chunks = buf).
Proof.
  intros r_type tr1 set_lob r_lob Hblob Hlob.
  destruct (blob_write_loop_run (out_handle r_lob) buf (length buf)
              (Z.of_nat (length buf)) 0 (rc r_lob)
              (set_trace (tr1 ++ [(set_lob, r_lob)]) w))
    as (chunks & tr & Hrun & Hm & Hans & Hfull & Hstop & _ & rest
        & Hrest & Hdone); [lia | lia | lia | lia |].
  exists chunks, tr.
  rewrite Hlob in Hrun, Hdone.
  split.
  { unfold bind_buffer, MimerParameterType, MimerSetLob, engine_call. mrun.
    fold r_type. rewrite Hblob.
    change ((if rc r_lob =? 0
             then blob_write_loop eng (length buf) (out_handle r_lob) buf
                    (Z.of_nat (length buf)) 0 (rc r_lob)
             else fun w0 => Some (rc r_lob, w0))
              (set_trace (tr1 ++ [(set_lob, r_lob)]) w)
            = Some (last_status 0 tr,
                    set_trace (tr1 ++ (set_lob, r_lob) :: tr) w)).
    rewrite Hlob. change (0 =? 0) with true. cbv iota.
    etransitivity; [exact Hrun|].
    rewrite set_trace_set_trace. cbn [trace set_trace].
    rewrite <- app_assoc. reflexivity. }
  split; [exact Hm|]. split; [exact Hans|]. split; [exact Hfull|].
  split; [exact Hstop|].
  change (drop (Z.to_nat 0) buf) with buf in Hrest.
  split; [exists rest; exact Hrest|].
  intros Hge. rewrite (Hdone Hge), app_nil_r in Hrest. symmetry. exact Hrest.
Qed.

End BlobWrite.

Lemma engine_blob_accepts h c : 0 <= rc (engine_blob h c).
Proof. destruct c; simpl; lia. Qed.

Lemma full_chunks_sizes limit chunks :
  full_chunks limit chunks ->
  Forall (fun ch => Z.of_nat (length ch) <= limit) chunks.
Proof.
  induction chunks as [|ch chunks IH]; intros H; [constructor|].
  destruct H as [Hch Hrest]. constructor; [|apply IH, Hrest].
  destruct chunks; lia.
Qed.

(** A buffer one byte longer than a chunk goes out whole, as a full chunk
    and a last chunk. *)
Lemma blob_chunks_fixed_size_witness :
  exists rc' w' chunks,
    bind_buffer (api := sample_api) engine_blob 7 1 long_buffer sample_world
    = Some (rc', w') /\
    full_chunks LOB_WRITE_CHUNK chunks /\
    (2 <= length chunks)%nat /\
    concat chunks = long_buffer.
Proof.
  destruct (blob_chunks_fixed_size (api := sample_api) engine_blob 7 1
              long_buffer sample_world eq_refl eq_refl)
    as (chunks & tr & Hrun & Hm & Hans & Hfull & _ & _ & Hall).
  assert (Hdone : concat chunks = long_buffer).
  { apply Hall.
    apply (last_status_answered _ _ _ _ engine_blob_accepts Hans). lia. }
  eexists _, _, chunks. split; [exact Hrun|].
  split; [exact Hfull|]. split; [|exact Hdone].
  apply (two_chunks LOB_WRITE_CHUNK); [unfold LOB_WRITE_CHUNK; lia | |].
  - apply full_chunks_sizes, Hfull.
  - rewrite Hdone, long_buffer_length. lia.
Defined.

(** ** Computations that return *)

Lemma returns_ret {A} (a : A) : returns (mret a : M A).
Proof. intros w. eexists _, _. reflexivity. Qed.

Lemma returns_skip : returns skip.
Proof. intros w. eexists _, _. reflexivity. Qed.

Lemma returns_bind {A B} (m : M A) (f : A -> M B) :
  returns m -> (forall a, returns (f a)) -> returns (m ≫= f).
Proof.
  intros Hm Hf w. destruct (Hm w) as (a & w1 & H1).
  destruct (Hf a w1) as (b & w2 & H2).
  exists b, w2. rewrite bind_run, H1. exact H2.
Qed.

Lemma returns_get_world : returns get_world.
Proof. intros w. eexists _, _. reflexivity. Qed.

Lemma returns_modify_world f : returns (modify_world f).
Proof. intros w. eexists _, _. reflexivity. Qed.

Ltac returns_step :=
  lazymatch goal with
  | |- returns (mbind _ _) => apply returns_bind; [ | intros ?]
  | |- returns (mret _) => apply returns_ret
  | |- returns skip => apply returns_skip
  | |- returns get_world => apply returns_get_world
  | |- returns (modify_world _) => apply returns_modify_world
  | |- returns (let _ := _ in _) => cbv zeta
  | |- returns (if ?b then _ else _) => destruct b
  | |- returns (match ?x with _ => _ end) => destruct x
  end.

Create HintDb returns.

Ltac returns_auto :=
  repeat (first [ assumption | solve [eauto 3 with returns] | returns_step ]).

Section Returns.

Context {api : MimerApi}.
Variable eng : Engine.

Lemma returns_engine_call c : returns (engine_call eng c).
Proof. intros w. eexists _, _. reflexivity. Qed.

Lemma returns_Throw e : returns (ThrowAsJavaScriptException e).
Proof. apply returns_modify_world. Qed.

Lemma returns_ThrowMimerError code op detail :
  returns (ThrowMimerError code op detail).
Proof. apply returns_Throw. Qed.

Lemma returns_IsExceptionPending : returns IsExceptionPending.
Proof. unfold IsExceptionPending. returns_auto. Qed.

Local Hint Resolve returns_engine_call returns_Throw returns_ThrowMimerError
  returns_IsExceptionPending : returns.

(** The binary read loop ends: every iteration takes a chunk off what
    remains. *)
Lemma returns_blob_read_loop lob : forall n remaining buf rc0,
  remaining <= Z.of_nat n * LOB_READ_CHUNK ->
  returns (blob_read_loop eng n lob remaining buf rc0).
Proof.
  induction n as [|n IH]; intros remaining buf rc0 Hn; simpl.
  - assert (Hz : (0 <? remaining) = false) by (apply Z.ltb_ge; lia).
    rewrite Hz. apply returns_ret.
  - destruct (0 <? remaining) eqn:Hpos; [|apply returns_ret].
    apply Z.ltb_lt in Hpos.
    unfold MimerGetBlobData. returns_auto.
    apply IH. unfold LOB_READ_CHUNK in *.
    destruct (remaining <? 65536) eqn:E;
      [apply Z.ltb_lt in E | apply Z.ltb_ge in E]; lia.
Qed.

Variable fuel : nat.
Variable ToString : JsValue -> string.

(** The write loops end within their budget. *)
Lemma returns_blob_write buf lob rc0 :
  returns (blob_write_loop eng (length buf) lob buf (Z.of_nat (length buf))
             0 rc0).
Proof.
  intros w.
  destruct (blob_write_loop_run eng lob buf (length buf)
              (Z.of_nat (length buf)) 0 rc0 w) as (chunks & tr & Hrun & _);
    [lia | lia | lia | lia |].
  eexists _, _. exact Hrun.
Qed.

Lemma returns_nclob_write data lob rc0 :
  utf8 data -> (length data <= fuel)%nat ->
  returns (nclob_write_loop eng LOB_WRITE_CHUNK fuel lob data
             (Z.of_nat (length data)) 0 rc0).
Proof.
  intros Hu Hfuel w.
  destruct (nclob_write_loop_run eng lob data LOB_WRITE_CHUNK Hu
              ltac:(unfold LOB_WRITE_CHUNK; lia) fuel
              (Z.of_nat (length data)) 0 rc0 w) as (chunks & tr & Hrun & _);
    [lia | lia | apply boundary_0, Hu | lia |].
  eexists _, _. exact Hrun.
Qed.

Lemma returns_bind_value stmt idx val :
  bindable fuel val = true ->
  returns (bind_value eng fuel ToString stmt idx val).
Proof.
  intros Hb.
  unfold bind_value, bind_number, bind_string, bind_buffer,
    MimerSetNull, MimerSetBoolean, MimerSetInt32, MimerSetInt64,
    MimerSetDouble, MimerSetString8, MimerSetBinary, MimerParameterType,
    MimerSetLob.
  destruct val; returns_auto.
  - simpl in Hb. apply andb_true_iff in Hb as [Hv Hl].
    apply returns_nclob_write;
      [apply valid_utf8_sound, Hv | apply Nat.leb_le, Hl].
  - apply returns_blob_write.
Qed.

Lemma bindable_nth params i :
  forallb (bindable fuel) params = true ->
  bindable fuel (nth i params JsUndefined) = true.
Proof.
  intros H. rewrite forallb_forall in H.
  destruct (nth_in_or_default i params JsUndefined) as [Hin| ->];
    [apply H, Hin | reflexivity].
Qed.

Lemma returns_bind_loop stmt params indices :
  forallb (bindable fuel) params = true ->
  returns (bind_loop eng fuel ToString stmt params indices).
Proof.
  intros Hb. induction indices as [|i rest IH]; simpl; returns_auto.
  apply returns_bind_value, bindable_nth, Hb.
Qed.

(** [BindParameters] returns for values it can write. *)
Lemma returns_BindParameters stmt params :
  forallb (bindable fuel) params = true ->
  returns (BindParameters eng fuel ToString stmt params).
Proof.
  intros Hb. unfold BindParameters, MimerParameterCount. returns_auto.
  apply returns_bind_loop, Hb.
Qed.

Lemma returns_bind_arguments stmt arg :
  arguments_bindable fuel arg = true ->
  returns (bind_arguments eng fuel ToString stmt arg).
Proof.
  unfold arguments_bindable, bind_arguments. intros Hb.
  destruct (array_argument arg);
    [apply returns_BindParameters, Hb | apply returns_skip].
Qed.

End Returns.

(** ** Guards of the connection methods *)

Lemma set_pending_clear e w :
  pending w = None -> set_pending None (set_pending (Some e) w) = w.
Proof. destruct w; simpl; intros ->; reflexivity. Qed.

(** A method body that only raises [e] is seen as throwing [e], and
    leaves the world as it was. *)
Lemma js_invoke_raise (body : M JsValue) e w :
  pending w = None ->
  body w = Some (JsUndefined, set_pending (Some e) w) ->
  js_invoke body w = Some (Thrown e, w).
Proof.
  intros Hp Hb. rewrite (js_invoke_run _ _ _ _ Hb). simpl.
  rewrite (set_pending_clear e w Hp). reflexivity.
Qed.

Lemma js_invoke_return (body : M JsValue) v w w1 :
  pending w1 = None ->
  body w = Some (v, w1) ->
  js_invoke body w = Some (Returned v, w1).
Proof.
  intros Hp Hb. rewrite (js_invoke_run _ _ _ _ Hb), Hp.
  rewrite (set_pending_None_id w1 Hp). reflexivity.
Qed.

Lemma Throw_run e w :
  pending w = None ->
  ThrowAsJavaScriptException e w = Some (tt, set_pending (Some e) w).
Proof.
  intros Hp. unfold ThrowAsJavaScriptException, modify_world.
  rewrite Hp. reflexivity.
Qed.

Section Guards.

Context {api : MimerApi}.
Variable eng : Engine.
Variable fuel : nat.
Variable ToString : JsValue -> string.

Ltac refuse Hc Hd Hp :=
  apply js_invoke_raise; [exact Hp|];
  cbv beta delta
    [MimerConnection_Execute MimerConnection_ExecuteQuery
     MimerConnection_Prepare MimerConnection_BeginTransaction
     MimerConnection_Commit MimerConnection_Rollback end_transaction];
  unfold get_conn; rewrite bind_run, Hc; cbv beta iota; rewrite Hd;
  cbn [negb]; rewrite bind_run, (Throw_run _ _ Hp); reflexivity.

(** X3. On a connection that is not connected, [execute], [executeQuery],
    [prepare], [beginTransaction], [commit] and [rollback] throw
    "Not connected to database", whatever their arguments; [isConnected]
    returns [false] and [close] returns [true]. None of them calls the
    engine or changes anything. *)
Theorem disconnected_methods_refuse (this : positive) (w : World)
    (cn : MimerConnection) (info : list JsValue) :
  connections w !! this = Some cn ->
  connected_ cn = false ->
  pending w = None ->
  let refused body :=
    js_invoke body w = Some (Thrown (Error "Not connected to database"), w) in
  refused (MimerConnection_Execute eng fuel ToString this info) /\
  refused (MimerConnection_ExecuteQuery eng fuel ToString this info) /\
  refused (MimerConnection_Prepare eng this info) /\
  refused (MimerConnection_BeginTransaction eng this) /\
  refused (MimerConnection_Commit eng this) /\
  refused (MimerConnection_Rollback eng this) /\
  js_invoke (MimerConnection_IsConnected this) w
  = Some (Returned (JsBoolean false), w) /\
  js_invoke (MimerConnection_Close eng this) w
  = Some (Returned (JsBoolean true), w).
Proof.
  intros Hc Hd Hp refused. unfold refused.
  repeat split; try solve [refuse Hc Hd Hp].
  - apply js_invoke_return; [exact Hp|].
    unfold MimerConnection_IsConnected, get_conn.
    rewrite bind_run, Hc. cbv beta iota. rewrite Hd. reflexivity.
  - apply js_invoke_return; [exact Hp|].
    unfold MimerConnection_Close, get_conn.
    rewrite bind_run, Hc. cbv beta iota. rewrite Hd. reflexivity.
Qed.

(** X4. Arguments are checked before the engine is called. [connect] with
    fewer than three arguments, or with a first, second or third argument
    that is not a string, throws a [TypeError]; so do [execute],
    [executeQuery] and [prepare] on a connected session when the first
    argument is missing or not a string. Nothing else happens. *)
Theorem invalid_arguments_rejected (this : positive) (w : World)
    (cn : MimerConnection) (info : list JsValue) :
  connections w !! this = Some cn ->
  pending w = None ->
  ((length info < 3)%nat ->
   js_invoke (MimerConnection_Connect eng this info) w
   = Some (Thrown (TypeError "Expected 3 arguments: dsn, user, password"),
           w)) /\
  (forall a b c more,
     info = a :: b :: c :: more ->
     is_string a && is_string b && is_string c = false ->
     js_invoke (MimerConnection_Connect eng this info) w
     = Some (Thrown (TypeError "All arguments must be strings"), w)) /\
  (connected_ cn = true ->
   (forall sql, info !! 0%nat <> Some (JsString sql)) ->
   let rejected body :=
     js_invoke body w
     = Some (Thrown (TypeError "Expected SQL string as first argument"), w)
   in
   rejected (MimerConnection_Execute eng fuel ToString this info) /\
   rejected (MimerConnection_ExecuteQuery eng fuel ToString this info) /\
   rejected (MimerConnection_Prepare eng this info)).
Proof.
  intros Hc Hp. split; [|split].
  - intros Hlen. apply js_invoke_raise; [exact Hp|].
    unfold MimerConnection_Connect.
    destruct info as [|a [|b [|c more]]]; simpl in Hlen; try lia;
      [ | destruct a | destruct a, b ];
      rewrite bind_run, (Throw_run _ _ Hp); reflexivity.
  - intros a b c more -> Hs. apply js_invoke_raise; [exact Hp|].
    unfold MimerConnection_Connect.
    destruct a, b, c; try discriminate Hs;
      rewrite bind_run, (Throw_run _ _ Hp); reflexivity.
  - intros Hconn Hno rejected. unfold rejected.
    assert (Harg : match info !! 0%nat with
                   | Some (JsString _) => False
                   | _ => True
                   end).
    { destruct (info !! 0%nat) as [[]|] eqn:E; try exact I.
      eapply Hno. reflexivity. }
    repeat split; apply js_invoke_raise; try exact Hp;
      cbv beta delta [MimerConnection_Execute MimerConnection_ExecuteQuery
                      MimerConnection_Prepare];
      unfold get_conn; rewrite bind_run, Hc; cbv beta iota; rewrite Hconn;
      cbn [negb];
      destruct (info !! 0%nat) as [[]|]; try contradiction;
      rewrite bind_run, (Throw_run _ _ Hp); reflexivity.
Qed.

End Guards.

Lemma disconnected_methods_refuse_witness :
  js_invoke (MimerConnection_Execute (api := sample_api) engine_ok 0
               sample_ToString 1 [JsString "SELECT 1"]) idle_world
  = Some (Thrown (Error "Not connected to database"), idle_world).
Proof.
  apply (disconnected_methods_refuse (api := sample_api) engine_ok 0
           sample_ToString 1 idle_world idle_conn [JsString "SELECT 1"]);
    reflexivity.
Defined.

Lemma invalid_arguments_rejected_witness :
  js_invoke (MimerConnection_Connect (api := sample_api) engine_ok 1
               [JsString "db"; JsString "user"]) idle_world
  = Some (Thrown (TypeError "Expected 3 arguments: dsn, user, password"),
          idle_world).
Proof.
  apply (invalid_arguments_rejected (api := sample_api) engine_ok 0
           sample_ToString 1 idle_world idle_conn
           [JsString "db"; JsString "user"]);
    [reflexivity | reflexivity | simpl; lia].
Defined.

(** ** Error reports and simple calls of the connection *)

Section ErrorReports.

Context {api : MimerApi}.
Variable eng : Engine.
Variable fuel : nat.
Variable ToString : JsValue -> string.

Lemma CheckError_run c code op w cn :
  connections w !! c = Some cn ->
  code < 0 ->
  pending w = None ->
  MimerConnection_CheckError eng c code op w =
  Some (tt,
        mkWorld (trace w ++ error_trace eng (trace w) (session_ cn))
          (Some (checked_error eng (trace w) (session_ cn) code op))
          (connections w) (statements w) (resultsets w)).
Proof.
  intros Hc Hneg Hp.
  unfold MimerConnection_CheckError.
  apply Z.ltb_lt in Hneg. rewrite Hneg.
  unfold MimerConnection_GetErrorMessage, get_conn. rewrite !bind_run, Hc.
  cbv beta iota.
  unfold checked_error, error_detail, error_trace.
  destruct (session_ cn =? MIMERNULLHANDLE); cbn [negb].
  - rewrite ret_run. unfold ThrowMimerError.
    rewrite (Throw_run _ _ Hp). rewrite app_nil_r.
    destruct w; reflexivity.
  - unfold MimerGetError8, engine_call. mrun.
    match goal with
    | |- context [0 <? rc ?x] => destruct (0 <? rc x)
    end; mrun; unfold ThrowMimerError, ThrowAsJavaScriptException;
      mrun; rewrite Hp; reflexivity.
Qed.

Lemma CheckError_skip c code op w :
  0 <= code -> MimerConnection_CheckError eng c code op w = Some (tt, w).
Proof.
  intros Hc. unfold MimerConnection_CheckError.
  apply Z.ltb_ge in Hc. rewrite Hc. reflexivity.
Qed.

(** X5. [CheckError] does nothing for a status that is not negative. For
    a negative status it raises a structured error whose [mimerCode] is
    the status and whose [operation] is the name passed in; the message
    carries the text [MimerGetError8] returns for the session, or
    "Unknown error" when the session handle is null (the engine is then
    not asked) or the engine has no text. *)
Theorem CheckError_reports (c : positive) (code : Z) (op : string)
    (w : World) (cn : MimerConnection) :
  connections w !! c = Some cn ->
  pending w = None ->
  let r := eng (trace w) (CallGetError8 (session_ cn)) in
  (0 <= code -> MimerConnection_CheckError eng c code op w = Some (tt, w)) /\
  (code < 0 ->
   exists detail tr,
     MimerConnection_CheckError eng c code op w =
     Some (tt,
           mkWorld (trace w ++ tr)
             (Some (MimerError (mimer_error_message code op detail) code op))
             (connections w) (statements w) (resultsets w)) /\
     (session_ cn = MIMERNULLHANDLE ->
      tr = [] /\ detail = "Unknown error") /\
     (session_ cn <> MIMERNULLHANDLE ->
      tr = [(CallGetError8 (session_ cn), r)] /\
      detail = if 0 <? rc r then out_str r else "Unknown error")).
Proof.
  intros Hc Hp r. split; [apply CheckError_skip|].
  intros Hneg.
  exists (error_detail eng (trace w) (session_ cn)),
    (error_trace eng (trace w) (session_ cn)).
  split; [apply CheckError_run; assumption|].
  unfold error_detail, error_trace.
  split; intros Hs.
  - apply Z.eqb_eq in Hs. rewrite Hs. split; reflexivity.
  - apply Z.eqb_neq in Hs. rewrite Hs. split; reflexivity.
Qed.

End ErrorReports.

Lemma CheckError_reports_witness :
  MimerConnection_CheckError (api := sample_api) engine_tx_fails 1 (-1)
    "MimerExecute" sample_world
  = Some (tt,
          mkWorld [(CallGetError8 5,
                    mkReply 8 0 0 (S754_zero false) [] "deadlock")]
            (Some (MimerError "MimerExecute failed: deadlock (code: -1)"
                     (-1) "MimerExecute"))
            (connections sample_world) (statements sample_world)
            (resultsets sample_world)).
Proof.
  destruct (CheckError_reports (api := sample_api) engine_tx_fails 1 (-1)
              "MimerExecute" sample_world sample_conn eq_refl eq_refl)
    as [_ H].
  destruct H as (detail & tr & Hrun & _ & Hs); [lia|].
  destruct Hs as [-> ->]; [discriminate|]. exact Hrun.
Defined.
(** ** Sessions, transactions and statements that cannot be prepared *)

Lemma js_invoke_ext (b1 b2 : M JsValue) w1 w2 :
  b1 w1 = b2 w2 -> js_invoke b1 w1 = js_invoke b2 w2.
Proof. intros E. unfold js_invoke. rewrite !bind_run, E. reflexivity. Qed.

Section SimpleCalls.

Context {api : MimerApi}.
Variable eng : Engine.
Variable fuel : nat.
Variable ToString : JsValue -> string.

Lemma Connect_run (this : positive) (w : World) (cn : MimerConnection)
    (dsn user password : string) (more : list JsValue) :
  connections w !! this = Some cn ->
  pending w = None ->
  let call := CallBeginSession8 dsn user password in
  let r := eng (trace w) call in
  let tr1 := trace w ++ [(call, r)] in
  let stored flag :=
    <[this := mkConnection (out_handle r) flag (openStatements_ cn)
                (openResultSets_ cn)]> (connections w) in
  MimerConnection_Connect eng this
               (JsString dsn :: JsString user :: JsString password :: more) w
  = Some (if rc r <? 0
          then (JsUndefined,
                mkWorld (tr1 ++ error_trace eng tr1 (out_handle r))
                  (Some (checked_error eng tr1 (out_handle r) (rc r)
                          "MimerBeginSession8"))
                  (stored (connected_ cn)) (statements w) (resultsets w))
          else (JsBoolean true,
                mkWorld tr1 None (stored true) (statements w)
                  (resultsets w))).
Proof.
  intros Hc Hp call r tr1 stored.
  unfold MimerConnection_Connect, get_conn. rewrite bind_run, Hc.
  cbv beta iota.
  unfold MimerBeginSession8, engine_call, put_conn. mrun.
  fold call. fold r. fold tr1.
  destruct (rc r <? 0) eqn:Hrc.
  - apply Z.ltb_lt in Hrc.
    set (w1 := mkWorld tr1 (pending w) (stored (connected_ cn))
                 (statements w) (resultsets w)).
    assert (Hc1 : connections w1 !! this
                  = Some (mkConnection (out_handle r) (connected_ cn)
                            (openStatements_ cn) (openResultSets_ cn))).
    { apply lookup_insert_eq. }
    pose proof (CheckError_run eng this (rc r) "MimerBeginSession8" w1 _
                  Hc1 Hrc Hp) as Hrun.
    match goal with
    | |- context [MimerConnection_CheckError _ _ _ _ ?x] => change x with w1
    end.
    rewrite Hrun. reflexivity.
  - unfold set_connections, set_trace. simpl.
    rewrite insert_insert_eq, Hp. reflexivity.
Qed.

(** X6. [connect] with three strings calls [MimerBeginSession8] once and
    stores the handle it wrote. A status that is not negative marks the
    connection connected and returns [true]. A negative status throws
    the structured error of [CheckError] for "MimerBeginSession8" and
    leaves the connected flag as it was. The registries are not touched,
    and [connect] does not look at the connected flag before it calls. *)
Theorem Connect_outcome (this : positive) (w : World) (cn : MimerConnection)
    (dsn user password : string) (more : list JsValue) :
  connections w !! this = Some cn ->
  pending w = None ->
  let call := CallBeginSession8 dsn user password in
  let r := eng (trace w) call in
  let tr1 := trace w ++ [(call, r)] in
  let stored flag :=
    <[this := mkConnection (out_handle r) flag (openStatements_ cn)
                (openResultSets_ cn)]> (connections w) in
  js_invoke (MimerConnection_Connect eng this
               (JsString dsn :: JsString user :: JsString password :: more)) w
  = Some (if rc r <? 0
          then (Thrown (checked_error eng tr1 (out_handle r) (rc r)
                          "MimerBeginSession8"),
                mkWorld (tr1 ++ error_trace eng tr1 (out_handle r)) None
                  (stored (connected_ cn)) (statements w) (resultsets w))
          else (Returned (JsBoolean true),
                mkWorld tr1 None (stored true) (statements w)
                  (resultsets w))).
Proof.
  intros Hc Hp call r tr1 stored.
  pose proof (Connect_run this w cn dsn user password more Hc Hp) as Hb.
  cbv zeta in Hb. fold call in Hb. fold r in Hb. fold tr1 in Hb.
  destruct (rc r <? 0); rewrite (js_invoke_run _ _ _ _ Hb); reflexivity.
Qed.


Lemma checked_body_run this w cn c op (ok : Z -> JsValue) (v : JsValue) :
  connections w !! this = Some cn ->
  pending w = None ->
  let r := eng (trace w) c in
  let w1 := set_trace (trace w ++ [(c, r)]) w in
  js_invoke
    (fun w0 =>
       (if rc r <? 0
        then MimerConnection_CheckError eng this (rc r) op ;; mret v
        else mret (ok (rc r))) w1) w
  = Some (checked_outcome eng w (session_ cn) c op ok).
Proof.
  intros Hc Hp r w1. unfold checked_outcome. fold r.
  destruct (rc r <? 0) eqn:Hrc.
  - apply Z.ltb_lt in Hrc.
    pose proof (CheckError_run eng this (rc r) op w1 cn Hc Hrc Hp) as Hrun.
    erewrite js_invoke_run.
    2:{ rewrite bind_run, Hrun. reflexivity. }
    reflexivity.
  - erewrite js_invoke_run by reflexivity.
    simpl. rewrite Hp. reflexivity.
Qed.


(** X7. On a connected session [beginTransaction], [commit] and
    [rollback] make one transaction call each: [MimerBeginTransaction] in
    read-write mode, [MimerEndTransaction] with [MIMER_COMMIT], and
    [MimerEndTransaction] with [MIMER_ROLLBACK]. A status that is not
    negative returns [true] and nothing else is called. A negative one
    throws the structured error of [CheckError] under the name of the
    operation; for its text [CheckError] then calls [MimerGetError8],
    unless the session handle is null. No object changes: the connection
    stays connected either way. *)
Theorem transaction_outcome (this : positive) (w : World)
    (cn : MimerConnection) :
  connections w !! this = Some cn ->
  connected_ cn = true ->
  pending w = None ->
  let s := session_ cn in
  let yes := fun _ : Z => JsBoolean true in
  js_invoke (MimerConnection_BeginTransaction eng this) w
  = Some (checked_outcome eng w s
            (CallBeginTransaction s MIMER_TRANS_READWRITE)
            "MimerBeginTransaction" yes) /\
  js_invoke (MimerConnection_Commit eng this) w
  = Some (checked_outcome eng w s (CallEndTransaction s MIMER_COMMIT)
            "MimerEndTransaction (commit)" yes) /\
  js_invoke (MimerConnection_Rollback eng this) w
  = Some (checked_outcome eng w s (CallEndTransaction s MIMER_ROLLBACK)
            "MimerEndTransaction (rollback)" yes).
Proof.
  intros Hc Hconn Hp s yes. subst s.
  split; [|split].
  - rewrite <- (checked_body_run this w cn _ _ yes JsUndefined Hc Hp).
    apply js_invoke_ext.
    unfold MimerConnection_BeginTransaction, get_conn.
    rewrite bind_run, Hc. cbv beta iota. rewrite Hconn. cbn [negb].
    unfold MimerBeginTransaction, engine_call. mrun. reflexivity.
  - rewrite <- (checked_body_run this w cn _ _ yes (JsBoolean true) Hc Hp).
    apply js_invoke_ext.
    unfold MimerConnection_Commit, end_transaction, get_conn.
    rewrite bind_run, Hc. cbv beta iota. rewrite Hconn. cbn [negb].
    unfold MimerEndTransaction, engine_call. mrun.
    match goal with |- context [rc ?x <? 0] => destruct (rc x <? 0) end;
      reflexivity.
  - rewrite <- (checked_body_run this w cn _ _ yes (JsBoolean true) Hc Hp).
    apply js_invoke_ext.
    unfold MimerConnection_Rollback, end_transaction, get_conn.
    rewrite bind_run, Hc. cbv beta iota. rewrite Hconn. cbn [negb].
    unfold MimerEndTransaction, engine_call. mrun.
    match goal with |- context [rc ?x <? 0] => destruct (rc x <? 0) end;
      reflexivity.
Qed.


(** X8. [execute] on a statement the engine cannot prepare (DDL) runs it
    directly with [MimerExecuteStatement8]: a status that is not negative
    returns [{rowCount: 0}], a negative one throws. A parameter array, if
    given, is ignored, and no statement handle is released. When
    preparing fails with any other negative status, [execute] throws the
    error of "MimerBeginStatement8" and calls nothing else but
    [MimerGetError8]. *)
Theorem Execute_unprepared (this : positive) (w : World)
    (cn : MimerConnection) (sql : string) (more : list JsValue) :
  connections w !! this = Some cn ->
  connected_ cn = true ->
  pending w = None ->
  let s := session_ cn in
  let begin := CallBeginStatement8 s sql MIMER_FORWARD_ONLY in
  let r0 := eng (trace w) begin in
  let w1 := set_trace (trace w ++ [(begin, r0)]) w in
  (rc r0 = MIMER_STATEMENT_CANNOT_BE_PREPARED ->
   js_invoke (MimerConnection_Execute eng fuel ToString this
                (JsString sql :: more)) w
   = Some (checked_outcome eng w1 s (CallExecuteStatement8 s sql)
             "MimerExecuteStatement8"
             (fun _ => JsObject [("rowCount", JsNumber (double_of_int 0))])))
  /\
  (rc r0 <> MIMER_STATEMENT_CANNOT_BE_PREPARED -> rc r0 < 0 ->
   js_invoke (MimerConnection_Execute eng fuel ToString this
                (JsString sql :: more)) w
   = Some (Thrown (checked_error eng (trace w1) s (rc r0)
                     "MimerBeginStatement8"),
           mkWorld (trace w1 ++ error_trace eng (trace w1) s) None
             (connections w) (statements w) (resultsets w))).
Proof.
  intros Hc Hconn Hp s begin r0 w1. subst s.
  split.
  - intros Hcannot.
    rewrite <- (checked_body_run this w1 cn _ _ _ JsUndefined Hc Hp).
    apply js_invoke_ext.
    unfold MimerConnection_Execute, get_conn.
    rewrite bind_run, Hc. cbv beta iota. rewrite Hconn. cbn [negb lookup].
    unfold MimerBeginStatement8, engine_call. mrun.
    fold begin. fold r0. rewrite Hcannot, Z.eqb_refl.
    unfold MimerExecuteStatement8, engine_call. mrun. reflexivity.
  - intros Hne Hneg.
    pose proof (CheckError_run eng this (rc r0) "MimerBeginStatement8" w1 cn
                  Hc Hneg Hp) as Hrun.
    erewrite js_invoke_run.
    2:{ unfold MimerConnection_Execute, get_conn.
        rewrite bind_run, Hc. cbv beta iota. rewrite Hconn.
        cbn [negb lookup].
        unfold MimerBeginStatement8, engine_call. mrun.
        fold begin. fold r0.
        apply Z.eqb_neq in Hne. rewrite Hne.
        apply Z.ltb_lt in Hneg. rewrite Hneg.
        fold w1. rewrite Hrun. reflexivity. }
    reflexivity.
Qed.

End SimpleCalls.

Lemma Connect_outcome_witness :
  fst <$> js_invoke (MimerConnection_Connect (api := sample_api)
                       engine_no_session 1
                       [JsString "db"; JsString "user"; JsString "secret"])
            idle_world
  = Some (Thrown (MimerError
                    "MimerBeginSession8 failed: Unknown error (code: -18500)"
                    (-18500) "MimerBeginSession8")).
Proof.
  rewrite (Connect_outcome (api := sample_api) engine_no_session 1
             idle_world idle_conn "db" "user" "secret" [] eq_refl eq_refl).
  reflexivity.
Defined.

Lemma transaction_outcome_witness :
  (fun r => (r.1, map fst (trace r.2)))
    <$> js_invoke (MimerConnection_Commit (api := sample_api)
                     engine_tx_fails 1) sample_world
  = Some (Thrown (MimerError
                    "MimerEndTransaction (commit) failed: deadlock (code: -1)"
                    (-1) "MimerEndTransaction (commit)"),
          [ CallEndTransaction 5 0; CallGetError8 5 ]).
Proof.
  destruct (transaction_outcome (api := sample_api) engine_tx_fails 1
              sample_world sample_conn eq_refl eq_refl eq_refl)
    as (_ & Hcommit & _).
  rewrite Hcommit. reflexivity.
Defined.

Lemma Execute_unprepared_witness :
  (fun r => (r.1, map fst (trace r.2)))
    <$> js_invoke (MimerConnection_Execute (api := sample_api) engine_ddl 0
                     sample_ToString 1
                     [JsString "CREATE TABLE t (x INT)";
                      JsArray [JsNumber (S754_zero false)]]) sample_world
  = Some (Returned (JsObject [("rowCount", JsNumber (S754_zero false))]),
          [ CallBeginStatement8 5 "CREATE TABLE t (x INT)" 0;
            CallExecuteStatement8 5 "CREATE TABLE t (x INT)" ]).
Proof.
  destruct (Execute_unprepared (api := sample_api) engine_ddl 0
              sample_ToString 1 sample_world sample_conn
              "CREATE TABLE t (x INT)" [JsArray [JsNumber (S754_zero false)]]
              eq_refl eq_refl eq_refl) as [Hddl _].
  rewrite (Hddl eq_refl). reflexivity.
Defined.
(** ** Cursors and prepared statements *)

Section Metadata.

Context {api : MimerApi}.
Variable eng : Engine.

Lemma cache_column_run stmt col w :
  let c1 := CallColumnName8 stmt (to_int16 col) in
  let r1 := eng (trace w) c1 in
  let c2 := CallColumnType stmt (to_int16 col) in
  let r2 := eng (trace w ++ [(c1, r1)]) c2 in
  cache_column eng stmt col w
  = Some ((out_str r1, rc r2), set_trace (trace w ++ [(c1, r1); (c2, r2)]) w).
Proof.
  unfold cache_column, MimerColumnName8, MimerColumnType, engine_call. mrun.
  unfold set_trace. simpl. rewrite <- app_assoc. reflexivity.
Qed.

(** [CacheColumnMetadata] always returns: two calls per column, in column
    order, and one name and one type code per column. *)
Lemma for_collect_cache_column stmt cols : forall w,
  exists cs tr,
    for_collect (cache_column eng stmt) cols w
    = Some (cs, set_trace (trace w ++ tr) w) /\
    length cs = length cols /\
    map fst tr = metadata_calls_of stmt cols.
Proof.
  induction cols as [|col cols IH]; intros w.
  - exists [], []. simpl. rewrite app_nil_r.
    split; [destruct w; reflexivity|]. split; reflexivity.
  - simpl for_collect. rewrite bind_run, cache_column_run. cbv zeta.
    match goal with
    | |- context [(_ ≫= _) ?w1] =>
        destruct (IH w1) as (cs & tr & Hrun & Hlen & Hcalls)
    end.
    rewrite bind_run, Hrun.
    eexists (_ :: cs), (_ :: _ :: tr).
    split; [|split].
    + rewrite ret_run. unfold set_trace. simpl.
      rewrite <- !app_assoc. reflexivity.
    + simpl. rewrite Hlen. reflexivity.
    + simpl. rewrite Hcalls. reflexivity.
Qed.

Lemma CacheColumnMetadata_run stmt n w :
  exists names types tr,
    CacheColumnMetadata eng stmt n w
    = Some ((names, types), set_trace (trace w ++ tr) w) /\
    length names = Z.to_nat n /\ length types = Z.to_nat n /\
    map fst tr = metadata_calls stmt n.
Proof.
  destruct (for_collect_cache_column stmt (seqZ 1 n) w)
    as (cs & tr & Hrun & Hlen & Hcalls).
  exists (cs.*1), (cs.*2), tr. unfold CacheColumnMetadata.
  rewrite bind_run, Hrun. rewrite length_seqZ in Hlen.
  split; [reflexivity|].
  rewrite !length_fmap. auto.
Qed.

End Metadata.

Section Cursors.

Context {api : MimerApi}.
Variable eng : Engine.
Variable fuel : nat.
Variable ToString : JsValue -> string.

(** [conn_query_bound] on a statement without result columns. *)
Lemma conn_query_bound_dml this h w :
  pending w = None ->
  let r1 := eng (trace w) (CallColumnCount h) in
  let tr2 := trace w ++ [(CallColumnCount h, r1)] in
  rc r1 <= 0 ->
  conn_query_bound eng this h w
  = Some (JsUndefined,
          mkWorld (tr2 ++ [(CallEndStatement h, eng tr2 (CallEndStatement h))])
            (Some (Error "queryCursor only supports SELECT statements (DML has no result columns)"))
            (connections w) (statements w) (resultsets w)).
Proof.
  intros Hp r1 tr2 Hle.
  unfold conn_query_bound, MimerColumnCount, engine_call. mrun.
  fold r1. apply Z.leb_le in Hle. rewrite Hle.
  unfold MimerEndStatement, engine_call, ThrowAsJavaScriptException. mrun.
  rewrite Hp. reflexivity.
Qed.

(** [conn_query_bound] when the cursor does not open. *)
Lemma conn_query_bound_no_cursor this h w cn :
  connections w !! this = Some cn ->
  pending w = None ->
  let r1 := eng (trace w) (CallColumnCount h) in
  let tr2 := trace w ++ [(CallColumnCount h, r1)] in
  let r2 := eng tr2 (CallOpenCursor h) in
  let tr3 := tr2 ++ [(CallOpenCursor h, r2)] in
  let tr4 := tr3 ++ error_trace eng tr3 (session_ cn) in
  0 < rc r1 -> rc r2 < 0 ->
  conn_query_bound eng this h w
  = Some (JsUndefined,
          mkWorld (tr4 ++ [(CallEndStatement h, eng tr4 (CallEndStatement h))])
            (Some (checked_error eng tr3 (session_ cn) (rc r2)
                     "MimerOpenCursor"))
            (connections w) (statements w) (resultsets w)).
Proof.
  intros Hc Hp r1 tr2 r2 tr3 tr4 Hpos Hneg.
  unfold conn_query_bound, MimerColumnCount, MimerOpenCursor, engine_call.
  mrun. fold r1. fold tr2.
  apply Z.leb_gt in Hpos. rewrite Hpos.
  cbn [trace set_trace]. fold r2. fold tr3.
  pose proof (CheckError_run eng this (rc r2) "MimerOpenCursor"
                (set_trace tr3 (set_trace tr2 w)) cn Hc Hneg Hp) as Hrun.
  apply Z.ltb_lt in Hneg. rewrite Hneg.
  rewrite Hrun. reflexivity.
Qed.

(** [conn_query_bound] when the cursor opens. *)
Lemma conn_query_bound_cursor this h w cn :
  connections w !! this = Some cn ->
  pending w = None ->
  let p := fresh (dom (resultsets w)) in
  let r1 := eng (trace w) (CallColumnCount h) in
  let tr2 := trace w ++ [(CallColumnCount h, r1)] in
  let r2 := eng tr2 (CallOpenCursor h) in
  let tr3 := tr2 ++ [(CallOpenCursor h, r2)] in
  0 < rc r1 -> 0 <= rc r2 ->
  exists names types tr,
    conn_query_bound eng this h w
    = Some (JsResultSet p,
            mkWorld (tr3 ++ tr) None
              (<[this := conn_with_rs p cn]> (connections w))
              (statements w)
              (<[p := mkResultSet h (rc r1) names types false false
                        (Some this)]> (resultsets w))) /\
    map fst tr = metadata_calls h (rc r1) /\
    length names = Z.to_nat (rc r1) /\
    length types = Z.to_nat (rc r1).
Proof.
  intros Hc Hp p r1 tr2 r2 tr3 Hpos Hge.
  destruct (CacheColumnMetadata_run eng h (rc r1)
              (set_trace tr3 (set_trace tr2 w)))
    as (names & types & tr & Hrun & Hn & Ht & Hcalls).
  exists names, types, tr.
  split; [|auto].
  unfold conn_query_bound, MimerColumnCount, MimerOpenCursor, engine_call.
  mrun. fold r1. fold tr2.
  apply Z.leb_gt in Hpos. rewrite Hpos.
  cbn [trace set_trace]. fold r2. fold tr3.
  apply Z.ltb_ge in Hge. rewrite Hge.
  unfold MimerResultSetWrapper_NewInstance, MimerResultSetWrapper_new. mrun.
  rewrite Hrun. unfold put_rs. mrun. rewrite Hp.
  unfold MimerResultSetWrapper_SetParentConnection, get_rs, put_rs. mrun.
  fold p. rewrite lookup_insert_eq.
  unfold MimerConnection_RegisterResultSet, get_conn, put_conn. mrun.
  rewrite Hc. mrun. unfold set_connections, set_resultsets, set_trace.
  simpl. rewrite insert_insert_eq, Hp. reflexivity.
Qed.

Lemma bind_arguments_helper h arg :
  stable helper_step (bind_arguments eng fuel ToString h arg).
Proof.
  unfold bind_arguments. destruct (array_argument arg).
  - apply BindParameters_helper.
  - intros w a w' H. inversion H. apply helper_step_refl.
Qed.

(** [executeQuery], from the prepared statement on: the parameters are
    bound; when that raised an error the statement is ended. *)
Lemma ExecuteQuery_bound this w cn sql more w_b :
  connections w !! this = Some cn ->
  connected_ cn = true ->
  pending w = None ->
  let begin := CallBeginStatement8 (session_ cn) sql MIMER_FORWARD_ONLY in
  let r0 := eng (trace w) begin in
  let tr1 := trace w ++ [(begin, r0)] in
  let h := out_handle r0 in
  rc r0 <> MIMER_STATEMENT_CANNOT_BE_PREPARED ->
  0 <= rc r0 ->
  bind_arguments eng fuel ToString h (more !! 0%nat) (set_trace tr1 w)
  = Some (tt, w_b) ->
  MimerConnection_ExecuteQuery eng fuel ToString this (JsString sql :: more) w
  = match pending w_b with
    | Some _ => (MimerEndStatement eng h ;; mret JsUndefined) w_b
    | None => conn_query_bound eng this h w_b
    end.
Proof.
  intros Hc Hconn Hp begin r0 tr1 h Hne Hge Hbind.
  unfold MimerConnection_ExecuteQuery, get_conn.
  rewrite bind_run, Hc. cbv beta iota. rewrite Hconn. cbn [negb lookup].
  unfold MimerBeginStatement8, engine_call. mrun.
  fold begin. fold r0. fold tr1. fold h.
  apply Z.eqb_neq in Hne. rewrite Hne.
  apply Z.ltb_ge in Hge. rewrite Hge.
  unfold bind_arguments in Hbind. unfold MimerEndStatement, engine_call.
  mrun.
  destruct (array_argument (more !! 0%nat)) as [params|].
  - rewrite Hbind. destruct (pending w_b); reflexivity.
  - inversion Hbind; subst w_b. simpl. rewrite Hp. reflexivity.
Qed.

(** Binding the optional parameter array returns, changes no object and
    releases nothing. *)
Lemma bind_arguments_run h arg w :
  arguments_bindable fuel arg = true ->
  exists w_b,
    bind_arguments eng fuel ToString h arg w = Some (tt, w_b) /\
    helper_step w w_b /\
    (array_argument arg = None -> w_b = w).
Proof.
  intros Hb.
  destruct (returns_bind_arguments eng fuel ToString h arg Hb w)
    as ([] & w_b & Hrun).
  exists w_b. split; [exact Hrun|].
  split; [exact (bind_arguments_helper h arg _ _ _ Hrun)|].
  intros Hnone. unfold bind_arguments in Hrun. rewrite Hnone in Hrun.
  inversion Hrun. reflexivity.
Qed.

(** X9. [executeQuery] rejects what is not a query and leaves no cursor
    behind, with or without a parameter array. A statement that cannot be
    prepared (DDL) throws right after [MimerBeginStatement8]. Otherwise
    the parameters, if any, are bound: this returns, changes no object
    and releases nothing. When binding raised an error, the statement is
    ended with [MimerEndStatement] and that error is thrown. A prepared
    statement without result columns (DML) is ended and an error is
    thrown. When [MimerOpenCursor] fails, the error of [CheckError] is
    thrown after the statement has been ended. In all four cases no
    object is created or changed. *)
Theorem ExecuteQuery_rejects (this : positive) (w : World)
    (cn : MimerConnection) (sql : string) (more : list JsValue) :
  connections w !! this = Some cn ->
  connected_ cn = true ->
  pending w = None ->
  arguments_bindable fuel (more !! 0%nat) = true ->
  let begin := CallBeginStatement8 (session_ cn) sql MIMER_FORWARD_ONLY in
  let r0 := eng (trace w) begin in
  let tr1 := trace w ++ [(begin, r0)] in
  let h := out_handle r0 in
  let query :=
    js_invoke (MimerConnection_ExecuteQuery eng fuel ToString this
                 (JsString sql :: more)) w in
  let same tr :=
    mkWorld tr None (connections w) (statements w) (resultsets w) in
  let ended tr := tr ++ [(CallEndStatement h, eng tr (CallEndStatement h))] in
  (rc r0 = MIMER_STATEMENT_CANNOT_BE_PREPARED ->
   query
   = Some (Thrown (Error "queryCursor only supports SELECT statements (DDL cannot be prepared)"),
           same tr1)) /\
  (rc r0 <> MIMER_STATEMENT_CANNOT_BE_PREPARED -> 0 <= rc r0 ->
   exists w_b,
     bind_arguments eng fuel ToString h (more !! 0%nat) (set_trace tr1 w)
     = Some (tt, w_b) /\
     helper_step (set_trace tr1 w) w_b /\
     (array_argument (more !! 0%nat) = None -> w_b = set_trace tr1 w) /\
     let r1 := eng (trace w_b) (CallColumnCount h) in
     let tr2 := trace w_b ++ [(CallColumnCount h, r1)] in
     let r2 := eng tr2 (CallOpenCursor h) in
     let tr3 := tr2 ++ [(CallOpenCursor h, r2)] in
     let tr4 := tr3 ++ error_trace eng tr3 (session_ cn) in
     (forall e, pending w_b = Some e ->
        query = Some (Thrown e, same (ended (trace w_b)))) /\
     (pending w_b = None -> rc r1 <= 0 ->
      query
      = Some (Thrown (Error "queryCursor only supports SELECT statements (DML has no result columns)"),
              same (ended tr2))) /\
     (pending w_b = None -> 0 < rc r1 -> rc r2 < 0 ->
      query
      = Some (Thrown (checked_error eng tr3 (session_ cn) (rc r2)
                        "MimerOpenCursor"),
              same (ended tr4)))).
Proof.
  intros Hc Hconn Hp Hargs begin r0 tr1 h query same ended.
  subst query. split.
  - intros Hcannot. erewrite js_invoke_run.
    2:{ unfold MimerConnection_ExecuteQuery, get_conn.
        rewrite bind_run, Hc. cbv beta iota. rewrite Hconn.
        cbn [negb lookup].
        unfold MimerBeginStatement8, engine_call. mrun.
        fold begin. fold r0. rewrite Hcannot, Z.eqb_refl.
        unfold ThrowAsJavaScriptException. mrun. rewrite Hp. reflexivity. }
    reflexivity.
  - intros Hne Hge.
    destruct (bind_arguments_run h (more !! 0%nat) (set_trace tr1 w) Hargs)
      as (w_b & Hbind & Hstep & Hnone).
    exists w_b. split; [exact Hbind|]. split; [exact Hstep|].
    split; [exact Hnone|].
    pose proof (ExecuteQuery_bound this w cn sql more w_b
                  Hc Hconn Hp Hne Hge Hbind) as Hrun.
    destruct Hstep as [(Hcs & Hss & Hrs) _].
    cbn [connections statements resultsets set_trace] in Hcs, Hss, Hrs.
    assert (Hcb : connections w_b !! this = Some cn)
      by (rewrite Hcs; exact Hc).
    clear Hbind Hnone.
    destruct w_b as [trb pb cb sb rb]. simpl in Hcs, Hss, Hrs, Hcb, Hrun.
    subst cb sb rb.
    cbv zeta. cbn [trace pending]. split; [|split].
    + intros e He. subst pb.
      erewrite js_invoke_run.
      2:{ rewrite Hrun. unfold MimerEndStatement, engine_call. mrun.
          reflexivity. }
      reflexivity.
    + intros Hpb Hle. subst pb.
      erewrite js_invoke_run.
      2:{ rewrite Hrun.
          apply (conn_query_bound_dml this h
                   (mkWorld trb None (connections w) (statements w)
                      (resultsets w)) eq_refl Hle). }
      reflexivity.
    + intros Hpb Hpos Hneg. subst pb.
      erewrite js_invoke_run.
      2:{ rewrite Hrun.
          apply (conn_query_bound_no_cursor this h
                   (mkWorld trb None (connections w) (statements w)
                      (resultsets w)) cn Hcb eq_refl Hpos Hneg). }
      reflexivity.
Qed.

(** X10. [executeQuery], with or without a parameter array, on a
    statement that is prepared, whose parameters bind without an error,
    that has result columns and whose cursor opens, returns a new result
    set: a fresh object that holds the statement handle and the column
    count, has one cached name and one cached type code per column, is
    neither closed nor exhausted, points back to the connection and is
    registered in its set of open result sets. The statement handle is
    not released, and [isClosed] on the new object returns [false]. *)
Theorem ExecuteQuery_opens_cursor (this : positive) (w : World)
    (cn : MimerConnection) (sql : string) (more : list JsValue) :
  connections w !! this = Some cn ->
  connected_ cn = true ->
  pending w = None ->
  arguments_bindable fuel (more !! 0%nat) = true ->
  let p := fresh (dom (resultsets w)) in
  let begin := CallBeginStatement8 (session_ cn) sql MIMER_FORWARD_ONLY in
  let r0 := eng (trace w) begin in
  let tr1 := trace w ++ [(begin, r0)] in
  let h := out_handle r0 in
  rc r0 <> MIMER_STATEMENT_CANNOT_BE_PREPARED -> 0 <= rc r0 ->
  exists w_b,
    bind_arguments eng fuel ToString h (more !! 0%nat) (set_trace tr1 w)
    = Some (tt, w_b) /\
    helper_step (set_trace tr1 w) w_b /\
    (array_argument (more !! 0%nat) = None -> w_b = set_trace tr1 w) /\
    let r1 := eng (trace w_b) (CallColumnCount h) in
    let tr2 := trace w_b ++ [(CallColumnCount h, r1)] in
    let r2 := eng tr2 (CallOpenCursor h) in
    let tr3 := tr2 ++ [(CallOpenCursor h, r2)] in
    (pending w_b = None -> 0 < rc r1 -> 0 <= rc r2 ->
     exists names types tr w',
       js_invoke (MimerConnection_ExecuteQuery eng fuel ToString this
                    (JsString sql :: more)) w
       = Some (Returned (JsResultSet p), w') /\
       w' = mkWorld (tr3 ++ tr) None
              (<[this := conn_with_rs p cn]> (connections w))
              (statements w)
              (<[p := mkResultSet h (rc r1) names types false false
                        (Some this)]> (resultsets w)) /\
       map fst tr = metadata_calls h (rc r1) /\
       length names = Z.to_nat (rc r1) /\
       length types = Z.to_nat (rc r1) /\
       resultsets w !! p = None /\
       js_invoke (MimerResultSetWrapper_IsClosed p) w'
       = Some (Returned (JsBoolean false), w')).
Proof.
  intros Hc Hconn Hp Hargs p begin r0 tr1 h Hne Hge.
  destruct (bind_arguments_run h (more !! 0%nat) (set_trace tr1 w) Hargs)
    as (w_b & Hbind & Hstep & Hnone).
  exists w_b. split; [exact Hbind|]. split; [exact Hstep|].
  split; [exact Hnone|].
  pose proof (ExecuteQuery_bound this w cn sql more w_b
                Hc Hconn Hp Hne Hge Hbind) as Hprep.
  destruct Hstep as [(Hcs & Hss & Hrs) _].
  cbn [connections statements resultsets set_trace] in Hcs, Hss, Hrs.
  assert (Hcb : connections w_b !! this = Some cn)
    by (rewrite Hcs; exact Hc).
  cbv zeta. intros Hpb Hpos Hopen. rewrite Hpb in Hprep.
  destruct (conn_query_bound_cursor this h w_b cn Hcb Hpb Hpos Hopen)
    as (names & types & tr & Hrun & Hcalls & Hn & Ht).
  cbv zeta in Hrun. rewrite Hcs, Hss, Hrs in Hrun. fold p in Hrun.
  exists names, types, tr. eexists.
  split; [refine (js_invoke_return _ _ _ _ _ (eq_trans Hprep Hrun));
          reflexivity|].
  split; [reflexivity|].
  split; [exact Hcalls|]. split; [exact Hn|]. split; [exact Ht|].
  split; [apply not_elem_of_dom, is_fresh|].
  apply js_invoke_return; [reflexivity|].
  unfold MimerResultSetWrapper_IsClosed, get_rs. rewrite bind_run. simpl.
  rewrite lookup_insert_eq. reflexivity.
Qed.

(** [prepare] on a connected session, with a SQL string. *)
Lemma Prepare_run (this : positive) (w : World) (cn : MimerConnection)
    (sql : string) (more : list JsValue) :
  connections w !! this = Some cn ->
  connected_ cn = true ->
  pending w = None ->
  let p := fresh (dom (statements w)) in
  let begin := CallBeginStatement8 (session_ cn) sql MIMER_FORWARD_ONLY in
  let r0 := eng (trace w) begin in
  let tr1 := trace w ++ [(begin, r0)] in
  let h := out_handle r0 in
  let r1 := eng tr1 (CallColumnCount h) in
  MimerConnection_Prepare eng this (JsString sql :: more) w
  = Some (if rc r0 <? 0
          then (JsUndefined,
                mkWorld tr1
                  (Some (MimerError
                           (mimer_error_message (rc r0)
                              "MimerBeginStatement8" "")
                           (rc r0) "MimerBeginStatement8"))
                  (connections w)
                  (<[p := mkStmt h 0 false None]> (statements w))
                  (resultsets w))
          else (JsStatement p,
                mkWorld (tr1 ++ [(CallColumnCount h, r1)]) None
                  (<[this := conn_with_stmt p cn]> (connections w))
                  (<[p := mkStmt h (rc r1) false (Some this)]>
                     (statements w))
                  (resultsets w))).
Proof.
  intros Hc Hconn Hp p begin r0 tr1 h r1.
  unfold MimerConnection_Prepare, get_conn.
  rewrite bind_run, Hc. cbv beta iota. rewrite Hconn.
  cbn [negb lookup].
  unfold MimerStmtWrapper_NewInstance, MimerStmtWrapper_new, put_stmt,
    MimerBeginStatement8, MimerColumnCount, engine_call.
  mrun. fold p. fold begin. fold r0. fold tr1. fold h.
  destruct (rc r0 <? 0).
  - unfold ThrowMimerError, ThrowAsJavaScriptException. mrun.
    rewrite Hp. unfold set_statements, set_trace, set_pending. simpl.
    rewrite !insert_insert_eq. reflexivity.
  - mrun. fold r1. rewrite Hp.
    unfold MimerStmtWrapper_SetParentConnection, get_stmt, put_stmt.
    mrun. rewrite lookup_insert_eq.
    unfold MimerConnection_RegisterStatement, get_conn, put_conn. mrun.
    rewrite Hc. mrun.
    unfold set_connections, set_statements, set_trace. simpl.
    rewrite !insert_insert_eq, Hp. reflexivity.
Qed.

(** X11. [prepare] on a connected session creates a statement object and
    calls [MimerBeginStatement8]. On a status that is not negative it
    reads the column count, sets the back-reference to the connection,
    registers the object in the set of open statements and returns it. On
    a negative status, that of a statement that cannot be prepared
    included, it throws the structured error of "MimerBeginStatement8"
    with no detail; the connection is not asked for a message and
    registers nothing. *)
Theorem Prepare_outcome (this : positive) (w : World)
    (cn : MimerConnection) (sql : string) (more : list JsValue) :
  connections w !! this = Some cn ->
  connected_ cn = true ->
  pending w = None ->
  let p := fresh (dom (statements w)) in
  let begin := CallBeginStatement8 (session_ cn) sql MIMER_FORWARD_ONLY in
  let r0 := eng (trace w) begin in
  let tr1 := trace w ++ [(begin, r0)] in
  let h := out_handle r0 in
  let r1 := eng tr1 (CallColumnCount h) in
  let prepare :=
    js_invoke (MimerConnection_Prepare eng this (JsString sql :: more)) w in
  statements w !! p = None /\
  (0 <= rc r0 ->
   prepare
   = Some (Returned (JsStatement p),
           mkWorld (tr1 ++ [(CallColumnCount h, r1)]) None
             (<[this := conn_with_stmt p cn]> (connections w))
             (<[p := mkStmt h (rc r1) false (Some this)]> (statements w))
             (resultsets w))) /\
  (rc r0 < 0 ->
   prepare
   = Some (Thrown (MimerError
                     (mimer_error_message (rc r0) "MimerBeginStatement8" "")
                     (rc r0) "MimerBeginStatement8"),
           mkWorld tr1 None (connections w)
             (<[p := mkStmt h 0 false None]> (statements w))
             (resultsets w))).
Proof.
  intros Hc Hconn Hp p begin r0 tr1 h r1 prepare. subst prepare.
  split; [apply not_elem_of_dom, is_fresh|].
  pose proof (Prepare_run this w cn sql more Hc Hconn Hp) as Hb.
  cbv zeta in Hb. fold p begin r0 tr1 h r1 in Hb.
  split.
  - intros Hge. apply Z.ltb_ge in Hge. rewrite Hge in Hb.
    rewrite (js_invoke_run _ _ _ _ Hb). reflexivity.
  - intros Hneg. apply Z.ltb_lt in Hneg. rewrite Hneg in Hb.
    rewrite (js_invoke_run _ _ _ _ Hb). reflexivity.
Qed.

End Cursors.

Lemma ExecuteQuery_rejects_witness :
  (fun r => (r.1, map fst (trace r.2)))
    <$> js_invoke (MimerConnection_ExecuteQuery (api := sample_api)
                     engine_one_param 0 sample_ToString 1
                     [JsString "UPDATE t SET x = ?";
                      JsArray [JsNumber (S754_finite false 1 0)]])
          sample_world
  = Some (Thrown (Error "queryCursor only supports SELECT statements (DML has no result columns)"),
          [ CallBeginStatement8 5 "UPDATE t SET x = ?" 0;
            CallParameterCount 7; CallSetInt32 7 1 1;
            CallColumnCount 7; CallEndStatement 7 ]).
Proof.
  destruct (ExecuteQuery_rejects (api := sample_api) engine_one_param 0
              sample_ToString 1 sample_world sample_conn
              "UPDATE t SET x = ?" [JsArray [JsNumber (S754_finite false 1 0)]]
              eq_refl eq_refl eq_refl eq_refl) as [_ H].
  destruct H as (w_b & Hbind & _ & _ & _ & Hdml & _);
    [simpl; discriminate | simpl; lia |].
  vm_compute in Hbind. injection Hbind as <-.
  rewrite Hdml; [reflexivity | reflexivity | simpl; lia].
Defined.

Lemma ExecuteQuery_opens_cursor_witness :
  let p := fresh (dom (resultsets sample_world)) in
  exists w',
    js_invoke (MimerConnection_ExecuteQuery (api := sample_api)
                 engine_query_param 0 sample_ToString 1
                 [JsString "SELECT id, name FROM t WHERE id = ?";
                  JsArray [JsNumber (S754_finite false 1 0)]]) sample_world
    = Some (Returned (JsResultSet p), w') /\
    js_invoke (MimerResultSetWrapper_IsClosed p) w'
    = Some (Returned (JsBoolean false), w').
Proof.
  intros p.
  destruct (ExecuteQuery_opens_cursor (api := sample_api) engine_query_param
              0 sample_ToString 1 sample_world sample_conn
              "SELECT id, name FROM t WHERE id = ?"
              [JsArray [JsNumber (S754_finite false 1 0)]]
              eq_refl eq_refl eq_refl eq_refl)
    as (w_b & Hbind & _ & _ & Hopen).
  - simpl. discriminate.
  - simpl. lia.
  - vm_compute in Hbind. injection Hbind as <-.
    destruct Hopen as (names & types & tr & w' & Hrun & _ & _ & _ & _ & _
                       & Hclosed).
    + reflexivity.
    + simpl. lia.
    + simpl. lia.
    + exists w'. split; assumption.
Defined.

Lemma Prepare_outcome_witness :
  fst <$> js_invoke (MimerConnection_Prepare (api := sample_api) engine_ok 1
                       [JsString "SELECT 1"]) sample_world
  = Some (Returned (JsStatement (fresh (dom (statements sample_world))))).
Proof.
  destruct (Prepare_outcome (api := sample_api) engine_ok 1 sample_world
              sample_conn "SELECT 1" [] eq_refl eq_refl eq_refl)
    as (_ & Hok & _).
  rewrite Hok; [reflexivity | simpl; lia].
Defined.

(** The cursor of a query with two columns: what [executeQuery] leaves in
    the store. *)
Example ExecuteQuery_sample :
  (fun r => (r.1, resultsets r.2 !! 3%positive,
             (fun c => bool_decide (3%positive ∈ openResultSets_ c))
               <$> connections r.2 !! 1%positive))
    <$> js_invoke (MimerConnection_ExecuteQuery (api := sample_api)
                     engine_two_columns 0 sample_ToString 1
                     [JsString "SELECT id, name FROM t"]) sample_world
  = Some (Returned (JsResultSet 3),
          Some (mkResultSet 7 2 ["id"; "name"] [6; -11] false false
                  (Some 1%positive)),
          Some true).
Proof. vm_compute. reflexivity. Qed.
(** ** The registries mirror the back-references *)

Section Links.

Context {T : Type}.
Variable reg : MimerConnection -> gset positive.
Variable parent : T -> option positive.
Variable ok : T -> bool.

(** Writing a connection whose registry is the one it had; a new
    connection comes with an empty registry. *)
Lemma links_insert_conn cs ts c cn' :
  (forall q, q ∈ reg cn' <-> exists cn, cs !! c = Some cn /\ q ∈ reg cn) ->
  links reg parent ok cs ts -> links reg parent ok (<[c := cn']> cs) ts.
Proof.
  intros Hreg [H1 H2]. split.
  - intros c0 cn0 q Hc0 Hq.
    destruct (decide (c0 = c)) as [->|Hne].
    + rewrite lookup_insert_eq in Hc0. inversion Hc0; subst cn0.
      apply Hreg in Hq as (cn & Hcn & Hq). eapply H1; eassumption.
    + rewrite lookup_insert_ne in Hc0 by congruence. eapply H1; eassumption.
  - intros q t c0 Ht Hp.
    destruct (H2 q t c0 Ht Hp) as (cn & Hcn & Hq).
    destruct (decide (c0 = c)) as [->|Hne].
    + exists cn'. rewrite lookup_insert_eq. split; [reflexivity|].
      apply Hreg. eauto.
    + exists cn. rewrite lookup_insert_ne by congruence. auto.
Qed.

(** The entity at [p] gives up its back-reference, or goes away, and its
    parent forgets it. *)
Lemma links_unlink f cs ts ts' p t :
  (forall cn, reg (f cn) = reg cn ∖ {[p]}) ->
  ts !! p = Some t ->
  (forall q, q <> p -> ts' !! q = ts !! q) ->
  (forall t', ts' !! p = Some t' -> parent t' = None) ->
  links reg parent ok cs ts ->
  links reg parent ok (unregistered f (parent t) cs) ts'.
Proof.
  intros Hf Hp Hframe Hnew [H1 H2].
  assert (Hq_ne : forall c0 cn0 q, cs !! c0 = Some cn0 -> q ∈ reg cn0 ->
            parent t <> Some c0 -> q <> p).
  { intros c0 cn0 q Hc0 Hq Hpar ->.
    destruct (H1 c0 cn0 p Hc0 Hq) as (t0 & Ht0 & Hp0 & _).
    congruence. }
  split.
  - intros c0 cn0 q Hc0 Hq. unfold unregistered in Hc0.
    destruct (parent t) as [c|] eqn:Hpar.
    + destruct (cs !! c) as [cn|] eqn:Hcn.
      * destruct (decide (c0 = c)) as [->|Hne].
        -- rewrite lookup_insert_eq in Hc0. inversion Hc0; subst cn0.
           rewrite Hf in Hq. apply elem_of_difference in Hq as [Hq Hnp].
           rewrite Hframe
             by (intros ->; apply Hnp, elem_of_singleton; reflexivity).
           eapply H1; eassumption.
        -- rewrite lookup_insert_ne in Hc0 by congruence.
           rewrite Hframe; [eapply H1; eassumption|].
           eapply Hq_ne; [eassumption..|congruence].
      * rewrite Hframe; [eapply H1; eassumption|].
        eapply Hq_ne; [eassumption..|]. intros E. inversion E; subst.
        congruence.
    + rewrite Hframe; [eapply H1; eassumption|].
      eapply Hq_ne; [eassumption..|discriminate].
  - intros q t' c0 Ht' Hp'.
    destruct (decide (q = p)) as [->|Hne].
    { rewrite (Hnew t' Ht') in Hp'. discriminate. }
    rewrite Hframe in Ht' by exact Hne.
    destruct (H2 q t' c0 Ht' Hp') as (cn0 & Hc0 & Hq).
    unfold unregistered. destruct (parent t) as [c|]; [|eauto].
    destruct (cs !! c) as [cn|] eqn:Hcn; [|eauto].
    destruct (decide (c0 = c)) as [->|Hne0].
    + exists (f cn). rewrite lookup_insert_eq. split; [reflexivity|].
      rewrite Hf. assert (cn0 = cn) by congruence. subst cn0.
      apply elem_of_difference. split; [exact Hq|].
      intros E. apply elem_of_singleton in E. congruence.
    + exists cn0. rewrite lookup_insert_ne by congruence. auto.
Qed.

(** A new entity is registered with the connection it points to. *)
Lemma links_link cs ts this cn cn' p t' :
  ts !! p = None ->
  cs !! this = Some cn ->
  parent t' = Some this -> ok t' = true ->
  reg cn' = {[p]} ∪ reg cn ->
  links reg parent ok cs ts ->
  links reg parent ok (<[this := cn']> cs) (<[p := t']> ts).
Proof.
  intros Hfresh Hthis Hpar Hok Hreg [H1 H2].
  assert (Hq_ne : forall c0 cn0 q, cs !! c0 = Some cn0 -> q ∈ reg cn0 ->
            q <> p).
  { intros c0 cn0 q Hc0 Hq ->.
    destruct (H1 c0 cn0 p Hc0 Hq) as (t0 & Ht0 & _). congruence. }
  split.
  - intros c0 cn0 q Hc0 Hq.
    destruct (decide (c0 = this)) as [->|Hne].
    + rewrite lookup_insert_eq in Hc0. inversion Hc0; subst cn0.
      rewrite Hreg in Hq. apply elem_of_union in Hq as [Hq|Hq].
      * apply elem_of_singleton in Hq. subst q.
        exists t'. rewrite lookup_insert_eq. auto.
      * rewrite lookup_insert_ne by (apply not_eq_sym; eapply Hq_ne; eauto).
        eapply H1; eassumption.
    + rewrite lookup_insert_ne in Hc0 by congruence.
      rewrite lookup_insert_ne by (apply not_eq_sym; eapply Hq_ne; eauto).
      eapply H1; eassumption.
  - intros q t c0 Ht Hp.
    destruct (decide (q = p)) as [->|Hne].
    + rewrite lookup_insert_eq in Ht. inversion Ht; subst t.
      assert (c0 = this) by congruence. subst c0.
      exists cn'. rewrite lookup_insert_eq. split; [reflexivity|].
      rewrite Hreg. apply elem_of_union. left.
      apply elem_of_singleton. reflexivity.
    + rewrite lookup_insert_ne in Ht by congruence.
      destruct (H2 q t c0 Ht Hp) as (cn0 & Hc0 & Hq).
      destruct (decide (c0 = this)) as [->|Hne0].
      * exists cn'. rewrite lookup_insert_eq. split; [reflexivity|].
        assert (cn0 = cn) by congruence. subst cn0. rewrite Hreg.
        apply elem_of_union. right. exact Hq.
      * exists cn0. rewrite lookup_insert_ne by congruence. auto.
Qed.

(** An entity is written without touching its back-reference; a new one
    comes without a back-reference. *)
Lemma links_update cs ts p t' :
  (forall c, parent t' = Some c ->
     exists t, ts !! p = Some t /\ parent t = Some c) ->
  (forall t c, ts !! p = Some t -> parent t = Some c ->
     parent t' = Some c /\ ok t' = true) ->
  links reg parent ok cs ts -> links reg parent ok cs (<[p := t']> ts).
Proof.
  intros Hnew Hold [H1 H2]. split.
  - intros c0 cn0 q Hc0 Hq.
    destruct (H1 c0 cn0 q Hc0 Hq) as (t & Ht & Hp & Hok).
    destruct (decide (q = p)) as [->|Hne].
    + exists t'. rewrite lookup_insert_eq.
      destruct (Hold t c0 Ht Hp). auto.
    + exists t. rewrite lookup_insert_ne by congruence. auto.
  - intros q t c0 Ht Hp.
    destruct (decide (q = p)) as [->|Hne].
    + rewrite lookup_insert_eq in Ht. inversion Ht; subst t.
      destruct (Hnew c0 Hp) as (t0 & Ht0 & Hp0). eapply H2; eassumption.
    + rewrite lookup_insert_ne in Ht by congruence. eapply H2; eassumption.
Qed.

(** Every entity of one registry gives up its back-reference, and the
    registry is emptied. *)
Lemma links_invalidate cs ts ts' this cn cn' :
  cs !! this = Some cn ->
  reg cn' = ∅ ->
  (forall q, q ∉ reg cn -> ts' !! q = ts !! q) ->
  (forall q, q ∈ reg cn -> exists t', ts' !! q = Some t' /\ parent t' = None) ->
  links reg parent ok cs ts -> links reg parent ok (<[this := cn']> cs) ts'.
Proof.
  intros Hthis Hreg Hframe Hin [H1 H2]. split.
  - intros c0 cn0 q Hc0 Hq.
    destruct (decide (c0 = this)) as [->|Hne].
    + rewrite lookup_insert_eq in Hc0. inversion Hc0; subst cn0.
      rewrite Hreg in Hq. apply elem_of_empty in Hq. contradiction.
    + rewrite lookup_insert_ne in Hc0 by congruence.
      destruct (H1 c0 cn0 q Hc0 Hq) as (t & Ht & Hp & Hok).
      rewrite Hframe; [eauto|].
      intros Hq'. destruct (H1 this cn q Hthis Hq') as (t0 & Ht0 & Hp0 & _).
      congruence.
  - intros q t c0 Ht Hp.
    destruct (decide (q ∈ reg cn)) as [Hq|Hq].
    { destruct (Hin q Hq) as (t' & Ht' & Hp'). congruence. }
    rewrite Hframe in Ht by exact Hq.
    destruct (H2 q t c0 Ht Hp) as (cn0 & Hc0 & Hq0).
    destruct (decide (c0 = this)) as [->|Hne].
    + assert (cn0 = cn) by congruence. subst. contradiction.
    + exists cn0. rewrite lookup_insert_ne by congruence. auto.
Qed.

(** A connection with an empty registry goes away. *)
Lemma links_delete_conn cs ts this cn :
  cs !! this = Some cn -> reg cn = ∅ ->
  links reg parent ok cs ts -> links reg parent ok (delete this cs) ts.
Proof.
  intros Hthis Hreg [H1 H2]. split.
  - intros c0 cn0 q Hc0 Hq.
    apply lookup_delete_Some in Hc0 as [Hne Hc0]. eapply H1; eassumption.
  - intros q t c0 Ht Hp.
    destruct (H2 q t c0 Ht Hp) as (cn0 & Hc0 & Hq).
    exists cn0. split; [|exact Hq].
    apply lookup_delete_Some. split; [|exact Hc0].
    intros <-. assert (cn0 = cn) by congruence. subst cn0.
    rewrite Hreg in Hq. apply elem_of_empty in Hq. contradiction.
Qed.

(** An entity that is not registered has no back-reference. *)
Lemma links_parent_ok cs ts q t c :
  links reg parent ok cs ts -> ts !! q = Some t -> parent t = Some c ->
  is_Some (cs !! c) /\ ok t = true.
Proof.
  intros [H1 H2] Ht Hp.
  destruct (H2 q t c Ht Hp) as (cn & Hc & Hq).
  destruct (H1 c cn q Hc Hq) as (t0 & Ht0 & _ & Hok).
  assert (t0 = t) by congruence. subst. eauto.
Qed.

End Links.

(** ** Methods that leave the objects alone *)

Ltac rel_side ::=
  first [ assumption
        | exact helper_step_refl | exact helper_step_trans
        | exact (rs_mono_refl _) | exact (rs_mono_trans _)
        | exact same_objects_refl | exact same_objects_trans ].

Section ObjectsKept.

Context {api : MimerApi}.
Variable eng : Engine.
Variable fuel : nat.
Variable ToString : JsValue -> string.

Lemma kept_engine_call c : stable same_objects (engine_call eng c).
Proof. intros w r w' H. inversion H. repeat split. Qed.

Lemma kept_call w c r :
  is_release_call c = false ->
  same_objects w (set_trace (trace w ++ [(c, r)]) w).
Proof. intros _. repeat split. Qed.

Lemma kept_pending w e : same_objects w (set_pending e w).
Proof. repeat split. Qed.

Lemma kept_Throw e : stable same_objects (ThrowAsJavaScriptException e).
Proof.
  intros w a w' H. unfold ThrowAsJavaScriptException, modify_world in H.
  inversion H. destruct (pending w); repeat split.
Qed.

Lemma kept_ThrowMimerError code op detail :
  stable same_objects (ThrowMimerError code op detail).
Proof. apply kept_Throw. Qed.

Lemma kept_IsExceptionPending : stable same_objects IsExceptionPending.
Proof. intros w a w' H. inversion H. repeat split. Qed.

Ltac kept_helper lem :=
  apply lem;
  first [ exact same_objects_refl | exact same_objects_trans
        | exact kept_call | exact kept_pending ].

Lemma kept_BindParameters stmt params :
  stable same_objects (BindParameters eng fuel ToString stmt params).
Proof. kept_helper stable_BindParameters. Qed.

Lemma kept_BuildFieldsArray stmt n :
  stable same_objects (BuildFieldsArray eng stmt n).
Proof. kept_helper stable_BuildFieldsArray. Qed.

Lemma kept_FetchSingleRow stmt n names types :
  stable same_objects (FetchSingleRow eng fuel stmt n names types).
Proof. kept_helper stable_FetchSingleRow. Qed.

Lemma kept_FetchResults stmt n :
  stable same_objects (FetchResults eng fuel stmt n).
Proof. kept_helper stable_FetchResults. Qed.

Ltac kept_wrapper :=
  intros; apply stable_bind;
  [ exact same_objects_trans | apply kept_engine_call
  | intros ?; apply stable_ret; exact same_objects_refl ].

Lemma kept_MimerGetError8 s : stable same_objects (MimerGetError8 eng s).
Proof. kept_wrapper. Qed.
Lemma kept_MimerBeginStatement8 s q m :
  stable same_objects (MimerBeginStatement8 eng s q m).
Proof. kept_wrapper. Qed.
Lemma kept_MimerEndStatement s :
  stable same_objects (MimerEndStatement eng s).
Proof. kept_wrapper. Qed.
Lemma kept_MimerExecuteStatement8 s q :
  stable same_objects (MimerExecuteStatement8 eng s q).
Proof. kept_wrapper. Qed.
Lemma kept_MimerBeginTransaction s m :
  stable same_objects (MimerBeginTransaction eng s m).
Proof. kept_wrapper. Qed.
Lemma kept_MimerEndTransaction s m :
  stable same_objects (MimerEndTransaction eng s m).
Proof. kept_wrapper. Qed.
Lemma kept_MimerColumnCount s : stable same_objects (MimerColumnCount eng s).
Proof. kept_wrapper. Qed.
Lemma kept_MimerOpenCursor s : stable same_objects (MimerOpenCursor eng s).
Proof. kept_wrapper. Qed.
Lemma kept_MimerCloseCursor s : stable same_objects (MimerCloseCursor eng s).
Proof. kept_wrapper. Qed.
Lemma kept_MimerExecute s : stable same_objects (MimerExecute eng s).
Proof. kept_wrapper. Qed.
Lemma kept_MimerFetch s : stable same_objects (MimerFetch eng s).
Proof. kept_wrapper. Qed.

Lemma kept_get_conn c : stable same_objects (get_conn c).
Proof.
  intros w a w' H. unfold get_conn in H.
  destruct (connections w !! c); inversion H. apply same_objects_refl.
Qed.
Lemma kept_get_stmt s : stable same_objects (get_stmt s).
Proof.
  intros w a w' H. unfold get_stmt in H.
  destruct (statements w !! s); inversion H. apply same_objects_refl.
Qed.
Lemma kept_get_rs r : stable same_objects (get_rs r).
Proof.
  intros w a w' H. unfold get_rs in H.
  destruct (resultsets w !! r); inversion H. apply same_objects_refl.
Qed.

End ObjectsKept.

#[local] Hint Resolve
  kept_engine_call kept_Throw kept_ThrowMimerError kept_IsExceptionPending
  kept_BindParameters kept_BuildFieldsArray kept_FetchSingleRow
  kept_FetchResults kept_MimerGetError8 kept_MimerBeginStatement8
  kept_MimerEndStatement kept_MimerExecuteStatement8
  kept_MimerBeginTransaction kept_MimerEndTransaction kept_MimerColumnCount
  kept_MimerOpenCursor kept_MimerCloseCursor kept_MimerExecute
  kept_MimerFetch kept_get_conn kept_get_stmt kept_get_rs : stable.

Section MethodsKept.

Context {api : MimerApi}.
Variable eng : Engine.
Variable fuel : nat.
Variable ToString : JsValue -> string.

Lemma kept_GetErrorMessage c :
  stable same_objects (MimerConnection_GetErrorMessage eng c).
Proof. unfold MimerConnection_GetErrorMessage. stable_auto. Qed.

Local Hint Resolve kept_GetErrorMessage : stable.

Lemma kept_CheckError c code op :
  stable same_objects (MimerConnection_CheckError eng c code op).
Proof. unfold MimerConnection_CheckError. stable_auto. Qed.

Local Hint Resolve kept_CheckError : stable.

Lemma kept_conn_execute_bound c stmt :
  stable same_objects (conn_execute_bound eng fuel c stmt).
Proof. unfold conn_execute_bound. stable_auto. Qed.

Lemma kept_stmt_execute_bound s :
  stable same_objects (stmt_execute_bound eng fuel s).
Proof. unfold stmt_execute_bound. stable_auto. Qed.

Local Hint Resolve kept_conn_execute_bound kept_stmt_execute_bound : stable.

Lemma kept_Conn_Execute c info :
  stable same_objects (MimerConnection_Execute eng fuel ToString c info).
Proof. unfold MimerConnection_Execute, array_argument. stable_auto. Qed.

Lemma kept_Conn_BeginTransaction c :
  stable same_objects (MimerConnection_BeginTransaction eng c).
Proof. unfold MimerConnection_BeginTransaction. stable_auto. Qed.

Lemma kept_end_transaction c op name :
  stable same_objects (end_transaction eng c op name).
Proof. unfold end_transaction. stable_auto. Qed.

Lemma kept_Conn_IsConnected c :
  stable same_objects (MimerConnection_IsConnected c).
Proof. unfold MimerConnection_IsConnected. stable_auto. Qed.

Lemma kept_Stmt_Execute s info :
  stable same_objects (MimerStmtWrapper_Execute eng fuel ToString s info).
Proof. unfold MimerStmtWrapper_Execute, array_argument. stable_auto. Qed.

Lemma kept_Rs_GetFields q :
  stable same_objects (MimerResultSetWrapper_GetFields eng q).
Proof. unfold MimerResultSetWrapper_GetFields. stable_auto. Qed.

Lemma kept_Rs_IsClosed q :
  stable same_objects (MimerResultSetWrapper_IsClosed q).
Proof. unfold MimerResultSetWrapper_IsClosed. stable_auto. Qed.

End MethodsKept.

(** ** The cascade, with what it leaves alone *)

Section CascadeFrame.

Context {api : MimerApi}.
Variable eng : Engine.

Lemma invalidate_all_frame this w cn :
  connections w !! this = Some cn ->
  (forall q, q ∈ openStatements_ cn -> is_Some (statements w !! q)) ->
  (forall q, q ∈ openResultSets_ cn -> is_Some (resultsets w !! q)) ->
  exists w_mid,
    invalidate_all eng this w = Some (tt, w_mid) /\
    pending w_mid = pending w /\
    connections w_mid =
      <[this := mkConnection (session_ cn) (connected_ cn) ∅ ∅]>
        (connections w) /\
    (forall q, q ∉ openStatements_ cn ->
       statements w_mid !! q = statements w !! q) /\
    (forall q, q ∈ openStatements_ cn ->
       exists s', statements w_mid !! q = Some s' /\
                  parentConnection_ s' = None) /\
    (forall q, q ∉ openResultSets_ cn ->
       resultsets w_mid !! q = resultsets w !! q) /\
    (forall q, q ∈ openResultSets_ cn ->
       exists r', resultsets w_mid !! q = Some r' /\
                  rs_parentConnection_ r' = None).
Proof.
  intros Hc Hss Hrs.
  destruct (for_each_rs_invalidate eng (elements (openResultSets_ cn)) w)
    as (w1 & tr1 & Hfe1 & Ht1 & Hp1 & Hc1 & Hs1 & _ & Hout1 & Hin1 & _).
  { intros q Hq. apply Hrs. apply elem_of_elements, Hq. }
  set (w2 := set_connections
               (<[this := mkConnection (session_ cn) (connected_ cn)
                            (openStatements_ cn) ∅]> (connections w1)) w1).
  destruct (for_each_stmt_invalidate eng (elements (openStatements_ cn)) w2)
    as (w3 & tr2 & Hfe2 & Ht2 & Hp2 & Hc2 & Hr2 & _ & Hout2 & Hin2 & _).
  { intros q Hq. simpl. rewrite Hs1. apply Hss. apply elem_of_elements, Hq. }
  exists (set_connections
            (<[this := mkConnection (session_ cn) (connected_ cn) ∅ ∅]>
               (connections w3)) w3).
  split.
  { unfold invalidate_all, get_conn, put_conn. mrun. rewrite Hc.
    rewrite Hfe1. fold w2. rewrite Hfe2. reflexivity. }
  split; [simpl; rewrite Hp2; simpl; exact Hp1|].
  split.
  { simpl. rewrite Hc2. simpl. rewrite Hc1. apply insert_insert_eq. }
  split.
  { intros q Hq. simpl. rewrite Hout2; [simpl; rewrite Hs1; reflexivity|].
    intros Hin. apply Hq. apply elem_of_elements, Hin. }
  split.
  { intros q Hq. simpl.
    destruct (Hin2 q) as (s' & Hs' & _ & Hp'); [apply elem_of_elements, Hq|].
    eauto. }
  split.
  { intros q Hq. simpl. rewrite Hr2. simpl. apply Hout1.
    intros Hin. apply Hq. apply elem_of_elements, Hin. }
  intros q Hq. simpl. rewrite Hr2. simpl.
  destruct (Hin1 q) as (r' & Hr' & _ & Hp'); [apply elem_of_elements, Hq|].
  eauto.
Qed.

(** The destructor of a connection, after the cascade. *)
Lemma Conn_delete_run this w cn w_mid :
  invalidate_all eng this w = Some (tt, w_mid) ->
  connections w_mid !! this
  = Some (mkConnection (session_ cn) (connected_ cn) ∅ ∅) ->
  MimerConnection_delete eng this w =
  Some (tt,
        mkWorld
          (trace w_mid ++
           if connected_ cn && negb (session_ cn =? MIMERNULLHANDLE)
           then [(CallEndSession (session_ cn),
                  eng (trace w_mid) (CallEndSession (session_ cn)))]
           else [])
          (pending w_mid) (delete this (connections w_mid))
          (statements w_mid) (resultsets w_mid)).
Proof.
  intros Hinv Hmid. unfold MimerConnection_delete, get_conn.
  rewrite bind_run, Hinv. rewrite bind_run, Hmid. cbn [session_ connected_].
  destruct (connected_ cn && negb (session_ cn =? MIMERNULLHANDLE)).
  - unfold MimerEndSession, engine_call. mrun. reflexivity.
  - mrun. rewrite app_nil_r. reflexivity.
Qed.

End CascadeFrame.

(** ** The store stays linked *)

Lemma js_invoke_inv (body : M JsValue) w o w' :
  js_invoke body w = Some (o, w') ->
  exists v w1, body w = Some (v, w1) /\ w' = set_pending None w1.
Proof.
  intros H. destruct (body w) as [[v w1]|] eqn:Hb.
  - rewrite (js_invoke_run _ _ _ _ Hb) in H. inversion H. eauto.
  - unfold js_invoke in H. rewrite bind_run, Hb in H. discriminate.
Qed.

Lemma links_same_reg {T} reg (parent : T -> option positive) ok cs ts c cn cn' :
  cs !! c = Some cn -> reg cn' = reg cn ->
  links reg parent ok cs ts -> links reg parent ok (<[c := cn']> cs) ts.
Proof.
  intros Hc Hreg. apply links_insert_conn. intros q. rewrite Hreg. split.
  - intros Hq. eauto.
  - intros (cn0 & Hc0 & Hq). congruence.
Qed.

Lemma links_unregistered_other {T} reg (parent : T -> option positive) ok f
    par cs ts :
  (forall cn, reg (f cn) = reg cn) ->
  links reg parent ok cs ts -> links reg parent ok (unregistered f par cs) ts.
Proof.
  intros Hf Hl. unfold unregistered. destruct par as [c|]; [|exact Hl].
  destruct (cs !! c) as [cn|] eqn:Hc; [|exact Hl].
  eapply links_same_reg; [exact Hc | apply Hf | exact Hl].
Qed.

Section Invariant.

Context {api : MimerApi}.
Variable eng : Engine.
Variable fuel : nat.
Variable ToString : JsValue -> string.
Hypothesis engine_handles : handles_not_null eng.

Lemma store_linked_same w w' :
  same_objects w w' -> store_linked w -> store_linked w'.
Proof.
  intros (Hc & Hs & Hr). unfold store_linked. rewrite Hc, Hs, Hr. auto.
Qed.

(** A method that leaves the objects alone keeps the store linked. *)
Lemma kept_linked {A} (body : M A) w a w1 :
  stable same_objects body ->
  store_linked w -> body w = Some (a, w1) -> store_linked w1.
Proof. intros Hk Hl Hb. eapply store_linked_same; [eapply Hk, Hb | exact Hl]. Qed.

Lemma Stmt_CloseInternal_linked q w w1 :
  store_linked w ->
  MimerStmtWrapper_CloseInternal eng q w = Some (tt, w1) ->
  store_linked w1.
Proof.
  intros [Hs Hr] H.
  destruct (statements w !! q) as [s|] eqn:Hq.
  - rewrite (Stmt_CloseInternal_run eng q w s Hq) in H.
    + inversion H; subst w1. split; simpl.
      * eapply links_unlink; [reflexivity | exact Hq | | | exact Hs].
        -- intros q0 Hne. apply lookup_insert_ne. congruence.
        -- intros t'. rewrite lookup_insert_eq. intros E. inversion E.
           reflexivity.
      * apply links_unregistered_other; [reflexivity | exact Hr].
    + unfold parent_live. destruct (parentConnection_ s) as [c|] eqn:Hp;
        [|exact I].
      exact (proj1 (links_parent_ok _ _ _ _ _ _ _ _ Hs Hq Hp)).
  - unfold MimerStmtWrapper_CloseInternal, stmt_release, get_stmt in H.
    rewrite !bind_run, Hq in H. discriminate.
Qed.

Lemma Stmt_delete_linked q w w1 :
  store_linked w ->
  MimerStmtWrapper_delete eng q w = Some (tt, w1) ->
  store_linked w1 /\ pending w1 = pending w.
Proof.
  intros [Hs Hr] H.
  destruct (statements w !! q) as [s|] eqn:Hq.
  - rewrite (Stmt_delete_run eng q w s Hq) in H.
    + inversion H; subst w1. split; [|reflexivity]. split; simpl.
      * destruct (stmt_open s) eqn:Ho.
        -- eapply links_unlink; [reflexivity | exact Hq | | | exact Hs].
           ++ intros q0 Hne. apply lookup_delete_ne. congruence.
           ++ intros t'. rewrite lookup_delete_eq. discriminate.
        -- assert (Hpar : parentConnection_ s = None).
           { destruct (parentConnection_ s) as [c|] eqn:Hp; [|reflexivity].
             destruct (links_parent_ok _ _ _ _ _ _ _ _ Hs Hq Hp) as [_ Hok].
             congruence. }
           pose proof (links_unlink openStatements_ parentConnection_
                         stmt_open (conn_without_stmt q) (connections w)
                         (statements w) (delete q (statements w)) q s) as L.
           rewrite Hpar in L. apply L; [reflexivity | exact Hq | | | exact Hs].
           ++ intros q0 Hne. apply lookup_delete_ne. congruence.
           ++ intros t'. rewrite lookup_delete_eq. discriminate.
      * destruct (stmt_open s); [|exact Hr].
        apply links_unregistered_other; [reflexivity | exact Hr].
    + unfold parent_live. destruct (parentConnection_ s) as [c|] eqn:Hp;
        [|exact I].
      exact (proj1 (links_parent_ok _ _ _ _ _ _ _ _ Hs Hq Hp)).
  - unfold MimerStmtWrapper_delete, stmt_release, get_stmt in H.
    rewrite !bind_run, Hq in H. discriminate.
Qed.

Lemma Rs_CloseInternal_linked q w w1 :
  store_linked w ->
  MimerResultSetWrapper_CloseInternal eng q w = Some (tt, w1) ->
  store_linked w1.
Proof.
  intros [Hs Hr] H.
  destruct (resultsets w !! q) as [r|] eqn:Hq.
  - rewrite (Rs_CloseInternal_run eng q w r Hq) in H.
    + inversion H; subst w1. split; simpl.
      * apply links_unregistered_other; [reflexivity | exact Hs].
      * eapply links_unlink; [reflexivity | exact Hq | | | exact Hr].
        -- intros q0 Hne. apply lookup_insert_ne. congruence.
        -- intros t'. rewrite lookup_insert_eq. intros E. inversion E.
           reflexivity.
    + unfold parent_live. destruct (rs_parentConnection_ r) as [c|] eqn:Hp;
        [|exact I].
      exact (proj1 (links_parent_ok _ _ _ _ _ _ _ _ Hr Hq Hp)).
  - unfold MimerResultSetWrapper_CloseInternal, rs_release, get_rs in H.
    rewrite !bind_run, Hq in H. discriminate.
Qed.

Lemma Rs_delete_linked q w w1 :
  store_linked w ->
  MimerResultSetWrapper_delete eng q w = Some (tt, w1) ->
  store_linked w1 /\ pending w1 = pending w.
Proof.
  intros [Hs Hr] H.
  destruct (resultsets w !! q) as [r|] eqn:Hq.
  - rewrite (Rs_delete_run eng q w r Hq) in H.
    + inversion H; subst w1. split; [|reflexivity]. split; simpl.
      * apply links_unregistered_other; [reflexivity | exact Hs].
      * eapply links_unlink; [reflexivity | exact Hq | | | exact Hr].
        -- intros q0 Hne. apply lookup_delete_ne. congruence.
        -- intros t'. rewrite lookup_delete_eq. discriminate.
    + unfold parent_live. destruct (rs_parentConnection_ r) as [c|] eqn:Hp;
        [|exact I].
      exact (proj1 (links_parent_ok _ _ _ _ _ _ _ _ Hr Hq Hp)).
  - unfold MimerResultSetWrapper_delete, MimerResultSetWrapper_CloseInternal,
      rs_release, get_rs in H.
    rewrite !bind_run, Hq in H. discriminate.
Qed.

Lemma NewInstance_linked w p w1 :
  store_linked w ->
  MimerConnection_NewInstance w = Some (p, w1) ->
  store_linked w1 /\ pending w1 = pending w.
Proof.
  intros [Hs Hr] H. unfold MimerConnection_NewInstance, MimerConnection_new,
    put_conn in H. mrun in H. inversion H; subst. clear H.
  assert (Hfresh : connections w !! fresh (dom (connections w)) = None)
    by apply not_elem_of_dom, is_fresh.
  split; [|reflexivity]. split; simpl.
  - apply links_insert_conn; [|exact Hs]. intros q. simpl. split.
    + intros Hq. apply elem_of_empty in Hq. contradiction.
    + intros (cn & Hcn & _). congruence.
  - apply links_insert_conn; [|exact Hr]. intros q. simpl. split.
    + intros Hq. apply elem_of_empty in Hq. contradiction.
    + intros (cn & Hcn & _). congruence.
Qed.

Lemma Connect_linked this info w v w1 :
  store_linked w -> pending w = None ->
  MimerConnection_Connect eng this info w = Some (v, w1) ->
  store_linked w1.
Proof.
  intros Hl Hp H.
  assert (Hthrow : forall e,
            (ThrowAsJavaScriptException e ;; mret JsUndefined) w
            = Some (v, w1) -> store_linked w1).
  { intros e He. eapply kept_linked; [|exact Hl|exact He]. stable_auto. }
  destruct info as [|a [|b [|c more]]];
    [ exact (Hthrow _ H)
    | destruct a; exact (Hthrow _ H)
    | destruct a, b; exact (Hthrow _ H)
    | ].
  destruct a, b, c; try exact (Hthrow _ H).
  destruct (connections w !! this) as [cn|] eqn:Hc.
  - rewrite (Connect_run eng this w cn _ _ _ more Hc Hp) in H.
    destruct Hl as [Hs Hr].
    match type of H with
    | context [if ?b then _ else _] => destruct b
    end; inversion H; subst; split; simpl;
      (eapply links_same_reg; [exact Hc | reflexivity | assumption]).
  - unfold MimerConnection_Connect, get_conn in H.
    rewrite bind_run, Hc in H. discriminate.
Qed.

Lemma invalidate_all_linked this w cn :
  store_linked w ->
  connections w !! this = Some cn ->
  exists w_mid,
    invalidate_all eng this w = Some (tt, w_mid) /\
    store_linked w_mid /\
    pending w_mid = pending w /\
    connections w_mid !! this
    = Some (mkConnection (session_ cn) (connected_ cn) ∅ ∅).
Proof.
  intros [Hs Hr] Hc.
  destruct (invalidate_all_frame eng this w cn Hc)
    as (w_mid & Hinv & Hp & Hcs & Hs_out & Hs_in & Hr_out & Hr_in).
  { intros q Hq. destruct Hs as [H1 _].
    destruct (H1 this cn q Hc Hq) as (s & -> & _). eauto. }
  { intros q Hq. destruct Hr as [H1 _].
    destruct (H1 this cn q Hc Hq) as (r & -> & _). eauto. }
  exists w_mid. split; [exact Hinv|]. split; [|split; [exact Hp|]].
  - split; rewrite Hcs.
    + eapply links_invalidate; [exact Hc | reflexivity | exact Hs_out
                               | exact Hs_in | exact Hs].
    + eapply links_invalidate; [exact Hc | reflexivity | exact Hr_out
                               | exact Hr_in | exact Hr].
  - rewrite Hcs. apply lookup_insert_eq.
Qed.

Lemma Close_linked this w v w1 :
  store_linked w ->
  MimerConnection_Close eng this w = Some (v, w1) ->
  store_linked w1.
Proof.
  intros Hl H.
  destruct (connections w !! this) as [cn|] eqn:Hc.
  2:{ unfold MimerConnection_Close, get_conn in H.
      rewrite bind_run, Hc in H. discriminate. }
  destruct (connected_ cn) eqn:Hconn.
  2:{ unfold MimerConnection_Close, get_conn in H.
      rewrite bind_run, Hc in H. cbv beta iota in H. rewrite Hconn in H.
      inversion H; subst. exact Hl. }
  destruct (invalidate_all_linked this w cn Hl Hc)
    as (w_mid & Hinv & [Hs Hr] & Hp & Hmid).
  rewrite Hconn in Hmid.
  destruct (session_ cn =? MIMERNULLHANDLE) eqn:Hsess.
  - rewrite (Close_run_null eng this w cn w_mid Hc Hconn Hinv Hmid Hsess) in H.
    inversion H; subst. split; assumption.
  - destruct (Close_run eng this w cn w_mid Hc Hconn Hinv Hmid Hsess)
      as (w_end & tr2 & Hrun & _ & _ & Hss & Hrs & Hcs & _).
    rewrite Hrun in H. inversion H; subst w1.
    split; rewrite Hcs; [rewrite Hss | rewrite Hrs];
      (eapply links_same_reg; [exact Hmid | reflexivity | assumption]).
Qed.

Lemma Conn_delete_linked this w w1 :
  store_linked w ->
  MimerConnection_delete eng this w = Some (tt, w1) ->
  store_linked w1 /\ pending w1 = pending w.
Proof.
  intros Hl H.
  destruct (connections w !! this) as [cn|] eqn:Hc.
  2:{ unfold MimerConnection_delete, invalidate_all, get_conn in H.
      rewrite !bind_run, Hc in H. discriminate. }
  destruct (invalidate_all_linked this w cn Hl Hc)
    as (w_mid & Hinv & [Hs Hr] & Hp & Hmid).
  rewrite (Conn_delete_run eng this w cn w_mid Hinv Hmid) in H.
  inversion H; subst w1. split; [|exact Hp]. split; simpl.
  - eapply links_delete_conn; [exact Hmid | reflexivity | exact Hs].
  - eapply links_delete_conn; [exact Hmid | reflexivity | exact Hr].
Qed.

Lemma Prepare_linked this info w v w1 :
  store_linked w -> pending w = None ->
  MimerConnection_Prepare eng this info w = Some (v, w1) ->
  store_linked w1.
Proof.
  intros Hl Hp H.
  destruct (connections w !! this) as [cn|] eqn:Hc.
  2:{ unfold MimerConnection_Prepare, get_conn in H.
      rewrite bind_run, Hc in H. discriminate. }
  assert (Hthrow : forall e,
            (ThrowAsJavaScriptException e ;; mret JsUndefined) w
            = Some (v, w1) -> store_linked w1).
  { intros e He. eapply kept_linked; [|exact Hl|exact He]. stable_auto. }
  destruct (connected_ cn) eqn:Hconn.
  2:{ unfold MimerConnection_Prepare, get_conn in H.
      rewrite bind_run, Hc in H. cbv beta iota in H. rewrite Hconn in H.
      exact (Hthrow _ H). }
  destruct info as [|a more].
  { unfold MimerConnection_Prepare, get_conn in H.
    rewrite bind_run, Hc in H. cbv beta iota in H. rewrite Hconn in H.
    exact (Hthrow _ H). }
  destruct a;
    try (unfold MimerConnection_Prepare, get_conn in H;
         rewrite bind_run, Hc in H; cbv beta iota in H; rewrite Hconn in H;
         exact (Hthrow _ H)).
  rewrite (Prepare_run eng this w cn s more Hc Hconn Hp) in H.
  destruct Hl as [Hs Hr].
  assert (Hfresh : statements w !! fresh (dom (statements w)) = None)
    by apply not_elem_of_dom, is_fresh.
  match type of H with
  | context [if ?b then _ else _] => destruct b eqn:Hrc
  end; inversion H; subst; clear H; split; simpl.
  - apply links_update; [discriminate | | exact Hs].
    intros t c Ht. congruence.
  - exact Hr.
  - eapply links_link; [exact Hfresh | exact Hc | reflexivity | | reflexivity
                       | exact Hs].
    unfold stmt_open. simpl. apply Z.ltb_ge in Hrc.
    apply negb_true_iff, Z.eqb_neq. apply engine_handles. exact Hrc.
  - eapply links_same_reg; [exact Hc | reflexivity | exact Hr].
Qed.

Lemma conn_query_bound_linked this h w cn v w1 :
  store_linked w -> pending w = None ->
  connections w !! this = Some cn ->
  conn_query_bound eng this h w = Some (v, w1) ->
  store_linked w1.
Proof.
  intros [Hs Hr] Hp Hc H.
  destruct (Z_le_gt_dec (rc (eng (trace w) (CallColumnCount h))) 0)
    as [Hle|Hpos].
  { rewrite (conn_query_bound_dml eng this h w Hp Hle) in H.
    inversion H; subst. split; assumption. }
  apply Z.gt_lt in Hpos.
  match goal with
  | |- _ =>
      destruct (Z_lt_ge_dec
                  (rc (eng (trace w ++
                             [(CallColumnCount h,
                               eng (trace w) (CallColumnCount h))])
                         (CallOpenCursor h))) 0) as [Hneg|Hge]
  end.
  { rewrite (conn_query_bound_no_cursor eng this h w cn Hc Hp Hpos Hneg) in H.
    inversion H; subst. split; assumption. }
  apply Z.ge_le in Hge.
  destruct (conn_query_bound_cursor eng this h w cn Hc Hp Hpos Hge)
    as (names & types & tr & Hrun & _).
  rewrite Hrun in H. inversion H; subst. clear H. split; simpl.
  - eapply links_same_reg; [exact Hc | reflexivity | exact Hs].
  - eapply links_link; [ apply not_elem_of_dom, is_fresh | exact Hc
                       | reflexivity | reflexivity | reflexivity | exact Hr].
Qed.

Lemma ExecuteQuery_linked this info w v w1 :
  store_linked w -> pending w = None ->
  MimerConnection_ExecuteQuery eng fuel ToString this info w = Some (v, w1) ->
  store_linked w1.
Proof.
  intros Hl Hp H.
  unfold MimerConnection_ExecuteQuery in H.
  apply bind_Some in H as (cn & w0 & Hg & H).
  unfold get_conn in Hg.
  destruct (connections w !! this) as [cn0|] eqn:Hc; [|discriminate].
  inversion Hg; subst cn0 w0. clear Hg.
  destruct (connected_ cn) eqn:Hconn; cbn [negb] in H.
  2:{ eapply kept_linked; [|exact Hl|exact H]. stable_auto. }
  destruct (info !! 0%nat) as [[]|];
    try solve [eapply kept_linked; [|exact Hl|exact H]; stable_auto].
  apply bind_Some in H as ([rc1 h] & w2 & Hb & H).
  unfold MimerBeginStatement8, engine_call in Hb. mrun in Hb.
  inversion Hb; subst rc1 h w2. clear Hb.
  match type of H with
  | context [CallBeginStatement8 ?a ?b ?c] =>
      set (r0 := eng (trace w) (CallBeginStatement8 a b c)) in *;
      set (w2 := set_trace (trace w ++ [(CallBeginStatement8 a b c, r0)]) w)
        in *
  end.
  assert (Hl2 : store_linked w2) by exact Hl.
  assert (Hp2 : pending w2 = None) by exact Hp.
  assert (Hc2 : connections w2 !! this = Some cn) by exact Hc.
  clearbody w2.
  destruct (rc r0 =? MIMER_STATEMENT_CANNOT_BE_PREPARED).
  { eapply kept_linked; [|exact Hl2|exact H]. stable_auto. }
  destruct (rc r0 <? 0).
  { eapply kept_linked; [|exact Hl2|exact H].
    apply stable_bind; [rel_side | apply kept_CheckError | intros ?].
    stable_auto. }
  destruct (array_argument (info !! 1%nat)) as [params|].
  - apply bind_Some in H as (u & wb & Hb & H).
    pose proof (kept_BindParameters eng fuel ToString _ _ _ _ _ Hb) as Hsame.
    assert (Hlb : store_linked wb) by (eapply store_linked_same; eassumption).
    assert (Hcb : connections wb !! this = Some cn).
    { destruct Hsame as (E & _). rewrite E. exact Hc2. }
    unfold IsExceptionPending in H. mrun in H.
    destruct (pending wb) eqn:Hpb.
    + inversion H; subst. exact Hlb.
    + eapply conn_query_bound_linked; [exact Hlb | exact Hpb | exact Hcb
                                       | exact H].
  - eapply conn_query_bound_linked; [exact Hl2 | exact Hp2 | exact Hc2
                                     | exact H].
Qed.

Lemma FetchNext_linked q w v w1 :
  store_linked w ->
  MimerResultSetWrapper_FetchNext eng fuel q w = Some (v, w1) ->
  store_linked w1.
Proof.
  intros Hl H. unfold MimerResultSetWrapper_FetchNext, get_rs in H.
  rewrite bind_run in H.
  destruct (resultsets w !! q) as [r|] eqn:Hr; [|discriminate].
  destruct (rs_closed_ r || exhausted_ r).
  - inversion H; subst. exact Hl.
  - unfold MimerFetch, engine_call in H. mrun in H.
    match type of H with
    | context [rc ?x =? MIMER_SUCCESS] => destruct (rc x =? MIMER_SUCCESS)
    end.
    + eapply kept_linked; [apply kept_FetchSingleRow| |exact H]. exact Hl.
    + unfold put_rs in H. mrun in H. inversion H; subst. clear H.
      destruct Hl as [Hs Hrs]. split; simpl; [exact Hs|].
      apply links_update; [| |exact Hrs].
      * simpl. intros c Hpar. eauto.
      * simpl. intros t c Ht Hpar. assert (t = r) by congruence. subst.
        auto.
Qed.

Lemma run_op_registry_ok op w w' :
  registry_ok w ->
  run_op eng fuel ToString op w = Some (tt, w') ->
  registry_ok w'.
Proof.
  intros [Hl Hp] H.
  assert (Hjs : forall body,
            (forall v w1, body w = Some (v, w1) -> store_linked w1) ->
            (js_invoke body ;; skip) w = Some (tt, w') -> registry_ok w').
  { intros body Hb Hrun. apply bind_Some in Hrun as (o & w1 & Hi & Hs).
    inversion Hs; subst w1. apply js_invoke_inv in Hi as (v & w2 & Hbody & ->).
    split; [exact (Hb _ _ Hbody) | reflexivity]. }
  assert (Hkept : forall body,
            stable same_objects body ->
            (js_invoke body ;; skip) w = Some (tt, w') -> registry_ok w').
  { intros body Hk. apply Hjs. intros v w1 Hb.
    eapply kept_linked; eassumption. }
  destruct op; cbv beta iota delta [run_op] in H.
  - apply bind_Some in H as (p & w1 & Hn & Hs). inversion Hs; subst w1.
    destruct (NewInstance_linked _ _ _ Hl Hn) as [Hl' Hp'].
    split; [exact Hl' | congruence].
  - revert H. apply Hjs. intros v w1. apply Connect_linked; assumption.
  - revert H. apply Hjs. intros v w1. apply Close_linked; assumption.
  - revert H. apply Hkept, kept_Conn_Execute.
  - revert H. apply Hkept, kept_Conn_BeginTransaction.
  - revert H. apply Hkept, kept_end_transaction.
  - revert H. apply Hkept, kept_end_transaction.
  - revert H. apply Hkept, kept_Conn_IsConnected.
  - revert H. apply Hjs. intros v w1. apply Prepare_linked; assumption.
  - revert H. apply Hjs. intros v w1. apply ExecuteQuery_linked; assumption.
  - destruct (Conn_delete_linked _ _ _ Hl H) as [Hl' Hp'].
    split; [exact Hl' | congruence].
  - revert H. apply Hkept, kept_Stmt_Execute.
  - revert H. apply Hjs. intros v w1 Hb.
    unfold MimerStmtWrapper_Close in Hb.
    apply bind_Some in Hb as ([] & w2 & Hc & Hr). inversion Hr; subst w2.
    eapply Stmt_CloseInternal_linked; eassumption.
  - destruct (Stmt_delete_linked _ _ _ Hl H) as [Hl' Hp'].
    split; [exact Hl' | congruence].
  - revert H. apply Hjs. intros v w1. apply FetchNext_linked; assumption.
  - revert H. apply Hkept, kept_Rs_GetFields.
  - revert H. apply Hjs. intros v w1 Hb.
    unfold MimerResultSetWrapper_Close in Hb.
    apply bind_Some in Hb as ([] & w2 & Hc & Hr). inversion Hr; subst w2.
    eapply Rs_CloseInternal_linked; eassumption.
  - revert H. apply Hkept, kept_Rs_IsClosed.
  - destruct (Rs_delete_linked _ _ _ Hl H) as [Hl' Hp'].
    split; [exact Hl' | congruence].
Qed.

Lemma run_ops_registry_ok ops : forall w w',
  registry_ok w ->
  run_ops eng fuel ToString ops w = Some (tt, w') ->
  registry_ok w'.
Proof.
  unfold run_ops. induction ops as [|op ops IH]; intros w w' Hok H.
  - inversion H; subst. exact Hok.
  - simpl in H. apply bind_Some in H as ([] & w1 & Hop & H).
    eapply IH; [|exact H]. eapply run_op_registry_ok; eassumption.
Qed.

Lemma registry_ok_empty : registry_ok empty_world.
Proof.
  split; [|reflexivity].
  split; split; simpl; intros; rewrite lookup_empty in *; discriminate.
Qed.

(** [close] and the destructor of a connection find every object they
    reach for. *)
Lemma Close_returns this w cn :
  registry_ok w ->
  connections w !! this = Some cn ->
  (exists out w',
     js_invoke (MimerConnection_Close eng this) w = Some (out, w') /\
     registry_ok w') /\
  (exists w', MimerConnection_delete eng this w = Some (tt, w') /\
              registry_ok w').
Proof.
  intros [Hl Hp] Hc.
  destruct (invalidate_all_linked this w cn Hl Hc)
    as (w_mid & Hinv & Hlm & Hpm & Hmid).
  split.
  - assert (Hbody : exists v w1,
              MimerConnection_Close eng this w = Some (v, w1)).
    { destruct (connected_ cn) eqn:Hconn.
      - destruct (session_ cn =? MIMERNULLHANDLE) eqn:Hsess.
        + rewrite (Close_run_null eng this w cn w_mid Hc Hconn Hinv Hmid
                     Hsess). eauto.
        + destruct (Close_run eng this w cn w_mid Hc Hconn Hinv Hmid Hsess)
            as (w_end & tr2 & Hrun & _). eauto.
      - unfold MimerConnection_Close, get_conn.
        rewrite bind_run, Hc. cbv beta iota. rewrite Hconn. eauto. }
    destruct Hbody as (v & w1 & Hbody).
    rewrite (js_invoke_run _ _ _ _ Hbody). eexists _, _.
    split; [reflexivity|].
    split; [|reflexivity].
    exact (Close_linked _ _ _ _ Hl Hbody).
  - rewrite (Conn_delete_run eng this w cn w_mid Hinv Hmid).
    eexists. split; [reflexivity|].
    destruct (Conn_delete_linked this w _ Hl
                (Conn_delete_run eng this w cn w_mid Hinv Hmid)) as [Hl' Hp'].
    split; [exact Hl' | congruence].
Qed.

(** X12. The registries and the back-references stay in step. When the
    engine never hands out the null handle for a prepared statement, every
    program of method calls and destructor runs keeps this invariant: an
    address in a connection's set of open statements or open result sets
    is a live object that points back to that connection, a registered
    statement still holds its handle, every object that points to a
    connection is in the set of that live connection, and no exception is
    left pending. *)
Theorem registry_invariant (ops : list Op) (w w' : World) :
  registry_ok w ->
  run_ops eng fuel ToString ops w = Some (tt, w') ->
  registry_ok w'.
Proof. apply run_ops_registry_ok. Qed.

(** X13. After any program that starts with an empty store, on an engine
    that never hands out the null handle for a prepared statement,
    [close()] and the destructor of any live connection return: neither
    reaches for a statement or result set that has been destroyed. Both
    leave the store linked. *)
Theorem Close_after_any_program (ops : list Op) (w : World)
    (this : positive) (cn : MimerConnection) :
  run_ops eng fuel ToString ops empty_world = Some (tt, w) ->
  connections w !! this = Some cn ->
  (exists out w',
     js_invoke (MimerConnection_Close eng this) w = Some (out, w') /\
     registry_ok w') /\
  (exists w', MimerConnection_delete eng this w = Some (tt, w') /\
              registry_ok w').
Proof.
  intros Hrun Hc. apply (Close_returns this w cn); [|exact Hc].
  eapply run_ops_registry_ok; [apply registry_ok_empty | exact Hrun].
Qed.

End Invariant.

(** An engine that answers like [engine_two_columns] never hands out the
    null handle. *)
Lemma engine_two_columns_handles :
  handles_not_null (api := sample_api) engine_two_columns.
Proof. intros tr session sql mode _. simpl. lia. Qed.

(** A program: connect, prepare, open a cursor, let the garbage collector
    take the statement, then close the connection. *)
Lemma registry_invariant_witness :
  let program :=
    [ OpNewConnection;
      OpConnect 1 [JsString "db"; JsString "user"; JsString "secret"];
      OpPrepare 1 [JsString "SELECT id, name FROM t"];
      OpExecuteQuery 1 [JsString "SELECT id, name FROM t"];
      OpDeleteStatement 1;
      OpClose 1 ] in
  exists w',
    run_ops (api := sample_api) engine_two_columns 3 sample_ToString program
      empty_world = Some (tt, w') /\
    registry_ok (api := sample_api) w'.
Proof.
  intros program. eexists. split; [vm_compute; reflexivity|].
  eapply (registry_invariant (api := sample_api) engine_two_columns 3
            sample_ToString engine_two_columns_handles program empty_world).
  - apply registry_ok_empty.
  - vm_compute. reflexivity.
Defined.

Lemma Close_after_any_program_witness :
  let program :=
    [ OpNewConnection;
      OpConnect 1 [JsString "db"; JsString "user"; JsString "secret"];
      OpPrepare 1 [JsString "SELECT id, name FROM t"];
      OpExecuteQuery 1 [JsString "SELECT id, name FROM t"];
      OpDeleteStatement 1 ] in
  exists w out w',
    run_ops (api := sample_api) engine_two_columns 3 sample_ToString program
      empty_world = Some (tt, w) /\
    js_invoke (MimerConnection_Close (api := sample_api) engine_two_columns
                 1) w = Some (out, w').
Proof.
  intros program.
  assert (Hrun : exists w,
            run_ops (api := sample_api) engine_two_columns 3 sample_ToString
              program empty_world = Some (tt, w) /\
            exists cn, connections w !! 1%positive = Some cn).
  { eexists. split; [vm_compute; reflexivity|].
    eexists. vm_compute. reflexivity. }
  destruct Hrun as (w & Hrun & cn & Hc).
  destruct (Close_after_any_program (api := sample_api) engine_two_columns 3
              sample_ToString engine_two_columns_handles program w 1 cn
              Hrun Hc)
    as [(out & w' & Hclose & _) _].
  exists w, out, w'. split; assumption.
Defined.

(** The assumption on the engine is needed: when a statement is prepared
    with the null handle, its destructor does not unregister it, and
    [close()] then reaches for the destroyed object. *)
Example null_handle_leaves_dangling_entry :
  let eng : Engine := fun tr c =>
    match c with
    | CallBeginStatement8 _ _ _ => reply_rc 0
    | _ => engine_ok tr c
    end in
  run_ops (api := sample_api) eng 3 sample_ToString
    [ OpNewConnection;
      OpConnect 1 [JsString "db"; JsString "user"; JsString "secret"];
      OpPrepare 1 [JsString "SELECT 1"];
      OpDeleteStatement 1;
      OpClose 1 ] empty_world
  = None.
Proof. vm_compute. reflexivity. Qed.
(** ** What [execute] returns *)

Section ExecuteResults.

Context {api : MimerApi}.
Variable eng : Engine.
Variable fuel : nat.
Variable ToString : JsValue -> string.

Lemma quiet_call w c r :
  is_release_call c = false ->
  quiet_step w (set_trace (trace w ++ [(c, r)]) w).
Proof. intros _. split; [reflexivity | repeat split]. Qed.

Lemma BuildFieldsArray_quiet stmt n :
  stable quiet_step (BuildFieldsArray eng stmt n).
Proof.
  apply stable_BuildFieldsArray;
    [exact quiet_step_refl | exact quiet_step_trans | exact quiet_call].
Qed.

Lemma FetchResults_quiet stmt n :
  stable quiet_step (FetchResults eng fuel stmt n).
Proof.
  apply stable_FetchResults;
    [exact quiet_step_refl | exact quiet_step_trans | exact quiet_call].
Qed.

Lemma BuildFieldsArray_fields stmt n w v w1 :
  BuildFieldsArray eng stmt n w = Some (v, w1) ->
  exists fields, v = JsArray fields /\ Forall nullable_flag_ok fields.
Proof.
  unfold BuildFieldsArray. rewrite bind_run.
  destruct (for_collect_build_field eng stmt (seqZ 1 n) w)
    as (fields & w' & -> & _ & Hok).
  intros H. inversion H. eauto.
Qed.

Lemma fetch_loop_rows k stmt n names types : forall rows0 w rows w1,
  Forall is_row rows0 ->
  fetch_loop eng fuel k stmt n names types rows0 w = Some (rows, w1) ->
  Forall is_row rows.
Proof.
  induction k as [|k IH]; intros rows0 w rows w1 H0 H; [discriminate|].
  simpl in H. apply bind_Some in H as (rc1 & w2 & _ & H).
  destruct (rc1 =? MIMER_SUCCESS).
  - apply bind_Some in H as (row & w3 & Hrow & H).
    eapply IH; [|exact H]. apply Forall_app. split; [exact H0|].
    constructor; [|constructor].
    unfold FetchSingleRow in Hrow.
    apply bind_Some in Hrow as (props & w4 & _ & Hret).
    inversion Hret. exists props. reflexivity.
  - inversion H; subst. exact H0.
Qed.

Lemma FetchResults_rows_are_objects stmt n w rows w1 :
  FetchResults eng fuel stmt n w = Some (rows, w1) -> Forall is_row rows.
Proof.
  unfold FetchResults. intros H.
  apply bind_Some in H as ([names types] & w2 & _ & H).
  eapply fetch_loop_rows; [constructor | exact H].
Qed.

(** After an error of [CheckError] the method cannot return a value. *)
Lemma CheckError_pending this code op w cn w1 :
  connections w !! this = Some cn -> code < 0 -> pending w = None ->
  MimerConnection_CheckError eng this code op w = Some (tt, w1) ->
  pending w1 <> None.
Proof.
  intros Hc Hneg Hp H.
  rewrite (CheckError_run eng this code op w cn Hc Hneg Hp) in H.
  inversion H. simpl. discriminate.
Qed.

Lemma conn_execute_bound_shape this h w cn v w1 :
  connections w !! this = Some cn -> pending w = None ->
  conn_execute_bound eng fuel this h w = Some (v, w1) ->
  pending w1 = None ->
  execute_result v.
Proof.
  intros Hc Hp H Hend. unfold conn_execute_bound in H.
  apply bind_Some in H as (cc & w2 & Hcc & H).
  unfold MimerColumnCount, engine_call in Hcc. mrun in Hcc.
  inversion Hcc; subst cc w2. clear Hcc.
  destruct (0 <? _) eqn:Hpos.
  - apply bind_Some in H as (fields & w3 & Hf & H).
    destruct (BuildFieldsArray_quiet _ _ _ _ _ Hf) as [Hp3 (Hc3 & _)].
    destruct (BuildFieldsArray_fields _ _ _ _ _ Hf) as (fs & -> & Hfs).
    apply bind_Some in H as (rc1 & w4 & Ho & H).
    unfold MimerOpenCursor, engine_call in Ho. mrun in Ho.
    inversion Ho; subst rc1 w4. clear Ho.
    destruct (_ <? 0) eqn:Hneg.
    + exfalso. apply Z.ltb_lt in Hneg.
      apply bind_Some in H as ([] & w5 & Hck & H).
      apply bind_Some in H as (x & w6 & He & H).
      unfold MimerEndStatement, engine_call in He. mrun in He.
      inversion He; subst. inversion H; subst. simpl in Hend.
      eapply CheckError_pending; [| exact Hneg | | exact Hck | exact Hend].
      * simpl. rewrite Hc3. exact Hc.
      * simpl. rewrite Hp3. exact Hp.
    + apply bind_Some in H as (rows & w5 & Hr & H).
      apply bind_Some in H as (x & w6 & He & H).
      inversion H; subst. right. exists fs, rows.
      split; [reflexivity|]. split; [exact Hfs|].
      eapply FetchResults_rows_are_objects. exact Hr.
  - apply bind_Some in H as (rc1 & w3 & Hx & H).
    unfold MimerExecute, engine_call in Hx. mrun in Hx.
    inversion Hx; subst rc1 w3. clear Hx.
    destruct (_ <? 0) eqn:Hneg.
    + exfalso. apply Z.ltb_lt in Hneg.
      apply bind_Some in H as ([] & w5 & Hck & H).
      apply bind_Some in H as (x & w6 & He & H).
      unfold MimerEndStatement, engine_call in He. mrun in He.
      inversion He; subst. inversion H; subst. simpl in Hend.
      eapply CheckError_pending; [| exact Hneg | | exact Hck | exact Hend].
      * exact Hc.
      * exact Hp.
    + apply Z.ltb_ge in Hneg.
      apply bind_Some in H as (x & w6 & He & H).
      inversion H; subst. left. eexists. split; [exact Hneg | reflexivity].
Qed.

Lemma Throw_pending e w w1 :
  ThrowAsJavaScriptException e w = Some (tt, w1) -> pending w1 <> None.
Proof.
  unfold ThrowAsJavaScriptException, modify_world. intros H. inversion H.
  destruct (pending w) eqn:Hp; simpl; congruence.
Qed.

Lemma stmt_execute_bound_shape s w v w1 :
  stmt_execute_bound eng fuel s w = Some (v, w1) ->
  pending w1 = None ->
  execute_result v.
Proof.
  intros H Hend. unfold stmt_execute_bound in H.
  destruct (0 <? columnCount_ s).
  - apply bind_Some in H as (fields & w3 & Hf & H).
    destruct (BuildFieldsArray_fields _ _ _ _ _ Hf) as (fs & -> & Hfs).
    apply bind_Some in H as (rc1 & w4 & Ho & H).
    destruct (rc1 <? 0).
    + exfalso. apply bind_Some in H as ([] & w5 & Hth & H).
      inversion H; subst. exact (Throw_pending _ _ _ Hth Hend).
    + apply bind_Some in H as (rows & w5 & Hr & H).
      apply bind_Some in H as (x & w6 & He & H).
      inversion H; subst. right. exists fs, rows.
      split; [reflexivity|]. split; [exact Hfs|].
      eapply FetchResults_rows_are_objects. exact Hr.
  - apply bind_Some in H as (rc1 & w3 & Hx & H).
    destruct (rc1 <? 0) eqn:Hneg.
    + exfalso. apply bind_Some in H as ([] & w5 & Hth & H).
      inversion H; subst. exact (Throw_pending _ _ _ Hth Hend).
    + apply Z.ltb_ge in Hneg. inversion H; subst. left.
      eexists. split; [exact Hneg | reflexivity].
Qed.

Lemma js_invoke_returned (body : M JsValue) w v w' :
  js_invoke body w = Some (Returned v, w') ->
  exists w1, body w = Some (v, w1) /\ pending w1 = None.
Proof.
  intros H. apply js_invoke_inv in H as Hb. destruct Hb as (v0 & w1 & Hb & ->).
  rewrite (js_invoke_run _ _ _ _ Hb) in H.
  destruct (pending w1) eqn:Hp; inversion H; subst. eauto.
Qed.

(** X14. Whatever [execute] of a connection or of a prepared statement
    returns without throwing has one of two shapes: [{rowCount: n}] with
    [n] not negative, or [{fields, rows, rowCount}] where [fields] holds
    column descriptors, [rows] holds objects and [rowCount] is the
    number of rows. *)
Theorem execute_result_shape (w : World) (info : list JsValue) :
  pending w = None ->
  (forall this v w',
     js_invoke (MimerConnection_Execute eng fuel ToString this info) w
     = Some (Returned v, w') ->
     execute_result v) /\
  (forall q v w',
     js_invoke (MimerStmtWrapper_Execute eng fuel ToString q info) w
     = Some (Returned v, w') ->
     execute_result v).
Proof.
  intros Hp. split.
  - intros this v w' H. apply js_invoke_returned in H as (w1 & H & Hend).
    unfold MimerConnection_Execute in H.
    apply bind_Some in H as (cn & w0 & Hg & H).
    unfold get_conn in Hg.
    destruct (connections w !! this) as [cn0|] eqn:Hc; [|discriminate].
    inversion Hg; subst cn0 w0. clear Hg.
    assert (Hthrow : forall e w2,
              (ThrowAsJavaScriptException e ;; mret JsUndefined) w2
              = Some (v, w1) -> execute_result v).
    { intros e w2 He. exfalso. apply bind_Some in He as ([] & w3 & Hth & He).
      inversion He; subst. exact (Throw_pending _ _ _ Hth Hend). }
    destruct (connected_ cn); cbn [negb] in H; [|exact (Hthrow _ _ H)].
    destruct (info !! 0%nat) as [[]|]; try exact (Hthrow _ _ H).
    apply bind_Some in H as ([rc1 h] & w2 & Hb & H).
    unfold MimerBeginStatement8, engine_call in Hb. mrun in Hb.
    inversion Hb; subst rc1 h w2. clear Hb.
    match type of H with
    | context [CallBeginStatement8 ?a ?b ?c] =>
        set (r0 := eng (trace w) (CallBeginStatement8 a b c)) in *;
        set (w2 := set_trace (trace w ++ [(CallBeginStatement8 a b c, r0)]) w)
          in *
    end.
    assert (Hp2 : pending w2 = None) by exact Hp.
    assert (Hc2 : connections w2 !! this = Some cn) by exact Hc.
    clearbody w2.
    destruct (rc r0 =? MIMER_STATEMENT_CANNOT_BE_PREPARED).
    { apply bind_Some in H as (rc2 & w3 & Hx & H).
      unfold MimerExecuteStatement8, engine_call in Hx. mrun in Hx.
      inversion Hx; subst rc2 w3. clear Hx.
      destruct (_ <? 0) eqn:Hneg.
      - exfalso. apply Z.ltb_lt in Hneg.
        apply bind_Some in H as ([] & w5 & Hck & H). inversion H; subst.
        refine (CheckError_pending this _ _ _ cn _ _ Hneg _ Hck Hend);
          [exact Hc2 | exact Hp2].
      - inversion H; subst. left. exists 0. split; [lia | reflexivity]. }
    destruct (rc r0 <? 0) eqn:Hneg.
    { exfalso. apply Z.ltb_lt in Hneg.
      apply bind_Some in H as ([] & w5 & Hck & H). inversion H; subst.
      refine (CheckError_pending this _ _ _ cn _ _ Hneg _ Hck Hend);
        [exact Hc2 | exact Hp2]. }
    destruct (array_argument (info !! 1%nat)) as [params|].
    + apply bind_Some in H as (u & wb & Hb & H).
      pose proof (kept_BindParameters eng fuel ToString _ _ _ _ _ Hb)
        as (Hcb & _).
      unfold IsExceptionPending in H. mrun in H.
      destruct (pending wb) eqn:Hpb.
      * exfalso. inversion H; subst. simpl in Hend. congruence.
      * eapply conn_execute_bound_shape; [|exact Hpb|exact H|exact Hend].
        rewrite Hcb. exact Hc2.
    + eapply conn_execute_bound_shape; eassumption.
  - intros q v w' H. apply js_invoke_returned in H as (w1 & H & Hend).
    unfold MimerStmtWrapper_Execute in H.
    apply bind_Some in H as (s & w0 & Hg & H).
    unfold get_stmt in Hg.
    destruct (statements w !! q) as [s0|] eqn:Hs; [|discriminate].
    inversion Hg; subst s0 w0. clear Hg.
    destruct (closed_ s).
    { exfalso. apply bind_Some in H as ([] & w3 & Hth & H).
      inversion H; subst. exact (Throw_pending _ _ _ Hth Hend). }
    destruct (array_argument (info !! 0%nat)) as [params|].
    + apply bind_Some in H as (u & wb & Hb & H).
      unfold IsExceptionPending in H. mrun in H.
      destruct (pending wb) eqn:Hpb.
      * exfalso. inversion H; subst. congruence.
      * eapply stmt_execute_bound_shape; eassumption.
    + eapply stmt_execute_bound_shape; eassumption.
Qed.

End ExecuteResults.

Lemma execute_result_shape_witness :
  exists v w',
    js_invoke (MimerConnection_Execute (api := sample_api) engine_two_rows 5
                 sample_ToString 1 [JsString "SELECT id, name FROM t"])
      sample_world = Some (Returned v, w') /\
    execute_result (api := sample_api) v.
Proof.
  eexists _, _. split; [vm_compute; reflexivity|].
  eapply (proj1 (execute_result_shape (api := sample_api) engine_two_rows 5
                   sample_ToString sample_world
                   [JsString "SELECT id, name FROM t"] eq_refl) 1%positive).
  vm_compute. reflexivity.
Defined.

(** Two rows of two columns, as [execute] returns them. *)
Example Execute_select_sample :
  fst <$> js_invoke (MimerConnection_Execute (api := sample_api)
                       engine_two_rows 5 sample_ToString 1
                       [JsString "SELECT id, name FROM t"]) sample_world
  = Some (Returned (JsObject
      [ ("fields",
         JsArray
           [ JsObject [ ("name", JsString "id");
                        ("dataTypeCode", JsNumber (S754_finite false 6 0));
                        ("dataTypeName", JsString "INTEGER");
                        ("nullable", JsBoolean false) ];
             JsObject [ ("name", JsString "name");
                        ("dataTypeCode", JsNumber (S754_finite true 11 0));
                        ("dataTypeName", JsString "CHARACTER VARYING");
                        ("nullable", JsBoolean true) ] ]);
        ("rows",
         JsArray
           [ JsObject [ ("id", JsNumber (S754_finite false 1 0));
                        ("name", JsString "abc") ];
             JsObject [ ("id", JsNumber (S754_finite false 2 0));
                        ("name", JsString "abc") ] ]);
        ("rowCount", JsNumber (S754_finite false 2 0)) ])).
Proof. vm_compute. reflexivity. Qed.

(** ** A prepared statement can be executed again *)

Lemma reusable_step_refl w : reusable_step w w.
Proof. split; [apply same_objects_refl | apply trace_extends_refl]. Qed.

Lemma reusable_step_trans w1 w2 w3 :
  reusable_step w1 w2 -> reusable_step w2 w3 -> reusable_step w1 w3.
Proof.
  intros [A1 A2] [B1 B2]. split.
  - eapply same_objects_trans; eassumption.
  - eapply trace_extends_trans; eassumption.
Qed.

Lemma reusable_step_call w c r :
  is_end_call c = false ->
  reusable_step w (set_trace (trace w ++ [(c, r)]) w).
Proof.
  intros Hc. split; [repeat split|].
  exists [(c, r)]. split; [reflexivity|].
  constructor; [simpl; rewrite Hc; reflexivity | constructor].
Qed.

Lemma reusable_step_pending w p : reusable_step w (set_pending p w).
Proof.
  split; [repeat split|]. exists []. split; [|constructor].
  simpl. symmetry. apply app_nil_r.
Qed.

Ltac rel_side ::=
  first [ assumption
        | exact helper_step_refl | exact helper_step_trans
        | exact (rs_mono_refl _) | exact (rs_mono_trans _)
        | exact same_objects_refl | exact same_objects_trans
        | exact reusable_step_refl | exact reusable_step_trans ].

Section Reusable.

Context {api : MimerApi}.
Variable eng : Engine.
Variable fuel : nat.
Variable ToString : JsValue -> string.

Lemma reusable_release_call w c r :
  is_release_call c = false ->
  reusable_step w (set_trace (trace w ++ [(c, r)]) w).
Proof.
  intros Hc. apply reusable_step_call. destruct c; try reflexivity;
    discriminate Hc.
Qed.

Lemma reusable_engine_call c :
  is_end_call c = false -> stable reusable_step (engine_call eng c).
Proof. intros Hc w r w' H. inversion H. apply reusable_step_call, Hc. Qed.

Lemma reusable_Throw e : stable reusable_step (ThrowAsJavaScriptException e).
Proof.
  intros w a w' H. unfold ThrowAsJavaScriptException, modify_world in H.
  inversion H. destruct (pending w);
    [apply reusable_step_refl | apply reusable_step_pending].
Qed.

Lemma reusable_stmt_execute_bound s :
  stable reusable_step (stmt_execute_bound eng fuel s).
Proof.
  assert (Hcall : forall c,
            is_end_call c = false ->
            stable reusable_step (r ← engine_call eng c; mret (rc r))).
  { intros c Hc. apply stable_bind; [rel_side | |intros ?].
    - apply reusable_engine_call, Hc.
    - apply stable_ret. rel_side. }
  unfold stmt_execute_bound.
  destruct (0 <? columnCount_ s).
  - apply stable_bind; [rel_side | | intros fields].
    { apply stable_BuildFieldsArray;
        [rel_side | rel_side | exact reusable_release_call]. }
    apply stable_bind; [rel_side | apply Hcall; reflexivity | intros rc1].
    destruct (rc1 <? 0).
    + apply stable_bind; [rel_side | apply reusable_Throw | intros ?].
      apply stable_ret. rel_side.
    + apply stable_bind; [rel_side | | intros rows].
      { apply stable_FetchResults;
          [rel_side | rel_side | exact reusable_release_call]. }
      apply stable_bind; [rel_side | apply Hcall; reflexivity | intros ?].
      apply stable_ret. rel_side.
  - apply stable_bind; [rel_side | apply Hcall; reflexivity | intros rc1].
    destruct (rc1 <? 0).
    + apply stable_bind; [rel_side | apply reusable_Throw | intros ?].
      apply stable_ret. rel_side.
    + apply stable_ret. rel_side.
Qed.

Lemma reusable_Stmt_Execute q info :
  stable reusable_step (MimerStmtWrapper_Execute eng fuel ToString q info).
Proof.
  unfold MimerStmtWrapper_Execute.
  apply stable_bind; [rel_side | | intros s].
  { intros w a w' H. unfold get_stmt in H.
    destruct (statements w !! q); inversion H. apply reusable_step_refl. }
  destruct (closed_ s).
  { apply stable_bind; [rel_side | apply reusable_Throw | intros ?].
    apply stable_ret. rel_side. }
  destruct (array_argument (info !! 0%nat)).
  - apply stable_bind; [rel_side | | intros ?].
    { apply stable_BindParameters;
        [rel_side | rel_side | exact reusable_release_call
        | exact reusable_step_pending]. }
    apply stable_bind; [rel_side | | intros failed].
    { intros w0 b w0' H0. inversion H0. apply reusable_step_refl. }
    destruct failed; [apply stable_ret; rel_side|].
    apply reusable_stmt_execute_bound.
  - apply reusable_stmt_execute_bound.
Qed.

(** When [Execute] of a statement with result columns returns without a
    pending exception, its last call closed the cursor. *)
Lemma stmt_execute_bound_closes s w v w1 :
  0 < columnCount_ s ->
  stmt_execute_bound eng fuel s w = Some (v, w1) ->
  pending w1 = None ->
  exists tr rp, trace w1 = tr ++ [(CallCloseCursor (stmt_ s), rp)].
Proof.
  intros Hpos H Hend. unfold stmt_execute_bound in H.
  apply Z.ltb_lt in Hpos. rewrite Hpos in H.
  apply bind_Some in H as (fields & w3 & Hf & H).
  apply bind_Some in H as (rc1 & w4 & Ho & H).
  destruct (rc1 <? 0).
  - exfalso. apply bind_Some in H as ([] & w5 & Hth & H).
    inversion H; subst. exact (Throw_pending _ _ _ Hth Hend).
  - apply bind_Some in H as (rows & w5 & Hr & H).
    apply bind_Some in H as (x & w6 & He & H).
    unfold MimerCloseCursor, engine_call in He. mrun in He.
    inversion He; subst. inversion H; subst. simpl. eauto.
Qed.

(** X15. [execute] of a prepared statement changes no object and never
    ends the statement or the session, whatever the outcome: the
    statement stays open and can be executed again. When the statement has
    result columns and [execute] returns without throwing, the cursor it
    opened has been closed again by its last call to the engine. *)
Theorem Stmt_Execute_reusable (q : positive) (info : list JsValue)
    (w : World) (s : MimerStmtWrapper) (v : JsValue) (w' : World) :
  statements w !! q = Some s ->
  MimerStmtWrapper_Execute eng fuel ToString q info w = Some (v, w') ->
  statements w' !! q = Some s /\
  reusable_step w w' /\
  (closed_ s = false -> 0 < columnCount_ s -> pending w' = None ->
   exists tr rp, trace w' = tr ++ [(CallCloseCursor (stmt_ s), rp)]).
Proof.
  intros Hs H.
  pose proof (reusable_Stmt_Execute q info w v w' H) as Hstep.
  split; [|split; [exact Hstep|]].
  { destruct Hstep as [(_ & E & _) _]. rewrite E. exact Hs. }
  intros Hopen Hpos Hend.
  unfold MimerStmtWrapper_Execute, get_stmt in H.
  rewrite bind_run, Hs in H. cbv beta iota in H. rewrite Hopen in H.
  destruct (array_argument (info !! 0%nat)) as [params|].
  - apply bind_Some in H as (u & wb & Hb & H).
    unfold IsExceptionPending in H. mrun in H.
    destruct (pending wb) eqn:Hpb.
    + exfalso. inversion H; subst. congruence.
    + eapply stmt_execute_bound_closes; eassumption.
  - eapply stmt_execute_bound_closes; eassumption.
Qed.

End Reusable.

Lemma Stmt_Execute_reusable_witness :
  exists v w',
    MimerStmtWrapper_Execute (api := sample_api) engine_ok 3 sample_ToString
      1 [] sample_world = Some (v, w') /\
    statements w' !! 1%positive = Some sample_stmt /\
    reusable_step sample_world w'.
Proof.
  eexists _, _. split; [vm_compute; reflexivity|].
  destruct (Stmt_Execute_reusable (api := sample_api) engine_ok 3
              sample_ToString 1 [] sample_world sample_stmt _ _ eq_refl
              eq_refl) as (Hs & Hstep & _).
  split; [exact Hs | exact Hstep].
Defined.
(** ** What the row reader calls *)

Ltac rel_side ::=
  first [ assumption
        | exact helper_step_refl | exact helper_step_trans
        | exact (rs_mono_refl _) | exact (rs_mono_trans _)
        | exact same_objects_refl | exact same_objects_trans
        | exact reusable_step_refl | exact reusable_step_trans
        | exact (trace_extends_refl _) | exact (trace_extends_trans _) ].

Section GetterCalls.

Context {api : MimerApi}.
Variable eng : Engine.
Variable fuel : nat.

Lemma reads_call c :
  is_getter_call c = true ->
  stable (trace_extends is_getter_call) (engine_call eng c).
Proof.
  intros Hc w r w' H. inversion H. subst. exists [(c, eng (trace w) c)].
  split; [reflexivity|]. constructor; [exact Hc | constructor].
Qed.

Ltac reads_wrapper :=
  intros; apply stable_bind;
  [ rel_side | apply reads_call; reflexivity
  | intros ?; apply stable_ret; rel_side ].

Lemma reads_MimerIsNull s c :
  stable (trace_extends is_getter_call) (MimerIsNull eng s c).
Proof. reads_wrapper. Qed.
Lemma reads_MimerGetInt32 s c :
  stable (trace_extends is_getter_call) (MimerGetInt32 eng s c).
Proof. reads_wrapper. Qed.
Lemma reads_MimerGetInt64 s c :
  stable (trace_extends is_getter_call) (MimerGetInt64 eng s c).
Proof. reads_wrapper. Qed.
Lemma reads_MimerGetDouble s c :
  stable (trace_extends is_getter_call) (MimerGetDouble eng s c).
Proof. reads_wrapper. Qed.
Lemma reads_MimerGetFloat s c :
  stable (trace_extends is_getter_call) (MimerGetFloat eng s c).
Proof. reads_wrapper. Qed.
Lemma reads_MimerGetBoolean s c :
  stable (trace_extends is_getter_call) (MimerGetBoolean eng s c).
Proof. reads_wrapper. Qed.
Lemma reads_MimerGetLob s c :
  stable (trace_extends is_getter_call) (MimerGetLob eng s c).
Proof. reads_wrapper. Qed.
Lemma reads_MimerGetBlobData l n :
  stable (trace_extends is_getter_call) (MimerGetBlobData eng l n).
Proof. reads_wrapper. Qed.
Lemma reads_MimerGetNclobData8 l n :
  stable (trace_extends is_getter_call) (MimerGetNclobData8 eng l n).
Proof. reads_wrapper. Qed.
Lemma reads_MimerGetBinary s c n :
  stable (trace_extends is_getter_call) (MimerGetBinary eng s c n).
Proof. reads_wrapper. Qed.
Lemma reads_MimerGetString8 s c n :
  stable (trace_extends is_getter_call) (MimerGetString8 eng s c n).
Proof. reads_wrapper. Qed.

Local Hint Resolve reads_MimerIsNull reads_MimerGetInt32 reads_MimerGetInt64
  reads_MimerGetDouble reads_MimerGetFloat reads_MimerGetBoolean
  reads_MimerGetLob reads_MimerGetBlobData reads_MimerGetNclobData8
  reads_MimerGetBinary reads_MimerGetString8 : stable.

Lemma reads_blob_read_loop n lob : forall remaining buf rc0,
  stable (trace_extends is_getter_call)
    (blob_read_loop eng n lob remaining buf rc0).
Proof.
  induction n as [|n IH]; intros remaining buf rc0; simpl; stable_auto.
Qed.

Lemma reads_nclob_read_loop n lob : forall result,
  stable (trace_extends is_getter_call) (nclob_read_loop eng n lob result).
Proof. induction n as [|n IH]; intros result; simpl; stable_auto. Qed.

Local Hint Resolve reads_blob_read_loop reads_nclob_read_loop : stable.

Lemma reads_fetch_column stmt col name ty row :
  stable (trace_extends is_getter_call)
    (fetch_column eng fuel stmt col name ty row).
Proof. unfold fetch_column. stable_auto. Qed.

Lemma reads_fetch_columns stmt names types cols : forall row,
  stable (trace_extends is_getter_call)
    (fetch_columns eng fuel stmt names types cols row).
Proof.
  induction cols as [|col cols IH]; intros row; simpl.
  - apply stable_ret. rel_side.
  - destruct (names !! Z.to_nat (col - 1)); [|apply stable_no_result].
    destruct (types !! Z.to_nat (col - 1)); [|apply stable_no_result].
    apply stable_bind; [rel_side | apply reads_fetch_column | intros ?].
    apply IH.
Qed.

Lemma reads_FetchSingleRow stmt n names types :
  stable (trace_extends is_getter_call)
    (FetchSingleRow eng fuel stmt n names types).
Proof.
  unfold FetchSingleRow.
  apply stable_bind; [rel_side | apply reads_fetch_columns | intros ?].
  apply stable_ret. rel_side.
Qed.

(** *** The property names of a row *)

Lemma keys_obj_set key v row x :
  x ∈ keys (obj_set key v row) -> x = key \/ x ∈ keys row.
Proof.
  unfold keys. induction row as [|[k y] rest IH]; simpl.
  - intros H. apply list_elem_of_singleton in H. auto.
  - destruct (String.eqb k key) eqn:E; simpl.
    + auto.
    + intros H. apply elem_of_cons in H as [->|H].
      * right. apply elem_of_cons. auto.
      * destruct (IH H) as [->|Hin]; [auto|].
        right. apply elem_of_cons. auto.
Qed.

Lemma NoDup_keys_obj_set key v row :
  NoDup (keys row) -> NoDup (keys (obj_set key v row)).
Proof.
  unfold keys. induction row as [|[k y] rest IH]; simpl; intros Hnd.
  - apply NoDup_singleton.
  - destruct (String.eqb k key) eqn:E; simpl; [exact Hnd|].
    apply NoDup_cons in Hnd as [Hk Hrest].
    apply NoDup_cons. split; [|apply IH, Hrest].
    intros Hin. apply keys_obj_set in Hin as [->|Hin]; [|contradiction].
    rewrite String.eqb_refl in E. discriminate.
Qed.

(** A column adds at most its own name to the row. *)
Lemma fetch_column_row stmt col name ty row w row' w' :
  fetch_column eng fuel stmt col name ty row w = Some (row', w') ->
  row' = row \/ exists x, row' = obj_set name x row.
Proof.
  intros H. unfold fetch_column in H.
  repeat first
    [ match type of H with
      | (mret _) _ = Some _ => inversion H; clear H; subst
      | (_ ≫= _) _ = Some _ => apply bind_Some in H as (? & ? & _ & H)
      | (let '(_, _) := ?x in _) _ = Some _ => destruct x
      | (if ?b then _ else _) _ = Some _ => destruct b
      | Some _ = Some _ => inversion H; clear H; subst
      end ];
    try solve [left; reflexivity | right; eexists; reflexivity];
    repeat match goal with
           | |- context [if ?b then _ else _] => destruct b
           end;
    solve [left; reflexivity | right; eexists; reflexivity].
Qed.

Lemma fetch_columns_keys stmt names types cols : forall row w row' w',
  fetch_columns eng fuel stmt names types cols row w = Some (row', w') ->
  NoDup (keys row) -> (forall k, k ∈ keys row -> k ∈ names) ->
  NoDup (keys row') /\ (forall k, k ∈ keys row' -> k ∈ names).
Proof.
  induction cols as [|col cols IH]; intros row w row' w' H Hnd Hin.
  - inversion H; subst. auto.
  - simpl in H.
    destruct (names !! Z.to_nat (col - 1)) as [name|] eqn:Hn;
      [|discriminate].
    destruct (types !! Z.to_nat (col - 1)) as [ty|]; [|discriminate].
    apply bind_Some in H as (row1 & w1 & Hcol & H).
    apply fetch_column_row in Hcol.
    eapply IH; [exact H | |].
    + destruct Hcol as [->|(x & ->)]; [exact Hnd|].
      apply NoDup_keys_obj_set, Hnd.
    + intros k Hk. destruct Hcol as [->|(x & ->)]; [auto|].
      apply keys_obj_set in Hk as [->|Hk]; [|auto].
      eapply list_elem_of_lookup_2. exact Hn.
Qed.

(** X16. [FetchSingleRow] only reads the current row: every call it makes
    is the NULL test or a getter, so it neither moves the cursor nor
    binds or releases anything. What it returns is an object whose
    property names are cached column names, each at most once. *)
Theorem FetchSingleRow_reads_only (stmt n : Z) (names : list string)
    (types : list Z) (w : World) (v : JsValue) (w' : World) :
  FetchSingleRow eng fuel stmt n names types w = Some (v, w') ->
  trace_extends is_getter_call w w' /\
  exists row,
    v = JsObject row /\
    NoDup (keys row) /\
    forall k, k ∈ keys row -> k ∈ names.
Proof.
  intros H. split; [exact (reads_FetchSingleRow _ _ _ _ _ _ _ H)|].
  unfold FetchSingleRow in H. apply bind_Some in H as (row & w1 & Hc & H).
  inversion H; subst. exists row. split; [reflexivity|].
  eapply fetch_columns_keys; [exact Hc | apply NoDup_nil_2 |].
  intros k Hk. apply elem_of_nil in Hk. contradiction.
Qed.

End GetterCalls.

Lemma FetchSingleRow_reads_only_witness :
  exists v w',
    FetchSingleRow (api := sample_api) engine_two_rows 3 7 2 ["id"; "name"]
      [6; -11] sample_world = Some (v, w') /\
    trace_extends is_getter_call sample_world w'.
Proof.
  eexists _, _. split; [vm_compute; reflexivity|].
  refine (proj1 (FetchSingleRow_reads_only (api := sample_api)
                   engine_two_rows 3 7 2 ["id"; "name"] [6; -11]
                   sample_world _ _ _)).
  vm_compute. reflexivity.
Defined.

(** ** One row per fetch *)

Lemma count_calls_app P tr1 tr2 :
  count_calls P (tr1 ++ tr2) = (count_calls P tr1 + count_calls P tr2)%nat.
Proof. unfold count_calls. rewrite List.filter_app, length_app. reflexivity. Qed.

Section FetchReturns.

Context {api : MimerApi}.
Variable eng : Engine.
Variable fuel : nat.
Variable stmt : Z.
Variable limit : nat.
Hypothesis reads_end : character_data_ends eng limit.
Hypothesis fetches_end : rows_end eng stmt limit.
Hypothesis enough_fuel : (limit < fuel)%nat.

Local Hint Resolve returns_engine_call : returns.

Lemma count_calls_snoc P tr c r :
  count_calls P (tr ++ [(c, r)])
  = (count_calls P tr + if P c then 1 else 0)%nat.
Proof.
  unfold count_calls. rewrite List.filter_app, length_app. simpl.
  destruct (P c); reflexivity.
Qed.

(** The character read loop ends once the engine reports no more data. *)
Lemma nclob_read_loop_returns lob : forall k result w,
  (1 <= k)%nat ->
  (limit < k + count_calls is_nclob_read (trace w))%nat ->
  exists a w', nclob_read_loop eng k lob result w = Some (a, w').
Proof.
  induction k as [|k IH]; intros result w Hk Hlim; [lia|].
  simpl. unfold MimerGetNclobData8, engine_call. mrun.
  set (r := eng (trace w) (CallGetNclobData8 lob (LOB_READ_CHUNK + 1))).
  destruct (rc r <? 0); [eexists _, _; reflexivity|].
  destruct (0 <? rc r) eqn:Hpos; [|eexists _, _; reflexivity].
  apply Z.ltb_lt in Hpos.
  assert (Hcount : (count_calls is_nclob_read (trace w) < limit)%nat).
  { destruct (Nat.lt_ge_cases (count_calls is_nclob_read (trace w)) limit)
      as [|Hge]; [assumption|].
    pose proof (reads_end (trace w) lob (LOB_READ_CHUNK + 1) Hge).
    fold r in H. lia. }
  apply IH; [lia|].
  cbn [trace set_trace]. rewrite count_calls_snoc. simpl. lia.
Qed.

Lemma returns_nclob_read_loop lob result :
  returns (nclob_read_loop eng fuel lob result).
Proof. intros w. apply nclob_read_loop_returns; lia. Qed.

Local Hint Resolve returns_nclob_read_loop : returns.

Lemma blob_read_budget (lobSize : Z) :
  lobSize
  <= Z.of_nat (Z.to_nat (lobSize / LOB_READ_CHUNK) + 1) * LOB_READ_CHUNK.
Proof.
  unfold LOB_READ_CHUNK.
  pose proof (Z.div_mod lobSize 65536 ltac:(lia)) as Hdm.
  pose proof (Z.mod_pos_bound lobSize 65536 ltac:(lia)) as Hm.
  destruct (Z_lt_le_dec lobSize 0) as [Hneg|Hpos]; [lia|].
  pose proof (Z.div_pos lobSize 65536 Hpos ltac:(lia)) as Hq.
  lia.
Qed.

Lemma returns_fetch_column col name ty row :
  returns (fetch_column eng fuel stmt col name ty row).
Proof.
  unfold fetch_column, MimerIsNull, MimerGetInt32, MimerGetInt64,
    MimerGetDouble, MimerGetFloat, MimerGetBoolean, MimerGetLob,
    MimerGetBinary, MimerGetString8.
  returns_auto.
  apply returns_blob_read_loop, blob_read_budget.
Qed.

Local Hint Resolve returns_fetch_column : returns.

Lemma returns_fetch_columns names types cols : forall row,
  Forall (fun col => is_Some (names !! Z.to_nat (col - 1)) /\
                     is_Some (types !! Z.to_nat (col - 1))) cols ->
  returns (fetch_columns eng fuel stmt names types cols row).
Proof.
  induction cols as [|col cols IH]; intros row Hcols; simpl;
    [apply returns_ret|].
  inversion Hcols as [|? ? [[name Hn] [ty Ht]] Hrest]; subst.
  rewrite Hn, Ht. returns_auto.
Qed.

(** [FetchSingleRow] returns when a name and a type code are cached for
    every column. *)
Lemma returns_FetchSingleRow n names types :
  length names = Z.to_nat n -> length types = Z.to_nat n ->
  returns (FetchSingleRow eng fuel stmt n names types).
Proof.
  intros Hn Ht. unfold FetchSingleRow. returns_auto.
  apply returns_fetch_columns.
  apply Forall_forall. intros col Hcol.
  apply elem_of_seqZ in Hcol.
  split; apply lookup_lt_is_Some; lia.
Qed.

(** The fetch loop ends once the engine delivers no further row. *)
Lemma fetch_loop_returns n names types :
  length names = Z.to_nat n -> length types = Z.to_nat n ->
  forall k rows w,
    (1 <= k)%nat ->
    (limit < k + count_calls is_fetch (trace w))%nat ->
    exists a w', fetch_loop eng fuel k stmt n names types rows w
                 = Some (a, w').
Proof.
  intros Hn Ht. induction k as [|k IH]; intros rows w Hk Hlim; [lia|].
  simpl. unfold MimerFetch, engine_call. mrun.
  set (r := eng (trace w) (CallFetch stmt)).
  destruct (rc r =? MIMER_SUCCESS) eqn:Hrc; [|eexists _, _; reflexivity].
  apply Z.eqb_eq in Hrc.
  assert (Hcount : (count_calls is_fetch (trace w) < limit)%nat).
  { destruct (Nat.lt_ge_cases (count_calls is_fetch (trace w)) limit)
      as [|Hge]; [assumption|].
    pose proof (fetches_end (trace w) Hge) as Hne.
    fold r in Hne. contradiction. }
  set (w1 := set_trace (trace w ++ [(CallFetch stmt, r)]) w).
  destruct (returns_FetchSingleRow n names types Hn Ht w1)
    as (row & w2 & Hrow).
  rewrite Hrow.
  destruct (reads_FetchSingleRow _ _ _ _ _ _ _ _ _ Hrow) as (tr & Htr & _).
  apply IH; [lia|].
  rewrite Htr. subst w1. cbn [trace set_trace].
  rewrite count_calls_app, count_calls_snoc. simpl. lia.
Qed.

(** [FetchResults] returns on an engine whose data ends. *)
Lemma returns_FetchResults n : returns (FetchResults eng fuel stmt n).
Proof.
  intros w. unfold FetchResults.
  destruct (CacheColumnMetadata_run eng stmt n w)
    as (names & types & meta & Hmeta & Hn & Ht & _).
  rewrite bind_run, Hmeta. cbv beta iota.
  apply fetch_loop_returns; [exact Hn | exact Ht | lia | lia].
Qed.

End FetchReturns.

Section FetchLoop.

Context {api : MimerApi}.
Variable eng : Engine.
Variable fuel : nat.

Lemma count_fetch_getters tr :
  Forall (fun ev => is_getter_call ev.1 = true) tr ->
  count_calls is_fetch tr = 0%nat.
Proof.
  unfold count_calls. induction 1 as [|ev tr Hev _ IH]; [reflexivity|].
  simpl. destruct ev as [c r]. simpl in *.
  destruct c; try discriminate Hev; simpl; exact IH.
Qed.

Lemma fetch_succeeded_getters stmt tr :
  Forall (fun ev => is_getter_call ev.1 = true) tr ->
  Forall (fetch_succeeded stmt) tr.
Proof.
  intros H. eapply Forall_impl; [exact H|].
  intros [c r] Hg Hf. simpl in *. destruct c; discriminate.
Qed.

(** The loop of [FetchResults]: every fetch but the last delivers a row,
    and the last one ends the loop. *)
Lemma fetch_loop_trace k stmt n names types : forall rows0 w rows w1,
  fetch_loop eng fuel k stmt n names types rows0 w = Some (rows, w1) ->
  exists tr r,
    trace w1 = trace w ++ tr ++ [(CallFetch stmt, r)] /\
    rc r <> MIMER_SUCCESS /\
    length rows = (length rows0 + count_calls is_fetch tr)%nat /\
    Forall (fetch_succeeded stmt) tr /\
    pending w1 = pending w.
Proof.
  induction k as [|k IH]; intros rows0 w rows w1 H; [discriminate|].
  simpl in H. apply bind_Some in H as (rc1 & w2 & Hf & H).
  unfold MimerFetch, engine_call in Hf. mrun in Hf.
  inversion Hf; subst rc1 w2. clear Hf.
  set (r := eng (trace w) (CallFetch stmt)) in *.
  destruct (rc r =? MIMER_SUCCESS) eqn:Hrc.
  - apply Z.eqb_eq in Hrc.
    apply bind_Some in H as (row & w3 & Hrow & H).
    destruct (reads_FetchSingleRow _ _ _ _ _ _ _ _ _ Hrow)
      as (tr_row & Htr & Hget).
    destruct (FetchSingleRow_quiet _ _ _ _ _ _ _ _ _ Hrow) as [Hp3 _].
    destruct (IH _ _ _ _ H) as (tr & r' & Ht & Hne & Hlen & Hok & Hp).
    exists ((CallFetch stmt, r) :: tr_row ++ tr), r'.
    split; [|split; [exact Hne|split; [|split]]].
    + rewrite Ht, Htr. simpl. rewrite <- !app_assoc. reflexivity.
    + rewrite Hlen, length_app. simpl.
      change ((CallFetch stmt, r) :: tr_row ++ tr)
        with ([(CallFetch stmt, r)] ++ tr_row ++ tr).
      rewrite !count_calls_app, (count_fetch_getters _ Hget).
      change (count_calls is_fetch [(CallFetch stmt, r)]) with 1%nat. lia.
    + constructor; [intros _; split; [reflexivity | exact Hrc]|].
      apply Forall_app. split; [|exact Hok].
      apply fetch_succeeded_getters, Hget.
    + rewrite Hp, Hp3. reflexivity.
  - apply Z.eqb_neq in Hrc. inversion H; subst.
    exists [], r. simpl. split; [reflexivity|].
    split; [exact Hrc|]. split; [unfold count_calls; simpl; lia|].
    split; [constructor | reflexivity].
Qed.

Lemma fetch_loop_first_fails k stmt n names types rows0 w :
  (1 <= k)%nat ->
  rc (eng (trace w) (CallFetch stmt)) <> MIMER_SUCCESS ->
  fetch_loop eng fuel k stmt n names types rows0 w
  = Some (rows0,
          set_trace (trace w
                     ++ [(CallFetch stmt, eng (trace w) (CallFetch stmt))])
            w).
Proof.
  intros Hk Hne. destruct k as [|k]; [lia|].
  simpl. unfold MimerFetch, engine_call. mrun.
  apply Z.eqb_neq in Hne. rewrite Hne. reflexivity.
Qed.

(** X17. On an engine whose data ends within the iteration budget,
    [FetchResults] returns. It first reads the names and type codes of
    the columns, then fetches: it returns one row for every [MimerFetch]
    that returned [MIMER_SUCCESS], and stops at the first one that
    returned anything else, the end of the data or an error alike,
    without raising anything. The number of rows is the number of fetches
    but the last. When the first fetch does not succeed, the result is
    the empty array. *)
Theorem FetchResults_one_row_per_fetch (stmt n : Z) (w : World)
    (limit : nat) :
  data_ends eng stmt limit ->
  (limit < fuel)%nat ->
  exists rows w' meta tr r,
    FetchResults eng fuel stmt n w = Some (rows, w') /\
    trace w' = trace w ++ meta ++ tr ++ [(CallFetch stmt, r)] /\
    map fst meta = metadata_calls stmt n /\
    rc r <> MIMER_SUCCESS /\
    count_calls is_fetch tr = length rows /\
    Forall (fetch_succeeded stmt) tr /\
    pending w' = pending w /\
    (rc (eng (trace w ++ meta) (CallFetch stmt)) <> MIMER_SUCCESS ->
     rows = []).
Proof.
  intros Hends Hfuel.
  destruct (returns_FetchResults eng fuel stmt limit (proj2 Hends)
              (proj1 Hends) Hfuel n w)
    as (rows & w' & Hrun).
  destruct (CacheColumnMetadata_run eng stmt n w)
    as (names & types & meta & Hmeta & _ & _ & Hcalls).
  pose proof Hrun as H. unfold FetchResults in H.
  rewrite bind_run, Hmeta in H. cbv beta iota in H.
  destruct (fetch_loop_trace _ _ _ _ _ _ _ _ _ H)
    as (tr & r & Ht & Hne & Hlen & Hok & Hp).
  exists rows, w', meta, tr, r. simpl in Ht, Hlen, Hp.
  split; [exact Hrun|].
  split; [rewrite Ht, <- app_assoc; reflexivity|].
  split; [exact Hcalls|]. split; [exact Hne|].
  split; [symmetry; exact Hlen|]. split; [exact Hok|].
  split; [exact Hp|].
  intros Hfirst.
  rewrite fetch_loop_first_fails in H by (lia || exact Hfirst).
  inversion H. reflexivity.
Qed.

End FetchLoop.

Lemma engine_two_rows_data_ends stmt :
  data_ends (api := sample_api) engine_two_rows stmt 2.
Proof.
  split.
  - intros tr Hge. simpl.
    apply Nat.ltb_ge in Hge. rewrite Hge. discriminate.
  - intros tr lob n _. simpl. lia.
Qed.

(** Two rows come from three fetches. *)
Lemma FetchResults_one_row_per_fetch_witness :
  exists rows w' tr r,
    FetchResults (api := sample_api) engine_two_rows 5 7 2 sample_world
    = Some (rows, w') /\
    length rows = 2%nat /\
    count_calls is_fetch tr = length rows /\
    Forall (fetch_succeeded (api := sample_api) 7) tr /\
    rc r <> 0 /\
    count_calls is_fetch (trace w') = 3%nat.
Proof.
  destruct (FetchResults_one_row_per_fetch (api := sample_api)
              engine_two_rows 5 7 2 sample_world 2 (engine_two_rows_data_ends 7)
              ltac:(lia))
    as (rows & w' & meta & tr & r & Hrun & Ht & _ & Hne & Hlen & Hok & _).
  exists rows, w', tr, r. split; [exact Hrun|].
  assert (Hc : (fun x => (length x.1, count_calls is_fetch (trace x.2)))
                 <$> FetchResults (api := sample_api) engine_two_rows 5 7 2
                       sample_world = Some (2%nat, 3%nat))
    by (vm_compute; reflexivity).
  rewrite Hrun in Hc. simpl in Hc. injection Hc as H2 H3.
  split; [exact H2|]. split; [exact Hlen|]. split; [exact Hok|].
  split; [exact Hne | exact H3].
Defined.

(** The same run, computed. *)
Example FetchResults_sample :
  (fun r => (length r.1, count_calls is_fetch (trace r.2)))
    <$> FetchResults (api := sample_api) engine_two_rows 5 7 2 sample_world
  = Some (2%nat, 3%nat).
Proof. vm_compute. reflexivity. Qed.

(** ** The destructor of a connection *)

Section Destructor.

Context {api : MimerApi}.
Variable eng : Engine.

(** X18. The destructor of a connection, connected or not: every
    registered result set and statement is invalidated, which releases
    the open ones (cursor closed, statement ended) and leaves them closed
    without a parent; then the session is ended with [MimerEndSession]
    exactly when the connection is connected and holds a handle that is
    not null. The status of that call is ignored: nothing is raised, even
    when the engine reports an error. Afterwards the connection object is
    gone; the entities that were not registered with it and the other
    connections are as before. *)
Theorem Connection_destructor (this : positive) (w : World)
    (cn : MimerConnection) :
  connections w !! this = Some cn ->
  registered_live cn w ->
  exists w_mid tr w',
    invalidate_all eng this w = Some (tt, w_mid) /\
    trace w_mid = trace w ++ tr /\
    Forall (fun ev => is_close_cursor ev.1 || is_end_statement ev.1 = true)
      tr /\
    (forall q s, q ∈ openStatements_ cn -> statements w !! q = Some s ->
       stmt_open s = true -> ended_in tr (stmt_ s)) /\
    (forall q r, q ∈ openResultSets_ cn -> resultsets w !! q = Some r ->
       rs_open r = true ->
       cursor_closed_in tr (rs_stmt_ r) /\ ended_in tr (rs_stmt_ r)) /\
    (forall q, q ∈ openStatements_ cn -> stmt_closed_at w_mid q) /\
    (forall q, q ∈ openResultSets_ cn -> rs_closed_at w_mid q) /\
    (forall q, q ∉ openStatements_ cn ->
       statements w_mid !! q = statements w !! q) /\
    (forall q, q ∉ openResultSets_ cn ->
       resultsets w_mid !! q = resultsets w !! q) /\
    MimerConnection_delete eng this w = Some (tt, w') /\
    w' = mkWorld
           (trace w_mid ++
            if connected_ cn && negb (session_ cn =? MIMERNULLHANDLE)
            then [(CallEndSession (session_ cn),
                   eng (trace w_mid) (CallEndSession (session_ cn)))]
            else [])
           (pending w) (delete this (connections w))
           (statements w_mid) (resultsets w_mid).
Proof.
  intros Hc [Hss Hrs].
  destruct (invalidate_all_run eng this w cn Hc Hss Hrs)
    as (w_mid & tr & Hinv & Ht & Hp & Hcs & Hf & Hsc & Hrc & Hse & Hre).
  assert (Hmid : connections w_mid !! this
                 = Some (mkConnection (session_ cn) (connected_ cn) ∅ ∅)).
  { rewrite Hcs. apply lookup_insert_eq. }
  exists w_mid, tr. eexists.
  split; [exact Hinv|]. split; [exact Ht|]. split; [exact Hf|].
  split; [exact Hse|].
  split; [intros q r Hq Hr Ho;
          destruct (Hre q r Hq Hr Ho) as (rp1 & rp2 & H1 & H2);
          split; eexists; eassumption|].
  split; [exact Hsc|]. split; [exact Hrc|].
  destruct (invalidate_all_frame eng this w cn Hc Hss Hrs)
    as (w_mid' & Hinv' & _ & _ & Hso & _ & Hro & _).
  assert (w_mid' = w_mid) by congruence. subst w_mid'.
  split; [exact Hso|]. split; [exact Hro|].
  split; [exact (Conn_delete_run eng this w cn w_mid Hinv Hmid)|].
  rewrite Hp, Hcs, delete_insert_eq. reflexivity.
Qed.

End Destructor.

(** The sample connection is destroyed on an engine that fails to end the
    session: the cursor and the statement are released, the session is
    ended, and nothing is raised. *)
Lemma Connection_destructor_witness :
  exists w_mid w',
    MimerConnection_delete (api := sample_api) engine_end_session_fails 1
      sample_world = Some (tt, w') /\
    trace w' = trace w_mid ++ [(CallEndSession 5, reply_rc (-1))] /\
    pending w' = None /\
    connections w' = ∅ /\
    stmt_closed_at w_mid 1 /\ rs_closed_at w_mid 2.
Proof.
  destruct (Connection_destructor (api := sample_api)
              engine_end_session_fails 1 sample_world sample_conn eq_refl)
    as (w_mid & tr & w' & _ & _ & _ & _ & _ & Hsc & Hrc & _ & _ & Hdel & Hw).
  - split; intros q Hq; simpl in Hq; apply elem_of_singleton in Hq;
      subst q; eexists; reflexivity.
  - exists w_mid, w'. split; [exact Hdel|]. subst w'. simpl.
    split; [reflexivity|]. split; [reflexivity|].
    split; [apply delete_singleton_eq|].
    split; [apply Hsc | apply Hrc]; simpl; apply elem_of_singleton;
      reflexivity.
Defined.

(** ** One step of a cursor *)

Section FetchStep.

Context {api : MimerApi}.
Variable eng : Engine.
Variable fuel : nat.

(** X19. One [fetchNext()] on a cursor that is neither closed nor
    exhausted calls [MimerFetch] once. When the status is anything but
    [MIMER_SUCCESS], the end of the data or an error alike, it marks the
    cursor exhausted and returns [null]: nothing is thrown and nothing
    else is called. When the status is [MIMER_SUCCESS], on a cursor with
    one cached name and type code per column and an engine whose
    character data ends within the iteration budget, it returns a row
    object read with the NULL test and the getters only, whose property
    names are cached column names, each at most once; the cursor and
    every other object stay as they are. *)
Theorem FetchNext_step (p : positive) (w : World)
    (r : MimerResultSetWrapper) (limit : nat) :
  resultsets w !! p = Some r ->
  rs_closed_ r = false ->
  exhausted_ r = false ->
  pending w = None ->
  let fetch := CallFetch (rs_stmt_ r) in
  let rf := eng (trace w) fetch in
  let tr1 := trace w ++ [(fetch, rf)] in
  let next := js_invoke (MimerResultSetWrapper_FetchNext eng fuel p) w in
  (rc rf <> MIMER_SUCCESS ->
   next
   = Some (Returned JsNull,
           mkWorld tr1 None (connections w) (statements w)
             (<[p := mkResultSet (rs_stmt_ r) (rs_columnCount_ r)
                       (colNames_ r) (colTypes_ r) false true
                       (rs_parentConnection_ r)]> (resultsets w)))) /\
  (rc rf = MIMER_SUCCESS ->
   character_data_ends eng limit ->
   (limit < fuel)%nat ->
   length (colNames_ r) = Z.to_nat (rs_columnCount_ r) ->
   length (colTypes_ r) = Z.to_nat (rs_columnCount_ r) ->
   exists row tr,
     next
     = Some (Returned (JsObject row),
             mkWorld (tr1 ++ tr) None (connections w) (statements w)
               (resultsets w)) /\
     Forall (fun ev => is_getter_call ev.1 = true) tr /\
     NoDup (keys row) /\
     forall k, k ∈ keys row -> k ∈ colNames_ r).
Proof.
  intros Hr Hcl Hex Hp fetch rf tr1 next. subst next.
  assert (Hbody : MimerResultSetWrapper_FetchNext eng fuel p w
                  = (if rc rf =? MIMER_SUCCESS
                     then FetchSingleRow eng fuel (rs_stmt_ r)
                            (rs_columnCount_ r) (colNames_ r) (colTypes_ r)
                     else
                       put_rs p (mkResultSet (rs_stmt_ r) (rs_columnCount_ r)
                                   (colNames_ r) (colTypes_ r) (rs_closed_ r)
                                   true (rs_parentConnection_ r)) ;;
                       mret JsNull) (set_trace tr1 w)).
  { unfold MimerResultSetWrapper_FetchNext, get_rs.
    rewrite bind_run, Hr. cbv beta iota. rewrite Hcl, Hex. cbn [orb].
    unfold MimerFetch, engine_call. mrun. reflexivity. }
  split.
  - intros Hne. apply Z.eqb_neq in Hne. rewrite Hne in Hbody.
    erewrite js_invoke_run.
    2:{ rewrite Hbody. unfold put_rs. mrun. reflexivity. }
    simpl. rewrite Hp, Hcl. reflexivity.
  - intros Hok Hends Hfuel Hn Ht. apply Z.eqb_eq in Hok.
    rewrite Hok in Hbody.
    destruct (returns_FetchSingleRow eng fuel (rs_stmt_ r) limit Hends Hfuel
                (rs_columnCount_ r) (colNames_ r) (colTypes_ r) Hn Ht
                (set_trace tr1 w)) as (v & w1 & Hrow).
    rewrite Hrow in Hbody.
    destruct (reads_FetchSingleRow _ _ _ _ _ _ _ _ _ Hrow)
      as (tr & Htr & Hget).
    destruct (FetchSingleRow_quiet _ _ _ _ _ _ _ _ _ Hrow)
      as (Hp1 & Hc1 & Hs1 & Hr1).
    pose proof Hrow as Hcols. unfold FetchSingleRow in Hcols.
    apply bind_Some in Hcols as (row & w2 & Hcols & Hret).
    inversion Hret; subst v w2. clear Hret.
    destruct (fetch_columns_keys _ _ _ _ _ _ _ _ _ _ Hcols
                NoDup_nil_2) as [Hnd Hin].
    { intros k Hk. apply elem_of_nil in Hk. contradiction. }
    exists row, tr.
    split; [|split; [exact Hget | split; [exact Hnd | exact Hin]]].
    clear Hcols Hrow.
    destruct w1 as [t1 p1 c1 s1 r1].
    cbn [trace pending connections statements resultsets set_trace]
      in Htr, Hp1, Hc1, Hs1, Hr1.
    subst t1 p1 c1 s1 r1.
    rewrite (js_invoke_run _ _ _ _ Hbody). simpl. rewrite Hp. reflexivity.
Qed.

End FetchStep.

(** The first row of the sample cursor. *)
Lemma FetchNext_step_witness :
  exists row tr,
    js_invoke (MimerResultSetWrapper_FetchNext (api := sample_api)
                 engine_two_rows 3 2) sample_world
    = Some (Returned (JsObject row),
            mkWorld ((CallFetch 8, reply_rc 0) :: tr) None
              (connections sample_world) (statements sample_world)
              (resultsets sample_world)) /\
    Forall (fun ev => is_getter_call ev.1 = true) tr /\
    forall k, k ∈ keys row -> k ∈ ["id"].
Proof.
  destruct (FetchNext_step (api := sample_api) engine_two_rows 3 2
              sample_world sample_rs 2 eq_refl eq_refl eq_refl eq_refl)
    as [_ Hrow].
  destruct Hrow as (row & tr & Hrun & Hget & _ & Hin).
  - reflexivity.
  - apply (engine_two_rows_data_ends 8).
  - lia.
  - reflexivity.
  - reflexivity.
  - exists row, tr. split; [exact Hrun|]. split; [exact Hget | exact Hin].
Defined.

(** ** Statements without result columns *)

Section ExecuteDml.

Context {api : MimerApi}.
Variable eng : Engine.
Variable fuel : nat.
Variable ToString : JsValue -> string.

(** [execute], from the prepared statement on: the parameters are bound;
    when that raised an error the statement is ended. *)
Lemma Execute_bound this w cn sql more w_b :
  connections w !! this = Some cn ->
  connected_ cn = true ->
  pending w = None ->
  let begin := CallBeginStatement8 (session_ cn) sql MIMER_FORWARD_ONLY in
  let r0 := eng (trace w) begin in
  let tr1 := trace w ++ [(begin, r0)] in
  let h := out_handle r0 in
  rc r0 <> MIMER_STATEMENT_CANNOT_BE_PREPARED ->
  0 <= rc r0 ->
  bind_arguments eng fuel ToString h (more !! 0%nat) (set_trace tr1 w)
  = Some (tt, w_b) ->
  MimerConnection_Execute eng fuel ToString this (JsString sql :: more) w
  = match pending w_b with
    | Some _ => (MimerEndStatement eng h ;; mret JsUndefined) w_b
    | None => conn_execute_bound eng fuel this h w_b
    end.
Proof.
  intros Hc Hconn Hp begin r0 tr1 h Hne Hge Hbind.
  unfold MimerConnection_Execute, get_conn.
  rewrite bind_run, Hc. cbv beta iota. rewrite Hconn. cbn [negb lookup].
  unfold MimerBeginStatement8, engine_call. mrun.
  fold begin. fold r0. fold tr1. fold h.
  apply Z.eqb_neq in Hne. rewrite Hne.
  apply Z.ltb_ge in Hge. rewrite Hge.
  unfold bind_arguments in Hbind. unfold MimerEndStatement, engine_call.
  mrun.
  destruct (array_argument (more !! 0%nat)) as [params|].
  - rewrite Hbind. destruct (pending w_b); reflexivity.
  - inversion Hbind; subst w_b. simpl. rewrite Hp. reflexivity.
Qed.

(** [conn_execute_bound] on a statement without result columns. *)
Lemma conn_execute_bound_dml this h w cn :
  connections w !! this = Some cn ->
  pending w = None ->
  let r1 := eng (trace w) (CallColumnCount h) in
  let tr2 := trace w ++ [(CallColumnCount h, r1)] in
  let r2 := eng tr2 (CallExecute h) in
  let tr3 := tr2 ++ [(CallExecute h, r2)] in
  let tr4 := tr3 ++ error_trace eng tr3 (session_ cn) in
  let ended tr := tr ++ [(CallEndStatement h, eng tr (CallEndStatement h))] in
  rc r1 <= 0 ->
  conn_execute_bound eng fuel this h w
  = Some (if rc r2 <? 0
          then (JsUndefined,
                mkWorld (ended tr4)
                  (Some (checked_error eng tr3 (session_ cn) (rc r2)
                           "MimerExecute"))
                  (connections w) (statements w) (resultsets w))
          else (JsObject [("rowCount", JsNumber (double_of_int (rc r2)))],
                mkWorld (ended tr3) None (connections w) (statements w)
                  (resultsets w))).
Proof.
  intros Hc Hp r1 tr2 r2 tr3 tr4 ended Hle.
  unfold conn_execute_bound, MimerColumnCount, MimerExecute, engine_call.
  mrun. fold r1. fold tr2.
  assert (Hpos : (0 <? rc r1) = false) by (apply Z.ltb_ge; exact Hle).
  rewrite Hpos. cbn [trace set_trace]. fold r2. fold tr3.
  destruct (rc r2 <? 0) eqn:Hneg.
  - apply Z.ltb_lt in Hneg.
    rewrite (CheckError_run eng this (rc r2) "MimerExecute"
               (set_trace tr3 (set_trace tr2 w)) cn Hc Hneg Hp).
    unfold MimerEndStatement, engine_call. mrun. reflexivity.
  - unfold MimerEndStatement, engine_call. mrun.
    destruct w as [t0 p0 c0 s0 rs0]. simpl in Hp. subst p0. reflexivity.
Qed.

(** X20. [execute], with or without a parameter array, of a statement
    that is prepared and has no result columns (DML): the parameters, if
    any, are bound, which returns, changes no object and releases
    nothing; when binding raised an error the statement is ended and that
    error is thrown. Otherwise [MimerExecute] is called once: a status
    that is not negative is returned as [{rowCount: status}], a negative
    one throws the structured error of [CheckError] for "MimerExecute".
    In each case the statement is ended with [MimerEndStatement] as the
    last call, and no object is created or changed. *)
Theorem Execute_dml (this : positive) (w : World)
    (cn : MimerConnection) (sql : string) (more : list JsValue) :
  connections w !! this = Some cn ->
  connected_ cn = true ->
  pending w = None ->
  arguments_bindable fuel (more !! 0%nat) = true ->
  let begin := CallBeginStatement8 (session_ cn) sql MIMER_FORWARD_ONLY in
  let r0 := eng (trace w) begin in
  let tr1 := trace w ++ [(begin, r0)] in
  let h := out_handle r0 in
  let execute :=
    js_invoke (MimerConnection_Execute eng fuel ToString this
                 (JsString sql :: more)) w in
  let same tr :=
    mkWorld tr None (connections w) (statements w) (resultsets w) in
  let ended tr := tr ++ [(CallEndStatement h, eng tr (CallEndStatement h))] in
  rc r0 <> MIMER_STATEMENT_CANNOT_BE_PREPARED -> 0 <= rc r0 ->
  exists w_b,
    bind_arguments eng fuel ToString h (more !! 0%nat) (set_trace tr1 w)
    = Some (tt, w_b) /\
    helper_step (set_trace tr1 w) w_b /\
    (array_argument (more !! 0%nat) = None -> w_b = set_trace tr1 w) /\
    let r1 := eng (trace w_b) (CallColumnCount h) in
    let tr2 := trace w_b ++ [(CallColumnCount h, r1)] in
    let r2 := eng tr2 (CallExecute h) in
    let tr3 := tr2 ++ [(CallExecute h, r2)] in
    let tr4 := tr3 ++ error_trace eng tr3 (session_ cn) in
    (forall e, pending w_b = Some e ->
       execute = Some (Thrown e, same (ended (trace w_b)))) /\
    (pending w_b = None -> rc r1 <= 0 -> 0 <= rc r2 ->
     execute
     = Some (Returned
               (JsObject [("rowCount", JsNumber (double_of_int (rc r2)))]),
             same (ended tr3))) /\
    (pending w_b = None -> rc r1 <= 0 -> rc r2 < 0 ->
     execute
     = Some (Thrown (checked_error eng tr3 (session_ cn) (rc r2)
                       "MimerExecute"),
             same (ended tr4))).
Proof.
  intros Hc Hconn Hp Hargs begin r0 tr1 h execute same ended Hne Hge.
  subst execute.
  destruct (bind_arguments_run eng fuel ToString h (more !! 0%nat)
              (set_trace tr1 w) Hargs) as (w_b & Hbind & Hstep & Hnone).
  exists w_b. split; [exact Hbind|]. split; [exact Hstep|].
  split; [exact Hnone|].
  pose proof (Execute_bound this w cn sql more w_b Hc Hconn Hp Hne Hge
                Hbind) as Hrun.
  destruct Hstep as [(Hcs & Hss & Hrs) _].
  cbn [connections statements resultsets set_trace] in Hcs, Hss, Hrs.
  assert (Hcb : connections w_b !! this = Some cn)
    by (rewrite Hcs; exact Hc).
  clear Hbind Hnone.
  destruct w_b as [trb pb cb sb rb]. simpl in Hcs, Hss, Hrs, Hcb, Hrun.
  subst cb sb rb.
  cbv zeta. cbn [trace pending]. split; [|split].
  - intros e He. subst pb.
    erewrite js_invoke_run.
    2:{ rewrite Hrun. unfold MimerEndStatement, engine_call. mrun.
        reflexivity. }
    reflexivity.
  - intros Hpb Hle Hok. subst pb.
    pose proof (conn_execute_bound_dml this h
                  (mkWorld trb None (connections w) (statements w)
                     (resultsets w)) cn Hcb eq_refl Hle) as Hb.
    cbv zeta in Hb. cbn [trace] in Hb.
    apply Z.ltb_ge in Hok. rewrite Hok in Hb.
    erewrite js_invoke_run.
    2:{ rewrite Hrun. exact Hb. }
    reflexivity.
  - intros Hpb Hle Hneg. subst pb.
    pose proof (conn_execute_bound_dml this h
                  (mkWorld trb None (connections w) (statements w)
                     (resultsets w)) cn Hcb eq_refl Hle) as Hb.
    cbv zeta in Hb. cbn [trace] in Hb.
    apply Z.ltb_lt in Hneg. rewrite Hneg in Hb.
    erewrite js_invoke_run.
    2:{ rewrite Hrun. exact Hb. }
    reflexivity.
Qed.

End ExecuteDml.

(** An update with one parameter that changes three rows. *)
Lemma Execute_dml_witness :
  (fun r => (r.1, map fst (trace r.2)))
    <$> js_invoke (MimerConnection_Execute (api := sample_api)
                     engine_three_rows_changed 0 sample_ToString 1
                     [JsString "UPDATE t SET x = ?";
                      JsArray [JsNumber (S754_finite false 1 0)]])
          sample_world
  = Some (Returned (JsObject [("rowCount", JsNumber (S754_finite false 3 0))]),
          [ CallBeginStatement8 5 "UPDATE t SET x = ?" 0;
            CallParameterCount 7; CallSetInt32 7 1 1;
            CallColumnCount 7; CallExecute 7; CallEndStatement 7 ]).
Proof.
  destruct (Execute_dml (api := sample_api) engine_three_rows_changed 0
              sample_ToString 1 sample_world sample_conn
              "UPDATE t SET x = ?" [JsArray [JsNumber (S754_finite false 1 0)]]
              eq_refl eq_refl eq_refl eq_refl)
    as (w_b & Hbind & _ & _ & _ & Hok & _);
    [simpl; discriminate | simpl; lia |].
  vm_compute in Hbind. injection Hbind as <-.
  rewrite Hok; [reflexivity | reflexivity | simpl; lia | simpl; lia].
Defined.
